(* ===== verification/_CoqProject ===== *)
-Q . S2P
Prelude.v
Protocol.v
StaticArp.v
Fifo.v
CircularQueue.v
Spsc.v
N21Queue.v
Bitmap.v
CuckooHash.v
CuckooCorrect.v
CuckooMap.v
Configuration.v
ConfigurationCorrect.v
Coroutine.v
Runtime.v
RuntimeCorrect.v
Driver.v
DriverCorrect.v
MemPool.v
MemPoolCorrect.v
Qepoll.v
QepollCorrect.v
Mbuf.v
RecvBuff.v
SendBuff.v
Stack.v
StreamOps.v
Timer.v
TcpOptions.v
TcpOut.v
TcpIn.v
Api.v
AppCalls.v
RedisClient.v
IotServer.v
IotServerCorrect.v
Frames.v
Demo.v
Icmp.v
Sendv.v
Arp.v
StateMachine.v
Lifecycle.v
MainLoop.v
ChunkSupply.v
SocketPool.v
Startup.v
StartupCorrect.v
ClosePath.v
EchoServer.v
Retransmit.v
Output.v
AckPath.v
PendingEvents.v
