(* ===== verification/Prelude.v ===== *)
(** * A verification of the qstack user-level TCP stack

    qstack is a TCP/IP stack that runs in user space on top of DPDK.  Each stack
    thread owns a core and a receive queue of the network card; its main loop takes
    packets from the driver, runs TCP on them, raises events for the application
    and serves the application's calls.  Applications run on their own cores or
    share a core with a stack thread through coroutines; they wait for events and
    call a socket interface.  Threads talk to each other only through lock-free
    queues, flags, and pools of chunks and packet buffers.

    The development translates the C code into Rocq functions, function by function
    and under the names of the source, and proves what makes each part correct.
    Paths below are relative to [src/]; [qstack/src/include] holds the headers.

    ** Conventions

    C integers are [Z] with the wrap-around written out ([u8], [u16], [u32], [s32]);
    pointers are [Z] with [NULL = 0], and objects live in finite maps from
    addresses, so that aliasing is explicit.  A call returns [res A]: [Ok a], or
    [Fault f] for what C leaves undefined or what ends the program (null or wild
    access, access outside of an array, division by zero, assertion, [exit], and a
    loop that does not end within its bound).  [M S A] is the state and fault monad
    over a state [S].  Results of code outside of the repository (DPDK, the C
    library, the clock, the card) are arguments, supplies in the state, or
    operations of a type class ([RteHash], [RteMempool], [Dpdk], [Rss], [Config],
    [RedisServer]), whose documented behaviour is a second class of laws where a
    proof needs it; every such class has an instance here.  Tracing and statistics are left out.
    Compile-time switches have the values of [typical_macro.h], which
    [global_macro.h] includes before its defaults, and of [global_macro.h]; each
    file names the ones it depends on.

    Loops without a structural bound run on fuel that is enough by construction:
    the number of elements of the list or array they scan, or the batch limit of
    the source; running out of it is the fault [NoReturn], and the theorems that
    say that a call returns rule it out.  Where the C loop may really not end (the
    option parser, the allocation that waits for a buffer) the theorem says so for
    every amount of fuel.

    ** Files

    Foundations.
    - [Prelude]: machine integers, results and faults, the monad and its tactics
      ([step by]), arrays with bounds, the class [Keeps] of operations that leave a
      part of the state alone.
    - [Protocol]: [protocol.h] (sequence numbers, checksum, states).  [Bitmap]:
      [bitmap.h].  [StaticArp]: interfaces and the static table of [arp.c].

    Queues, tables and memory.
    - [Fifo]: the contract of a bounded queue, a type class.  [CircularQueue]:
      [tools/src/include/circular_queue.h], two storage modes that discharge it.
      [Spsc]: one producer and one consumer thread, interleaved at every access.
      [N21Queue]: [n21_queue.h] and [stream_queue.h].
    - [CuckooHash], [CuckooCorrect], [CuckooMap]: [qing_hash.c] and [.h].
    - [MemPool], [MemPoolCorrect]: the chunk allocator of [tools/mempool].
      [ChunkSupply]: it provides what the main loop assumes, when chunks are given
      back between the rounds.
    - [Mbuf]: [mbuf.h] and [mbuf_queue.h].  [RecvBuff], [SendBuff]:
      [tcp_recv_buff.c], [tcp_send_buff.c].

    TCP.
    - [Stack]: the state of a stack thread ([tcp_stream.h], [socket.h],
      [qstack.h], [hashtable.c]) as the record [world].  [StreamOps]: queues, timer
      lists, sockets and life cycle of streams.  [Timer]: the list walks of
      [timer.h].  [TcpOptions], [TcpOut], [TcpIn]: options, [tcp_out.c] with
      [ip_out.c] and [eth_out.c], [tcp_in.c].  [Api]: [api.c].  [AppCalls]: the
      application's requests as [core.c] serves them.  [Arp]: [arp.c].  [Icmp]:
      [icmp.c].
    - [Frames], [Lifecycle], [StateMachine]: what an operation leaves alone, the
      abstract machine of streams on timer lists, and the states of TCP.
    - [MainLoop]: [eth_in.h], [ip_in.h] and the loop of [core.c].  [SocketPool]:
      the socket table.  [AckPath], [Retransmit], [Output], [ClosePath]:
      acknowledgements, timeouts, sending, closing.  [Sendv]: [q_sendv].
    - [Demo]: a small connection, run through the model, that the witnesses use.

    Driver, events, threads, start.
    - [Driver], [DriverCorrect]: [dpdk_module.c] and [io_module.c].
    - [Qepoll], [QepollCorrect]: [qepoll.c] and [.h].  [PendingEvents]: the race of
      [tcp_in.c] and [qepoll.c] on the event of a socket that is being registered.
    - [Coroutine], [Runtime], [RuntimeCorrect]: [tools/qcoroutine], [runtime_mgt.c]
      and the thread functions of [core.c].
    - [Configuration], [ConfigurationCorrect]: [config.c].
    - [Startup], [StartupCorrect]: the initialisation in [core.c].

    Applications.
    - [RedisClient]: the database client of [apps/redis].  [IotServer],
      [IotServerCorrect]: [apps/iotepserver.c], the servers, the workers and the
      buffers between them.  [EchoServer]: [apps/echo_server.c].

    ** What is shown

    Data structures refine their specifications: circular queues a bounded FIFO,
    also between two threads ([CircularQueue], [Spsc]); n-to-1 queues lose
    nothing and serve every producer ([N21Queue]); the cuckoo hash, while its key
    records take at most 4 GiB, a bounded finite map ([CuckooMap]); buffer lists a
    sequence ([Mbuf]); the ARP table a map ([Arp]); the chunk allocator hands out a
    chunk once and loses none ([MemPoolCorrect]).

    TCP: the receive buffer delivers segments that arrive in sequence in order, and
    keeps early ones in sequence order ([RecvBuff]); an
    acknowledgement releases exactly what it covers ([SendBuff], [AckPath]); sent
    segments are consecutive and within the window ([Output]); a timeout backs off
    and restarts ([Retransmit]); closing half-closes and numbers the FIN
    ([ClosePath]); a packet moves a stream only along the TCP state machine
    ([StateMachine]); options round trip, and the parser returns unless an option
    of length zero makes it loop for ever ([TcpOptions]).

    Whole threads: from the start on ([StartupCorrect]), any rounds of the main
    loop over any frames and any calls of the application run the abstract machine
    of [Lifecycle], so no stream is on a list it is not marked for, none dangles in
    the flow table ([MainLoop]), and the socket table stays well-formed
    ([SocketPool]); the allocator supplies these rounds when chunks are given back
    between them ([ChunkSupply]).

    Between threads: the driver keeps order and loses nothing, and buffers return
    to their core ([DriverCorrect]); events are delivered once and in order
    ([QepollCorrect]); in the race with a registration an event is delivered, once
    or twice, if no other is pending ([PendingEvents]); the threads of a core take
    turns and the stack thread's own events always wake the application
    ([RuntimeCorrect]).

    Sending from several places sends their bytes in order ([Sendv]).  The text of a
    list of settings is read as these settings ([ConfigurationCorrect]).  ICMP and
    the applications: the answer built for an echo request is its mirror image with
    a checksum that verifies, of which the frame sent lacks the end ([Icmp]);
    requests forwarded since the worker's initialisation reach it intact and in
    order, a request goes to the first worker with room, a query waits for
    one update at most, and a request changes no value but its own
    ([IotServerCorrect], with [RedisClient]); the echo server answers with a changed
    copy and follows the peer's close through to LAST-ACK ([EchoServer]).

    A number of theorems state defects the translation showed: a freed stream that
    stays on the control queue, a close request that is lost when its queue is
    full, a gap in the receive buffer whose repair stores through a wrong pointer,
    an event of another core that does not wake the application, an application
    that returns, an option of length zero, an event that stays undelivered when
    another was pending, requests lost to a late initialisation.

    ** Not modelled

    Flow groups and migration (unfinished: functions without a body or a return);
    flow-director rules and the configuration of the card (constant arguments to
    DPDK); messages between threads and time stamps of requests (compiled out),
    logs, clocks and statistics; of the applications the command line, the creation
    of threads and the functions for redis clusters, which have no caller; inline
    assembly (the checksum of the IP header, the register swap of coroutines, which
    is modelled by its effect); the loop-back test mode of the driver, which is
    compiled out; the creation of operating-system threads and their placement.
    Memory models weaker than sequential consistency are not considered. *)
From stdpp Require Export base tactics numbers list option gmap.

(** * Machine integers

    A [w]-bit unsigned C integer is a [Z] in [0, 2^w); every arithmetic
    result that C stores in such an object is reduced with [u8], [u16], [u32]
    or [u64].  [s32] is the conversion of a 32-bit pattern to [int32_t]. *)
Declare Scope c_scope.
Delimit Scope c_scope with c.
#[local] Open Scope Z_scope.

Definition u8 (z : Z) : Z := z `mod` 2 ^ 8.
Definition u16 (z : Z) : Z := z `mod` 2 ^ 16.
Definition u32 (z : Z) : Z := z `mod` 2 ^ 32.
Definition u64 (z : Z) : Z := z `mod` 2 ^ 64.
Definition s32 (z : Z) : Z :=
  let r := u32 z in if decide (r < 2 ^ 31) then r else r - 2 ^ 32.

Notation "a +32 b" := (u32 (a + b)) (at level 50, left associativity) : c_scope.
Notation "a -32 b" := (u32 (a - b)) (at level 50, left associativity) : c_scope.

(** Being a value of an unsigned type. *)
Definition is_u32 (z : Z) : Prop := 0 <= z < 2 ^ 32.
Definition is_u16 (z : Z) : Prop := 0 <= z < 2 ^ 16.
Definition is_u8 (z : Z) : Prop := 0 <= z < 2 ^ 8.

(** C truth values and [bool] fields. *)
Definition cbool (b : bool) : Z := if b then 1 else 0.

Ltac unfold_ints :=
  unfold s32, u64, u32, u16, u8, is_u32, is_u16, is_u8 in *.

(** Linear arithmetic over reductions modulo a literal power of two. *)
Ltac mlia := unfold_ints; Z.div_mod_to_equations; lia.

Lemma u32_range z : 0 <= u32 z < 2 ^ 32.
Proof. apply Z.mod_pos_bound; lia. Qed.

Lemma u32_id z : is_u32 z -> u32 z = z.
Proof. apply Z.mod_small. Qed.

Lemma u32_idemp z : u32 (u32 z) = u32 z.
Proof. apply Z.mod_mod; lia. Qed.

Lemma u32_add_l a b : u32 (u32 a + b) = u32 (a + b).
Proof. apply Z.add_mod_idemp_l; lia. Qed.

Lemma u32_add_r a b : u32 (a + u32 b) = u32 (a + b).
Proof. apply Z.add_mod_idemp_r; lia. Qed.

Lemma u32_sub_l a b : u32 (u32 a - b) = u32 (a - b).
Proof. apply Zminus_mod_idemp_l. Qed.

Lemma u32_sub_r a b : u32 (a - u32 b) = u32 (a - b).
Proof. apply Zminus_mod_idemp_r. Qed.

Lemma s32_range z : - 2 ^ 31 <= s32 z < 2 ^ 31.
Proof. unfold s32. pose proof (u32_range z). case_decide; lia. Qed.

Lemma s32_u32 z : s32 (u32 z) = s32 z.
Proof. unfold s32. by rewrite u32_idemp. Qed.

(** A number that fits in [int32_t] is its own conversion. *)
Lemma s32_id z : - 2 ^ 31 <= z < 2 ^ 31 -> s32 z = z.
Proof. intros H. unfold s32. case_decide; mlia. Qed.

Lemma u32_s32_inj a b : s32 a = s32 b -> u32 a = u32 b.
Proof.
  unfold s32. pose proof (u32_range a). pose proof (u32_range b).
  repeat case_decide; lia.
Qed.

Create HintDb ints discriminated.
Create Rewrite HintDb ints.
#[export] Hint Resolve u32_range s32_range : ints.
#[export] Hint Rewrite u32_idemp u32_add_l u32_add_r u32_sub_l u32_sub_r s32_u32 : ints.

(** * Faults and the state-and-fault monad

    [Exit] is a call of [exit] ([TRACE_ERR], [TRACE_ERROR], [TRACE_EXIT],
    [TRACE_TODO]); the other faults are the undefined behaviours of C the
    sources can reach. *)
Inductive fault : Type :=
  | Exit             (* the process calls exit(0) *)
  | NullDeref        (* a NULL or dangling pointer is dereferenced *)
  | WildAccess       (* an object is accessed through a pointer of another type *)
  | OutOfBounds      (* an array is indexed outside its bounds *)
  | DivByZero        (* integer division by zero *)
  | BadShift         (* a shift count outside the operand's width *)
  | AssertFail       (* an assert aborts the process *)
  | NoReturn.        (* the loop runs longer than the fuel *)

#[export] Instance fault_eq_dec : EqDecision fault.
Proof. solve_decision. Defined.

Inductive res (A : Type) : Type :=
  | Ok (a : A)
  | Fault (f : fault).
Arguments Ok {A} a.
Arguments Fault {A} f.

#[export] Instance res_ret : MRet res := fun A a => Ok a.
#[export] Instance res_bind : MBind res := fun A B k m =>
  match m with Ok a => k a | Fault f => Fault f end.
#[export] Instance res_fmap : FMap res := fun A B g m =>
  match m with Ok a => Ok (g a) | Fault f => Fault f end.

Lemma res_bind_Ok {A B} (m : res A) (k : A -> res B) b :
  (m ≫= k) = Ok b <-> exists a, m = Ok a /\ k a = Ok b.
Proof. destruct m; simpl; naive_solver. Qed.

(** Reading an optional value that the code dereferences. *)
Definition deref {A} (f : fault) (o : option A) : res A :=
  match o with Some a => Ok a | None => Fault f end.

Lemma deref_Ok {A} f (o : option A) a : deref f o = Ok a <-> o = Some a.
Proof. destruct o; simpl; naive_solver. Qed.

(** [M S A]: a computation over the state [S]. *)
Definition M (S A : Type) : Type := S -> res (A * S).

#[export] Instance M_ret {S} : MRet (M S) := fun A a s => Ok (a, s).
#[export] Instance M_bind {S} : MBind (M S) := fun A B k m s =>
  match m s with Ok (a, s') => k a s' | Fault f => Fault f end.

Definition get {S} : M S S := fun s => Ok (s, s).
Definition put {S} (s : S) : M S unit := fun _ => Ok (tt, s).
Definition modify {S} (g : S -> S) : M S unit := fun s => Ok (tt, g s).
Definition gets {S A} (g : S -> A) : M S A := fun s => Ok (g s, s).
Definition throw {S A} (f : fault) : M S A := fun _ => Fault f.
Definition lift {S A} (r : res A) : M S A := fun s => (fun a => (a, s)) <$> r.
Definition when {S} (b : bool) (m : M S unit) : M S unit :=
  if b then m else mret tt.

Lemma M_bind_Ok {S A B} (m : M S A) (k : A -> M S B) s b s'' :
  (m ≫= k) s = Ok (b, s'') <->
  exists a s', m s = Ok (a, s') /\ k a s' = Ok (b, s'').
Proof.
  unfold mbind, M_bind. destruct (m s) as [[a s']|]; naive_solver.
Qed.

Lemma bind_ok {S A B} (m : M S A) (k : A -> M S B) s a s' :
  m s = Ok (a, s') -> (m ≫= k) s = k a s'.
Proof. unfold mbind, M_bind. by intros ->. Qed.

Lemma bind_fault {S A B} (m : M S A) (k : A -> M S B) s f :
  m s = Fault f -> (m ≫= k) s = Fault f.
Proof. unfold mbind, M_bind. by intros ->. Qed.

Lemma bind_bind {S A B C} (m : M S A) (k : A -> M S B) (k' : B -> M S C) s :
  ((m ≫= k) ≫= k') s = (m ≫= fun a => k a ≫= k') s.
Proof. unfold mbind, M_bind. by destruct (m s) as [[a s']|]. Qed.

Lemma lift_ok {S A} (r : res A) (s : S) a : r = Ok a -> lift r s = Ok (a, s).
Proof. by intros ->. Qed.

Lemma lift_Ok_inv {S A} (r : res A) (s s' : S) a : lift r s = Ok (a, s') -> r = Ok a /\ s' = s.
Proof. destruct r; simpl; [by intros [= -> ->] | done]. Qed.

(** Execute the first command of a monadic program whose result [tac] finds. *)
Tactic Notation "step" "by" tactic3(tac) :=
  rewrite ?bind_bind; erewrite bind_ok by tac; cbn beta iota.

(** ** Frame rules

    [Keeps g m]: every run of [m] that ends keeps the observation [g] of the
    state.  The closure under the combinators lets [keeps] prove the frame of
    a whole handler from the frames of the operations it calls. *)
Class Keeps {S X A : Type} (g : S -> X) (m : M S A) : Prop :=
  keeps s a s' : m s = Ok (a, s') -> g s' = g s.

Section Keeps.
  Context {S X : Type} (g : S -> X).

#[export] Instance keeps_ret {A} (a : A) : Keeps g (mret a).
  Proof. intros ??? [= <- <-]. done. Qed.

#[export] Instance keeps_bind {A B} (m : M S A) (k : A -> M S B) :
    Keeps g m -> (forall a, Keeps g (k a)) -> Keeps g (m ≫= k).
  Proof.
    intros Hm Hk s b s'' (a & s' & H1 & H2)%M_bind_Ok.
    rewrite (Hk _ _ _ _ H2). by apply (Hm _ _ _ H1).
  Qed.

#[export] Instance keeps_get : Keeps g get.
  Proof. by intros ??? [= <- <-]. Qed.

#[export] Instance keeps_gets {A} (h : S -> A) : Keeps g (gets h).
  Proof. by intros ??? [= <- <-]. Qed.

#[export] Instance keeps_throw {A} f : Keeps g (throw (A:=A) f).
  Proof. by intros ???. Qed.

#[export] Instance keeps_lift {A} (r : res A) : Keeps g (lift r).
  Proof. intros ???. destruct r; simpl; [intros [= <- <-]; done | done]. Qed.

#[export] Instance keeps_when b (m : M S unit) :
    Keeps g m -> Keeps g (when b m).
  Proof. destruct b; [done | intros _; apply _]. Qed.

#[export] Instance keeps_if {A} (b : bool) (m1 m2 : M S A) :
    Keeps g m1 -> Keeps g m2 -> Keeps g (if b then m1 else m2).
  Proof. by destruct b. Qed.

Lemma keeps_modify (h : S -> S) : (forall s, g (h s) = g s) -> Keeps g (modify h).
  Proof. by intros H ??? [= <- <-]. Qed.
End Keeps.

(** * Record update

    [r <| f := v |>] is the C assignment [r.f = v] on a value of a record type
    that declares how to rebuild itself field by field. *)
Class Rebuild (R : Type) := rebuild : R -> R.
Class Update {R T : Type} (f : R -> T) := update : (T -> T) -> R -> R.
Arguments update {R T} f {_} _ !_ /.

Ltac derive_update f :=
  lazymatch type of f with
  | ?R -> ?T =>
      let e' := eval hnf in (@rebuild R _) in
      lazymatch eval pattern f in e' with
      | ?F _ => exact (fun (g : T -> T) (r : R) => F (fun x => g (f x)) r)
      end
  end.
#[export] Hint Extern 1 (Update ?f) => derive_update f : typeclass_instances.

Notation "r <| f := v |>" := (update f (fun _ => v) r)
  (at level 12, f at next level, left associativity) : stdpp_scope.
Notation "r <| f ::= g |>" := (update f g r)
  (at level 12, f at next level, left associativity) : stdpp_scope.

(** * Pointers and return codes

    A pointer is the address of the object; [NULL] is 0. *)
Notation ptr := Z (only parsing).
Definition NULL : ptr := 0.
Definition SUCCESS : Z := 1.
Definition FAILED : Z := -2.
Definition ERROR : Z := -1.
Definition TRUE : Z := 1.
Definition FALSE : Z := 0.

(** * Lists *)

(** Array read and write with C's bounds made explicit. *)
Definition read_at {A} (l : list A) (i : Z) : res A :=
  if decide (0 <= i) then deref OutOfBounds (l !! Z.to_nat i) else Fault OutOfBounds.
Definition write_at {A} (l : list A) (i : Z) (x : A) : res (list A) :=
  if decide (0 <= i < Z.of_nat (length l)) then Ok (<[Z.to_nat i := x]> l)
  else Fault OutOfBounds.

Lemma read_at_nat {A} (l : list A) (i : nat) x :
  l !! i = Some x -> read_at l (Z.of_nat i) = Ok x.
Proof. intros H. unfold read_at. rewrite decide_True by lia. by rewrite Nat2Z.id, H. Qed.

Lemma write_at_nat {A} (l : list A) (i : nat) x :
  (i < length l)%nat -> write_at l (Z.of_nat i) x = Ok (<[i := x]> l).
Proof. intros H. unfold write_at. rewrite decide_True by lia. by rewrite Nat2Z.id. Qed.


Lemma read_at_inv {A} (l : list A) i x : read_at l i = Ok x -> l !! Z.to_nat i = Some x.
Proof. unfold read_at. case_decide; [by intros ?%deref_Ok | done]. Qed.

Lemma write_at_inv {A} (l l' : list A) i x :
  write_at l i x = Ok l' -> (Z.to_nat i < length l)%nat /\ l' = <[Z.to_nat i := x]> l.
Proof. unfold write_at. case_decide; [intros [= <-]; split; [lia | done] | done]. Qed.

(** Replacing one list of a list of lists. *)
Lemma concat_insert {A} (ls : list (list A)) i l l' :
  ls !! i = Some l -> l ++ concat (<[i := l']> ls) ≡ₚ l' ++ concat ls.
Proof.
  revert i. induction ls as [|l0 ls IH]; intros [|i]; simpl; [done|done| |].
  - intros [= ->]. by rewrite !app_assoc, (Permutation_app_comm l l').
  - intros Hi. rewrite !app_assoc, (Permutation_app_comm l l0), (Permutation_app_comm l' l0), <- !app_assoc.
    by rewrite (IH _ Hi).
Qed.

(** Taking the first element of one list of a list of lists. *)
Lemma concat_pop {A} (ls : list (list A)) i x l :
  ls !! i = Some (x :: l) -> concat ls ≡ₚ x :: concat (<[i := l]> ls).
Proof.
  intros Hi. pose proof (concat_insert ls i (x :: l) l Hi) as Hp.
  apply (Permutation_app_inv_l l). rewrite <- Hp. simpl. by rewrite Permutation_middle.
Qed.
