(* ===== verification/Protocol.v ===== *)
(** Protocol constants and pure protocol arithmetic: [protocol.h].

    Sequence-number comparison ([TCP_SEQ_LT] and its relatives), the TCP
    checksum [tcp_csum], the route mask [ip_masked], byte order, and the
    enumerations of TCP states and options.  The host is x86-64, so [ntohs]
    and [ntohl] swap bytes. *)
From S2P Require Import Prelude.
#[local] Open Scope Z_scope.

(** ** Sequence numbers *)
Definition TCP_SEQ_LT (a b : Z) : bool := bool_decide (s32 (a - b) < 0).
Definition TCP_SEQ_LEQ (a b : Z) : bool := bool_decide (s32 (a - b) <= 0).
Definition TCP_SEQ_GT (a b : Z) : bool := bool_decide (0 < s32 (a - b)).
Definition TCP_SEQ_GEQ (a b : Z) : bool := bool_decide (0 <= s32 (a - b)).
Definition TCP_SEQ_BETWEEN (a b c : Z) : bool := TCP_SEQ_GEQ a b && TCP_SEQ_LEQ a c.

(** ** Enumerations *)
Inductive tcp_state : Type :=
  | TCP_ST_CLOSED | TCP_ST_LISTEN | TCP_ST_SYN_SENT | TCP_ST_SYN_RCVD
  | TCP_ST_ESTABLISHED | TCP_ST_FIN_WAIT_1 | TCP_ST_FIN_WAIT_2
  | TCP_ST_CLOSE_WAIT | TCP_ST_CLOSING | TCP_ST_LAST_ACK | TCP_ST_TIME_WAIT.

#[export] Instance tcp_state_eq_dec : EqDecision tcp_state.
Proof. solve_decision. Defined.

(** The enumerator's value: the code compares states with [<] and [>]. *)
Definition st_val (s : tcp_state) : Z :=
  match s with
  | TCP_ST_CLOSED => 0 | TCP_ST_LISTEN => 1 | TCP_ST_SYN_SENT => 2
  | TCP_ST_SYN_RCVD => 3 | TCP_ST_ESTABLISHED => 4 | TCP_ST_FIN_WAIT_1 => 5
  | TCP_ST_FIN_WAIT_2 => 6 | TCP_ST_CLOSE_WAIT => 7 | TCP_ST_CLOSING => 8
  | TCP_ST_LAST_ACK => 9 | TCP_ST_TIME_WAIT => 10
  end.

Definition TCP_FLAG_FIN : Z := 0x01.
Definition TCP_FLAG_SYN : Z := 0x02.
Definition TCP_FLAG_RST : Z := 0x04.
Definition TCP_FLAG_PSH : Z := 0x08.
Definition TCP_FLAG_ACK : Z := 0x10.
Definition TCP_FLAG_WACK : Z := 0x80.

Definition TCP_OPT_END : Z := 0.
Definition TCP_OPT_NOP : Z := 1.
Definition TCP_OPT_MSS : Z := 2.
Definition TCP_OPT_WSCALE : Z := 3.
Definition TCP_OPT_SACK_PERMIT : Z := 4.
Definition TCP_OPT_TIMESTAMP : Z := 8.
Definition TCP_OPT_MSS_LEN : Z := 4.
Definition TCP_OPT_WSCALE_LEN : Z := 3.

Definition TCP_DEFAULT_MSS : Z := 1460.
Definition TCP_DEFAULT_WSCALE : Z := 7.
Definition TCP_INIT_CWND : Z := 4.
Definition TCP_INITIAL_WINDOW : Z := 14600.
Definition TCP_MAX_RTX : Z := 16.
Definition TCP_MAX_WINDOW : Z := 65535.

Definition TCP_NOT_CLOSED : Z := 0.
Definition TCP_ACTIVE_CLOSE : Z := 1.
Definition TCP_PASSIVE_CLOSE : Z := 2.
Definition TCP_CONN_FAIL : Z := 3.
Definition TCP_CONN_LOST : Z := 4.
Definition TCP_RESET : Z := 5.
Definition TCP_NO_MEM : Z := 6.
Definition TCP_NOT_ACCEPTED : Z := 7.
Definition TCP_TIMEDOUT : Z := 8.

(** ** Byte order *)
Definition ntohs (z : Z) : Z := (z `mod` 2 ^ 8) * 2 ^ 8 + (z / 2 ^ 8) `mod` 2 ^ 8.
Definition ntohl (z : Z) : Z :=
  (z `mod` 2 ^ 8) * 2 ^ 24 + ((z / 2 ^ 8) `mod` 2 ^ 8) * 2 ^ 16
  + ((z / 2 ^ 16) `mod` 2 ^ 8) * 2 ^ 8 + (z / 2 ^ 24) `mod` 2 ^ 8.
Definition htons : Z -> Z := ntohs.
Definition htonl : Z -> Z := ntohl.

(** ** Checksum

    [buf] is the array of 16-bit words read through [uint16_t *buf]. *)
Fixpoint csum_words (w : list Z) (nleft sum : Z) : res Z :=
  if decide (1 < nleft) then
    match w with
    | x :: w' => csum_words w' (nleft - 2) (u32 (sum + x))
    | [] => Fault OutOfBounds
    end
  else if decide (nleft = 0) then Ok sum
  else match w with
       | x :: _ => Ok (u32 (sum + Z.land x (ntohs 0xFF00)))
       | [] => Fault OutOfBounds
       end.

Definition tcp_csum (buf : list Z) (len saddr daddr : Z) : res Z :=
  sum ← csum_words buf len 0;
  let sum := u32 (sum + (Z.land saddr 0xFFFF + Z.shiftr saddr 16)) in
  let sum := u32 (sum + (Z.land daddr 0xFFFF + Z.shiftr daddr 16)) in
  let sum := u32 (sum + htons len) in
  let sum := u32 (sum + htons 6) in
  let sum := u32 (Z.shiftr sum 16 + Z.land sum 0xFFFF) in
  let sum := u32 (sum + Z.shiftr sum 16) in
  Ok (u16 (u32 (Z.lnot sum))).

(** ** Route mask

    [1<<mask] and [...<<(32-mask)] are [int] shifts: a count of 32 or more
    (mask 0, or mask above 31) is undefined. *)
Definition ip_masked (addr mask : Z) : res Z :=
  let addr_h := ntohl addr in
  if decide (32 <= mask) then Fault BadShift
  else if decide (32 <= 32 - mask) then Fault BadShift
  else
    let m := u32 (Z.shiftl (u32 (Z.shiftl 1 mask) - 1) (32 - mask)) in
    Ok (htonl (Z.land addr_h m)).

(** * Properties *)

Lemma seq_diff base i j :
  0 <= i < 2 ^ 31 -> 0 <= j < 2 ^ 31 -> s32 (u32 (base + i) - u32 (base + j)) = i - j.
Proof.
  intros Hi Hj. rewrite <- s32_u32, u32_sub_l, u32_sub_r.
  replace (base + i - (base + j)) with (i - j) by lia.
  rewrite s32_u32. apply s32_id. lia.
Qed.

(** Inside any window of less than 2^31 sequence numbers, however it wraps
    around 2^32, the comparison macros agree with the order of the offsets. *)
Lemma seq_cmp_window base i j :
  0 <= i < 2 ^ 31 -> 0 <= j < 2 ^ 31 ->
  let a := u32 (base + i) in
  let b := u32 (base + j) in
  TCP_SEQ_LT a b = bool_decide (i < j) /\ TCP_SEQ_LEQ a b = bool_decide (i <= j) /\
  TCP_SEQ_GT a b = bool_decide (j < i) /\ TCP_SEQ_GEQ a b = bool_decide (j <= i).
Proof.
  intros Hi Hj a b. subst a b.
  unfold TCP_SEQ_LT, TCP_SEQ_LEQ, TCP_SEQ_GT, TCP_SEQ_GEQ.
  rewrite seq_diff by done. split_and!; apply bool_decide_ext; lia.
Qed.

Lemma seq_leq_shift a b c : TCP_SEQ_LEQ (a + c) (b + c) = TCP_SEQ_LEQ a b.
Proof. unfold TCP_SEQ_LEQ. by replace (a + c - (b + c)) with (a - b) by lia. Qed.

Lemma TCP_SEQ_LEQ_u32_l a b : TCP_SEQ_LEQ (u32 a) b = TCP_SEQ_LEQ a b.
Proof. unfold TCP_SEQ_LEQ. by rewrite <- s32_u32, u32_sub_l, s32_u32. Qed.

Lemma TCP_SEQ_LEQ_u32_r a b : TCP_SEQ_LEQ a (u32 b) = TCP_SEQ_LEQ a b.
Proof. unfold TCP_SEQ_LEQ. by rewrite <- s32_u32, u32_sub_r, s32_u32. Qed.

(** ** The checksum computes the Internet checksum *)

(** Reference: the plain sum of the words of a segment of [n] bytes, the last
    word of an odd segment reduced to its first byte. *)
Fixpoint segment_sum (w : list Z) (n : Z) : Z :=
  match w with
  | x :: w' => if decide (1 < n) then x + segment_sum w' (n - 2)
               else if decide (n = 0) then 0 else x `mod` 2 ^ 8
  | [] => 0
  end.

Definition pseudo_sum (len saddr daddr : Z) : Z :=
  (saddr `mod` 2 ^ 16 + saddr / 2 ^ 16) + (daddr `mod` 2 ^ 16 + daddr / 2 ^ 16)
  + htons len + htons 6.

(** One's-complement value of a positive sum, in [1, 65535]. *)
Definition ones_fold (s : Z) : Z := 1 + (s - 1) `mod` 65535.

Lemma land_ones16 z : Z.land z 0xFFFF = z `mod` 2 ^ 16.
Proof. change 0xFFFF with (Z.ones 16). by rewrite Z.land_ones by lia. Qed.

Lemma segment_sum_bound w n :
  Forall is_u16 w -> 0 <= n -> 0 <= segment_sum w n <= 65535 * (n / 2 + 1).
Proof.
  intros Hw. revert n. induction Hw as [|x w Hx Hw IH]; intros n Hn; simpl.
  { Z.div_mod_to_equations. lia. }
  repeat case_decide.
  - specialize (IH (n - 2) ltac:(lia)). mlia.
  - mlia.
  - mlia.
Qed.

Lemma csum_words_sum w n s :
  Forall is_u16 w -> 0 <= n <= 2 * Z.of_nat (length w) -> 0 <= s ->
  s + 65535 * (n / 2 + 1) < 2 ^ 32 ->
  csum_words w n s = Ok (s + segment_sum w n).
Proof.
  intros Hw. revert n s. induction Hw as [|x w Hx Hw IH]; intros n s Hn Hs Hb; simpl in *.
  { rewrite decide_False by lia. rewrite decide_True by lia. f_equal. lia. }
  destruct (decide (1 < n)) as [Hn1|].
  - assert (n / 2 = (n - 2) / 2 + 1) as Hdiv by (Z.div_mod_to_equations; lia).
    assert (0 <= (n - 2) / 2) by (apply Z.div_pos; lia).
    rewrite u32_id by (unfold is_u16, is_u32 in *; lia).
    unfold is_u16 in Hx. rewrite IH by lia. f_equal. lia.
  - destruct (decide (n = 0)); [f_equal; lia|].
    assert (n = 1) as -> by lia. f_equal.
    change (ntohs 0xFF00) with (Z.ones 8). rewrite Z.land_ones by lia.
    apply u32_id. mlia.
Qed.

Lemma pseudo_sum_bound len saddr daddr :
  is_u16 len -> is_u32 saddr -> is_u32 daddr ->
  1 <= pseudo_sum len saddr daddr <= 500000.
Proof.
  intros. unfold pseudo_sum.
  change (htons 6) with 1536. unfold htons, ntohs. mlia.
Qed.

(** Two end-around folds and the complement. *)
Lemma fold_complement s :
  1 <= s < 2 ^ 32 ->
  let s1 := u32 (Z.shiftr s 16 + Z.land s 0xFFFF) in
  u16 (u32 (Z.lnot (u32 (s1 + Z.shiftr s1 16)))) = 65535 - ones_fold s.
Proof.
  intros Hs s1. subst s1. rewrite land_ones16, !Z.shiftr_div_pow2 by lia.
  unfold Z.lnot, ones_fold. rewrite (u32_id (s / _ + _)) by mlia.
  assert (s / 2 ^ 16 + s `mod` 2 ^ 16 < 2 ^ 17) as Hlt by mlia.
  assert (1 <= s / 2 ^ 16 + s `mod` 2 ^ 16) as Hge by mlia.
  assert ((s - 1) `mod` 65535 = (s / 2 ^ 16 + s `mod` 2 ^ 16 - 1) `mod` 65535) as ->.
  { replace (s - 1) with ((s / 2 ^ 16 + s `mod` 2 ^ 16 - 1) + (s / 2 ^ 16) * 65535) by mlia.
    apply Z_mod_plus_full. }
  set (t := s / 2 ^ 16 + s `mod` 2 ^ 16) in *.
  assert (t <= 131070) by (subst t; mlia). clearbody t. clear Hs s.
  rewrite (u32_id (t + _)) by mlia. mlia.
Qed.

Lemma u32_add_4 s a b c d :
  u32 (u32 (u32 (u32 (s + a) + b) + c) + d) = u32 (s + a + b + c + d).
Proof. by rewrite u32_add_l, <- Z.add_assoc, u32_add_l, Z.add_assoc, <- 2!Z.add_assoc,
         u32_add_l, !Z.add_assoc. Qed.

Lemma tcp_csum_value buf len saddr daddr :
  Forall is_u16 buf -> is_u16 len -> len <= 2 * Z.of_nat (length buf) ->
  is_u32 saddr -> is_u32 daddr ->
  tcp_csum buf len saddr daddr =
    Ok (65535 - ones_fold (segment_sum buf len + pseudo_sum len saddr daddr)).
Proof.
  intros Hbuf Hlen Hcov Hs Hd. unfold tcp_csum.
  pose proof (segment_sum_bound buf len Hbuf ltac:(unfold is_u16 in *; lia)).
  pose proof (pseudo_sum_bound len saddr daddr Hlen Hs Hd).
  assert (65535 * (len / 2 + 1) < 2 ^ 31) by mlia.
  rewrite csum_words_sum by (try done; unfold is_u16 in *; lia). cbn [mbind res_bind].
  rewrite u32_add_4.
  set (total := segment_sum buf len + pseudo_sum len saddr daddr).
  match goal with |- context [Z.land (u32 ?x) _] => assert (u32 x = total) as -> end.
  { subst total. unfold pseudo_sum in *. rewrite !land_ones16, !Z.shiftr_div_pow2 by lia.
    rewrite u32_id; unfold is_u32; lia. }
  f_equal. apply fold_complement. subst total. lia.
Qed.

Lemma segment_sum_insert w n (i : nat) c :
  w !! i = Some 0 -> 2 * Z.of_nat i + 2 <= n ->
  segment_sum (<[i := c]> w) n = segment_sum w n + c.
Proof.
  revert n i. induction w as [|x w IH]; intros n [|i] Hi Hn; simplify_eq/=;
    rewrite !decide_True by lia.
  - lia.
  - rewrite IH by (try done; lia). lia.
Qed.

(** [tcp_csum] is self-verifying: over a TCP segment of [len] bytes whose
    checksum word is zero it never reads outside the buffer and yields a
    checksum [c]; once [c] is stored in that word, recomputing the checksum
    yields 0, which is what a receiver tests. *)
Theorem tcp_csum_verifies buf len saddr daddr (i : nat) :
  Forall is_u16 buf -> is_u16 len -> len <= 2 * Z.of_nat (length buf) ->
  is_u32 saddr -> is_u32 daddr ->
  buf !! i = Some 0 -> 2 * Z.of_nat i + 2 <= len ->
  exists c, tcp_csum buf len saddr daddr = Ok c /\ is_u16 c /\
            tcp_csum (<[i := c]> buf) len saddr daddr = Ok 0.
Proof.
  intros Hbuf Hlen Hcov Hs Hd Hi Hin. eexists. split; [by apply tcp_csum_value|].
  set (s := segment_sum buf len + pseudo_sum len saddr daddr).
  assert (1 <= s) as Hs1.
  { pose proof (segment_sum_bound buf len Hbuf ltac:(unfold is_u16 in *; lia)).
    pose proof (pseudo_sum_bound len saddr daddr Hlen Hs Hd). lia. }
  assert (is_u16 (65535 - ones_fold s)) as Hc by (unfold ones_fold; mlia).
  split; [done|].
  rewrite tcp_csum_value by (rewrite ?length_insert; try done; by apply Forall_insert).
  rewrite segment_sum_insert by done. f_equal.
  replace (segment_sum buf len + (65535 - ones_fold s) + pseudo_sum len saddr daddr)
    with (s + 65535 - ones_fold s) by lia.
  unfold ones_fold. clear -Hs1. mlia.
Qed.

Lemma tcp_csum_verifies_witness :
  exists c, tcp_csum [0x5000; 0xBB01; 0; 0x1234; 0x00AB] 9 0x0100007F 0x0200007F = Ok c /\
    is_u16 c /\
    tcp_csum (<[2%nat := c]> [0x5000; 0xBB01; 0; 0x1234; 0x00AB]) 9 0x0100007F 0x0200007F
      = Ok 0.
Proof.
  apply (tcp_csum_verifies [0x5000; 0xBB01; 0; 0x1234; 0x00AB] 9 0x0100007F 0x0200007F 2);
    try reflexivity; unfold is_u16, is_u32; simpl; try lia.
  repeat constructor; lia.
Defined.

(** ** The route mask *)

Lemma ntohl_range z : is_u32 (ntohl z).
Proof. unfold ntohl. mlia. Qed.

Lemma ntohl_involutive z : is_u32 z -> ntohl (ntohl z) = z.
Proof.
  intros Hz. unfold ntohl.
  set (a := z `mod` 2 ^ 8). set (b := (z / 2 ^ 8) `mod` 2 ^ 8).
  set (c := (z / 2 ^ 16) `mod` 2 ^ 8). set (d := (z / 2 ^ 24) `mod` 2 ^ 8).
  assert (z = a + b * 2 ^ 8 + c * 2 ^ 16 + d * 2 ^ 24) by (subst a b c d; mlia).
  assert (0 <= a < 2 ^ 8 /\ 0 <= b < 2 ^ 8 /\ 0 <= c < 2 ^ 8 /\ 0 <= d < 2 ^ 8)
    by (subst a b c d; mlia).
  clearbody a b c d. subst z. clear Hz. mlia.
Qed.

Lemma testbit_split k x y n :
  0 <= k -> 0 <= x < 2 ^ k -> 0 <= n ->
  Z.testbit (x + 2 ^ k * y) n = if decide (n < k) then Z.testbit x n else Z.testbit y (n - k).
Proof.
  intros Hk Hx Hn. case_decide.
  - rewrite <- (Z.mod_pow2_bits_low _ k n) by lia.
    rewrite Z.mul_comm, Z_mod_plus_full. by rewrite Z.mod_small.
  - rewrite <- (Z.sub_add k n) at 1. rewrite <- Z.div_pow2_bits by lia.
    rewrite Z.mul_comm, Z_div_plus_full by lia. by rewrite Z.div_small.
Qed.

Lemma land_lt k a c : 0 <= k -> 0 <= a < 2 ^ k -> 0 <= c -> 0 <= Z.land a c < 2 ^ k.
Proof.
  intros Hk Ha Hc. rewrite <- (Z.mod_small a (2 ^ k)) by lia.
  rewrite <- Z.land_ones, <- Z.land_assoc, (Z.land_comm _ c), Z.land_assoc, Z.land_ones by lia.
  apply Z.mod_pos_bound. lia.
Qed.

Lemma land_split k a b c d :
  0 <= k -> 0 <= a < 2 ^ k -> 0 <= c < 2 ^ k ->
  Z.land (a + 2 ^ k * b) (c + 2 ^ k * d) = Z.land a c + 2 ^ k * Z.land b d.
Proof.
  intros Hk Ha Hc. pose proof (land_lt k a c Hk Ha ltac:(lia)).
  apply Z.bits_inj'. intros n Hn. rewrite Z.land_spec, !testbit_split by done.
  case_decide; by rewrite Z.land_spec.
Qed.

Lemma ntohl_land x y : is_u32 x -> is_u32 y -> ntohl (Z.land x y) = Z.land (ntohl x) (ntohl y).
Proof.
  intros Hx Hy.
  assert (forall z, is_u32 z -> exists a b c d, is_u8 a /\ is_u8 b /\ is_u8 c /\ is_u8 d /\
    z = a + 2 ^ 8 * (b + 2 ^ 8 * (c + 2 ^ 8 * d)) /\
    ntohl z = d + 2 ^ 8 * (c + 2 ^ 8 * (b + 2 ^ 8 * a))) as Hb.
  { intros z Hz. exists (z `mod` 2 ^ 8), ((z / 2 ^ 8) `mod` 2 ^ 8), ((z / 2 ^ 16) `mod` 2 ^ 8),
      ((z / 2 ^ 24) `mod` 2 ^ 8). unfold ntohl. split_and!; mlia. }
  destruct (Hb x Hx) as (a & b & c & d & ? & ? & ? & ? & Ex & ->).
  destruct (Hb y Hy) as (a' & b' & c' & d' & ? & ? & ? & ? & Ey & ->).
  subst x y. unfold is_u8 in *.
  rewrite !land_split by lia.
  pose proof (land_lt 8 a a'). pose proof (land_lt 8 b b'). pose proof (land_lt 8 c c').
  pose proof (land_lt 8 d d').
  unfold ntohl. set (Z.land a a') in *. set (Z.land b b') in *.
  set (Z.land c c') in *. set (Z.land d d') in *. clearbody z z0 z1 z2.
  clear Hb Hx Hy. mlia.
Qed.

(** The mask of a prefix length, as the code computes it. *)
Definition prefix_mask (mask : Z) : Z := u32 (Z.shiftl (u32 (Z.shiftl 1 mask) - 1) (32 - mask)).

Lemma prefix_mask_value mask :
  1 <= mask <= 31 -> prefix_mask mask = Z.shiftl (Z.ones mask) (32 - mask).
Proof.
  intros Hm. unfold prefix_mask.
  assert (u32 (Z.shiftl 1 mask) = 2 ^ mask) as ->.
  { rewrite Z.shiftl_1_l. apply u32_id. unfold is_u32. split; [lia|].
    apply Z.pow_lt_mono_r; lia. }
  rewrite Z.ones_equiv, !Z.shiftl_mul_pow2 by lia.
  assert (2 ^ mask * 2 ^ (32 - mask) = 2 ^ 32) as Hp
    by (rewrite <- Z.pow_add_r by lia; f_equal; lia).
  assert (1 <= 2 ^ (32 - mask) <= 2 ^ 32)
    by (split; [apply (Z.pow_le_mono_r 2 0); lia | apply Z.pow_le_mono_r; lia]).
  rewrite u32_id; unfold is_u32; nia.
Qed.

(** Masking keeps the leading bits. *)
Lemma land_prefix_mask h mask :
  is_u32 h -> 1 <= mask <= 31 ->
  Z.land h (prefix_mask mask) = h / 2 ^ (32 - mask) * 2 ^ (32 - mask).
Proof.
  intros Hr Hm. rewrite prefix_mask_value by done.
  rewrite <- Z.shiftr_div_pow2, <- Z.shiftl_mul_pow2 by lia.
  apply Z.bits_inj'. intros n Hn. rewrite Z.land_spec, !Z.shiftl_spec by lia.
  destruct (decide (n < 32 - mask)).
  { rewrite !(Z.testbit_neg_r _ (n - _)) by lia. by rewrite andb_false_r. }
  rewrite Z.shiftr_spec by lia. replace (n - (32 - mask) + (32 - mask)) with n by lia.
  destruct (decide (n < 32)).
  { rewrite Z.ones_spec_low by lia. by rewrite andb_true_r. }
  rewrite Z.ones_spec_high by lia. rewrite andb_false_r. symmetry.
  apply Z.testbit_false; [lia|]. unfold is_u32 in Hr.
  rewrite Z.div_small; [done|]. split; [lia|].
  apply Z.lt_le_trans with (2 ^ 32); [lia|]. apply Z.pow_le_mono_r; lia.
Qed.

(** For prefix lengths 1 to 31 [ip_masked] keeps the [mask] leading bits of
    the address (in host order) and clears the others. *)
Lemma ip_masked_prefix addr mask :
  is_u32 addr -> 1 <= mask <= 31 ->
  exists r, ip_masked addr mask = Ok r /\
    ntohl r = ntohl addr / 2 ^ (32 - mask) * 2 ^ (32 - mask).
Proof.
  intros Ha Hm. unfold ip_masked. rewrite !decide_False by lia.
  eexists; split; [done|]. fold (prefix_mask mask). unfold htonl.
  pose proof (ntohl_range addr) as Hr. rewrite land_prefix_mask by done.
  apply ntohl_involutive. unfold is_u32 in *.
  pose proof (Z.pow_pos_nonneg 2 (32 - mask) ltac:(lia) ltac:(lia)).
  split; [apply Z.mul_nonneg_nonneg; [apply Z.div_pos|]; lia|].
  pose proof (Z.mul_div_le (ntohl addr) (2 ^ (32 - mask)) ltac:(lia)). lia.
Qed.
