(* ===== verification/StaticArp.v ===== *)
(** Interfaces and the static ARP table: [struct eth_table] of [qstack.h],
    [struct arp_table] of [arp.h], and [sarp_set], [sarp_lookup] and
    [get_dst_hwaddr] of [arp.c].

    The C library's [inet_addr] and the six [%x] conversions of [sscanf] are
    parameters; what the source does with the converted values, an [int] store
    for each byte of the address, is modelled. *)
From S2P Require Import Prelude Protocol.
#[local] Open Scope Z_scope.

Definition ETH_ALEN : nat := 6.
Definition STATIC_ARP_NUM : nat := 16.

(** [haddr] is a list of [ETH_ALEN] bytes; [ip_addr] is in network order. *)
Record eth_table : Type := EthTable { ifindex : Z; eth_haddr : list Z; ip_addr : Z }.

(** The link [next] is the position in the list that holds the entry. *)
Record arp_entry : Type := ArpEntry {
  ae_ip : Z; ip_mask : Z; ae_haddr : list Z; last_used : Z;
}.

#[export] Instance arp_entry_rebuild : Rebuild arp_entry := fun e =>
  ArpEntry (ae_ip e) (ip_mask e) (ae_haddr e) (last_used e).

Definition zero_entry : arp_entry := ArpEntry 0 0 (replicate ETH_ALEN 0) 0.

(** [CONFIG.sarp_table] and [CONFIG.sarp_num]. *)
Record static_arp : Type := Sarp { sarp_table : list arp_entry; sarp_num : Z }.

#[export] Instance static_arp_rebuild : Rebuild static_arp := fun t =>
  Sarp (sarp_table t) (sarp_num t).

Definition sarp0 : static_arp := Sarp (replicate STATIC_ARP_NUM zero_entry) 0.

(** Strings are lists of character codes.  [scan_hex] gives the values [sscanf]
    converts, in order, up to the first failure. *)
Class Libc : Type := {
  inet_addr : list Z -> Z;
  scan_hex : list Z -> list Z;
}.

(** [htonl(((1<<mask)-1)<<(32-mask))]: shifts of [int]. *)
Definition sarp_mask (mask : Z) : res Z :=
  if decide (32 <= mask) then Fault BadShift
  else if decide (32 <= 32 - mask) then Fault BadShift
  else Ok (htonl (u32 (Z.shiftl (u32 (Z.shiftl 1 mask) - 1) (32 - mask)))).

(** The four bytes of an [int] on a little-endian machine. *)
Definition int_bytes (v : Z) : list Z :=
  [u8 v; u8 (v / 2 ^ 8); u8 (v / 2 ^ 16); u8 (v / 2 ^ 24)].
Definition bytes_int (l : list Z) : Z :=
  foldr (fun b v => b + 2 ^ 8 * v) 0 l.

(** The bytes from [haddr] on: the address, two bytes of padding, [last_used]. *)
Definition entry_tail (e : arp_entry) : list Z :=
  ae_haddr e ++ [0; 0] ++ int_bytes (last_used e).
Definition from_tail (e : arp_entry) (mem : list Z) : arp_entry :=
  e <| ae_haddr := take ETH_ALEN mem |> <| last_used := bytes_int (drop (ETH_ALEN + 2) mem) |>.

(** [%x] stores an [int] at [&entry->haddr[off]], for each conversion. *)
Fixpoint scan_store (off : nat) (vals : list Z) (mem : list Z) : list Z :=
  match vals with
  | [] => mem
  | v :: vals' => scan_store (S off) vals' (list_inserts off (int_bytes v) mem)
  end.

Section Static.
Context `{!Libc}.

Definition sarp_set (dip : list Z) (mask : Z) (haddr : list Z) (t : static_arp) : res static_arp :=
  e ← read_at (sarp_table t) (sarp_num t);
  m ← sarp_mask mask;
  let e := e <| ae_ip := inet_addr dip |> <| ip_mask := m |> in
  let e := from_tail e (scan_store 0 (take ETH_ALEN (scan_hex haddr)) (entry_tail e)) in
  tab ← write_at (sarp_table t) (sarp_num t) e;
  Ok (Sarp tab (u32 (sarp_num t + 1))).
End Static.

(** The [for] loop over the first [sarp_num] entries. *)
Fixpoint sarp_search (l : list arp_entry) (dip : Z) : option (list Z) :=
  match l with
  | [] => None
  | e :: l' =>
      if decide (Z.land (ae_ip e) (ip_mask e) = Z.land dip (ip_mask e)) then Some (ae_haddr e)
      else sarp_search l' dip
  end.

Definition sarp_lookup (t : static_arp) (dip : Z) : option (list Z) :=
  sarp_search (take (Z.to_nat (sarp_num t)) (sarp_table t)) dip.

(** A missing entry ends the process ([TRACE_ERROR]). *)
Definition get_dst_hwaddr (t : static_arp) (dip : Z) : res (list Z) :=
  deref Exit (sarp_lookup t dip).

(** * Properties *)

(** A route given to [sarp_set]: address and hardware address as strings. *)
Record sroute : Type := SRoute { sr_dip : list Z; sr_mask : Z; sr_haddr : list Z }.

Section Routes.
Context `{!Libc}.

Fixpoint sarp_set_all (rs : list sroute) (t : static_arp) : res static_arp :=
  match rs with
  | [] => Ok t
  | r :: rs' => t' ← sarp_set (sr_dip r) (sr_mask r) (sr_haddr r) t; sarp_set_all rs' t'
  end.

(** A well-formed route: a prefix of 1 to 31 bits, a hardware address that
    scans to six bytes. *)
Definition good_route (r : sroute) : Prop :=
  1 <= sr_mask r <= 31 /\ is_u32 (inet_addr (sr_dip r)) /\
  length (scan_hex (sr_haddr r)) = ETH_ALEN /\ Forall is_u8 (scan_hex (sr_haddr r)).

(** The leading [mask] bits of an address given in network order. *)
Definition ip_prefix (mask ip : Z) : Z := ntohl ip / 2 ^ (32 - mask).

Definition matches (r : sroute) (dip : Z) : bool :=
  bool_decide (ip_prefix (sr_mask r) (inet_addr (sr_dip r)) = ip_prefix (sr_mask r) dip).

(** Reference: the first route that contains the address. *)
Definition route_for (rs : list sroute) (dip : Z) : option (list Z) :=
  (fun r => scan_hex (sr_haddr r)) <$> head (filter (fun r => matches r dip = true) rs).

Lemma mask_matches a b mask :
  is_u32 a -> is_u32 b -> 1 <= mask <= 31 ->
  Z.land a (htonl (prefix_mask mask)) = Z.land b (htonl (prefix_mask mask)) <->
  ip_prefix mask a = ip_prefix mask b.
Proof.
  intros Ha Hb Hm. unfold htonl, ip_prefix.
  pose proof (ntohl_range (prefix_mask mask)) as Hr.
  assert (forall x, is_u32 x -> ntohl (Z.land x (ntohl (prefix_mask mask))) =
    ntohl x / 2 ^ (32 - mask) * 2 ^ (32 - mask)) as Hl.
  { intros x Hx. rewrite ntohl_land, ntohl_involutive, land_prefix_mask; try done.
    - apply ntohl_range.
    - apply u32_range. }
  assert (forall x, is_u32 x -> is_u32 (Z.land x (ntohl (prefix_mask mask)))) as Hu.
  { intros x Hx. apply (land_lt 32); unfold is_u32 in *; lia. }
  pose proof (Z.pow_pos_nonneg 2 (32 - mask) ltac:(lia) ltac:(lia)).
  split; intros E.
  - apply (f_equal ntohl) in E. rewrite !Hl in E by done. nia.
  - rewrite <- (ntohl_involutive (Z.land a _)), <- (ntohl_involutive (Z.land b _)) by auto.
    by rewrite !Hl, E by done.
Qed.

Lemma u8_id z : is_u8 z -> u8 z = z.
Proof. apply Z.mod_small. Qed.

(** The stores overlap, but the later ones put right what the earlier ones
    spoil inside the address. *)
Lemma scan_store_bytes vals (mem : list Z) :
  length vals = ETH_ALEN -> Forall is_u8 vals -> length mem = 12%nat ->
  take ETH_ALEN (scan_store 0 vals mem) = vals.
Proof.
  intros Hv Hb Hm. do 6 (destruct vals as [|? vals]; [done|]). destruct vals; [|done].
  do 12 (destruct mem as [|? mem]; [done|]). destruct mem; [|done].
  repeat (apply Forall_cons in Hb as [? Hb]). simpl.
  by rewrite !u8_id.
Qed.

Definition route_entry (r : sroute) (e : arp_entry) : Prop :=
  ae_ip e = inet_addr (sr_dip r) /\ ip_mask e = htonl (prefix_mask (sr_mask r)) /\
  ae_haddr e = scan_hex (sr_haddr r).

Lemma sarp_set_spec r t e :
  good_route r -> 0 <= sarp_num t < 16 -> sarp_table t !! Z.to_nat (sarp_num t) = Some e ->
  length (ae_haddr e) = ETH_ALEN ->
  exists e', sarp_set (sr_dip r) (sr_mask r) (sr_haddr r) t =
    Ok (Sarp (<[Z.to_nat (sarp_num t) := e']> (sarp_table t)) (sarp_num t + 1)) /\ route_entry r e'.
Proof.
  intros (Hm & Hi & Hl & Hb) Hn He Hh. unfold sarp_set, sarp_mask.
  assert (read_at (sarp_table t) (sarp_num t) = Ok e) as ->.
  { unfold read_at. by rewrite decide_True, He by lia. }
  rewrite !decide_False by lia. cbn [mbind res_bind].
  rewrite (take_ge (scan_hex _)) by (by rewrite Hl).
  pose proof (lookup_lt_Some _ _ _ He). unfold write_at.
  rewrite (decide_True (P := 0 <= sarp_num t < _)) by lia. cbn [mbind res_bind].
  rewrite (u32_id (sarp_num t + 1)) by (unfold is_u32; lia).
  eexists. split; [done|]. split_and!; [done..|].
  apply scan_store_bytes; [done..|]. unfold entry_tail. simpl. rewrite length_app. simpl. by rewrite Hh.
Qed.

Lemma sarp_set_all_spec rs done t :
  Forall good_route rs -> (length done + length rs <= 16)%nat ->
  sarp_num t = Z.of_nat (length done) -> length (sarp_table t) = 16%nat ->
  Forall (fun e => length (ae_haddr e) = ETH_ALEN) (sarp_table t) ->
  Forall2 route_entry done (take (length done) (sarp_table t)) ->
  exists t', sarp_set_all rs t = Ok t' /\ sarp_num t' = Z.of_nat (length done + length rs) /\
    Forall2 route_entry (done ++ rs) (take (length done + length rs) (sarp_table t')).
Proof.
  revert done t. induction rs as [|r rs IH]; intros dn t Hg Hle Hn Hlen Hh Hd.
  { exists t. simpl. rewrite app_nil_r, Nat.add_0_r. done. }
  apply Forall_cons in Hg as [Hr Hg]. simpl in Hle.
  destruct (lookup_lt_is_Some_2 (sarp_table t) (length dn)) as [e He]; [lia|].
  destruct (sarp_set_spec r t e) as (e' & Hset & Hre); [done|lia|by rewrite Hn, Nat2Z.id|..].
  { by eapply Forall_lookup_1 in Hh. }
  rewrite Hn, Nat2Z.id in Hset. simpl. rewrite Hset. cbn [mbind res_bind].
  destruct (IH (dn ++ [r]) (Sarp (<[length dn := e']> (sarp_table t)) (Z.of_nat (length dn) + 1)))
    as (t' & Hrun & Hnum & Hall); rewrite ?length_app in *; simpl in *; try done; try lia.
  - by rewrite length_insert.
  - apply Forall_insert; [done|]. destruct Hre as (_ & _ & ->). apply Hr.
  - rewrite Nat.add_1_r, (take_S_r _ _ e') by (apply list_lookup_insert_eq; lia).
    rewrite take_insert_ge by lia. apply Forall2_app; [done|]. by constructor.
  - exists t'. split; [done|]. split; [lia|]. rewrite <- app_assoc in Hall. simpl in Hall.
    by replace (length dn + 1 + length rs)%nat with (length dn + S (length rs))%nat in Hall by lia.
Qed.

Lemma sarp_search_routes rs l dip :
  Forall good_route rs -> Forall2 route_entry rs l -> is_u32 dip ->
  sarp_search l dip = route_for rs dip.
Proof.
  intros Hg Hf Hd. unfold route_for.
  induction Hf as [|r e rs l (Hi & Hm & Hh) Hf IH]; [done|].
  apply Forall_cons in Hg as [(Hmask & Hu & _) Hg]. simpl. rewrite filter_cons.
  rewrite Hi, Hm, Hh.
  destruct (decide (matches r dip = true)) as [E|E]; unfold matches in E.
  - apply bool_decide_eq_true in E. by rewrite decide_True by by apply mask_matches.
  - rewrite decide_False; [by apply IH|]. intros Hm'%mask_matches; [|done..].
    by apply E, bool_decide_eq_true.
Qed.
End Routes.

(** Static routes.  After up to 16 well-formed routes were configured with
    [sarp_set], in this order, [sarp_lookup] finds for every address the
    hardware address of the first route whose prefix contains it, and nothing
    when there is none: byte order, the mask arithmetic and the overlapping
    [%x] stores included. *)
Theorem sarp_first_match `{!Libc} (rs : list sroute) :
  Forall good_route rs -> (length rs <= STATIC_ARP_NUM)%nat ->
  exists t, sarp_set_all rs sarp0 = Ok t /\
    forall dip, is_u32 dip -> sarp_lookup t dip = route_for rs dip.
Proof.
  intros Hg Hl. destruct (sarp_set_all_spec rs [] sarp0) as (t & Hr & Hn & Hf); try done.
  { by repeat constructor. }
  exists t. split; [done|]. intros dip Hd. unfold sarp_lookup. rewrite Hn, Nat2Z.id.
  by apply sarp_search_routes.
Qed.

(** A toy C library: the strings are the bytes themselves. *)
Definition demo_libc : Libc := {| inet_addr s := bytes_int s; scan_hex s := s |}.

Lemma sarp_first_match_witness :
  let rs := [SRoute [10; 0; 1; 0] 24 [1; 2; 3; 4; 5; 6]; SRoute [10; 0; 0; 0] 8 [6; 5; 4; 3; 2; 1]] in
  (exists t, @sarp_set_all demo_libc rs sarp0 = Ok t /\
    forall dip, is_u32 dip -> sarp_lookup t dip = @route_for demo_libc rs dip) /\
  @route_for demo_libc rs (bytes_int [10; 0; 1; 7]) = Some [1; 2; 3; 4; 5; 6] /\
  @route_for demo_libc rs (bytes_int [10; 0; 2; 7]) = Some [6; 5; 4; 3; 2; 1] /\
  @route_for demo_libc rs (bytes_int [11; 0; 2; 7]) = None.
Proof.
  intros rs. split; [|vm_compute; done].
  apply (@sarp_first_match demo_libc rs); [|simpl; unfold STATIC_ARP_NUM; lia].
  repeat constructor; simpl; unfold is_u8; lia.
Defined.
