(* ===== verification/Fifo.v ===== *)
(** The contract of a bounded FIFO queue of pointers.

    [Fifo] is what the circular queues promise to their clients (the
    multi-producer queue, the receive and send buffers, the stream queues).
    [fifo_trace] is the refinement statement that follows from it: every
    sequence of enqueue and dequeue calls returns exactly what the abstract
    bounded list returns. *)
From S2P Require Import Prelude.
#[local] Open Scope Z_scope.

Class Fifo {Q : Type} (wf : Q -> Prop) (contents : Q -> list ptr) (cap : Q -> nat)
    (enq : Q -> ptr -> res (Z * Q)) (deq : Q -> res (ptr * Q)) : Prop := {
  fifo_bound q : wf q -> (length (contents q) <= cap q)%nat;
  fifo_enq_room q x : wf q -> (length (contents q) < cap q)%nat ->
    exists q', enq q x = Ok (SUCCESS, q') /\ wf q' /\
      contents q' = contents q ++ [x] /\ cap q' = cap q;
  fifo_enq_full q x : wf q -> length (contents q) = cap q -> enq q x = Ok (FAILED, q);
  fifo_deq_head q x l : wf q -> contents q = x :: l ->
    exists q', deq q = Ok (x, q') /\ wf q' /\ contents q' = l /\ cap q' = cap q;
  fifo_deq_empty q : wf q -> contents q = [] -> deq q = Ok (NULL, q);
}.

(** The abstract queue: a list of at most [cap] pointers. *)
Inductive fifo_op : Type := Enq (x : ptr) | Deq.

Definition spec_step (cap : nat) (l : list ptr) (o : fifo_op) : Z * list ptr :=
  match o with
  | Enq x => if decide (length l < cap)%nat then (SUCCESS, l ++ [x]) else (FAILED, l)
  | Deq => match l with [] => (NULL, []) | x :: l' => (x, l') end
  end.

Fixpoint spec_run (cap : nat) (l : list ptr) (os : list fifo_op) : list Z * list ptr :=
  match os with
  | [] => ([], l)
  | o :: os' =>
      let '(r, l1) := spec_step cap l o in
      let '(rs, l2) := spec_run cap l1 os' in (r :: rs, l2)
  end.

Section Trace.
  Context {Q : Type} {wf : Q -> Prop} {contents : Q -> list ptr} {cap : Q -> nat}
    {enq : Q -> ptr -> res (Z * Q)} {deq : Q -> res (ptr * Q)}
    `{!Fifo wf contents cap enq deq}.

Definition fifo_step (q : Q) (o : fifo_op) : res (Z * Q) :=
    match o with Enq x => enq q x | Deq => deq q end.

Fixpoint fifo_run (q : Q) (os : list fifo_op) : res (list Z * Q) :=
    match os with
    | [] => Ok ([], q)
    | o :: os' =>
        '(r, q1) ← fifo_step q o;
        '(rs, q2) ← fifo_run q1 os';
        Ok (r :: rs, q2)
    end.

Lemma fifo_step_spec q o :
    wf q -> exists q', fifo_step q o = Ok ((spec_step (cap q) (contents q) o).1, q') /\
      wf q' /\ contents q' = (spec_step (cap q) (contents q) o).2 /\ cap q' = cap q.
  Proof.
    intros Hwf. destruct o as [x|]; simpl.
    - case_decide as Hc; simpl.
      + by apply fifo_enq_room.
      + exists q. pose proof (fifo_bound q Hwf). split_and!; try done.
        apply fifo_enq_full; [done | lia].
    - destruct (contents q) as [|x l] eqn:E; simpl.
      + exists q. split_and!; try done. by apply fifo_deq_empty.
      + destruct (fifo_deq_head q x l Hwf E) as (q' & ? & ? & ? & ?). eauto.
  Qed.

  (** Every run of calls is simulated by the abstract queue. *)
Lemma fifo_trace q os :
    wf q -> exists q', fifo_run q os = Ok ((spec_run (cap q) (contents q) os).1, q') /\
      wf q' /\ contents q' = (spec_run (cap q) (contents q) os).2 /\ cap q' = cap q.
  Proof.
    revert q. induction os as [|o os IH]; intros q Hwf; simpl; [by exists q|].
    destruct (fifo_step_spec q o Hwf) as (q1 & -> & Hwf1 & Hc1 & Hcap1). simpl.
    destruct (spec_step (cap q) (contents q) o) as [r l1]; simpl in *; subst l1.
    destruct (IH q1 Hwf1) as (q2 & -> & Hwf2 & Hc2 & Hcap2). rewrite Hcap1 in *.
    destruct (spec_run (cap q) (contents q1) os) as [rs l2]; simpl in *.
    exists q2. split_and!; done.
  Qed.
End Trace.
