(* ===== verification/CircularQueue.v ===== *)
(** The lock-free single-producer single-consumer circular queue
    ([tools/src/include/circular_queue.h], compiled with [SIMPLE_HEADTAIL] and
    without [DPDK_RTE_RING]), its two storage modes, and the pool of queue
    arrays ([fast_cirq_mempool]). *)
From S2P Require Import Prelude Fifo.
#[local] Open Scope Z_scope.

(** * The queue *)

(** The union [{ void **queue; void *d_queue[8]; }]: which member is in use.
    An access through the other member is a [WildAccess]. *)
Inductive storage : Type :=
  | Heap (cells : list ptr)     (* queue points to an array of size cells *)
  | Direct (cells : list ptr).  (* the items are in d_queue itself *)

Record circular_queue : Type := Cirq {
  q_head : Z;          (* index which ready to insert *)
  q_store : storage;
  q_size : Z;          (* queue size *)
  q_tail : Z;          (* index which ready to get *)
}.

#[export] Instance circular_queue_rebuild : Rebuild circular_queue := fun q =>
  Cirq (q_head q) (q_store q) (q_size q) (q_tail q).

Definition STATIC_BUFF_SIZE : Z := 8.

(** [q->queue[i]] and [q->d_queue[i]]. *)
Definition via_queue (q : circular_queue) : res (list ptr) :=
  match q_store q with Heap c => Ok c | Direct _ => Fault WildAccess end.
Definition via_d_queue (q : circular_queue) : res (list ptr) :=
  match q_store q with Direct c => Ok c | Heap _ => Fault WildAccess end.

Definition cirq_pree (q : circular_queue) (p : Z) : Z :=
  if decide (p = 0) then u32 (q_size q - 1) else p - 1.

Definition cirq_succ (q : circular_queue) (p : Z) : res Z :=
  if decide (q_size q = 0) then Fault DivByZero
  else Ok (u32 (p + 1) `mod` q_size q).

Definition cirq_full (q : circular_queue) : res bool :=
  s ← cirq_succ q (q_head q); Ok (bool_decide (s = q_tail q)).

Definition cirq_empty (q : circular_queue) : bool := bool_decide (q_head q = q_tail q).

Definition cirq_count (q : circular_queue) : Z :=
  if decide (q_tail q <= q_head q) then u32 (q_head q - q_tail q)
  else u32 (u32 (q_head q + q_size q) - q_tail q).

(** [calloc] zeroes the array. *)
Definition cirq_init (size : Z) : circular_queue :=
  Cirq 0 (Heap (replicate (Z.to_nat size) NULL)) size 0.

Definition cirq_add (q : circular_queue) (item : ptr) : res (Z * circular_queue) :=
  full ← cirq_full q;
  if (full : bool) then Ok (FAILED, q) else
  cells ← via_queue q;
  cells' ← write_at cells (q_head q) item;
  let q := q <| q_store := Heap cells' |> in
  h ← cirq_succ q (q_head q);
  Ok (SUCCESS, q <| q_head := h |>).

Definition cirq_get (q : circular_queue) : res (ptr * circular_queue) :=
  if cirq_empty q then Ok (NULL, q) else
  cells ← via_queue q;
  ret ← read_at cells (q_tail q);
  t ← cirq_succ q (q_tail q);
  Ok (ret, q <| q_tail := t |>).

Definition cirq_prefetch (q : circular_queue) : res ptr :=
  if cirq_empty q then Ok NULL else
  cells ← via_queue q; read_at cells (q_tail q).

(** The slot pointer [&q->queue[q->head]] is represented by the index. *)
Definition cirq_get_wslot (q : circular_queue) : res Z :=
  _ ← via_queue q; Ok (q_head q).

Definition cirq_writen (q : circular_queue) : res (Z * circular_queue) :=
  full ← cirq_full q;
  if (full : bool) then Ok (FAILED, q) else
  h ← cirq_succ q (q_head q); Ok (SUCCESS, q <| q_head := h |>).

(** [mem] is the address [calloc] returns. *)
Definition cirq_init_slot (q : circular_queue) (mem slot_size : Z) : res circular_queue :=
  cells ← via_queue q;
  if decide (Z.of_nat (length cells) < q_size q) then Fault OutOfBounds else
  Ok (q <| q_store := Heap
        (imap (fun i c => if decide (Z.of_nat i < q_size q)
                          then mem + Z.of_nat i * slot_size else c) cells) |>).

(** The first index of [item] among [cells[i..last)]. *)
Fixpoint scan_range (cells : list ptr) (i : Z) (n : nat) (item : ptr) : res (option Z) :=
  match n with
  | O => Ok None
  | S n' => x ← read_at cells i;
            if decide (x = item) then Ok (Some i) else scan_range cells (i + 1) n' item
  end.

(** The guard is [if (cirq_empty)], without a call: the address of a function,
    which is never null. *)
Definition cirq_scan (q : circular_queue) (item : ptr) : res Z :=
  let function_address_is_true := true in
  if function_address_is_true then Ok (-1) else
  cells ← via_queue q;
  let range i last := scan_range cells i (Z.to_nat (last - i)) item in
  if decide (q_tail q < q_head q) then
    r ← range (q_tail q) (q_head q); Ok (default (-1) r)
  else
    r1 ← range (q_tail q) (q_size q);
    match r1 with
    | Some i => Ok i
    | None => r2 ← range 0 (q_head q); Ok (default (-1) r2)
    end.

(** ** Direct mode: the items are stored in the structure *)

Definition dir_cirq_init (q : circular_queue) : Z * circular_queue :=
  (SUCCESS, q <| q_head := 0 |> <| q_tail := 0 |> <| q_size := STATIC_BUFF_SIZE |>).

Definition dir_cirq_add (q : circular_queue) (item : ptr) : res (Z * circular_queue) :=
  full ← cirq_full q;
  if (full : bool) then Ok (FAILED, q) else
  cells ← via_d_queue q;
  cells' ← write_at cells (q_head q) item;
  let q := q <| q_store := Direct cells' |> in
  h ← cirq_succ q (q_head q);
  Ok (SUCCESS, q <| q_head := h |>).

Definition dir_cirq_get (q : circular_queue) : res (ptr * circular_queue) :=
  if cirq_empty q then Ok (NULL, q) else
  cells ← via_d_queue q;
  ret ← read_at cells (q_tail q);
  t ← cirq_succ q (q_tail q);
  Ok (ret, q <| q_tail := t |>).

(** ** The pool of queue arrays *)
Record fast_cirq_mempool : Type := FastPool {
  free_queues : list ptr;
  fp_size : Z;         (* num of queues in the mempool *)
  fp_point : Z;        (* point to the available queue *)
  fp_length : Z;       (* length of every queue *)
}.

#[export] Instance fast_cirq_mempool_rebuild : Rebuild fast_cirq_mempool := fun m =>
  FastPool (free_queues m) (fp_size m) (fp_point m) (fp_length m).

(** [tmp] is the address [calloc] returns; arrays are [length] pointers wide. *)
Definition fast_cirq_mempool_init (tmp size length : Z) : fast_cirq_mempool :=
  FastPool ((fun i => tmp + Z.of_nat i * length * 8) <$> seq 0 (Z.to_nat size))
    size (u32 (size - 1)) length.

Definition fast_cirq_mempool_alloc (mp : fast_cirq_mempool)
    : res (ptr * fast_cirq_mempool) :=
  if decide (fp_point mp = 0) then Fault Exit else
  c ← read_at (free_queues mp) (fp_point mp);
  Ok (c, mp <| fp_point := fp_point mp - 1 |>).

Definition fast_cirq_mempool_free (mp : fast_cirq_mempool) (item : ptr)
    : res fast_cirq_mempool :=
  if decide (fp_point mp = u32 (fp_size mp - 1)) then Fault Exit else
  l ← write_at (free_queues mp) (fp_point mp) item;
  Ok (mp <| free_queues := l |> <| fp_point := u32 (fp_point mp + 1) |>).

(** * Well-formedness and the abstract contents *)

Definition q_cells (q : circular_queue) : list ptr :=
  match q_store q with Heap c | Direct c => c end.
Definition is_heap (q : circular_queue) : Prop :=
  match q_store q with Heap _ => True | Direct _ => False end.
Definition is_direct (q : circular_queue) : Prop :=
  match q_store q with Heap _ => False | Direct _ => True end.

(** The size fits [uint32_t], the indexes are below it and the array has
    [size] cells. *)
Record cirq_wf (q : circular_queue) : Prop := {
  wf_size : 0 < q_size q < 2 ^ 32;
  wf_head : 0 <= q_head q < q_size q;
  wf_tail : 0 <= q_tail q < q_size q;
  wf_cells : Z.of_nat (length (q_cells q)) = q_size q;
}.

(** The [k]-th item behind the tail. *)
Definition slot (q : circular_queue) (k : nat) : ptr :=
  q_cells q !!! Z.to_nat ((q_tail q + Z.of_nat k) `mod` q_size q).
Definition cirq_contents (q : circular_queue) : list ptr :=
  slot q <$> seq 0 (Z.to_nat (cirq_count q)).
Definition cirq_cap (q : circular_queue) : nat := Z.to_nat (q_size q - 1).

Lemma cirq_count_spec q :
  cirq_wf q -> 0 <= cirq_count q < q_size q /\
    q_head q = (q_tail q + cirq_count q) `mod` q_size q.
Proof.
  intros [Hs Hh Ht _]. unfold cirq_count. case_decide.
  - rewrite u32_id by (unfold is_u32; lia). split; [lia|].
    replace (q_tail q + (q_head q - q_tail q)) with (q_head q) by lia.
    by rewrite Z.mod_small.
  - rewrite u32_sub_l, u32_id by (unfold is_u32; lia). split; [lia|].
    replace (q_tail q + (q_head q + q_size q - q_tail q))
      with (q_head q + 1 * q_size q) by lia.
    rewrite Z_mod_plus_full. by rewrite Z.mod_small.
Qed.

(** Distinct distances below [size] from the tail are distinct cells. *)
Lemma mod_offset_inj n t j k :
  0 <= j < n -> 0 <= k < n -> (t + j) `mod` n = (t + k) `mod` n -> j = k.
Proof.
  intros Hj Hk E. rewrite !Z.mod_eq in E by lia.
  set (m := (t + j) / n - (t + k) / n).
  assert (j - k = n * m) by (subst m; lia). clearbody m.
  assert (m = 0) by nia. nia.
Qed.

(** The count only depends on the distance between the indexes. *)
Lemma cirq_count_unique q n :
  cirq_wf q -> 0 <= n < q_size q -> q_head q = (q_tail q + n) `mod` q_size q ->
  cirq_count q = n.
Proof.
  intros Hwf Hn Hh. destruct (cirq_count_spec q Hwf) as [Hc Hh'].
  apply (mod_offset_inj (q_size q) (q_tail q)); congruence.
Qed.

Lemma cirq_succ_wf q p :
  cirq_wf q -> 0 <= p < q_size q -> cirq_succ q p = Ok ((p + 1) `mod` q_size q).
Proof.
  intros [Hs _ _ _] Hp. unfold cirq_succ. rewrite decide_False by lia.
  rewrite u32_id by (unfold is_u32; lia). done.
Qed.

Lemma cirq_length q : cirq_wf q -> Z.of_nat (length (cirq_contents q)) = cirq_count q.
Proof.
  intros Hwf. destruct (cirq_count_spec q Hwf).
  unfold cirq_contents. rewrite length_fmap, length_seq. lia.
Qed.

Lemma cirq_empty_spec q :
  cirq_wf q -> cirq_empty q = bool_decide (cirq_contents q = []).
Proof.
  intros Hwf. unfold cirq_empty. apply bool_decide_ext.
  pose proof (cirq_length q Hwf) as Hl. destruct (cirq_count_spec q Hwf) as [Hc Hh].
  split; intros E.
  - apply nil_length_inv. enough (cirq_count q = 0) by lia.
    apply cirq_count_unique; [done | lia |].
    rewrite E, Z.add_0_r, Z.mod_small; [done | apply (wf_tail q Hwf)].
  - rewrite E in Hl. simpl in Hl. rewrite Hh, <- Hl, Z.add_0_r.
    apply Z.mod_small, (wf_tail q Hwf).
Qed.

Lemma cirq_full_spec q :
  cirq_wf q -> cirq_full q = Ok (bool_decide (length (cirq_contents q) = cirq_cap q)).
Proof.
  intros Hwf. unfold cirq_full. rewrite cirq_succ_wf by (try done; apply (wf_head q Hwf)).
  simpl. f_equal. apply bool_decide_ext. unfold cirq_cap.
  pose proof (cirq_length q Hwf) as Hl. destruct (cirq_count_spec q Hwf) as [Hc Hh].
  pose proof (wf_tail q Hwf). pose proof (wf_size q Hwf).
  assert ((q_head q + 1) `mod` q_size q = (q_tail q + (cirq_count q + 1)) `mod` q_size q) as Ht.
  { rewrite Hh, Zplus_mod_idemp_l. f_equal. lia. }
  split; intros E.
  - enough (cirq_count q + 1 = q_size q) by lia.
    destruct (decide (cirq_count q + 1 = q_size q)); [done|exfalso].
    rewrite Ht in E.
    assert (q_tail q = (q_tail q + 0) `mod` q_size q) as E0
      by (rewrite Z.add_0_r, Z.mod_small; lia).
    rewrite E0 in E at 2. apply mod_offset_inj in E; lia.
  - rewrite Ht. replace (cirq_count q + 1) with (1 * q_size q) by lia.
    rewrite Z_mod_plus_full. apply Z.mod_small. lia.
Qed.

Lemma cirq_bound q : cirq_wf q -> (length (cirq_contents q) <= cirq_cap q)%nat.
Proof.
  intros Hwf. pose proof (cirq_length q Hwf). destruct (cirq_count_spec q Hwf).
  unfold cirq_cap. lia.
Qed.

(** The cell at the head holds no stored item: writing it changes none. *)
Lemma store_free_slot q q' x (k : nat) :
  cirq_wf q -> q_size q' = q_size q -> q_tail q' = q_tail q ->
  q_cells q' = <[Z.to_nat (q_head q) := x]> (q_cells q) ->
  Z.of_nat k < cirq_count q -> slot q' k = slot q k.
Proof.
  intros Hwf Hs Ht Hc Hk. destruct (cirq_count_spec q Hwf) as [Hcnt Hhd].
  pose proof (wf_head q Hwf). unfold slot. rewrite Hc, Hs, Ht.
  apply list_lookup_total_insert_ne.
  intros E. apply Z2Nat.inj in E; [| lia | apply Z.mod_pos_bound; lia].
  rewrite Hhd in E. apply mod_offset_inj in E; lia.
Qed.

Lemma store_contents q q' x :
  cirq_wf q -> q_size q' = q_size q -> q_tail q' = q_tail q -> q_head q' = q_head q ->
  q_cells q' = <[Z.to_nat (q_head q) := x]> (q_cells q) ->
  cirq_wf q' /\ cirq_contents q' = cirq_contents q /\
  q_cells q' !! Z.to_nat (q_head q') = Some x.
Proof.
  intros Hwf Hs Ht Hh Hc. destruct (Hwf) as [Hws Hwh Hwt Hwc]. split_and!.
  - split; rewrite ?Hs, ?Ht, ?Hh, ?Hc, ?length_insert; done.
  - unfold cirq_contents, cirq_count. rewrite Hs, Ht, Hh. fold (cirq_count q).
    apply list_fmap_ext. intros i k [-> Hk]%lookup_seq.
    apply (store_free_slot q q' x); try done. lia.
  - rewrite Hh, Hc. apply list_lookup_insert_eq. lia.
Qed.

(** Writing an item at the head and publishing it appends to the contents;
    this is the effect of both storage modes. *)
Lemma publish_contents q q' x :
  cirq_wf q -> (length (cirq_contents q) < cirq_cap q)%nat ->
  q_size q' = q_size q -> q_tail q' = q_tail q ->
  q_head q' = (q_head q + 1) `mod` q_size q ->
  q_cells q' = <[Z.to_nat (q_head q) := x]> (q_cells q) ->
  cirq_wf q' /\ cirq_contents q' = cirq_contents q ++ [x].
Proof.
  intros Hwf Hroom Hs Ht Hh Hc. pose proof (cirq_length q Hwf) as Hl.
  destruct (cirq_count_spec q Hwf) as [Hcnt Hhd]. unfold cirq_cap in Hroom.
  pose proof (wf_size q Hwf). pose proof (wf_head q Hwf). pose proof (wf_cells q Hwf).
  assert (cirq_wf q') as Hwf'.
  { split; rewrite ?Hs, ?Ht, ?Hh, ?Hc, ?length_insert; try done.
    - apply Z.mod_pos_bound. lia.
    - apply (wf_tail q Hwf). }
  split; [done|].
  assert (cirq_count q' = cirq_count q + 1) as Hcnt'.
  { apply cirq_count_unique; [done | rewrite Hs; lia |].
    rewrite Hh, Ht, Hs, Hhd, Zplus_mod_idemp_l. f_equal. lia. }
  unfold cirq_contents. rewrite Hcnt'.
  replace (Z.to_nat (cirq_count q + 1)) with (Z.to_nat (cirq_count q) + 1)%nat by lia.
  rewrite seq_app, fmap_app. simpl. f_equal.
  - apply list_fmap_ext. intros i k Hk. apply lookup_seq in Hk as [-> Hk].
    apply (store_free_slot q q' x); try done. lia.
  - f_equal. unfold slot. rewrite Hc, Hs, Ht.
    replace (Z.to_nat ((q_tail q + Z.of_nat (Z.to_nat (cirq_count q))) `mod` q_size q))
      with (Z.to_nat (q_head q)).
    2:{ rewrite Hhd. do 3 f_equal. lia. }
    apply list_lookup_total_insert_eq. lia.
Qed.

(** Advancing the tail of a non-empty queue removes its first item. *)
Lemma consume_contents q q' x l :
  cirq_wf q -> cirq_contents q = x :: l ->
  q_size q' = q_size q -> q_head q' = q_head q -> q_cells q' = q_cells q ->
  q_tail q' = (q_tail q + 1) `mod` q_size q ->
  cirq_wf q' /\ cirq_contents q' = l /\ q_cells q !! Z.to_nat (q_tail q) = Some x.
Proof.
  intros Hwf Hx Hs Hh Hc Ht. pose proof (cirq_length q Hwf) as Hl.
  destruct (cirq_count_spec q Hwf) as [Hcnt Hhd].
  pose proof (wf_size q Hwf). pose proof (wf_tail q Hwf). pose proof (wf_cells q Hwf).
  rewrite Hx in Hl. simpl in Hl.
  assert (cirq_wf q') as Hwf'.
  { split; rewrite ?Hs, ?Hh, ?Hc, ?Ht; try done.
    - apply (wf_head q Hwf).
    - apply Z.mod_pos_bound. lia. }
  assert (cirq_count q' = cirq_count q - 1) as Hcnt'.
  { apply cirq_count_unique; [done | rewrite Hs; lia |].
    rewrite Hh, Ht, Hs, Zplus_mod_idemp_l, Hhd. f_equal. lia. }
  unfold cirq_contents in Hx |- *.
  replace (Z.to_nat (cirq_count q)) with (S (Z.to_nat (cirq_count q'))) in Hx by lia.
  simpl in Hx. injection Hx as Hx0 Hxl. split_and!; [done| |].
  - rewrite <- Hxl, <- fmap_S_seq, <- list_fmap_compose. apply list_fmap_ext.
    intros i k _. unfold slot. simpl. rewrite Hc, Hs, Ht, Zplus_mod_idemp_l.
    do 3 f_equal. lia.
  - rewrite <- Hx0. unfold slot. rewrite Z.add_0_r, Z.mod_small by lia.
    apply list_lookup_lookup_total_lt. lia.
Qed.

(** The indexes of a well-formed queue are in bounds. *)
Lemma write_head_ok q x :
  cirq_wf q ->
  write_at (q_cells q) (q_head q) x = Ok (<[Z.to_nat (q_head q) := x]> (q_cells q)).
Proof.
  intros [? ? ? Hc]. unfold write_at. rewrite decide_True by lia. done.
Qed.

Lemma read_tail_ok q x :
  cirq_wf q -> q_cells q !! Z.to_nat (q_tail q) = Some x ->
  read_at (q_cells q) (q_tail q) = Ok x.
Proof.
  intros [? ? ? _] H. unfold read_at. rewrite decide_True by lia. by rewrite H.
Qed.

(** * The two storage modes implement [Fifo] *)

Definition heap_wf (q : circular_queue) : Prop := cirq_wf q /\ is_heap q.
Definition direct_wf (q : circular_queue) : Prop := cirq_wf q /\ is_direct q.

(** One [cirq_add] or [dir_cirq_add] with the store [st c] already selected. *)
Lemma add_room (st : list ptr -> storage) q x :
  (forall c, q_cells (q <| q_store := st c |>) = c) ->
  cirq_wf q -> (length (cirq_contents q) < cirq_cap q)%nat ->
  let q1 := q <| q_store := st (<[Z.to_nat (q_head q) := x]> (q_cells q)) |> in
  exists h, cirq_succ q1 (q_head q1) = Ok h /\
    cirq_wf (q1 <| q_head := h |>) /\
    cirq_contents (q1 <| q_head := h |>) = cirq_contents q ++ [x].
Proof.
  intros Hst Hwf Hroom q1. exists ((q_head q + 1) `mod` q_size q).
  split.
  - apply (cirq_succ_wf q (q_head q) Hwf). apply (wf_head q Hwf).
  - apply (publish_contents q); try done. apply Hst.
Qed.

Lemma get_head (st : list ptr -> storage) q x l :
  cirq_wf q -> cirq_contents q = x :: l ->
  exists t, cirq_succ q (q_tail q) = Ok t /\ read_at (q_cells q) (q_tail q) = Ok x /\
    cirq_wf (q <| q_tail := t |>) /\ cirq_contents (q <| q_tail := t |>) = l.
Proof.
  intros Hwf Hx. exists ((q_tail q + 1) `mod` q_size q).
  destruct (consume_contents q (q <| q_tail := (q_tail q + 1) `mod` q_size q |>) x l)
    as (? & ? & Hr); try done.
  split_and!; [| | done..].
  - apply cirq_succ_wf; [done | apply (wf_tail q Hwf)].
  - by apply read_tail_ok.
Qed.

#[export] Instance cirq_fifo : Fifo heap_wf cirq_contents cirq_cap cirq_add cirq_get.
Proof.
  split.
  - intros q [Hwf _]. by apply cirq_bound.
  - intros q x [Hwf Hheap] Hroom. unfold cirq_add.
    rewrite cirq_full_spec by done. simpl. rewrite bool_decide_false by lia.
    destruct (add_room Heap q x ltac:(done) Hwf Hroom) as (h & Hh & Hwf' & Hc').
    unfold is_heap, via_queue, q_cells in *.
    destruct (q_store q) as [c|] eqn:Es; [|done]. simpl.
    pose proof (write_head_ok q x Hwf) as Hw. unfold q_cells in Hw. rewrite Es in Hw.
    rewrite Hw. simpl in *. rewrite Hh. simpl. by eexists; split_and!.
  - intros q x [Hwf _] Hl. unfold cirq_add. rewrite cirq_full_spec by done. simpl.
    by rewrite bool_decide_true.
  - intros q x l [Hwf Hheap] Hx. unfold cirq_get. rewrite cirq_empty_spec, Hx by done.
    rewrite bool_decide_false by done.
    destruct (get_head Heap q x l Hwf Hx) as (t & Ht & Hr & Hwf' & Hc').
    unfold is_heap, via_queue, q_cells in *.
    destruct (q_store q) as [c|] eqn:Es; [|done]. simpl.
    rewrite Hr. simpl. rewrite Ht. simpl. eexists; split_and!; try done.
    split; [done|]. unfold is_heap, is_direct, update. simpl. by rewrite Es.
  - intros q [Hwf _] Hx. unfold cirq_get. rewrite cirq_empty_spec, Hx by done.
    by rewrite bool_decide_true.
Qed.

(** The heap operations on a direct-mode queue take the first item for the
    address of the array. *)
Lemma direct_cirq_add_wild q x :
  direct_wf q -> (length (cirq_contents q) < cirq_cap q)%nat -> cirq_add q x = Fault WildAccess.
Proof.
  intros [Hwf Hdir] Hroom. unfold cirq_add. rewrite cirq_full_spec by done. simpl.
  rewrite bool_decide_false by lia. unfold is_direct, via_queue in *. by destruct (q_store q).
Qed.

#[export] Instance dir_cirq_fifo :
  Fifo direct_wf cirq_contents cirq_cap dir_cirq_add dir_cirq_get.
Proof.
  split.
  - intros q [Hwf _]. by apply cirq_bound.
  - intros q x [Hwf Hdir] Hroom. unfold dir_cirq_add.
    rewrite cirq_full_spec by done. simpl. rewrite bool_decide_false by lia.
    destruct (add_room Direct q x ltac:(done) Hwf Hroom) as (h & Hh & Hwf' & Hc').
    unfold is_direct, via_d_queue, q_cells in *.
    destruct (q_store q) as [|c] eqn:Es; [done|]. simpl.
    pose proof (write_head_ok q x Hwf) as Hw. unfold q_cells in Hw. rewrite Es in Hw.
    rewrite Hw. simpl in *. rewrite Hh. simpl. by eexists; split_and!.
  - intros q x [Hwf _] Hl. unfold dir_cirq_add. rewrite cirq_full_spec by done. simpl.
    by rewrite bool_decide_true.
  - intros q x l [Hwf Hdir] Hx. unfold dir_cirq_get. rewrite cirq_empty_spec, Hx by done.
    rewrite bool_decide_false by done.
    destruct (get_head Direct q x l Hwf Hx) as (t & Ht & Hr & Hwf' & Hc').
    unfold is_direct, via_d_queue, q_cells in *.
    destruct (q_store q) as [|c] eqn:Es; [done|]. simpl.
    rewrite Hr. simpl. rewrite Ht. simpl. eexists; split_and!; try done.
    split; [done|]. unfold is_heap, is_direct, update. simpl. by rewrite Es.
  - intros q [Hwf _] Hx. unfold dir_cirq_get. rewrite cirq_empty_spec, Hx by done.
    by rewrite bool_decide_true.
Qed.

Lemma cirq_init_wf size :
  0 < size < 2 ^ 32 -> heap_wf (cirq_init size) /\ cirq_contents (cirq_init size) = [].
Proof.
  intros Hs. split; [split; [split|]|]; simpl; try (done || lia).
  unfold q_cells. simpl. rewrite length_replicate. lia.
Qed.

(** C15. The circular queue is a bounded FIFO: from [cirq_init size], any
    sequence of [cirq_add] and [cirq_get] calls never faults and returns, call
    by call, what a list of capacity [size - 1] returns: SUCCESS and the item
    appended, FAILED when [size - 1] items are stored, the oldest item, or NULL
    when there is none. *)
Theorem cirq_refines_fifo size os :
  0 < size < 2 ^ 32 ->
  exists q', fifo_run (enq:=cirq_add) (deq:=cirq_get) (cirq_init size) os =
      Ok ((spec_run (Z.to_nat (size - 1)) [] os).1, q') /\
    heap_wf q' /\ cirq_contents q' = (spec_run (Z.to_nat (size - 1)) [] os).2.
Proof.
  intros Hs. destruct (cirq_init_wf size Hs) as [Hwf Hc].
  destruct (fifo_trace (cirq_init size) os Hwf) as (q' & Hr & Hwf' & Hc' & _).
  rewrite Hc in Hr, Hc'. eauto.
Qed.

Lemma cirq_refines_fifo_witness :
  exists q', fifo_run (enq:=cirq_add) (deq:=cirq_get) (cirq_init 3)
      [Enq 11; Enq 12; Enq 13; Deq; Enq 14; Deq; Deq; Deq] =
      Ok ([1; 1; -2; 11; 1; 12; 14; 0], q') /\ heap_wf q' /\ cirq_contents q' = [].
Proof.
  apply (cirq_refines_fifo 3 [Enq 11; Enq 12; Enq 13; Deq; Enq 14; Deq; Deq; Deq]). lia.
Defined.

(** [cirq_scan] never finds anything, whatever the queue holds. *)
Lemma cirq_scan_never_finds q item : cirq_scan q item = Ok (-1).
Proof. done. Qed.

(** [cirq_count] is the number of stored items, also when [head + size]
    overflows [uint32_t]. *)
Lemma cirq_count_length q :
  cirq_wf q -> cirq_count q = Z.of_nat (length (cirq_contents q)).
Proof. intros Hwf. symmetry. by apply cirq_length. Qed.

(** ** The pool hands out an array twice

    [fast_cirq_mempool_free] stores the array at the old [point] and moves
    [point] afterwards, while [fast_cirq_mempool_alloc] reads at [point] before
    moving it: the array just freed ends up in two slots and the array that
    was in the lower slot is lost. *)
Record fast_pool_wf (mp : fast_cirq_mempool) : Prop := {
  fp_wf_size : 0 < fp_size mp < 2 ^ 32;
  fp_wf_point : 0 <= fp_point mp < fp_size mp;
  fp_wf_len : Z.of_nat (length (free_queues mp)) = fp_size mp;
}.

Lemma fast_pool_init_wf tmp size len :
  0 < size < 2 ^ 32 -> fast_pool_wf (fast_cirq_mempool_init tmp size len).
Proof.
  intros Hs. split; simpl; [lia| |].
  - rewrite u32_id; [lia | unfold is_u32; lia].
  - rewrite length_fmap, length_seq. lia.
Qed.

Lemma read_at_total (l : list ptr) i :
  0 <= i < Z.of_nat (length l) -> read_at l i = Ok (l !!! Z.to_nat i).
Proof.
  intros Hi. unfold read_at. rewrite decide_True by lia.
  by rewrite list_lookup_lookup_total_lt by lia.
Qed.

(** Allocating an array, giving it back and allocating twice returns the
    same array both times, whenever at least two arrays were available: two
    queues then share one array. *)
Theorem fast_pool_double_alloc mp :
  fast_pool_wf mp -> 2 <= fp_point mp ->
  exists c mp1 mp2 mp3 mp4,
    fast_cirq_mempool_alloc mp = Ok (c, mp1) /\
    fast_cirq_mempool_free mp1 c = Ok mp2 /\
    fast_cirq_mempool_alloc mp2 = Ok (c, mp3) /\
    fast_cirq_mempool_alloc mp3 = Ok (c, mp4).
Proof.
  intros [Hs Hp Hl] Hp2. destruct mp as [fq sz pt len]; simpl in *.
  unfold fast_cirq_mempool_alloc, fast_cirq_mempool_free, update; simpl.
  rewrite decide_False by lia. rewrite read_at_total by lia. simpl.
  do 2 eexists. eexists (FastPool (<[Z.to_nat (pt - 1) := _]> fq) sz pt len). do 2 eexists.
  split; [done|]. simpl.
  rewrite decide_False by (rewrite u32_id; [lia | unfold is_u32; lia]).
  unfold write_at. rewrite decide_True by lia. simpl.
  rewrite u32_id by (unfold is_u32; lia). replace (pt - 1 + 1) with pt by lia.
  split; [done|]. simpl.
  rewrite decide_False by lia. rewrite read_at_total by (rewrite length_insert; lia). simpl.
  rewrite list_lookup_total_insert_ne by lia.
  split; [done|]. simpl.
  rewrite decide_False by lia. rewrite read_at_total by (rewrite length_insert; lia). simpl.
  by rewrite list_lookup_total_insert_eq by lia.
Qed.

Lemma fast_pool_double_alloc_witness :
  exists c mp1 mp2 mp3 mp4,
    fast_cirq_mempool_alloc (fast_cirq_mempool_init 4096 4 8) = Ok (c, mp1) /\
    fast_cirq_mempool_free mp1 c = Ok mp2 /\
    fast_cirq_mempool_alloc mp2 = Ok (c, mp3) /\
    fast_cirq_mempool_alloc mp3 = Ok (c, mp4).
Proof.
  apply (fast_pool_double_alloc (fast_cirq_mempool_init 4096 4 8)).
  - apply fast_pool_init_wf. lia.
  - vm_compute. discriminate.
Defined.
