(* ===== verification/Spsc.v ===== *)
(** One producer thread and one consumer thread on the same circular queue.

    [cirq_add] and [cirq_get] of [circular_queue.h] are cut at their accesses
    to the shared indexes, so that the two threads interleave at every point:
    the producer tests [full], then stores the item, then (after
    [_mm_sfence]) publishes the new head; the consumer tests [empty], then
    reads the item, then publishes the new tail.  Each step accesses at most
    one index the other thread writes. *)
From S2P Require Import Prelude Fifo CircularQueue.
#[local] Open Scope Z_scope.

Module Spsc.

Inductive prod_pc : Type :=
  | PIdle                     (* outside cirq_add *)
  | PStore (item : ptr)       (* the queue was seen not full *)
  | PPublish (item : ptr).    (* the item is stored, head is not moved yet *)

Inductive cons_pc : Type :=
  | CIdle                     (* outside cirq_get *)
  | CRead                     (* the queue was seen not empty *)
  | CPublish (ret : ptr).     (* the item is read, tail is not moved yet *)

Record state : Type := State {
  queue : circular_queue;
  prod : prod_pc;
  cons : cons_pc;
  sent : list ptr;            (* items whose cirq_add returned SUCCESS *)
  received : list ptr;        (* items cirq_get returned *)
}.

Inductive step : state -> state -> Prop :=
  | step_check_full q c s r :
      cirq_full q = Ok true ->
      step (State q PIdle c s r) (State q PIdle c s r)     (* return FAILED *)
  | step_check_room q item c s r :
      cirq_full q = Ok false ->
      step (State q PIdle c s r) (State q (PStore item) c s r)
  | step_store q item c s r cells cells' :
      via_queue q = Ok cells -> write_at cells (q_head q) item = Ok cells' ->
      step (State q (PStore item) c s r)
           (State (q <| q_store := Heap cells' |>) (PPublish item) c s r)
  | step_publish_head q item c s r h :
      cirq_succ q (q_head q) = Ok h ->
      step (State q (PPublish item) c s r)
           (State (q <| q_head := h |>) PIdle c (s ++ [item]) r)
  | step_check_empty q p s r :
      cirq_empty q = true ->
      step (State q p CIdle s r) (State q p CIdle s r)     (* return NULL *)
  | step_check_item q p s r :
      cirq_empty q = false ->
      step (State q p CIdle s r) (State q p CRead s r)
  | step_read q p s r cells ret :
      via_queue q = Ok cells -> read_at cells (q_tail q) = Ok ret ->
      step (State q p CRead s r) (State q p (CPublish ret) s r)
  | step_publish_tail q p s r ret t :
      cirq_succ q (q_tail q) = Ok t ->
      step (State q p (CPublish ret) s r)
           (State (q <| q_tail := t |>) p CIdle s (r ++ [ret])).

Definition init (size : Z) : state := State (cirq_init size) PIdle CIdle [] [].

(** The steps of a thread the other does not interrupt are [cirq_add] and
    [cirq_get]. *)
Lemma steps_cirq_add q item c s r ret q' :
  cirq_add q item = Ok (ret, q') ->
  rtc step (State q PIdle c s r)
           (State q' PIdle c (if decide (ret = SUCCESS) then s ++ [item] else s) r).
Proof.
  unfold cirq_add. destruct (cirq_full q) as [[]|] eqn:Ef; [| |done]; simpl.
  - intros [= <- <-]. eapply rtc_once. by apply step_check_full.
  - destruct (via_queue q) as [cells|] eqn:Eq; [|done]. simpl.
    destruct (write_at cells (q_head q) item) as [cells'|] eqn:Ew; [|done]. simpl.
    destruct (cirq_succ _ _) as [h|] eqn:Es; [|done]. intros [= <- <-].
    rewrite decide_True by done. eapply rtc_l; [by apply (step_check_room _ item)|].
    eapply rtc_l; [by eapply step_store|]. eapply rtc_once.
    exact (step_publish_head (q <| q_store := Heap cells' |>) item c s r h Es).
Qed.

Lemma steps_cirq_get q p s r ret q' :
  cirq_get q = Ok (ret, q') ->
  rtc step (State q p CIdle s r)
           (State q' p CIdle s (if cirq_empty q then r else r ++ [ret])).
Proof.
  unfold cirq_get. destruct (cirq_empty q) eqn:Ee.
  - intros [= <- <-]. eapply rtc_once. by apply step_check_empty.
  - destruct (via_queue q) as [cells|] eqn:Eq; [|done]. simpl.
    destruct (read_at cells (q_tail q)) as [x|] eqn:Er; [|done]. simpl.
    destruct (cirq_succ _ _) as [t|] eqn:Es; [|done]. intros [= <- <-].
    eapply rtc_l; [by apply step_check_item|].
    eapply rtc_l; [by eapply step_read|]. eapply rtc_once. by apply step_publish_tail.
Qed.

(** ** The invariant *)

Definition prod_inv (q : circular_queue) (p : prod_pc) : Prop :=
  match p with
  | PIdle => True
  | PStore _ => (length (cirq_contents q) < cirq_cap q)%nat
  | PPublish item => (length (cirq_contents q) < cirq_cap q)%nat /\
                     q_cells q !! Z.to_nat (q_head q) = Some item
  end.

Definition cons_inv (q : circular_queue) (c : cons_pc) : Prop :=
  match c with
  | CIdle => True
  | CRead => cirq_contents q <> []
  | CPublish ret => exists l, cirq_contents q = ret :: l
  end.

Record inv (size : Z) (st : state) : Prop := {
  inv_size : q_size (queue st) = size;
  inv_wf : heap_wf (queue st);
  inv_prod : prod_inv (queue st) (prod st);
  inv_cons : cons_inv (queue st) (cons st);
  inv_fifo : sent st = received st ++ cirq_contents (queue st);
}.

Lemma heap_store q cells : q_store q = Heap cells -> q_cells q = cells.
Proof. unfold q_cells. by intros ->. Qed.

Lemma via_queue_Heap q cells : via_queue q = Ok cells -> q_store q = Heap cells.
Proof. unfold via_queue. destruct (q_store q); congruence. Qed.

Lemma inv_init size : 0 < size < 2 ^ 32 -> inv size (init size).
Proof.
  intros Hs. destruct (cirq_init_wf size Hs) as [Hwf Hc]. by split; simpl; rewrite ?Hc.
Qed.

Lemma inv_producer n q item c s r cells cells' :
  via_queue q = Ok cells -> write_at cells (q_head q) item = Ok cells' ->
  inv n (State q (PStore item) c s r) ->
  inv n (State (q <| q_store := Heap cells' |>) (PPublish item) c s r).
Proof.
  intros Hq Hw [Hn [Hwf _] Hp Hc Hf]. apply via_queue_Heap in Hq. simpl in *.
  pose proof (write_head_ok q item Hwf) as Hw'. rewrite (heap_store q cells Hq) in Hw'.
  rewrite Hw in Hw'. injection Hw' as ->.
  destruct (store_contents q (q <| q_store := Heap (<[Z.to_nat (q_head q):=item]> cells) |>)
    item) as (Hwf' & Hc' & Hx); try done.
  { by rewrite (heap_store q cells Hq). }
  split; cbn [queue prod cons sent received]; [done | by split | | | by rewrite Hc'].
  - split; [|done]. by rewrite Hc'.
  - destruct c; simpl in *; rewrite ?Hc'; done.
Qed.

Lemma inv_publish n q item c s r h :
  cirq_succ q (q_head q) = Ok h -> inv n (State q (PPublish item) c s r) ->
  inv n (State (q <| q_head := h |>) PIdle c (s ++ [item]) r).
Proof.
  intros Hh [Hn [Hwf Hheap] [Hroom Hx] Hc Hf]. simpl in *.
  rewrite cirq_succ_wf in Hh by (try done; apply (wf_head q Hwf)). injection Hh as <-.
  destruct (publish_contents q (q <| q_head := (q_head q + 1) `mod` q_size q |>) item)
    as (Hwf' & Hc'); try done.
  { symmetry. by apply list_insert_id. }
  split; cbn [queue prod cons sent received]; [done | by split | done | |].
  - destruct c as [| |ret]; simpl in *; rewrite ?Hc'; [done | by destruct (cirq_contents q) |].
    destruct Hc as [l ->]. by exists (l ++ [item]).
  - rewrite Hc', Hf. by rewrite app_assoc.
Qed.

Lemma inv_consume n q p s r ret t :
  cirq_succ q (q_tail q) = Ok t -> inv n (State q p (CPublish ret) s r) ->
  inv n (State (q <| q_tail := t |>) p CIdle s (r ++ [ret])).
Proof.
  intros Ht [Hn [Hwf Hheap] Hp [l Hl] Hf]. simpl in *.
  rewrite cirq_succ_wf in Ht by (try done; apply (wf_tail q Hwf)). injection Ht as <-.
  destruct (consume_contents q (q <| q_tail := (q_tail q + 1) `mod` q_size q |>) ret l)
    as (Hwf' & Hc' & _); try done.
  split; cbn [queue prod cons sent received]; [done | by split | | done |].
  - destruct p as [|i|i]; simpl in *; [done| |]; rewrite Hc', Hl in *; simpl in *;
      unfold cirq_cap in *; simpl; [lia|]. destruct Hp. split; [lia | done].
  - rewrite Hc', Hf, Hl. by rewrite <- app_assoc.
Qed.

Lemma inv_step n st st' : step st st' -> inv n st -> inv n st'.
Proof.
  intros Hstep. destruct Hstep; intros Hinv; try done.
  - destruct Hinv as [Hn [Hwf ?] Hp Hc Hf]; simpl in *. split; simpl; try done.
    rewrite cirq_full_spec in H by done. injection H as H%bool_decide_eq_false.
    pose proof (cirq_bound q Hwf). lia.
  - by eapply inv_producer.
  - by eapply inv_publish.
  - destruct Hinv as [Hn [Hwf ?] Hp Hc Hf]; simpl in *. split; simpl; try done.
    rewrite cirq_empty_spec in H by done. by apply bool_decide_eq_false in H.
  - destruct Hinv as [Hn [Hwf ?] Hp Hc Hf]; simpl in *. split; simpl; try done.
    destruct (cirq_contents q) as [|x l] eqn:E; [done|].
    destruct (get_head Heap q x l Hwf E) as (? & _ & Hr & _).
    apply via_queue_Heap, heap_store in H. rewrite H in Hr.
    exists l. congruence.
  - by eapply inv_consume.
Qed.

Lemma inv_reachable size st :
  0 < size < 2 ^ 32 -> rtc step (init size) st -> inv size st.
Proof.
  intros Hs Hr. pose proof (inv_init size Hs) as Hi. revert Hi.
  induction Hr as [|x y z Hxy _ IH]; [done|]. intros Hx. apply IH. by eapply inv_step.
Qed.

(** C18. FIFO under concurrency: for every interleaving of one producer and one
    consumer on a queue of any size, the items received are a prefix of the
    items sent, in order, without loss or duplication, what is missing is
    exactly what the queue holds, and the queue never holds more than
    [size - 1] items. *)
Theorem spsc_fifo size st :
  0 < size < 2 ^ 32 -> rtc step (init size) st ->
  sent st = received st ++ cirq_contents (queue st) /\
  (length (cirq_contents (queue st)) <= Z.to_nat (size - 1))%nat.
Proof.
  intros Hs Hr. destruct (inv_reachable size st Hs Hr) as [Hn [Hwf _] _ _ Hf].
  split; [done|]. rewrite <- Hn. by apply cirq_bound.
Qed.

Lemma spsc_fifo_witness :
  [7] = [] ++ cirq_contents (Cirq 1 (Heap [7; 0]) 2 0) /\
  (length (cirq_contents (Cirq 1 (Heap [7; 0]%Z) 2 0)) <= 1)%nat.
Proof.
  apply (spsc_fifo 2 (State (Cirq 1 (Heap [7; 0]) 2 0) PIdle CRead [7] [])); [lia|].
  eapply rtc_l; [by apply (step_check_room _ 7)|].
  eapply rtc_l; [by apply (step_store _ 7 _ _ _ [0; 0] [7; 0])|].
  eapply rtc_l; [by apply (step_publish_head _ 7 _ _ _ 1)|].
  eapply rtc_l; [by apply step_check_item|]. apply rtc_refl.
Defined.

Lemma producer_step n st :
  inv n st -> prod st <> PIdle ->
  exists st', step st st' /\ cons st' = cons st /\ prod st' <> prod st.
Proof.
  destruct st as [q [|item|item] c s r]; intros [Hn [Hwf Hh] Hp _ _] Hne; simpl in *; [done| |].
  - unfold is_heap in Hh. destruct (q_store q) as [cells|] eqn:Es; [|done].
    eexists; split; [eapply step_store|done].
    + unfold via_queue. by rewrite Es.
    + rewrite <- (heap_store q cells Es). by apply write_head_ok.
  - eexists; split; [eapply step_publish_head|done].
    apply cirq_succ_wf; [done | apply (wf_head q Hwf)].
Qed.

Lemma consumer_step n st :
  inv n st -> cons st <> CIdle ->
  exists st', step st st' /\ prod st' = prod st /\ cons st' <> cons st.
Proof.
  destruct st as [q p [| |ret] s r]; intros [Hn [Hwf Hh] _ Hc _] Hne; simpl in *; [done| |].
  - destruct (cirq_contents q) as [|x l] eqn:E; [done|].
    destruct (get_head Heap q x l Hwf E) as (? & _ & Hr & _).
    unfold is_heap in Hh. destruct (q_store q) as [cells|] eqn:Es; [|done].
    rewrite (heap_store q cells Es) in Hr.
    eexists; split; [eapply step_read|done]; [|done].
    unfold via_queue. by rewrite Es.
  - eexists; split; [eapply step_publish_tail|done].
    apply cirq_succ_wf; [done | apply (wf_tail q Hwf)].
Qed.

(** Neither thread can be blocked or made to fault by the other: in every
    reachable state a producer inside [cirq_add] and a consumer inside
    [cirq_get] have a next step of their own. *)
Theorem spsc_progress size st :
  0 < size < 2 ^ 32 -> rtc step (init size) st ->
  (prod st <> PIdle ->
    exists st', step st st' /\ cons st' = cons st /\ prod st' <> prod st) /\
  (cons st <> CIdle ->
    exists st', step st st' /\ prod st' = prod st /\ cons st' <> cons st).
Proof.
  intros Hs Hr. pose proof (inv_reachable size st Hs Hr) as Hinv.
  split; intros Hne; [by eapply producer_step | by eapply consumer_step].
Qed.

Lemma spsc_progress_witness :
  exists st', step (State (cirq_init 2) (PStore 7) CIdle [] []) st' /\
    cons st' = CIdle /\ prod st' <> PStore 7.
Proof.
  apply (spsc_progress 2 (State (cirq_init 2) (PStore 7) CIdle [] [])); [lia | | done].
  eapply rtc_l; [by apply (step_check_room _ 7)|]. apply rtc_refl.
Defined.

End Spsc.
