(* ===== verification/N21Queue.v ===== *)
(** The multi-producer single-consumer queue ([tools/src/include/n21_queue.h],
    with [USING_READY_FLAG] and [USING_PC_COUNETER] 0, so that
    [N21Q_DEQUEUE_STRONG] is defined and [N21Q_PREFETCH] is not) and the stream
    queues built on it ([stream_queue.h]).  One circular queue per producer,
    served round robin. *)
From S2P Require Import Prelude Fifo CircularQueue.
#[local] Open Scope Z_scope.

Record n21_queue : Type := N21 {
  queue_num : Z;                   (* num of circular queues *)
  queue_point : Z;                 (* point to the queue going to get item *)
  queues : list circular_queue;    (* array of circular queues for parallel *)
}.

#[export] Instance n21_queue_rebuild : Rebuild n21_queue := fun q =>
  N21 (queue_num q) (queue_point q) (queues q).

Definition n21q_succ (q : n21_queue) (p : Z) : Z :=
  let p := u8 (p + 1) in if decide (p = queue_num q) then 0 else p.

Fixpoint count_loop (qs : list circular_queue) (ret : Z) : Z :=
  match qs with
  | [] => ret
  | c :: qs' => count_loop qs' (u32 (ret + cirq_count c))
  end.
Definition n21q_count (q : n21_queue) : Z :=
  count_loop (take (Z.to_nat (queue_num q)) (queues q)) 0.

(** The body of the [do { ... } while (!ret && start_point != q->queue_point)]
    loop, with fuel; [advance] tells whether the pointer moves also after an
    item was found. *)
Fixpoint dequeue_loop (advance : bool) (fuel : nat) (start_point : Z) (q : n21_queue)
    : res (ptr * n21_queue) :=
  match fuel with
  | O => Fault NoReturn
  | S fuel' =>
      c ← read_at (queues q) (queue_point q);
      '(ret, c') ← cirq_get c;
      qs ← write_at (queues q) (queue_point q) c';
      let q := q <| queues := qs |> in
      let q := if advance || bool_decide (ret = NULL)
               then q <| queue_point := n21q_succ q (queue_point q) |> else q in
      if bool_decide (ret = NULL) && bool_decide (start_point <> queue_point q)
      then dequeue_loop advance fuel' start_point q
      else Ok (ret, q)
  end.

Definition __n21q_dequeue_strong (q : n21_queue) : res (ptr * n21_queue) :=
  dequeue_loop true (Z.to_nat (queue_num q)) (queue_point q) q.

Definition n21q_dequeue_local (q : n21_queue) : res (ptr * n21_queue) :=
  dequeue_loop false (Z.to_nat (queue_num q)) (queue_point q) q.

Definition __n21q_dequeue (q : n21_queue) : res (ptr * n21_queue) :=
  __n21q_dequeue_strong q.
Definition n21q_dequeue (q : n21_queue) : res (ptr * n21_queue) := __n21q_dequeue q.
Definition n21q_dequeue_strong (q : n21_queue) : res (ptr * n21_queue) :=
  __n21q_dequeue_strong q.

Definition n21q_init (queue_num size : Z) : n21_queue :=
  N21 queue_num 0 (replicate (Z.to_nat queue_num) (cirq_init size)).

Definition n21q_enqueue (q : n21_queue) (q_id : Z) (item : ptr) : res (Z * n21_queue) :=
  c ← read_at (queues q) q_id;
  '(ret, c') ← cirq_add c item;
  qs ← write_at (queues q) q_id c';
  Ok (ret, q <| queues := qs |>).

Definition n21q_get_wslot (q : n21_queue) (q_id : Z) : res Z :=
  c ← read_at (queues q) q_id; cirq_get_wslot c.

Definition n21q_writen (q : n21_queue) (q_id : Z) : res (Z * n21_queue) :=
  c ← read_at (queues q) q_id;
  '(ret, c') ← cirq_writen c;
  qs ← write_at (queues q) q_id c';
  Ok (ret, q <| queues := qs |>).

(** [mem i] is the address the [i]-th [calloc] returns. *)
Fixpoint init_slots (qs : list circular_queue) (i : nat) (mem : nat -> ptr)
    (slot_size : Z) : res (list circular_queue) :=
  match qs with
  | [] => Ok []
  | c :: qs' => c' ← cirq_init_slot c (mem i) slot_size;
                qs'' ← init_slots qs' (S i) mem slot_size; Ok (c' :: qs'')
  end.
Definition n21q_init_slot (q : n21_queue) (mem : nat -> ptr) (slot_size : Z)
    : res n21_queue :=
  qs ← init_slots (queues q) 0 mem slot_size; Ok (q <| queues := qs |>).

(** ** Stream queues *)
Definition streamq_init : Z -> Z -> n21_queue := n21q_init.
Definition streamq_enqueue : n21_queue -> Z -> ptr -> res (Z * n21_queue) := n21q_enqueue.
Definition streamq_dequeue : n21_queue -> res (ptr * n21_queue) := n21q_dequeue_strong.
Definition sstreamq_init : Z -> circular_queue := cirq_init.
Definition sstreamq_enqueue : circular_queue -> ptr -> res (Z * circular_queue) := cirq_add.
Definition sstreamq_dequeue : circular_queue -> res (ptr * circular_queue) := cirq_get.

(** * Well-formedness and behaviour *)

(** Every producer queue is a queue and stores no NULL (the consumer could not
    tell it from an empty queue). *)
Record n21_wf (q : n21_queue) : Prop := {
  n21_num : 0 < queue_num q < 256;
  n21_point : 0 <= queue_point q < queue_num q;
  n21_len : Z.of_nat (length (queues q)) = queue_num q;
  n21_queues : Forall heap_wf (queues q);
  n21_items : Forall (fun c => NULL ∉ cirq_contents c) (queues q);
}.

Definition n21_contents (q : n21_queue) : list (list ptr) := cirq_contents <$> queues q.

Lemma n21q_init_wf num size :
  0 < num < 256 -> 0 < size < 2 ^ 32 ->
  n21_wf (n21q_init num size) /\ Forall (fun l => l = []) (n21_contents (n21q_init num size)).
Proof.
  intros Hn Hs. destruct (cirq_init_wf size Hs) as [Hw Hc]. split.
  - split; simpl; try lia; [rewrite length_replicate; lia | by apply Forall_replicate|].
    apply Forall_replicate. rewrite Hc. set_solver.
  - unfold n21_contents, n21q_init. simpl. rewrite fmap_replicate, Hc. by apply Forall_replicate.
Qed.

(** The queue visited after [k] moves from the current one. *)
Definition visit (q : n21_queue) (k : nat) : nat :=
  Z.to_nat ((queue_point q + Z.of_nat k) `mod` queue_num q).

Lemma n21q_succ_wf q p :
  n21_wf q -> 0 <= p < queue_num q -> n21q_succ q p = (p + 1) `mod` queue_num q.
Proof.
  intros [Hn _ _ _ _] Hp. unfold n21q_succ.
  assert (u8 (p + 1) = p + 1 \/ (u8 (p + 1) = 0 /\ p + 1 = 256)) as Hu by mlia.
  destruct Hu as [-> | [-> Hp1]]; case_decide.
  - rewrite H, Z_mod_same_full. done.
  - rewrite Z.mod_small; lia.
  - lia.
  - lia.
Qed.

Lemma n21_read q i :
  n21_wf q -> 0 <= i < queue_num q ->
  exists c, queues q !! Z.to_nat i = Some c /\ read_at (queues q) i = Ok c /\
    heap_wf c /\ NULL ∉ cirq_contents c.
Proof.
  intros [? ? Hl Hw Hi] Hb.
  destruct (lookup_lt_is_Some_2 (queues q) (Z.to_nat i)) as [c Hc]; [lia|].
  exists c. split_and!; [done| |by eapply Forall_lookup_1|].
  - unfold read_at. rewrite decide_True by lia. by rewrite Hc.
  - by apply (Forall_lookup_1 _ _ _ _ Hi Hc).
Qed.

Lemma n21_write q i c :
  n21_wf q -> 0 <= i < queue_num q ->
  write_at (queues q) i c = Ok (<[Z.to_nat i := c]> (queues q)).
Proof. intros [? ? Hl ? ?] Hb. unfold write_at. by rewrite decide_True by lia. Qed.

Lemma n21_update_wf q i c p :
  n21_wf q -> heap_wf c -> NULL ∉ cirq_contents c -> 0 <= p < queue_num q ->
  n21_wf (N21 (queue_num q) p (<[i := c]> (queues q))).
Proof.
  intros [? ? Hl Hw Hi] Hc Hn Hp. split; simpl; try done.
  - by rewrite length_insert.
  - by apply Forall_insert.
  - by apply Forall_insert.
Qed.

(** The result of serving queue [i] whose items are [x :: l]. *)
Definition served (q : n21_queue) (i : nat) (x : ptr) (l : list ptr) (p : Z)
    (r : ptr) (q' : n21_queue) : Prop :=
  r = x /\ n21_wf q' /\ n21_contents q' = <[i := l]> (n21_contents q) /\
  queue_point q' = p /\ queue_num q' = queue_num q.

(** One [cirq_get] on the [i]-th queue. *)
Lemma n21_serve q (i : nat) x l p :
  n21_wf q -> n21_contents q !! i = Some (x :: l) -> 0 <= p < queue_num q ->
  exists c c', queues q !! i = Some c /\ cirq_get c = Ok (x, c') /\ x <> NULL /\
    served q i x l p x (N21 (queue_num q) p (<[i := c']> (queues q))).
Proof.
  intros Hwf Hx Hp. unfold n21_contents in Hx. rewrite list_lookup_fmap in Hx.
  destruct (queues q !! i) as [c|] eqn:Ec; [|done]. injection Hx as Hx.
  pose proof (Forall_lookup_1 _ _ _ _ (n21_queues q Hwf) Ec) as Hcw.
  pose proof (Forall_lookup_1 _ _ _ _ (n21_items q Hwf) Ec) as Hci. simpl in Hci.
  destruct (fifo_deq_head c x l Hcw Hx) as (c' & Hg & Hcw' & Hc' & _).
  rewrite Hx in Hci. rewrite not_elem_of_cons in Hci.
  exists c, c'. split_and!; [done | done | naive_solver |].
  split_and!; try done.
  - apply n21_update_wf; try done. rewrite Hc'. naive_solver.
  - unfold n21_contents. simpl. by rewrite list_fmap_insert, Hc'.
Qed.

(** One step over an empty queue only moves the pointer. *)
Lemma n21_skip q (i : nat) :
  n21_wf q -> n21_contents q !! i = Some [] ->
  exists c, queues q !! i = Some c /\ cirq_get c = Ok (NULL, c) /\
    <[i := c]> (queues q) = queues q.
Proof.
  intros Hwf Hx. unfold n21_contents in Hx. rewrite list_lookup_fmap in Hx.
  destruct (queues q !! i) as [c|] eqn:Ec; [|done]. injection Hx as Hx.
  pose proof (Forall_lookup_1 _ _ _ _ (n21_queues q Hwf) Ec) as Hcw.
  exists c. split_and!; [done | by apply fifo_deq_empty | by apply list_insert_id].
Qed.

Lemma visit_bound q k : n21_wf q -> 0 <= (queue_point q + Z.of_nat k) `mod` queue_num q < queue_num q.
Proof. intros [? _ _ _ _]. apply Z.mod_pos_bound. lia. Qed.

Definition at_point (q : n21_queue) (p : Z) : n21_queue := N21 (queue_num q) p (queues q).

Lemma at_point_wf q p : n21_wf q -> 0 <= p < queue_num q -> n21_wf (at_point q p).
Proof. intros [? ? ? ? ?] Hp. by split. Qed.

Lemma read_at_visit q k c :
  n21_wf q -> queues q !! visit q k = Some c ->
  read_at (queues q) ((queue_point q + Z.of_nat k) `mod` queue_num q) = Ok c.
Proof.
  intros Hwf Hc. unfold read_at. rewrite decide_True by apply (visit_bound q k Hwf).
  unfold visit in Hc. by rewrite Hc.
Qed.

Lemma succ_visit q k :
  n21_wf q ->
  n21q_succ q ((queue_point q + Z.of_nat k) `mod` queue_num q)
    = (queue_point q + Z.of_nat (S k)) `mod` queue_num q.
Proof.
  intros Hwf. rewrite n21q_succ_wf by (try done; by apply visit_bound).
  rewrite Zplus_mod_idemp_l. f_equal. lia.
Qed.

(** The loop from the [j]-th visited queue on, when the queues before it are
    empty. *)
Lemma dequeue_loop_found advance q m j k x l :
  n21_wf q -> (j <= k)%nat -> (k < j + m)%nat -> (j + m <= Z.to_nat (queue_num q))%nat ->
  (forall i, (j <= i < k)%nat -> n21_contents q !! visit q i = Some []) ->
  n21_contents q !! visit q k = Some (x :: l) ->
  exists q', dequeue_loop advance m (queue_point q)
      (at_point q ((queue_point q + Z.of_nat j) `mod` queue_num q)) = Ok (x, q') /\
    served q (visit q k) x l
      ((queue_point q + Z.of_nat (if advance then S k else k)) `mod` queue_num q) x q'.
Proof.
  intros Hwf. revert j. induction m as [|m IH]; intros j Hjk Hkm Hm He Hx; [lia|]. simpl.
  destruct (decide (j = k)) as [->|Hne].
  - destruct (n21_serve q (visit q k) x l
      ((queue_point q + Z.of_nat (if advance then S k else k)) `mod` queue_num q) Hwf Hx)
      as (c & c' & Hc & Hg & Hxn & Hs).
    { by apply visit_bound. }
    rewrite (read_at_visit q k c) by done. simpl. rewrite Hg. simpl.
    rewrite n21_write by (try done; by apply visit_bound). simpl.
    rewrite (bool_decide_false (x = NULL)) by done. simpl. rewrite orb_false_r.
    unfold visit in *. destruct advance; (eexists; split; [|exact Hs]); [|done].
    unfold at_point, update. simpl.
    change (n21q_succ _ ?p) with (n21q_succ q p). by rewrite succ_visit.
  - destruct (n21_skip q (visit q j)) as (c & Hc & Hg & Hid); [done | apply He; lia |].
    rewrite (read_at_visit q j c) by done. simpl. rewrite Hg. simpl.
    rewrite n21_write by (try done; by apply visit_bound). fold (visit q j). simpl.
    rewrite Hid, orb_true_r. simpl.
    unfold at_point, update. simpl.
    change (n21q_succ _ ?p) with (n21q_succ q p). rewrite succ_visit by done.
    rewrite bool_decide_true.
    2:{ intros E. rewrite <- (Z.mod_small (queue_point q) (queue_num q)) in E at 1
          by apply (n21_point q Hwf).
        rewrite <- (Z.add_0_r (queue_point q)) in E at 1.
        apply mod_offset_inj in E; pose proof (n21_num q Hwf); lia. }
    apply (IH (S j)); try lia; try done. intros i Hi. apply He. lia.
Qed.

Lemma dequeue_loop_none advance q m j :
  n21_wf q -> (0 < m)%nat -> (j + m = Z.to_nat (queue_num q))%nat ->
  (forall i, (j <= i < j + m)%nat -> n21_contents q !! visit q i = Some []) ->
  dequeue_loop advance m (queue_point q)
    (at_point q ((queue_point q + Z.of_nat j) `mod` queue_num q)) = Ok (NULL, q).
Proof.
  intros Hwf. revert j. induction m as [|m IH]; intros j Hm0 Hm He; [lia|]. simpl.
  destruct (n21_skip q (visit q j)) as (c & Hc & Hg & Hid); [done | apply He; lia |].
  rewrite (read_at_visit q j c) by done. simpl. rewrite Hg. simpl.
  rewrite n21_write by (try done; by apply visit_bound). fold (visit q j). simpl.
  rewrite Hid, orb_true_r. simpl. unfold at_point, update. simpl.
  change (n21q_succ _ ?p) with (n21q_succ q p). rewrite succ_visit by done.
  pose proof (n21_num q Hwf). pose proof (n21_point q Hwf).
  destruct m as [|m].
  - assert ((queue_point q + Z.of_nat (S j)) `mod` queue_num q = queue_point q) as ->.
    { replace (Z.of_nat (S j)) with (1 * queue_num q) by lia.
      rewrite Z_mod_plus_full. by apply Z.mod_small. }
    rewrite bool_decide_false by (intros Hf; by apply Hf). by destruct q.
  - rewrite bool_decide_true.
    2:{ intros E. rewrite <- (Z.mod_small (queue_point q) (queue_num q)) in E at 1 by lia.
        rewrite <- (Z.add_0_r (queue_point q)) in E at 1.
        apply mod_offset_inj in E; lia. }
    apply (IH (S j)); [lia | lia |]. intros i Hi. apply He. lia.
Qed.

Lemma at_point_self q : n21_wf q -> at_point q ((queue_point q + Z.of_nat 0) `mod` queue_num q) = q.
Proof.
  intros [? ? _ _ _]. unfold at_point. rewrite Z.add_0_r, Z.mod_small by lia. by destruct q.
Qed.

(** Either all the queues are empty or one of them is the first non-empty one
    in visiting order. *)
Lemma first_nonempty q m :
  n21_wf q -> (m <= Z.to_nat (queue_num q))%nat ->
  (forall i, (i < m)%nat -> n21_contents q !! visit q i = Some []) \/
  exists k x l, (k < m)%nat /\ (forall i, (i < k)%nat -> n21_contents q !! visit q i = Some []) /\
    n21_contents q !! visit q k = Some (x :: l).
Proof.
  intros Hwf. induction m as [|m IH]; intros Hm; [left; lia|].
  destruct IH as [He | (k & x & l & Hk & He & Hx)]; [lia | | right; exists k, x, l; split; [lia|done]].
  destruct (n21_contents q !! visit q m) as [[|x l]|] eqn:E.
  - left. intros i Hi. destruct (decide (i = m)) as [->|]; [done | apply He; lia].
  - right. exists m, x, l. split_and!; [lia | done | done].
  - exfalso. apply lookup_ge_None in E. unfold n21_contents in E.
    rewrite length_fmap in E. pose proof (visit_bound q m Hwf). pose proof (n21_len q Hwf).
    unfold visit in E. lia.
Qed.

(** Every queue is visited within [queue_num] moves. *)
Lemma visit_all q (i : nat) :
  n21_wf q -> Z.of_nat i < queue_num q ->
  exists d, (d < Z.to_nat (queue_num q))%nat /\ visit q d = i.
Proof.
  intros [Hn Hp _ _ _] Hi. exists (Z.to_nat ((Z.of_nat i - queue_point q) `mod` queue_num q)).
  pose proof (Z.mod_pos_bound (Z.of_nat i - queue_point q) (queue_num q) ltac:(lia)).
  split; [lia|]. unfold visit. rewrite Z2Nat.id, Zplus_mod_idemp_r by lia.
  replace (queue_point q + (Z.of_nat i - queue_point q)) with (Z.of_nat i) by lia.
  rewrite Z.mod_small by lia. lia.
Qed.

Lemma dequeue_strong_found q k x l :
  n21_wf q -> (k < Z.to_nat (queue_num q))%nat ->
  (forall i, (i < k)%nat -> n21_contents q !! visit q i = Some []) ->
  n21_contents q !! visit q k = Some (x :: l) ->
  exists q', n21q_dequeue_strong q = Ok (x, q') /\
    served q (visit q k) x l ((queue_point q + Z.of_nat (S k)) `mod` queue_num q) x q'.
Proof.
  intros Hwf Hk He Hx. unfold n21q_dequeue_strong, __n21q_dequeue_strong.
  destruct (dequeue_loop_found true q (Z.to_nat (queue_num q)) 0 k x l) as (q' & Hd & Hs);
    try done; try lia.
  { intros i Hi. apply He. lia. }
  rewrite at_point_self in Hd by done. eauto.
Qed.

Lemma dequeue_strong_none q :
  n21_wf q ->
  (forall i, (i < Z.to_nat (queue_num q))%nat -> n21_contents q !! visit q i = Some []) ->
  n21q_dequeue_strong q = Ok (NULL, q).
Proof.
  intros Hwf He. unfold n21q_dequeue_strong, __n21q_dequeue_strong.
  pose proof (n21_num q Hwf).
  pose proof (dequeue_loop_none true q (Z.to_nat (queue_num q)) 0 Hwf) as Hd.
  rewrite at_point_self in Hd by done. apply Hd; [lia | lia |]. intros i Hi. apply He. lia.
Qed.

(** A dequeue takes the oldest item of the first non-empty queue it visits. *)
Lemma n21_dequeue_cases q :
  n21_wf q ->
  (exists k x l q', n21q_dequeue_strong q = Ok (x, q') /\ x <> NULL /\
     (forall i, (i < k)%nat -> n21_contents q !! visit q i = Some []) /\
     n21_contents q !! visit q k = Some (x :: l) /\
     n21_wf q' /\ n21_contents q' = <[visit q k := l]> (n21_contents q) /\
     queue_point q' = (queue_point q + Z.of_nat (S k)) `mod` queue_num q) \/
  (n21q_dequeue_strong q = Ok (NULL, q) /\ Forall (fun l => l = []) (n21_contents q)).
Proof.
  intros Hwf. destruct (first_nonempty q (Z.to_nat (queue_num q)) Hwf) as
    [He | (k & x & l & Hk & He & Hx)]; [lia| |].
  - right. split; [by apply dequeue_strong_none|].
    apply Forall_lookup_2. intros i l Hl.
    pose proof (lookup_lt_Some _ _ _ Hl) as Hi. unfold n21_contents in Hi.
    rewrite length_fmap in Hi. pose proof (n21_len q Hwf).
    destruct (visit_all q i Hwf) as (d & Hd & <-); [lia|]. rewrite He in Hl by done. congruence.
  - left. destruct (dequeue_strong_found q k x l Hwf Hk He Hx) as (q' & Hd & Hs).
    destruct Hs as (_ & Hwf' & Hc' & Hp' & _).
    destruct (n21_serve q (visit q k) x l 0 Hwf Hx) as (_ & _ & _ & _ & Hxn & _).
    { pose proof (n21_num q Hwf). lia. }
    exists k, x, l, q'. split_and!; done.
Qed.

(** [n21q_dequeue_strong] always returns.  It takes the oldest item of the
    first non-empty producer queue at or after the round-robin pointer, leaves
    the other queues alone and moves the pointer past the queue it served; it
    returns NULL, and changes nothing, exactly when every queue is empty. *)
Theorem n21_dequeue_round_robin q :
  n21_wf q ->
  (exists k x l q', n21q_dequeue_strong q = Ok (x, q') /\ x <> NULL /\
     (forall i, (i < k)%nat -> n21_contents q !! visit q i = Some []) /\
     n21_contents q !! visit q k = Some (x :: l) /\
     n21_wf q' /\ n21_contents q' = <[visit q k := l]> (n21_contents q) /\
     queue_point q' = (queue_point q + Z.of_nat (S k)) `mod` queue_num q) \/
  (n21q_dequeue_strong q = Ok (NULL, q) /\ Forall (fun l => l = []) (n21_contents q)).
Proof. apply n21_dequeue_cases. Qed.

(** A queue of two producers, the pointer on the first and an item only in
    the second. *)
Definition n21_example : n21_queue :=
  N21 2 0 [cirq_init 4; Cirq 1 (Heap [5; 0; 0; 0]) 4 0].

Lemma n21_example_wf : n21_wf n21_example.
Proof.
  split; simpl; try lia; (apply Forall_cons_2; [|apply Forall_cons_2; [|done]]).
  - by apply cirq_init_wf.
  - split; [split; simpl; lia | done].
  - apply (bool_decide_unpack _). by vm_compute.
  - apply (bool_decide_unpack _). by vm_compute.
Qed.

Lemma n21_dequeue_round_robin_witness :
  n21q_dequeue_strong n21_example = Ok (5, N21 2 0 [cirq_init 4; Cirq 1 (Heap [5; 0; 0; 0]) 4 1]).
Proof.
  destruct (n21_dequeue_round_robin n21_example n21_example_wf) as [_ | [H _]];
    [reflexivity | vm_compute in H; discriminate].
Defined.

(** ** Enqueue and fairness *)

(** [n21q_enqueue] on an existing producer queue appends the item there when
    it has room and fails without any change when it is full; the queues of
    the other producers are not touched. *)
Lemma n21_enqueue_spec q (i : nat) l item :
  n21_wf q -> item <> NULL -> n21_contents q !! i = Some l ->
  exists c, queues q !! i = Some c /\
    if decide (length l < cirq_cap c)%nat
    then exists q', n21q_enqueue q (Z.of_nat i) item = Ok (SUCCESS, q') /\ n21_wf q' /\
           n21_contents q' = <[i := l ++ [item]]> (n21_contents q) /\
           queue_point q' = queue_point q
    else n21q_enqueue q (Z.of_nat i) item = Ok (FAILED, q).
Proof.
  intros Hwf Hitem Hl. unfold n21_contents in Hl. rewrite list_lookup_fmap in Hl.
  destruct (queues q !! i) as [c|] eqn:Ec; [|done]. injection Hl as Hl.
  pose proof (Forall_lookup_1 _ _ _ _ (n21_queues q Hwf) Ec) as Hcw.
  pose proof (Forall_lookup_1 _ _ _ _ (n21_items q Hwf) Ec) as Hci. simpl in Hci.
  pose proof (lookup_lt_Some _ _ _ Ec) as Hi.
  exists c. split; [done|]. unfold n21q_enqueue. rewrite (read_at_nat _ _ _ Ec). simpl.
  case_decide as Hroom.
  - destruct (fifo_enq_room c item Hcw) as (c' & Ha & Hcw' & Hc' & _); [by rewrite Hl|].
    rewrite Ha. simpl. rewrite write_at_nat by done. simpl.
    eexists; split_and!; [done| |unfold n21_contents, update; simpl;
      by rewrite list_fmap_insert, Hc', Hl | done].
    apply n21_update_wf; [done | done | | apply (n21_point q Hwf)].
    rewrite Hc'. set_solver.
  - rewrite fifo_enq_full; [|done|pose proof (fifo_bound c Hcw); rewrite Hl in *; lia].
    simpl. rewrite write_at_nat by done. simpl. rewrite list_insert_id by done.
    by destruct q.
Qed.

(** The producers and the consumer at work: enqueues by producer, and dequeues. *)
Inductive n21_op : Type := OEnq (i : nat) (item : ptr) | ODeq.
Inductive n21_event : Type := Put (i : nat) (item : ptr) (ret : Z) | Got (i : nat) (item : ptr).

(** The pointer stands behind the queue that was served last. *)
Definition last_served (q : n21_queue) : nat := Z.to_nat ((queue_point q - 1) `mod` queue_num q).

Fixpoint n21_run (os : list n21_op) (q : n21_queue) : res (list n21_event * n21_queue) :=
  match os with
  | [] => Ok ([], q)
  | OEnq i item :: os' =>
      '(r, q1) ← n21q_enqueue q (Z.of_nat i) item;
      '(t, q2) ← n21_run os' q1; Ok (Put i item r :: t, q2)
  | ODeq :: os' =>
      '(x, q1) ← n21q_dequeue q;
      '(t, q2) ← n21_run os' q1; Ok (Got (last_served q1) x :: t, q2)
  end.

(** What producer [i] was told is queued, and what came from its queue. *)
Fixpoint put_of (i : nat) (t : list n21_event) : list ptr :=
  match t with
  | [] => []
  | Put j x r :: t' => (if decide (j = i /\ r = SUCCESS) then [x] else []) ++ put_of i t'
  | Got _ _ :: t' => put_of i t'
  end.
Fixpoint got_of (i : nat) (t : list n21_event) : list ptr :=
  match t with
  | [] => []
  | Got j x :: t' => (if decide (j = i /\ x <> NULL) then [x] else []) ++ got_of i t'
  | Put _ _ _ :: t' => got_of i t'
  end.
Fixpoint dequeues (os : list n21_op) : Z :=
  match os with [] => 0 | ODeq :: os' => 1 + dequeues os' | OEnq _ _ :: os' => dequeues os' end.

Definition valid_op (num : Z) (o : n21_op) : Prop :=
  match o with OEnq i item => Z.of_nat i < num /\ item <> NULL | ODeq => True end.

Lemma dequeues_nonneg os : 0 <= dequeues os.
Proof. induction os as [|[]]; simpl; lia. Qed.

Lemma n21_lookup q (i : nat) : n21_wf q -> Z.of_nat i < queue_num q -> exists l, n21_contents q !! i = Some l.
Proof.
  intros Hwf Hi. pose proof (n21_len q Hwf). apply lookup_lt_is_Some_2. unfold n21_contents.
  rewrite length_fmap. lia.
Qed.

Lemma visit_inj q j k :
  n21_wf q -> (j < Z.to_nat (queue_num q))%nat -> (k < Z.to_nat (queue_num q))%nat ->
  visit q j = visit q k -> j = k.
Proof.
  intros Hwf Hj Hk E. unfold visit in E. pose proof (visit_bound q k Hwf). pose proof (visit_bound q j Hwf).
  apply Z2Nat.inj in E; try lia. apply mod_offset_inj in E; lia.
Qed.

(** Producer [i], at distance [d] from the pointer, with [l] in its queue: what
    holds of it after the events [t] with [D] dequeues. *)
Definition producer_ok (num : Z) (i d : nat) (l : list ptr) (D : Z) (t : list n21_event) (q' : n21_queue) : Prop :=
  (exists l', n21_contents q' !! i = Some l' /\ l ++ put_of i t = got_of i t ++ l') /\
  Z.min (Z.of_nat (length l)) ((D + num - 1 - Z.of_nat d) / num) <= Z.of_nat (length (got_of i t)).

(** Serving the queue at distance [k] brings the producer nearer, or serves it. *)
Lemma producer_dequeue q q1 k x l0 d l D t q' :
  n21_wf q -> (k < Z.to_nat (queue_num q))%nat -> (d < Z.to_nat (queue_num q))%nat -> 0 <= D ->
  (forall i, (i < k)%nat -> n21_contents q !! visit q i = Some []) ->
  n21_contents q !! visit q k = Some (x :: l0) -> x <> NULL ->
  n21_contents q !! visit q d = Some l ->
  served q (visit q k) x l0 ((queue_point q + Z.of_nat (S k)) `mod` queue_num q) x q1 ->
  (forall d' l', (d' < Z.to_nat (queue_num q))%nat -> n21_contents q1 !! visit q1 d' = Some l' ->
     producer_ok (queue_num q) (visit q1 d') d' l' D t q') ->
  producer_ok (queue_num q) (visit q d) d l (1 + D) (Got (last_served q1) x :: t) q'.
Proof.
  intros Hwf Hk Hd HD He Hx Hxn Hl (_ & Hwf1 & Hc1 & Hp1 & Hn1) IH. pose proof (n21_num q Hwf) as Hnum.
  assert (last_served q1 = visit q k) as ->.
  { unfold last_served, visit. rewrite Hp1, Hn1, Zminus_mod_idemp_l. do 2 f_equal. lia. }
  assert (forall j, visit q1 j = visit q (S k + j)) as Hv.
  { intros j. unfold visit. rewrite Hp1, Hn1, Zplus_mod_idemp_l. do 2 f_equal. lia. }
  destruct (decide (d = k)) as [->|Hne].
  - rewrite Hx in Hl. injection Hl as <-.
    assert (visit q1 (Z.to_nat (queue_num q) - 1) = visit q k) as Hv1.
    { rewrite Hv. unfold visit. f_equal.
      replace (queue_point q + Z.of_nat (S k + (Z.to_nat (queue_num q) - 1)))
        with (queue_point q + Z.of_nat k + 1 * queue_num q) by lia. apply Z_mod_plus_full. }
    destruct (IH (Z.to_nat (queue_num q) - 1)%nat l0) as [(l' & Hl' & Heq) Hmin]; [lia| |].
    { rewrite Hv1, Hc1, list_lookup_insert_eq; [done|]. by eapply lookup_lt_Some. }
    rewrite Hv1 in *. split.
    + exists l'. split; [done|]. simpl. rewrite decide_True by done. simpl. by rewrite <- Heq.
    + simpl. rewrite decide_True by done. simpl.
      replace ((D + queue_num q - 1 - Z.of_nat (Z.to_nat (queue_num q) - 1)) / queue_num q)
        with (D / queue_num q) in Hmin by (f_equal; lia).
      assert ((1 + D + queue_num q - 1 - Z.of_nat k) / queue_num q <= D / queue_num q + 1).
      { replace (D / queue_num q + 1) with ((D + 1 * queue_num q) / queue_num q)
          by (rewrite Z_div_plus_full by lia; done). apply Z.div_le_mono; lia. }
      lia.
  - assert (visit q k <> visit q d) as Hvne by (intros E; by apply visit_inj in E).
    assert (got_of (visit q d) (Got (visit q k) x :: t) = got_of (visit q d) t) as Hg.
    { simpl. by rewrite decide_False by tauto. }
    assert (put_of (visit q d) (Got (visit q k) x :: t) = put_of (visit q d) t) as Hpt by done.
    unfold producer_ok. rewrite Hg, Hpt.
    destruct (decide (d < k)%nat) as [Hlt|Hge].
    + rewrite He in Hl by done. injection Hl as <-.
      assert (visit q1 (Z.to_nat (queue_num q) - S k + d) = visit q d) as Hv1.
      { rewrite Hv. unfold visit. f_equal.
        replace (queue_point q + Z.of_nat (S k + (Z.to_nat (queue_num q) - S k + d)))
          with (queue_point q + Z.of_nat d + 1 * queue_num q) by lia. apply Z_mod_plus_full. }
      destruct (IH (Z.to_nat (queue_num q) - S k + d)%nat []) as [Hc _]; [lia| |].
      { rewrite Hv1, Hc1, list_lookup_insert_ne by done. by apply He. }
      rewrite Hv1 in Hc. split; [done|]. simpl. lia.
    + assert (visit q1 (d - S k) = visit q d) as Hv1 by (rewrite Hv; f_equal; lia).
      destruct (IH (d - S k)%nat l) as [Hc Hmin]; [lia|by rewrite Hv1, Hc1, list_lookup_insert_ne|].
      rewrite Hv1 in *. split; [done|].
      assert ((1 + D + queue_num q - 1 - Z.of_nat d) / queue_num q <=
        (D + queue_num q - 1 - Z.of_nat (d - S k)) / queue_num q) by (apply Z.div_le_mono; lia).
      lia.
Qed.

Lemma n21_run_spec os q :
  n21_wf q -> Forall (valid_op (queue_num q)) os ->
  exists t q', n21_run os q = Ok (t, q') /\ n21_wf q' /\
    forall d l, (d < Z.to_nat (queue_num q))%nat -> n21_contents q !! visit q d = Some l ->
      producer_ok (queue_num q) (visit q d) d l (dequeues os) t q'.
Proof.
  revert q. induction os as [|[j item|] os IH]; intros q Hwf Hos; pose proof (n21_num q Hwf) as Hnum.
  - exists [], q. split_and!; [done..|]. intros d l Hd Hl. split.
    + exists l. by rewrite app_nil_r.
    + simpl. rewrite Z.div_small by lia. lia.
  - apply Forall_cons in Hos as [[Hj Hitem] Hos]. destruct (n21_lookup q j Hwf Hj) as [lj Hlj].
    destruct (n21_enqueue_spec q j lj item Hwf Hitem Hlj) as (c & Hc & Hcase).
    assert (exists r q1, n21q_enqueue q (Z.of_nat j) item = Ok (r, q1) /\ n21_wf q1 /\
      queue_point q1 = queue_point q /\ queue_num q1 = queue_num q /\
      n21_contents q1 = <[j := lj ++ (if decide (r = SUCCESS) then [item] else [])]> (n21_contents q))
      as (r & q1 & Hr & Hwf1 & Hp1 & Hn1 & Hc1).
    { case_decide as Hroom.
      - destruct Hcase as (q1 & Hr & Hwf1 & Hc1 & Hp1). exists SUCCESS, q1. split_and!; try done.
        rewrite <- (n21_len q1 Hwf1), <- (n21_len q Hwf). f_equal.
        rewrite <- (length_fmap cirq_contents (queues q1)), <- (length_fmap cirq_contents (queues q)).
        fold (n21_contents q1) (n21_contents q). by rewrite Hc1, length_insert.
      - exists FAILED, q. split_and!; try done. rewrite decide_False, app_nil_r by done.
        by rewrite list_insert_id. }
    destruct (IH q1 Hwf1) as (t & q' & Ht & Hwf' & Hall); [by rewrite Hn1|].
    exists (Put j item r :: t), q'. split; [by simpl; rewrite Hr; simpl; rewrite Ht|]. split; [done|].
    intros d l Hd Hl. assert (visit q1 d = visit q d) as Hv by (unfold visit; by rewrite Hp1, Hn1).
    rewrite Hn1 in Hall. change (dequeues (OEnq j item :: os)) with (dequeues os).
    destruct (decide (j = visit q d)) as [->|Hne].
    + rewrite Hl in Hlj. injection Hlj as <-.
      destruct (Hall d (l ++ (if decide (r = SUCCESS) then [item] else [])) Hd) as [(l' & Hl' & Heq) Hmin].
      { rewrite Hv, Hc1, list_lookup_insert_eq; [done|]. by eapply lookup_lt_Some. }
      rewrite Hv in *. split.
      * exists l'. split; [done|]. cbn [put_of got_of]. rewrite <- Heq, <- app_assoc. do 2 f_equal.
        apply decide_ext. tauto.
      * cbn [got_of]. rewrite length_app in Hmin. lia.
    + destruct (Hall d l Hd) as [(l' & Hl' & Heq) Hmin].
      { rewrite Hv, Hc1, list_lookup_insert_ne; done. }
      rewrite Hv in *. split; [|done]. exists l'. split; [done|]. cbn [put_of got_of].
      by rewrite decide_False by tauto.
  - apply Forall_cons in Hos as [_ Hos].
    destruct (first_nonempty q (Z.to_nat (queue_num q)) Hwf) as [He | (k & x & l0 & Hk & He & Hx)]; [lia| |].
    + pose proof (dequeue_strong_none q Hwf He) as Hdq.
      destruct (IH q Hwf Hos) as (t & q' & Ht & Hwf' & Hall).
      exists (Got (last_served q) NULL :: t), q'.
      split; [change (n21q_dequeue_strong q = Ok (NULL, q)) with (n21q_dequeue q = Ok (NULL, q)) in Hdq;
        by simpl; rewrite Hdq; simpl; rewrite Ht|]. split; [done|].
      intros d l Hd Hl. destruct (Hall d l Hd Hl) as [(l' & Hl' & Heq) _].
      rewrite (He d Hd) in Hl. injection Hl as <-. split.
      * exists l'. split; [done|]. cbn [put_of got_of]. by rewrite (decide_False (P := _ /\ NULL <> NULL)) by tauto.
      * simpl. lia.
    + destruct (dequeue_strong_found q k x l0 Hwf Hk He Hx) as (q1 & Hdq & Hs).
      destruct (n21_serve q (visit q k) x l0 0 Hwf Hx) as (_ & _ & _ & _ & Hxn & _); [lia|].
      pose proof Hs as (_ & Hwf1 & Hc1 & Hp1 & Hn1).
      destruct (IH q1 Hwf1) as (t & q' & Ht & Hwf' & Hall); [by rewrite Hn1|].
      exists (Got (last_served q1) x :: t), q'.
      split; [change (n21q_dequeue_strong q = Ok (x, q1)) with (n21q_dequeue q = Ok (x, q1)) in Hdq;
        by simpl; rewrite Hdq; simpl; rewrite Ht|]. split; [done|].
      intros d l Hd Hl. rewrite Hn1 in Hall.
      apply (producer_dequeue q q1 k x l0); try done. apply dequeues_nonneg.
Qed.

(** C29. No item is lost or starved.  Whatever sequence of enqueues and dequeues
    runs on a queue, every call returns; for each producer [i], the items that
    came from its queue followed by what is left in it are, in order, the items
    it held at first followed by those its enqueues reported as queued; and of
    the [length l] items it held at first one has come for every [queue_num]
    dequeues, until all have. *)
Theorem n21_no_starvation os q (i : nat) l :
  n21_wf q -> Forall (valid_op (queue_num q)) os -> n21_contents q !! i = Some l ->
  exists t q' l', n21_run os q = Ok (t, q') /\ n21_wf q' /\ n21_contents q' !! i = Some l' /\
    l ++ put_of i t = got_of i t ++ l' /\
    Z.min (Z.of_nat (length l)) (dequeues os / queue_num q) <= Z.of_nat (length (got_of i t)).
Proof.
  intros Hwf Hos Hl. pose proof (n21_num q Hwf). pose proof (n21_len q Hwf).
  pose proof (lookup_lt_Some _ _ _ Hl) as Hi. unfold n21_contents in Hi. rewrite length_fmap in Hi.
  destruct (visit_all q i Hwf) as (d & Hd & <-); [lia|].
  destruct (n21_run_spec os q Hwf Hos) as (t & q' & Ht & Hwf' & Hall).
  destruct (Hall d l Hd Hl) as [(l' & Hl' & Heq) Hmin].
  exists t, q', l'. split_and!; try done.
  assert (dequeues os / queue_num q <= (dequeues os + queue_num q - 1 - Z.of_nat d) / queue_num q)
    by (apply Z.div_le_mono; lia). lia.
Qed.

Lemma n21_no_starvation_witness :
  exists t q' l', n21_run [OEnq 0 7; ODeq; OEnq 1 6; ODeq; ODeq] n21_example = Ok (t, q') /\
    n21_wf q' /\ n21_contents q' !! 1%nat = Some l' /\
    [5] ++ put_of 1 t = got_of 1 t ++ l' /\ 1 <= Z.of_nat (length (got_of 1 t)).
Proof.
  apply (n21_no_starvation [OEnq 0 7; ODeq; OEnq 1 6; ODeq; ODeq] n21_example 1 [5]);
    [apply n21_example_wf | repeat constructor; done | reflexivity].
Defined.
