(* ===== verification/Bitmap.v ===== *)
(** The 64-bit bitmap of [bitmap.h]. *)
From S2P Require Import Prelude.
#[local] Open Scope Z_scope.

Definition BITMAP_MAX_NUM : Z := 64.

Definition bitmap_init : Z := 0.

Definition bitmap_set (map index flag : Z) : res Z :=
  if decide (index < BITMAP_MAX_NUM) then
    if decide (flag = 0) then Ok (Z.land map (u64 (u64 (Z.shiftl 1 index) - 1)))
    else Ok (Z.lor map (u64 (Z.shiftl 1 index)))
  else Fault Exit.

Definition bitmap_get (map index : Z) : res Z :=
  if decide (index < BITMAP_MAX_NUM) then
    Ok (cbool (bool_decide (Z.land map (u64 (Z.shiftl 1 index)) <> 0)))
  else Fault Exit.

(** * Behaviour *)

Lemma one_shift i : 0 <= i < 64 -> u64 (Z.shiftl 1 i) = 2 ^ i.
Proof.
  intros Hi. rewrite Z.shiftl_1_l. apply Z.mod_small. split; [lia|].
  apply Z.pow_lt_mono_r; lia.
Qed.

Lemma bitmap_get_testbit map j :
  0 <= j < 64 -> bitmap_get map j = Ok (cbool (Z.testbit map j)).
Proof.
  intros Hj. unfold bitmap_get, BITMAP_MAX_NUM. rewrite decide_True by lia. do 2 f_equal.
  rewrite one_shift by done. destruct (Z.testbit map j) eqn:E.
  - apply bool_decide_eq_true_2. intros H.
    assert (Z.testbit (Z.land map (2 ^ j)) j = false) as Hf by (rewrite H; apply Z.bits_0).
    rewrite Z.land_spec, E, Z.pow2_bits_true in Hf by lia. done.
  - apply bool_decide_eq_false_2. intros H. apply H. apply Z.bits_inj'. intros n Hn.
    rewrite Z.land_spec, Z.bits_0. destruct (decide (n = j)) as [->|].
    + by rewrite E.
    + rewrite Z.pow2_bits_false by lia. apply andb_false_r.
Qed.

(** What [bitmap_get] reads after [bitmap_set]: setting a bit makes it read 1
    and leaves the others; clearing a bit leaves the lower bits but makes the
    bit and every higher bit read 0. *)
Theorem bitmap_set_get map index flag j :
  0 <= index < 64 -> 0 <= j < 64 ->
  exists map', bitmap_set map index flag = Ok map' /\
    bitmap_get map' j =
      if decide (flag = 0) then (if decide (j < index) then bitmap_get map j else Ok 0)
      else (if decide (j = index) then Ok 1 else bitmap_get map j).
Proof.
  intros Hi Hj. unfold bitmap_set, BITMAP_MAX_NUM. rewrite decide_True by lia.
  rewrite one_shift by done. destruct (decide (flag = 0)).
  - eexists; split; [done|]. rewrite !bitmap_get_testbit by done.
    assert (0 <= 2 ^ index - 1 < 2 ^ 64).
    { pose proof (Z.pow_pos_nonneg 2 index ltac:(lia) ltac:(lia)).
      pose proof (Z.pow_lt_mono_r 2 index 64 ltac:(lia) ltac:(lia) ltac:(lia)). lia. }
    unfold u64. rewrite Z.mod_small by lia.
    replace (2 ^ index - 1) with (Z.ones index) by (rewrite Z.ones_equiv; lia).
    rewrite Z.land_spec. case_decide.
    + rewrite Z.ones_spec_low by lia. by rewrite andb_true_r.
    + rewrite Z.ones_spec_high by lia. by rewrite andb_false_r.
  - eexists; split; [done|]. rewrite !bitmap_get_testbit by done.
    rewrite Z.lor_spec. case_decide as Hji.
    + subst. rewrite Z.pow2_bits_true by lia. by rewrite orb_true_r.
    + rewrite Z.pow2_bits_false by lia. by rewrite orb_false_r.
Qed.

Lemma bitmap_set_get_witness :
  exists map', bitmap_set 0xFF 2 0 = Ok map' /\
    bitmap_get map' 5 = if decide (0 = 0) then (if decide (5 < 2) then bitmap_get 0xFF 5 else Ok 0)
      else (if decide (5 = 2) then Ok 1 else bitmap_get 0xFF 5).
Proof. apply (bitmap_set_get 0xFF 2 0 5); lia. Defined.
