(* ===== verification/CuckooHash.v ===== *)
(** The cuckoo hash table of the repository ([qing_hash.h], [qing_hash.c]):
    the key comparison functions, the bucket and key arrays with the ring of
    free key slots, insertion with its single-writer, spin-locked and
    transactional variants, lookup, deletion, creation and release.

    The table is one object mutated in place, so each function is a
    computation over [qing_hash].  What the functions call of DPDK (the CRC
    hash, the core number, the transaction start, the rounding to a power of
    two) is the class [Dpdk]; [DpdkLaws] is what its documentation promises. *)
From S2P Require Import Prelude Fifo CircularQueue.
#[local] Open Scope Z_scope.

Class Dpdk : Type := {
  rte_hash_crc : list Z -> Z -> Z -> Z;      (* data, length, initial value *)
  rte_lcore_id : Z;
  rte_xbegin : nat -> bool;                  (* does the n-th attempt start *)
  rte_align32pow2 : Z -> Z;
  RTE_HASH_ENTRIES_MAX : Z;
  RTE_MAX_LCORE : Z;
}.

Class DpdkLaws `{!Dpdk} : Prop := {
  crc_is_u32 k n i : is_u32 (rte_hash_crc k n i);
  align_pow2 x : 0 < x <= 2 ^ 31 ->
    exists n, 0 <= n /\ rte_align32pow2 x = 2 ^ n /\ x <= 2 ^ n < 2 * x;
  entries_max : 0 < RTE_HASH_ENTRIES_MAX <= 2 ^ 30;
}.

Definition RTE_HASH_BUCKET_ENTRIES : nat := 8.
Definition NULL_SIGNATURE : Z := 0.
Definition EMPTY_SLOT : Z := 0.
Definition LCORE_CACHE_SIZE : nat := 64.
Definition RTE_HASH_MAX_PUSHES : Z := 100.
Definition RTE_HASH_BFS_QUEUE_MAX_LEN : nat := 1000.
Definition RTE_HASH_TSX_MAX_RETRY : nat := 10.
Definition ENOSPC : Z := 28.
Definition ENOENT : Z := 2.

(** * Key comparison

    A key is the array of its bytes; a pointer into it is a suffix. *)

(** An unaligned 16-byte load. *)
Fixpoint little_endian (bs : list Z) : Z :=
  match bs with [] => 0 | b :: bs' => b + 256 * little_endian bs' end.

Definition loadu_si128 (k : list Z) : res Z :=
  if decide (16 <= length k)%nat then Ok (little_endian (take 16 k))
  else Fault OutOfBounds.

(** The comparison functions return nonzero for different keys. *)
Definition qing_hash_k16_cmp_eq (key1 key2 : list Z) : res Z :=
  k1 ← loadu_si128 key1;
  k2 ← loadu_si128 key2;
  let x := Z.lxor k1 k2 in
  Ok (cbool (negb (bool_decide (x = 0)))).

(** [a || b] on the results of two comparisons. *)
Definition c_or (a b : res Z) : res Z :=
  x ← a; if decide (x = 0) then y ← b; Ok (cbool (negb (bool_decide (y = 0)))) else Ok 1.

Definition qing_hash_k32_cmp_eq (key1 key2 : list Z) : res Z :=
  c_or (qing_hash_k16_cmp_eq key1 key2)
       (qing_hash_k16_cmp_eq (drop 16 key1) (drop 16 key2)).

Definition qing_hash_k48_cmp_eq (key1 key2 : list Z) : res Z :=
  c_or (c_or (qing_hash_k16_cmp_eq key1 key2)
             (qing_hash_k16_cmp_eq (drop 16 key1) (drop 16 key2)))
       (qing_hash_k16_cmp_eq (drop 32 key1) (drop 32 key2)).

Definition qing_hash_k64_cmp_eq (key1 key2 : list Z) : res Z :=
  c_or (qing_hash_k32_cmp_eq key1 key2)
       (qing_hash_k32_cmp_eq (drop 32 key1) (drop 32 key2)).

Definition qing_hash_k80_cmp_eq (key1 key2 : list Z) : res Z :=
  c_or (qing_hash_k64_cmp_eq key1 key2)
       (qing_hash_k16_cmp_eq (drop 64 key1) (drop 64 key2)).

Definition qing_hash_k96_cmp_eq (key1 key2 : list Z) : res Z :=
  c_or (qing_hash_k64_cmp_eq key1 key2)
       (qing_hash_k32_cmp_eq (drop 64 key1) (drop 64 key2)).

Definition qing_hash_k112_cmp_eq (key1 key2 : list Z) : res Z :=
  c_or (c_or (qing_hash_k64_cmp_eq key1 key2)
             (qing_hash_k32_cmp_eq (drop 64 key1) (drop 64 key2)))
       (qing_hash_k16_cmp_eq (drop 96 key1) (drop 96 key2)).

Definition qing_hash_k128_cmp_eq (key1 key2 : list Z) : res Z :=
  c_or (qing_hash_k64_cmp_eq key1 key2)
       (qing_hash_k64_cmp_eq (drop 64 key1) (drop 64 key2)).

(** [memcmp] of the C library. *)
Fixpoint memcmp (a b : list Z) (n : nat) : res Z :=
  match n with
  | O => Ok 0
  | S n' =>
      match a, b with
      | x :: a', y :: b' => if decide (x = y) then memcmp a' b' n' else Ok (x - y)
      | _, _ => Fault OutOfBounds
      end
  end.

Inductive cmp_jump_table_case : Type :=
  | KEY_CUSTOM | KEY_16_BYTES | KEY_32_BYTES | KEY_48_BYTES | KEY_64_BYTES
  | KEY_80_BYTES | KEY_96_BYTES | KEY_112_BYTES | KEY_128_BYTES | KEY_OTHER_BYTES.

Definition qcmp_jump_table (c : cmp_jump_table_case) (k1 k2 : list Z) (key_len : Z) : res Z :=
  match c with
  | KEY_CUSTOM => Fault NullDeref
  | KEY_16_BYTES => qing_hash_k16_cmp_eq k1 k2
  | KEY_32_BYTES => qing_hash_k32_cmp_eq k1 k2
  | KEY_48_BYTES => qing_hash_k48_cmp_eq k1 k2
  | KEY_64_BYTES => qing_hash_k64_cmp_eq k1 k2
  | KEY_80_BYTES => qing_hash_k80_cmp_eq k1 k2
  | KEY_96_BYTES => qing_hash_k96_cmp_eq k1 k2
  | KEY_112_BYTES => qing_hash_k112_cmp_eq k1 k2
  | KEY_128_BYTES => qing_hash_k128_cmp_eq k1 k2
  | KEY_OTHER_BYTES => memcmp k1 k2 (Z.to_nat key_len)
  end.

(** The function [qing_hash_create] selects for a key length. *)
Definition select_cmp (key_len : Z) : cmp_jump_table_case :=
  if decide (key_len = 16) then KEY_16_BYTES else
  if decide (key_len = 32) then KEY_32_BYTES else
  if decide (key_len = 48) then KEY_48_BYTES else
  if decide (key_len = 64) then KEY_64_BYTES else
  if decide (key_len = 80) then KEY_80_BYTES else
  if decide (key_len = 96) then KEY_96_BYTES else
  if decide (key_len = 112) then KEY_112_BYTES else
  if decide (key_len = 128) then KEY_128_BYTES else KEY_OTHER_BYTES.

(** * The table *)

Record rte_hash_key : Type := HashKey { pdata : ptr; key : list Z }.
(** A pointer and the flexible key, aligned to [KEY_ALIGNMENT]. *)
Definition sizeof_rte_hash_key : Z := 16.

(** Entry [i] of the four parallel arrays of [struct rte_hash_bucket]. *)
Record bucket_entry : Type := Entry {
  sig_current : Z;
  key_idx : Z;
  sig_alt : Z;
  flag : Z;
}.
#[export] Instance bucket_entry_rebuild : Rebuild bucket_entry := fun e =>
  Entry (sig_current e) (key_idx e) (sig_alt e) (flag e).
Abbreviation rte_hash_bucket := (list bucket_entry).

Record lcore_cache : Type := LcoreCache { len : Z; objs : list ptr }.
#[export] Instance lcore_cache_rebuild : Rebuild lcore_cache := fun c =>
  LcoreCache (len c) (objs c).

Inductive add_key_case : Type :=
  ADD_KEY_SINGLEWRITER | ADD_KEY_MULTIWRITER | ADD_KEY_MULTIWRITER_TM.
#[export] Instance add_key_case_eq_dec : EqDecision add_key_case.
Proof. solve_decision. Defined.

Record qing_hash : Type := QingHash {
  entries : Z;
  num_buckets : Z;
  free_slots : circular_queue;
  hw_trans_mem_support : Z;
  local_free_slots : list lcore_cache;
  add_key : add_key_case;
  multiwriter_lock : bool;
  key_len : Z;
  key_entry_size : Z;
  hash_func_init_val : Z;
  cmp_jump_table_idx : cmp_jump_table_case;
  bucket_bitmask : Z;
  key_store : list rte_hash_key;
  buckets : list rte_hash_bucket;
  tx_count : nat;        (* transactions attempted so far *)
}.
#[export] Instance qing_hash_rebuild : Rebuild qing_hash := fun h =>
  QingHash (entries h) (num_buckets h) (free_slots h) (hw_trans_mem_support h)
    (local_free_slots h) (add_key h) (multiwriter_lock h) (key_len h)
    (key_entry_size h) (hash_func_init_val h) (cmp_jump_table_idx h) (bucket_bitmask h) (key_store h)
    (buckets h) (tx_count h).

Abbreviation HM := (M qing_hash).

(** [h->buckets[b]] entry [i], and an assignment to its fields. *)
Definition entry_at (h : qing_hash) (b i : Z) : res bucket_entry :=
  bkt ← read_at (buckets h) b; read_at bkt i.
Definition set_entry (b i : Z) (f : bucket_entry -> bucket_entry) : HM unit :=
  h ← get;
  bkt ← lift (read_at (buckets h) b);
  e ← lift (read_at bkt i);
  bkt' ← lift (write_at bkt i (f e));
  bs ← lift (write_at (buckets h) b bkt');
  modify (fun h => h <| buckets := bs |>).
Definition read_entry (b i : Z) : HM bucket_entry :=
  h ← get; lift (entry_at h b i).

(** The three stores that fill an entry. *)
Definition fill_entry (b i sig alt idx : Z) : HM unit :=
  set_entry b i (fun e =>
    e <| sig_current := sig |> <| sig_alt := alt |> <| key_idx := idx |>).

(** [for (i = 0; i < RTE_HASH_BUCKET_ENTRIES; i++)] with [break] or [return]. *)
Fixpoint entries_loop {A} (n : nat) (i : Z) (body : Z -> HM (option A)) : HM (option A) :=
  match n with
  | O => mret None
  | S n' =>
      r ← body i;
      match r with Some a => mret (Some a) | None => entries_loop n' (i + 1) body end
  end.
Definition for_entries {A} (body : Z -> HM (option A)) : HM (option A) :=
  entries_loop RTE_HASH_BUCKET_ENTRIES 0 body.

Definition rte_hash_cmp_eq (key1 key2 : list Z) : HM Z :=
  h ← get; lift (qcmp_jump_table (cmp_jump_table_idx h) key1 key2 (key_len h)).

Definition rte_hash_secondary_hash (primary_hash : Z) : Z :=
  let all_bits_shift := 12 in
  let alt_bits_xor := 0x5bd1e995 in
  let tag := Z.shiftr primary_hash all_bits_shift in
  Z.lxor primary_hash (u32 (u32 (tag + 1) * alt_bits_xor)).

Section WithDpdk.
Context `{!Dpdk}.

(** ** Transactional insertion *)

(** [rte_xbegin]: whether this attempt started. *)
Definition xbegin : HM bool :=
  h ← get;
  modify (fun h => h <| tx_count := S (tx_count h) |>);;
  mret (rte_xbegin (tx_count h)).

(** Put the entry in the first empty slot of one bucket. *)
Definition insert_empty (b sig alt_hash new_idx : Z) : HM (option Z) :=
  for_entries (fun i =>
    e ← read_entry b i;
    if decide (key_idx e = EMPTY_SLOT) then
      fill_entry b i sig alt_hash new_idx;; mret (Some i)
    else mret None).

Fixpoint insert_mw_tm_loop (tries : nat) (prim_bkt sig alt_hash new_idx : Z) : HM Z :=
  match tries with
  | O => mret (-1)
  | S tries' =>
      started ← xbegin;
      if (started : bool) then
        r ← insert_empty prim_bkt sig alt_hash new_idx;
        match r with Some _ => mret 0 | None => mret (-1) end
      else insert_mw_tm_loop tries' prim_bkt sig alt_hash new_idx
  end.
Definition rte_hash_cuckoo_insert_mw_tm (prim_bkt sig alt_hash new_idx : Z) : HM Z :=
  insert_mw_tm_loop RTE_HASH_TSX_MAX_RETRY prim_bkt sig alt_hash new_idx.

(** A node of the breadth-first search; [prev] is the parent's position in
    the queue of nodes. *)
Record queue_node : Type := Node { bkt : Z; prev : option nat; prev_slot : Z }.

(** The body of the transaction: [false] is an abort. *)
Fixpoint shift_path (fuel : nat) (queue : list queue_node) (curr_node : queue_node)
    (curr_slot sig alt_hash new_idx : Z) : HM bool :=
  match fuel with
  | O => throw NoReturn
  | S fuel' =>
      let curr_bkt := bkt curr_node in
      match prev curr_node with
      | None => fill_entry curr_bkt curr_slot sig alt_hash new_idx;; mret true
      | Some pn =>
          h ← get;
          prev_node ← lift (deref OutOfBounds (queue !! pn));
          let prev_bkt := bkt prev_node in
          let pslot := prev_slot curr_node in
          pe ← read_entry prev_bkt pslot;
          let prev_alt_bkt_idx := Z.land (sig_alt pe) (bucket_bitmask h) in
          if decide (prev_alt_bkt_idx <> curr_bkt) then mret false
          else
            fill_entry curr_bkt curr_slot (sig_alt pe) (sig_current pe) (key_idx pe);;
            shift_path fuel' queue prev_node pslot sig alt_hash new_idx
      end
  end.

Fixpoint move_insert_loop (tries : nat) (queue : list queue_node) (leaf : queue_node)
    (leaf_slot sig alt_hash new_idx : Z) : HM Z :=
  match tries with
  | O => mret (-1)
  | S tries' =>
      started ← xbegin;
      if (started : bool) then
        h ← get;
        ok ← shift_path RTE_HASH_BFS_QUEUE_MAX_LEN queue leaf leaf_slot sig alt_hash new_idx;
        if (ok : bool) then mret 0
        else put h;; move_insert_loop tries' queue leaf leaf_slot sig alt_hash new_idx
      else move_insert_loop tries' queue leaf leaf_slot sig alt_hash new_idx
  end.
Definition rte_hash_cuckoo_move_insert_mw_tm (queue : list queue_node) (leaf : queue_node)
    (leaf_slot sig alt_hash new_idx : Z) : HM Z :=
  move_insert_loop RTE_HASH_TSX_MAX_RETRY queue leaf leaf_slot sig alt_hash new_idx.

(** One bucket of the search: [inl] the queue grown by the alternative buckets
    of the entries, [inr] the new entry is in place. *)
Fixpoint expand_node (n : nat) (i : Z) (queue : list queue_node) (tail : nat)
    (node : queue_node) (sig alt_hash new_idx : Z) : HM (list queue_node + unit) :=
  match n with
  | O => mret (inl queue)
  | S n' =>
      h ← get;
      e ← read_entry (bkt node) i;
      ret ← (if decide (key_idx e = EMPTY_SLOT)
             then rte_hash_cuckoo_move_insert_mw_tm queue node i sig alt_hash new_idx
             else mret (-1));
      if decide (ret = 0) then mret (inr tt)
      else
        e' ← read_entry (bkt node) i;
        let alt_bkt := Z.land (sig_alt e') (bucket_bitmask h) in
        expand_node n' (i + 1) (queue ++ [Node alt_bkt (Some tail) i]) tail node
          sig alt_hash new_idx
  end.

Fixpoint bfs_loop (fuel : nat) (queue : list queue_node) (tail : nat)
    (sig alt_hash new_idx : Z) : HM Z :=
  match fuel with
  | O => throw NoReturn
  | S fuel' =>
      if decide (tail <> length queue /\
                 (length queue < RTE_HASH_BFS_QUEUE_MAX_LEN - RTE_HASH_BUCKET_ENTRIES)%nat)
      then
        node ← lift (deref OutOfBounds (queue !! tail));
        r ← expand_node RTE_HASH_BUCKET_ENTRIES 0 queue tail node sig alt_hash new_idx;
        match r with
        | inr _ => mret 0
        | inl queue' => bfs_loop fuel' queue' (S tail) sig alt_hash new_idx
        end
      else mret (- ENOSPC)
  end.
Definition rte_hash_cuckoo_make_space_mw_tm (b sig alt_hash new_idx : Z) : HM Z :=
  bfs_loop RTE_HASH_BFS_QUEUE_MAX_LEN [Node b None (-1)] 0 sig alt_hash new_idx.

(** ** Single-writer insertion *)

(** An entry of bucket [b] whose alternative bucket has an empty slot: the
    entry's position, that bucket and the slot. *)
Definition find_alternative (b : Z) : HM (option (Z * Z * Z)) :=
  for_entries (fun i =>
    h ← get;
    e ← read_entry b i;
    let next_bucket_idx := Z.land (sig_alt e) (bucket_bitmask h) in
    r ← for_entries (fun j =>
      ne ← read_entry next_bucket_idx j;
      mret (if decide (key_idx ne = EMPTY_SLOT) then Some j else None));
    mret (match r with Some j => Some (i, next_bucket_idx, j) | None => None end)).

(** Copy entry [i] of [b] to slot [j] of its alternative bucket [nb], with the
    two signatures swapped. *)
Definition push_entry (b i nb j : Z) : HM unit :=
  e ← read_entry b i;
  fill_entry nb j (sig_alt e) (sig_current e) (key_idx e).

Fixpoint make_space_bucket (fuel : nat) (b nr_pushes : Z) : HM (Z * Z) :=
  match fuel with
  | O => throw NoReturn
  | S fuel' =>
      alternative ← find_alternative b;
      match alternative with
      | Some (i, nb, j) => push_entry b i nb j;; mret (i, nr_pushes)
      | None =>
          unpushed ← for_entries (fun i =>
            e ← read_entry b i;
            mret (if decide (flag e = 0) then Some i else None));
          match unpushed with
          | None => mret (- ENOSPC, nr_pushes)
          | Some i =>
              let nr_pushes := u32 (nr_pushes + 1) in
              if decide (nr_pushes > RTE_HASH_MAX_PUSHES) then mret (- ENOSPC, nr_pushes)
              else
                h ← get;
                e ← read_entry b i;
                let next_bkt := Z.land (sig_alt e) (bucket_bitmask h) in
                set_entry b i (fun e => e <| flag := 1 |>);;
                '(ret, nr_pushes) ← make_space_bucket fuel' next_bkt nr_pushes;
                set_entry b i (fun e => e <| flag := 0 |>);;
                if decide (0 <= ret) then
                  push_entry b i next_bkt ret;; mret (i, nr_pushes)
                else mret (ret, nr_pushes)
          end
      end
  end.

(** The recursion is bounded by the count of pushes. *)
Definition make_space_fuel : nat := S (Z.to_nat RTE_HASH_MAX_PUSHES).

(** ** The free key slots *)

Definition ring_get : HM ptr :=
  h ← get;
  '(x, q) ← lift (cirq_get (free_slots h));
  modify (fun h => h <| free_slots := q |>);;
  mret x.
Definition ring_add (x : ptr) : HM Z :=
  h ← get;
  '(r, q) ← lift (cirq_add (free_slots h) x);
  modify (fun h => h <| free_slots := q |>);;
  mret r.

(** [h->local_free_slots[rte_lcore_id()]] *)
Definition get_cache : HM lcore_cache :=
  h ← get; lift (read_at (local_free_slots h) rte_lcore_id).
Definition set_cache (c : lcore_cache) : HM unit :=
  h ← get;
  cs ← lift (write_at (local_free_slots h) rte_lcore_id c);
  modify (fun h => h <| local_free_slots := cs |>).

Definition cache_push (slot_id : ptr) : HM unit :=
  c ← get_cache;
  os ← lift (write_at (objs c) (len c) slot_id);
  set_cache (c <| objs := os |> <| len := u32 (len c + 1) |>).

Definition enqueue_slot_back (slot_id : ptr) : HM unit :=
  h ← get;
  if decide (hw_trans_mem_support h <> 0) then cache_push slot_id
  else ring_add slot_id;; mret tt.

(** Refill the local cache from the ring. *)
Fixpoint refill_loop (k : nat) (n_slots : Z) : HM Z :=
  match k with
  | O => mret n_slots
  | S k' =>
      x ← ring_get;
      c ← get_cache;
      os ← lift (write_at (objs c) n_slots x);
      set_cache (c <| objs := os |>);;
      refill_loop k' (if decide (x <> NULL) then n_slots + 1 else n_slots)
  end.

(** The key slot for the new key, [None] when there is none left. *)
Definition take_slot : HM (option ptr) :=
  h ← get;
  if decide (hw_trans_mem_support h <> 0) then
    c ← get_cache;
    got ← (if decide (len c = 0) then
             n_slots ← refill_loop LCORE_CACHE_SIZE 0;
             if decide (n_slots = 0) then mret false
             else
               c ← get_cache;
               set_cache (c <| len := u32 (len c + n_slots) |>);; mret true
           else mret true);
    if (got : bool) then
      c ← get_cache;
      set_cache (c <| len := u32 (len c - 1) |>);;
      slot_id ← lift (read_at (objs c) (u32 (len c - 1)));
      mret (Some slot_id)
    else mret None
  else
    slot_id ← ring_get;
    mret (if decide (slot_id = NULL) then None else Some slot_id).

(** ** The operations *)

Definition rte_spinlock_lock : HM unit :=
  h ← get;
  if multiwriter_lock h then throw NoReturn
  else modify (fun h => h <| multiwriter_lock := true |>).
Definition rte_spinlock_unlock : HM unit :=
  modify (fun h => h <| multiwriter_lock := false |>).

(** The record at byte offset [idx * h->key_entry_size] of the keys.  The product
    of two [uint32_t] wraps; an offset inside a record is no record. *)
Definition record_at (h : qing_hash) (idx : Z) : res Z :=
  let off := u32 (idx * key_entry_size h) in
  if decide (0 < key_entry_size h /\ off `mod` key_entry_size h = 0)
  then Ok (off `div` key_entry_size h) else Fault WildAccess.

(** The key record of an entry's index, and the update of its data. *)
Definition key_at (idx : Z) : HM rte_hash_key :=
  h ← get; r ← lift (record_at h idx); lift (read_at (key_store h) r).
Definition set_pdata (idx : Z) (data : ptr) : HM unit :=
  h ← get;
  r ← lift (record_at h idx);
  kr ← lift (read_at (key_store h) r);
  ks ← lift (write_at (key_store h) r (HashKey data (key kr)));
  modify (fun h => h <| key_store := ks |>).

(** The record of a slot taken from the ring, [(uintptr_t)slot_id *
    h->key_entry_size] on 64 bits. *)
Definition set_key (idx : Z) (k : rte_hash_key) : HM unit :=
  h ← get;
  ks ← lift (write_at (key_store h) idx k);
  modify (fun h => h <| key_store := ks |>).

(** The search loop all operations share: the first entry of bucket [b] that
    [cond] accepts and whose key is [k] is handed to [found]. *)
Definition scan_bucket {A} (b : Z) (cond : bucket_entry -> bool) (k : list Z)
    (found : Z -> bucket_entry -> rte_hash_key -> HM A) : HM (option A) :=
  for_entries (fun i =>
    e ← read_entry b i;
    if cond e then
      kr ← key_at (key_idx e);
      c ← rte_hash_cmp_eq k (key kr);
      if decide (c = 0) then a ← found i e kr; mret (Some a) else mret None
    else mret None).

(** The entry has both signatures, in this order. *)
Definition sigs_match (cur alt : Z) (e : bucket_entry) : bool :=
  bool_decide (sig_current e = cur /\ sig_alt e = alt).
(** The entry is in use and has this current signature. *)
Definition sig_in_use (sig : Z) (e : bucket_entry) : bool :=
  bool_decide (sig_current e = sig /\ key_idx e <> EMPTY_SLOT).

(** Update the data of a key that is in bucket [b], and give the slot back. *)
Definition update_existing (b cur alt : Z) (k : list Z) (data slot_id : ptr)
    : HM (option Z) :=
  scan_bucket b (sigs_match cur alt) k (fun i e kr =>
    enqueue_slot_back slot_id;;
    set_pdata (key_idx e) data;;
    mret (key_idx e - 1)).

(** [rte_memcpy(new_k->key, key, h->key_len)] *)
Definition copy_key (new_idx : Z) (k : list Z) (data : ptr) : HM unit :=
  h ← get;
  if decide (key_len h <= Z.of_nat (length k)) then
    set_key new_idx (HashKey data (take (Z.to_nat (key_len h)) k))
  else throw OutOfBounds.

(** Place the entry of a key that is not in the table: [true] when it is in. *)
Definition place_entry (prim_bkt sec_bkt sig alt_hash new_idx : Z) : HM bool :=
  h ← get;
  if decide (add_key h = ADD_KEY_MULTIWRITER_TM) then
    ret ← rte_hash_cuckoo_insert_mw_tm prim_bkt sig alt_hash new_idx;
    if decide (0 <= ret) then mret true else
    ret ← rte_hash_cuckoo_make_space_mw_tm prim_bkt sig alt_hash new_idx;
    if decide (0 <= ret) then mret true else
    ret ← rte_hash_cuckoo_make_space_mw_tm sec_bkt sig alt_hash new_idx;
    mret (bool_decide (0 <= ret))
  else
    r ← insert_empty prim_bkt sig alt_hash new_idx;
    match r with
    | Some _ => mret true
    | None =>
        '(ret, _) ← make_space_bucket make_space_fuel prim_bkt 0;
        if decide (0 <= ret) then
          fill_entry prim_bkt ret sig alt_hash new_idx;; mret true
        else mret false
    end.

Definition add_body (k : list Z) (sig : Z) (data : ptr) : HM Z :=
  h ← get;
  let prim_bucket_idx := Z.land sig (bucket_bitmask h) in
  let alt_hash := rte_hash_secondary_hash sig in
  let sec_bucket_idx := Z.land alt_hash (bucket_bitmask h) in
  slot ← take_slot;
  match slot with
  | None => mret (- ENOSPC)
  | Some slot_id =>
      let new_idx := u32 slot_id in
      found ← update_existing prim_bucket_idx sig alt_hash k data slot_id;
      match found with
      | Some ret => mret ret
      | None =>
          found ← update_existing sec_bucket_idx alt_hash sig k data slot_id;
          match found with
          | Some ret => mret ret
          | None =>
              copy_key slot_id k data;;
              placed ← place_entry prim_bucket_idx sec_bucket_idx sig alt_hash new_idx;
              if (placed : bool) then mret (new_idx - 1)
              else enqueue_slot_back new_idx;; mret (- ENOSPC)
          end
      end
  end.

(** Every way out of the function releases the lock. *)
Definition __qing_hash_add_key_with_hash (k : list Z) (sig : Z) (data : ptr) : HM Z :=
  h ← get;
  when (bool_decide (add_key h = ADD_KEY_MULTIWRITER)) rte_spinlock_lock;;
  ret ← add_body k sig data;
  h ← get;
  when (bool_decide (add_key h = ADD_KEY_MULTIWRITER)) rte_spinlock_unlock;;
  mret ret.

Definition hash_of (h : qing_hash) (k : list Z) : Z :=
  rte_hash_crc k (key_len h) (hash_func_init_val h).

Definition qing_hash_add_key_data (k : list Z) (data : ptr) : HM Z :=
  h ← get;
  ret ← __qing_hash_add_key_with_hash k (hash_of h k) data;
  mret (if decide (0 <= ret) then 0 else ret).

(** Give the full local cache back to the ring. *)
Fixpoint drain_loop (k : nat) (n_slots : Z) : HM Z :=
  match k with
  | O => mret n_slots
  | S k' =>
      c ← get_cache;
      x ← lift (read_at (objs c) n_slots);
      r ← ring_add x;
      drain_loop k' (if decide (r = SUCCESS) then n_slots + 1 else n_slots)
  end.

Definition remove_entry (b i : Z) : HM unit :=
  set_entry b i (fun e =>
    e <| sig_current := NULL_SIGNATURE |> <| sig_alt := NULL_SIGNATURE |>);;
  h ← get;
  e ← read_entry b i;
  if decide (hw_trans_mem_support h <> 0) then
    c ← get_cache;
    (if decide (len c = Z.of_nat LCORE_CACHE_SIZE) then
       n_slots ← drain_loop LCORE_CACHE_SIZE 0;
       c ← get_cache;
       set_cache (c <| len := u32 (len c - n_slots) |>)
     else mret tt);;
    cache_push (key_idx e)
  else ring_add (key_idx e);; mret tt.

(** Delete [k] from bucket [b] if it is there under [sig]. *)
Definition del_in_bucket (b sig : Z) (k : list Z) : HM (option Z) :=
  scan_bucket b (sig_in_use sig) k (fun i e kr =>
    remove_entry b i;;
    e ← read_entry b i;
    set_entry b i (fun e => e <| key_idx := EMPTY_SLOT |>);;
    mret (key_idx e - 1)).

Definition __qing_hash_del_key_with_hash (k : list Z) (sig : Z) : HM Z :=
  h ← get;
  r ← del_in_bucket (Z.land sig (bucket_bitmask h)) sig k;
  match r with
  | Some ret => mret ret
  | None =>
      let alt_hash := rte_hash_secondary_hash sig in
      r ← del_in_bucket (Z.land alt_hash (bucket_bitmask h)) alt_hash k;
      match r with Some ret => mret ret | None => mret (- ENOENT) end
  end.

Definition qing_hash_del_key (k : list Z) : HM Z :=
  h ← get; __qing_hash_del_key_with_hash k (hash_of h k).

(** The index and data of the key of an accepted entry. *)
Definition lookup_in_bucket (b : Z) (cond : bucket_entry -> bool) (k : list Z)
    : HM (option (Z * ptr)) :=
  scan_bucket b cond k (fun i e kr => mret (key_idx e - 1, pdata kr)).

(** The value and [*data] when it was written. *)
Definition __qing_hash_lookup_with_hash (k : list Z) (sig : Z) : HM (Z * option ptr) :=
  h ← get;
  r ← lookup_in_bucket (Z.land sig (bucket_bitmask h)) (sig_in_use sig) k;
  match r with
  | Some (ret, d) => mret (ret, Some d)
  | None =>
      let alt_hash := rte_hash_secondary_hash sig in
      r ← lookup_in_bucket (Z.land alt_hash (bucket_bitmask h)) (sigs_match alt_hash sig) k;
      match r with
      | Some (ret, d) => mret (ret, Some d)
      | None => mret (- ENOENT, None)
      end
  end.

Definition qing_hash_lookup_data (k : list Z) : HM (Z * option ptr) :=
  h ← get; __qing_hash_lookup_with_hash k (hash_of h k).

(** ** Creation and release *)

Record rte_hash_parameters : Type := HashParams {
  p_name : list Z;
  p_entries : Z;
  p_key_len : Z;
  p_init_val : Z;
  p_extra_flag : Z;
}.
Definition RTE_HASH_EXTRA_FLAGS_TRANS_MEM_SUPPORT : Z := 1.
Definition RTE_HASH_EXTRA_FLAGS_MULTI_WRITER_ADD : Z := 2.
Definition RTE_HASH_NAMESIZE : nat := 32.

(** Which of the allocations succeed. *)
Record allocs : Type := Allocs {
  al_ring : bool; al_te : bool; al_h : bool; al_buckets : bool; al_keys : bool;
}.

(** [qing_queue_head]: the name and address of each registered table. *)
Definition registry : Type := list (list Z * ptr).

Fixpoint populate (n : nat) (i : Z) (q : circular_queue) : res circular_queue :=
  match n with
  | O => Ok q
  | S n' => '(_, q') ← cirq_add q i; populate n' (i + 1) q'
  end.

Definition new_table (p : rte_hash_parameters) : res qing_hash :=
  let tm := bool_decide (Z.land (p_extra_flag p) RTE_HASH_EXTRA_FLAGS_TRANS_MEM_SUPPORT <> 0) in
  let num_key_slots :=
    if tm then u32 (p_entries p + (RTE_MAX_LCORE - 1) * Z.of_nat LCORE_CACHE_SIZE + 1)
    else u32 (p_entries p + 1) in
  let r := cirq_init (rte_align32pow2 (u32 (num_key_slots - 1))) in
  let num_buckets := rte_align32pow2 (p_entries p) / Z.of_nat RTE_HASH_BUCKET_ENTRIES in
  q ← populate (Z.to_nat (p_entries p)) 1 r;
  Ok {| entries := p_entries p;
        num_buckets := num_buckets;
        free_slots := q;
        hw_trans_mem_support := cbool tm;
        local_free_slots :=
          if tm then replicate (Z.to_nat RTE_MAX_LCORE)
                       (LcoreCache 0 (replicate LCORE_CACHE_SIZE NULL))
          else [];
        add_key :=
          if decide (Z.land (p_extra_flag p) RTE_HASH_EXTRA_FLAGS_MULTI_WRITER_ADD <> 0) then
            if tm then ADD_KEY_MULTIWRITER_TM else ADD_KEY_MULTIWRITER
          else ADD_KEY_SINGLEWRITER;
        multiwriter_lock := false;
        key_len := p_key_len p;
        key_entry_size := u32 (sizeof_rte_hash_key + p_key_len p);
        hash_func_init_val := p_init_val p;
        cmp_jump_table_idx := select_cmp (p_key_len p);
        bucket_bitmask := u32 (num_buckets - 1);
        key_store := replicate (Z.to_nat num_key_slots)
                       (HashKey NULL (replicate (Z.to_nat (p_key_len p)) 0));
        buckets := replicate (Z.to_nat num_buckets)
                     (replicate RTE_HASH_BUCKET_ENTRIES (Entry 0 0 0 0));
        tx_count := 0 |}.

(** The list head is initialised again by each call, so the search for a table
    of the same name scans an empty list.  The new table gets the address
    [addr]. *)
Definition qing_hash_create (params : option rte_hash_parameters) (al : allocs) (addr : ptr)
    (hash_list : registry) : res (option qing_hash * registry) :=
  let hash_list : registry := [] in
  match params with
  | None => Ok (None, hash_list)
  | Some p =>
      if decide (p_entries p > RTE_HASH_ENTRIES_MAX \/
                 p_entries p < Z.of_nat RTE_HASH_BUCKET_ENTRIES \/ p_key_len p = 0)
      then Ok (None, hash_list)
      else if negb (al_ring al) then Fault NullDeref
      else if bool_decide (Exists (fun t => take RTE_HASH_NAMESIZE t.1 =
                                            take RTE_HASH_NAMESIZE (p_name p)) hash_list)
      then Ok (None, hash_list)
      else if negb (al_te al && al_h al && al_buckets al && al_keys al)
      then Ok (None, hash_list)
      else
        h ← new_table p;
        Ok (Some h, hash_list ++ [(take (RTE_HASH_NAMESIZE - 1) (p_name p), addr)])
  end.

(** Whether the memory of the table was released, and the registry. *)
Definition qing_hash_free (h : ptr) (hash_list : registry) : bool * registry :=
  if decide (h = NULL) then (false, hash_list)
  else match list_find (fun t => t.2 = h) hash_list with
       | None => (false, hash_list)
       | Some (i, _) => (true, take i hash_list ++ drop (S i) hash_list)
       end.
End WithDpdk.
