(* ===== verification/CuckooCorrect.v ===== *)
(** Correctness of the cuckoo hash table: the key comparison selected for a
    key length decides equality of the keys; the table of a single writer
    (spin-locked or not) refines a finite map whatever entries insertion
    pushes around, never loses a key slot, and holds one key less than asked
    when that number is a power of two. *)
From S2P Require Import Prelude Fifo CircularQueue CuckooHash.
#[local] Open Scope Z_scope.

(** * Key comparison *)

(** A comparison that returns, with zero exactly when [P]. *)
Definition decides (r : res Z) (P : Prop) : Prop := exists c, r = Ok c /\ (c = 0 <-> P).

Lemma decides_iff r P Q : decides r P -> (P <-> Q) -> decides r Q.
Proof. intros (c & ? & Hc) HPQ. exists c. rewrite <- HPQ. done. Qed.

Lemma cbool_ne0 x : cbool (negb (bool_decide (x = 0))) = 0 <-> x = 0.
Proof. destruct (decide (x = 0)) as [->|Hx]; [done|]. rewrite bool_decide_false by done. done. Qed.

Lemma c_or_decides a b P Q : decides a P -> decides b Q -> decides (c_or a b) (P /\ Q).
Proof.
  intros (x & -> & Hx) (y & -> & Hy). unfold c_or; simpl. case_decide as Ex; simpl.
  - eexists. split; [done|]. rewrite cbool_ne0. tauto.
  - exists 1. split; [done|]. split; [lia | tauto].
Qed.

Definition bytes (k : list Z) : Prop := Forall is_u8 k.

Lemma little_endian_inj a b :
  bytes a -> bytes b -> length a = length b -> little_endian a = little_endian b -> a = b.
Proof.
  intros Ha. revert b. induction Ha as [|x a Hx _ IH]; intros b Hb Hl Heq.
  - by destruct b.
  - destruct b as [|y b]; [done|]. inversion Hb as [|?? Hy Hb']; subst. simpl in *.
    injection Hl as Hl. unfold is_u8 in *. assert (x = y /\ little_endian a = little_endian b)
      as [-> Hab] by (change (2 ^ 8) with 256 in *; lia).
    by rewrite (IH b).
Qed.

Lemma k16_decides k1 k2 :
  bytes k1 -> bytes k2 -> (16 <= length k1)%nat -> (16 <= length k2)%nat ->
  decides (qing_hash_k16_cmp_eq k1 k2) (take 16 k1 = take 16 k2).
Proof.
  intros H1 H2 Hl1 Hl2. unfold qing_hash_k16_cmp_eq, loadu_si128.
  rewrite !decide_True by done. cbn [mbind res_bind]. eexists. split; [done|].
  transitivity (little_endian (take 16 k1) = little_endian (take 16 k2)).
  - by rewrite cbool_ne0, Z.lxor_eq_0_iff.
  - split; [|by intros ->]. apply little_endian_inj; [by apply Forall_take..|].
    rewrite !length_take. lia.
Qed.

Lemma take_split_eq {A} n m (l1 l2 : list A) :
  (n <= length l1)%nat -> (n <= length l2)%nat ->
  take n l1 = take n l2 /\ take m (drop n l1) = take m (drop n l2) <->
  take (n + m) l1 = take (n + m) l2.
Proof.
  intros H1 H2.
  assert (forall l : list A, take (n + m) l = take n l ++ take m (drop n l)) as Hs.
  { intros l. by rewrite <- take_take_drop. }
  rewrite !Hs. split; [by intros [-> ->]|].
  intros Hab. apply app_inj_1 in Hab; [done|]. rewrite !length_take. lia.
Qed.

(** Two comparisons of consecutive parts decide the comparison of the whole. *)
Lemma c_or_parts n m (f g : list Z -> list Z -> res Z) k1 k2 :
  (n + m <= length k1)%nat -> (n + m <= length k2)%nat ->
  decides (f k1 k2) (take n k1 = take n k2) ->
  decides (g (drop n k1) (drop n k2)) (take m (drop n k1) = take m (drop n k2)) ->
  decides (c_or (f k1 k2) (g (drop n k1) (drop n k2))) (take (n + m) k1 = take (n + m) k2).
Proof.
  intros H1 H2 Hf Hg. eapply decides_iff; [by apply c_or_decides|].
  apply take_split_eq; lia.
Qed.

(** The comparison functions by the length they compare. *)
Definition compares (n : nat) (f : list Z -> list Z -> res Z) : Prop :=
  forall k1 k2, bytes k1 -> bytes k2 -> (n <= length k1)%nat -> (n <= length k2)%nat ->
    decides (f k1 k2) (take n k1 = take n k2).

Lemma compares_app n m f g :
  compares n f -> compares m g ->
  compares (n + m) (fun k1 k2 => c_or (f k1 k2) (g (drop n k1) (drop n k2))).
Proof.
  intros Hf Hg k1 k2 Hb1 Hb2 H1 H2. apply c_or_parts; [done..| |].
  - apply Hf; [done..|lia|lia].
  - apply Hg; [by apply Forall_drop..| |]; rewrite length_drop; lia.
Qed.

Lemma compares_16 : compares 16 qing_hash_k16_cmp_eq.
Proof. exact k16_decides. Qed.
Lemma compares_32 : compares 32 qing_hash_k32_cmp_eq.
Proof. exact (compares_app 16 16 _ _ compares_16 compares_16). Qed.
Lemma compares_48 : compares 48 qing_hash_k48_cmp_eq.
Proof. exact (compares_app 32 16 _ _ compares_32 compares_16). Qed.
Lemma compares_64 : compares 64 qing_hash_k64_cmp_eq.
Proof. exact (compares_app 32 32 _ _ compares_32 compares_32). Qed.
Lemma compares_80 : compares 80 qing_hash_k80_cmp_eq.
Proof. exact (compares_app 64 16 _ _ compares_64 compares_16). Qed.
Lemma compares_96 : compares 96 qing_hash_k96_cmp_eq.
Proof. exact (compares_app 64 32 _ _ compares_64 compares_32). Qed.
Lemma compares_112 : compares 112 qing_hash_k112_cmp_eq.
Proof. exact (compares_app 96 16 _ _ compares_96 compares_16). Qed.
Lemma compares_128 : compares 128 qing_hash_k128_cmp_eq.
Proof. exact (compares_app 64 64 _ _ compares_64 compares_64). Qed.

Lemma memcmp_decides a b n :
  length a = n -> length b = n -> decides (memcmp a b n) (a = b).
Proof.
  revert a b. induction n as [|n IH]; intros [|x a] [|y b] Ha Hb; simplify_eq/=.
  - by exists 0.
  - case_decide as E; subst.
    + eapply decides_iff; [by apply IH|]. naive_solver.
    + exists (x - y). split; [done|]. split; [lia | naive_solver].
Qed.

(** The comparison selected for the keys' length decides their equality. *)
Lemma selected_cmp_decides n k1 k2 :
  bytes k1 -> bytes k2 -> Z.of_nat (length k1) = n -> Z.of_nat (length k2) = n ->
  decides (qcmp_jump_table (select_cmp n) k1 k2 n) (k1 = k2).
Proof.
  intros Hb1 Hb2 H1 H2. unfold select_cmp.
  assert (forall m f, compares m f -> n = Z.of_nat m -> decides (f k1 k2) (k1 = k2)) as Hsel.
  { intros m f Hf Hm. eapply decides_iff; [apply (Hf k1 k2); [done..|lia|lia]|].
    rewrite !take_ge by lia. done. }
  repeat case_decide; simpl; eauto using compares_16, compares_32, compares_48, compares_64,
    compares_80, compares_96, compares_112, compares_128.
  apply memcmp_decides; lia.
Qed.

(** C34. For every key length the comparison function that [qing_hash_create]
    selects (16-byte vector comparisons in pieces, or [memcmp]) agrees with
    the comparison of the keys as byte strings: it returns zero exactly for
    equal keys. *)
Theorem qing_cmp_equivalent n k1 k2 :
  bytes k1 -> bytes k2 -> Z.of_nat (length k1) = n -> Z.of_nat (length k2) = n ->
  exists c, qcmp_jump_table (select_cmp n) k1 k2 n = Ok c /\ (c = 0 <-> k1 = k2).
Proof. apply selected_cmp_decides. Qed.

Lemma qing_cmp_equivalent_witness :
  exists c, qcmp_jump_table (select_cmp 32) (replicate 31 7 ++ [1]) (replicate 31 7 ++ [2]) 32
    = Ok c /\ (c = 0 <-> replicate 31 7 ++ [1] = replicate 31 7 ++ [2]).
Proof.
  apply (qing_cmp_equivalent 32); [| |done|done];
    cbn; repeat first [apply Forall_nil_2 | apply Forall_cons_2; [unfold is_u8; lia|]].
Defined.

(** * Positions in the table *)

Abbreviation pos := (Z * Z)%type (only parsing).

Definition slot (h : qing_hash) (p : pos) : option bucket_entry :=
  match entry_at h p.1 p.2 with Ok e => Some e | Fault _ => None end.

Definition set_slot (h : qing_hash) (p : pos) (e : bucket_entry) : qing_hash :=
  h <| buckets ::= alter (fun b => <[Z.to_nat p.2 := e]> b) (Z.to_nat p.1) |>.

Lemma slot_unfold h b i e :
  slot h (b, i) = Some e <->
  0 <= b /\ 0 <= i /\ exists bk, buckets h !! Z.to_nat b = Some bk /\ bk !! Z.to_nat i = Some e.
Proof.
  unfold slot, entry_at, read_at; simpl.
  destruct (decide (0 <= b)); simpl; [|split; [done | lia]].
  destruct (buckets h !! Z.to_nat b) as [bk|]; simpl; [|naive_solver].
  case_decide; simpl; [|split; [done | lia]].
  destruct (bk !! Z.to_nat i) eqn:E; simpl; naive_solver.
Qed.

Lemma read_entry_ok h b i e : slot h (b, i) = Some e -> read_entry b i h = Ok (e, h).
Proof.
  unfold slot, read_entry; simpl. cbn [mbind M_bind get]. unfold mbind, M_bind, get, lift; simpl.
  by destruct (entry_at h b i); intros [= ->].
Qed.

Lemma slot_set_slot h p q e e0 :
  slot h p = Some e0 ->
  slot (set_slot h p e) q = if decide (p = q) then Some e else slot h q.
Proof.
  destruct p as [b i], q as [b' i']. intros (Hb & Hi & bk & Hbk & He)%slot_unfold.
  apply option_eq. intros x. destruct (decide ((b, i) = (b', i'))) as [E|E];
    rewrite slot_unfold; unfold set_slot, update; simpl; rewrite list_lookup_alter.
  - injection E as <- <-. rewrite decide_True, Hbk by done. simpl.
    split.
    + intros (_ & _ & bk' & [= <-] & Hx).
      rewrite list_lookup_insert_eq in Hx; [done | by eapply lookup_lt_Some].
    + intros [= <-]. split_and!; [done..|]. eexists. split; [done|].
      apply list_lookup_insert_eq. by eapply lookup_lt_Some.
  - rewrite slot_unfold. split; intros (Hb' & Hi' & bk' & Hbk' & Hx); split_and!; try done.
    + case_decide as Eb; [|naive_solver]. assert (b = b') as <- by lia.
      rewrite Hbk in Hbk'. injection Hbk' as <-.
      rewrite list_lookup_insert_ne in Hx by (intros ?; apply E; f_equal; lia). eauto.
    + case_decide as Eb; [|naive_solver]. assert (b = b') as <- by lia.
      rewrite Hbk in Hbk' |- *. injection Hbk' as <-. eexists. split; [done|].
      rewrite list_lookup_insert_ne; [done | intros ?; apply E; f_equal; lia].
Qed.

Lemma set_entry_ok h p f e :
  slot h p = Some e -> set_entry p.1 p.2 f h = Ok (tt, set_slot h p (f e)).
Proof.
  destruct p as [b i]. intros (Hb & Hi & bk & Hbk & He)%slot_unfold. simpl.
  pose proof (lookup_lt_Some _ _ _ Hbk). pose proof (lookup_lt_Some _ _ _ He).
  unfold set_entry, read_at, write_at.
  unfold mbind, M_bind, get, lift, modify; simpl.
  rewrite decide_True by lia. rewrite Hbk; simpl. rewrite decide_True by lia. rewrite He; simpl.
  rewrite !decide_True by lia; simpl. rewrite decide_True by lia; simpl.
  unfold set_slot, update; simpl.
  do 3 f_equal. rewrite list_insert_alter. apply list_alter_ext; [|done].
  intros x Hx. rewrite Hbk in Hx. by injection Hx as <-.
Qed.

Lemma set_slot_set_slot h p e1 e2 :
  set_slot (set_slot h p e1) p e2 = set_slot h p e2.
Proof.
  unfold set_slot, update; simpl. f_equal. apply list_eq. intros j.
  rewrite !list_lookup_alter. case_decide; [|done]. subst j. rewrite decide_True by done.
  destruct (buckets h !! Z.to_nat p.1) as [bk|]; simpl; [|done]. by rewrite list_insert_insert_eq.
Qed.

Lemma set_slot_id h p e : slot h p = Some e -> set_slot h p e = h.
Proof.
  destruct p as [b i]. intros (Hb & Hi & bk & Hbk & He)%slot_unfold.
  destruct h; unfold set_slot, update; simpl in *. f_equal.
  apply list_eq. intros j. rewrite list_lookup_alter. case_decide as E; [|done].
  subst j. rewrite Hbk. simpl. by rewrite list_insert_id.
Qed.

(** ** Loops over a bucket *)

Lemma entries_loop_cases {A} (P : Z -> Prop) `{!forall i, Decision (P i)}
    (body : Z -> HM (option A)) h n i0 :
  (forall i, i0 <= i < i0 + Z.of_nat n -> ~ P i -> body i h = Ok (None, h)) ->
  ((forall i, i0 <= i < i0 + Z.of_nat n -> ~ P i) /\ entries_loop n i0 body h = Ok (None, h)) \/
  (exists i, i0 <= i < i0 + Z.of_nat n /\ P i /\ (forall j, i0 <= j < i -> ~ P j) /\
    forall a h', body i h = Ok (Some a, h') -> entries_loop n i0 body h = Ok (Some a, h')).
Proof.
  revert i0. induction n as [|n IH]; intros i0 Hb.
  - left. split; [lia | done].
  - destruct (decide (P i0)) as [HP|HP].
    + right. exists i0. split_and!; [lia|lia|done|lia|]. intros a h' Ha. simpl.
      by step by (exact Ha).
    + specialize (IH (i0 + 1)). destruct IH as [[Hno Hr]|(i & Hi & Hp & Hlt & Hr)].
      * intros i Hi. apply Hb. lia.
      * left. split.
        -- intros i Hi. destruct (decide (i = i0)) as [->|]; [done | apply Hno; lia].
        -- simpl. step by (apply Hb; [lia | done]). done.
      * right. exists i. split_and!; [lia|lia|done| |].
        -- intros j Hj. destruct (decide (j = i0)) as [->|]; [done | apply Hlt; lia].
        -- intros a h' Ha. simpl. step by (apply Hb; [lia | done]). by apply Hr.
Qed.

(** A loop whose body does nothing until it meets an index with [P]: either no
    index has [P], or the loop does what its body does at the first. *)
Lemma for_entries_cases {A} (P : Z -> Prop) `{!forall i, Decision (P i)}
    (body : Z -> HM (option A)) h :
  (forall i, 0 <= i < 8 -> ~ P i -> body i h = Ok (None, h)) ->
  ((forall i, 0 <= i < 8 -> ~ P i) /\ for_entries body h = Ok (None, h)) \/
  (exists i, 0 <= i < 8 /\ P i /\ (forall j, 0 <= j < i -> ~ P j) /\
    forall a h', body i h = Ok (Some a, h') -> for_entries body h = Ok (Some a, h')).
Proof. apply (entries_loop_cases P body h 8 0). Qed.

(** ** The shape of the bucket array *)

Record shape (h : qing_hash) : Prop := {
  sh_len : Z.of_nat (length (buckets h)) = bucket_bitmask h + 1;
  sh_mask : exists n, 0 <= n /\ bucket_bitmask h = Z.ones n;
  sh_bkt : Forall (fun bk => length bk = RTE_HASH_BUCKET_ENTRIES) (buckets h);
}.

Definition bucket_of (h : qing_hash) (sig : Z) : Z := Z.land sig (bucket_bitmask h).

Lemma bucket_of_range h sig : shape h -> 0 <= bucket_of h sig <= bucket_bitmask h.
Proof.
  intros [_ (n & Hn & Hm) _]. unfold bucket_of. rewrite Hm, Z.land_ones by done.
  rewrite Z.ones_equiv. pose proof (Z.mod_pos_bound sig (2 ^ n)). lia.
Qed.

Lemma slot_some h b i :
  shape h -> 0 <= b <= bucket_bitmask h -> 0 <= i < 8 -> exists e, slot h (b, i) = Some e.
Proof.
  intros [Hl _ Hb] Hbr Hi.
  destruct (lookup_lt_is_Some_2 (buckets h) (Z.to_nat b)) as [bk Hbk]; [lia|].
  pose proof (Forall_lookup_1 _ _ _ _ Hb Hbk) as H8. simpl in H8.
  destruct (lookup_lt_is_Some_2 bk (Z.to_nat i)) as [e He].
  { rewrite H8. unfold RTE_HASH_BUCKET_ENTRIES. lia. }
  exists e. apply slot_unfold. split_and!; [lia|lia|]. eauto.
Qed.

Lemma slot_range h b i e : shape h -> slot h (b, i) = Some e ->
  0 <= b <= bucket_bitmask h /\ 0 <= i < 8.
Proof.
  intros [Hl _ Hb] (Hb0 & Hi0 & bk & Hbk & He)%slot_unfold.
  pose proof (Forall_lookup_1 _ _ _ _ Hb Hbk) as H8. simpl in H8.
  apply lookup_lt_Some in Hbk, He. unfold RTE_HASH_BUCKET_ENTRIES in H8. lia.
Qed.

Lemma shape_set_slot h p e : shape h -> shape (set_slot h p e).
Proof.
  intros [Hl Hm Hb]. unfold set_slot, update. split; simpl; [|done|].
  - by rewrite length_alter.
  - apply Forall_alter; [done|]. intros bk Hbk Hx. by rewrite length_insert.
Qed.

(** * Layouts

    The entries of the table as a function of the position; [hole] is a
    position to disregard, whose entry has been copied elsewhere and is about
    to be overwritten.  [sigof] gives the signature of the key at an index. *)
Definition layout : Type := pos -> option bucket_entry.

Section Layout.
Context (mask : Z) (sigof : Z -> Z).

(** The entry carries the signatures of its key, in one of the two orders, and
    is in the bucket of the first. *)
Definition home (p : pos) (e : bucket_entry) : Prop :=
  let s := sigof (key_idx e) in
  ((sig_current e = s /\ sig_alt e = rte_hash_secondary_hash s) \/
   (sig_current e = rte_hash_secondary_hash s /\ sig_alt e = s)) /\
  p.1 = Z.land (sig_current e) mask.

Record good (hole : option pos) (L : layout) : Prop := {
  g_home p e : L p = Some e -> hole <> Some p -> key_idx e <> 0 -> home p e;
  g_inj p q e f : L p = Some e -> L q = Some f -> hole <> Some p -> hole <> Some q ->
    key_idx e <> 0 -> key_idx e = key_idx f -> p = q;
  g_empty p e : L p = Some e -> hole <> Some p -> key_idx e = 0 ->
    sig_current e = 0 /\ sig_alt e = 0;
}.

Definition used (hole : option pos) (L : layout) (k : Z) : Prop :=
  k <> 0 /\ exists p e, L p = Some e /\ hole <> Some p /\ key_idx e = k.

(** Entry [e] moved to [e'], its signatures swapped. *)
Definition moved (e e' : bucket_entry) : Prop :=
  sig_current e' = sig_alt e /\ sig_alt e' = sig_current e /\ key_idx e' = key_idx e.

Lemma home_moved p q e e' :
  home p e -> moved e e' -> q.1 = Z.land (sig_alt e) mask -> home q e'.
Proof.
  intros [Hs _] (Hc & Ha & Hk) Hq. unfold home. rewrite Hk, Ha, Hc. split; [tauto | done].
Qed.

(** [L'] is [L] with [e'] at [q]. *)
Definition updated (L L' : layout) (q : pos) (e' : bucket_entry) : Prop :=
  forall p, L' p = if decide (q = p) then Some e' else L p.

(** Moving the entry of [p] into the position [q] that is disregarded or holds
    no entry leaves [p] as the position to disregard, and the same indices. *)
Lemma move_good hole L L' p q e e' :
  good hole L -> L p = Some e -> hole <> Some p -> p <> q -> key_idx e <> 0 ->
  (hole = Some q \/ hole = None /\ exists f, L q = Some f /\ key_idx f = 0) ->
  q.1 = Z.land (sig_alt e) mask -> moved e e' -> updated L L' q e' ->
  good (Some p) L' /\ forall k, used (Some p) L' k <-> used hole L k.
Proof.
  intros [Hh Hi He] Hp Hnp Hpq Hk Hq Hq1 Hm HL'.
  assert (key_idx e' = key_idx e) as Hk' by apply Hm.
  assert (forall r f, L' r = Some f -> Some p <> Some r -> r <> q ->
            L r = Some f /\ hole <> Some r) as Hother.
  { intros r f Hr Hpr Hrq. rewrite HL', decide_False in Hr by done. split; [done|].
    destruct Hq as [->|[-> _]]; congruence. }
  split.
  - split.
    + intros r f Hr Hpr Hf. destruct (decide (r = q)) as [->|Hrq].
      * rewrite HL', decide_True in Hr by done. injection Hr as <-.
        eapply home_moved; [|done..]. eauto.
      * destruct (Hother _ _ Hr Hpr Hrq). eauto.
    + intros r1 r2 f1 f2 H1 H2 Hp1 Hp2 Hf1 Hf.
      assert (forall r f, L' r = Some f -> Some p <> Some r -> r <> q ->
        key_idx f <> key_idx e) as Hne.
      { intros r f Hr Hpr Hrq Hfe. destruct (Hother _ _ Hr Hpr Hrq) as [Hr' Hrh].
        apply Hpr. f_equal. eapply (Hi p r e f); eauto. }
      destruct (decide (r1 = q)) as [->|Hr1], (decide (r2 = q)) as [->|Hr2]; [done| | |].
      * rewrite HL', decide_True in H1 by done. injection H1 as <-.
        exfalso. eapply (Hne r2); eauto. congruence.
      * rewrite HL', decide_True in H2 by done. injection H2 as <-.
        exfalso. eapply (Hne r1); eauto. congruence.
      * destruct (Hother _ _ H1 Hp1 Hr1), (Hother _ _ H2 Hp2 Hr2). eauto.
    + intros r f Hr Hpr Hf. destruct (decide (r = q)) as [->|Hrq].
      * rewrite HL', decide_True in Hr by done. injection Hr as <-. congruence.
      * destruct (Hother _ _ Hr Hpr Hrq). eauto.
  - intros k. split; intros (Hk0 & r & f & Hr & Hrh & Hf).
    + split; [done|]. destruct (decide (r = q)) as [->|Hrq].
      * rewrite HL', decide_True in Hr by done. injection Hr as <-.
        exists p, e. split_and!; [done..|congruence].
      * destruct (Hother _ _ Hr Hrh Hrq). eauto.
    + split; [done|]. destruct (decide (r = p)) as [->|Hrp].
      * exists q, e'. rewrite HL', decide_True by done. split_and!; congruence.
      * exists r, f. rewrite HL', decide_False; [split_and!; congruence|].
        intros ->. destruct Hq as [->|[-> (f' & Hf' & Hf0)]]; [done | congruence].
Qed.

(** Filling the disregarded position with the entry of a new index. *)
Lemma fill_good p L L' e' :
  good (Some p) L -> home p e' -> key_idx e' <> 0 -> ~ used (Some p) L (key_idx e') ->
  updated L L' p e' ->
  good None L' /\ forall k, used None L' k <-> k = key_idx e' \/ used (Some p) L k.
Proof.
  intros [Hh Hi He] Hhome Hk Hnew HL'.
  assert (forall r f, L' r = Some f -> r = p /\ f = e' \/ L r = Some f /\ Some p <> Some r)
    as Hcase.
  { intros r f. rewrite HL'. case_decide; [left; naive_solver | right; split; congruence]. }
  split; [split|].
  - intros r f Hr _ Hf. destruct (Hcase _ _ Hr) as [[-> ->]|[? ?]]; eauto.
  - intros r1 r2 f1 f2 H1 H2 _ _ Hf1 Hf.
    destruct (Hcase _ _ H1) as [[-> ->]|[? ?]], (Hcase _ _ H2) as [[-> ->]|[? ?]]; eauto;
      exfalso; apply Hnew; (split; [done|]).
    + exists r2, f2. split_and!; congruence.
    + exists r1, f1. split_and!; congruence.
  - intros r f Hr _ Hf. destruct (Hcase _ _ Hr) as [[-> ->]|[? ?]]; [done | eauto].
  - intros k. split.
    + intros (Hk0 & r & f & Hr & _ & Hf).
      destruct (Hcase _ _ Hr) as [[-> ->]|[? ?]]; [by left|]. right. split; eauto.
    + intros [->|(Hk0 & r & f & Hr & Hrh & Hf)].
      * split; [done|]. exists p, e'. rewrite HL', decide_True by done. done.
      * split; [done|]. exists r, f. rewrite HL', decide_False by congruence. done.
Qed.

(** Filling an empty position. *)
Lemma hole_at_empty p L e :
  good None L -> L p = Some e -> key_idx e = 0 ->
  good (Some p) L /\ forall k, used (Some p) L k <-> used None L k.
Proof.
  intros [Hh Hi He] Hp Hk. split; [split|].
  - eauto.
  - intros r1 r2 f1 f2 H1 H2 _ _. by apply Hi.
  - eauto.
  - intros k. split; intros (Hk0 & r & f & Hr & Hrh & Hf); split; try done; exists r, f;
      split_and!; try done. congruence.
Qed.

(** Emptying a position. *)
Lemma vacate_good p L L' e e' :
  good None L -> L p = Some e -> key_idx e <> 0 ->
  sig_current e' = 0 -> sig_alt e' = 0 -> key_idx e' = 0 -> updated L L' p e' ->
  good None L' /\ forall k, used None L' k <-> used None L k /\ k <> key_idx e.
Proof.
  intros [Hh Hi He] Hp Hk Hc Ha Hk' HL'.
  assert (forall r f, L' r = Some f -> key_idx f <> 0 -> L r = Some f /\ r <> p) as Hother.
  { intros r f Hr Hf. rewrite HL' in Hr. case_decide; [naive_solver | naive_solver]. }
  split; [split|].
  - intros r f Hr _ Hf. destruct (Hother _ _ Hr Hf). eauto.
  - intros r1 r2 f1 f2 H1 H2 _ _ Hf1 Hf.
    destruct (Hother _ _ H1 Hf1), (Hother _ _ H2 ltac:(congruence)). eauto.
  - intros r f Hr _ Hf. rewrite HL' in Hr. case_decide; [naive_solver | eauto].
  - intros k. split.
    + intros (Hk0 & r & f & Hr & _ & Hf). destruct (Hother _ _ Hr ltac:(congruence)) as [Hr' Hrp].
      split; [split; eauto|]. intros ->. apply Hrp. eapply (Hi r p f e); congruence.
    + intros [(Hk0 & r & f & Hr & _ & Hf) Hne]. split; [done|]. exists r, f.
      rewrite HL', decide_False; [done|]. intros ->. congruence.
Qed.
End Layout.

(** The signatures of the indices that are not used do not matter. *)
Lemma good_sigof mask sigof sigof' hole L :
  (forall k, used hole L k -> sigof k = sigof' k) -> good mask sigof hole L -> good mask sigof' hole L.
Proof.
  intros Hs [Hh Hi He]. split; [|done|done]. intros p e Hp Hn Hk.
  specialize (Hh p e Hp Hn Hk). unfold home in *. rewrite Hs in Hh; [done|]. split; eauto.
Qed.

(** A loop whose body only reads. *)
Lemma for_entries_reads {A} (body : Z -> HM (option A)) h :
  (forall i, 0 <= i < 8 -> exists x, body i h = Ok (x, h)) ->
  (exists i a, 0 <= i < 8 /\ body i h = Ok (Some a, h) /\ for_entries body h = Ok (Some a, h)) \/
  (forall i, 0 <= i < 8 -> body i h = Ok (None, h)) /\ for_entries body h = Ok (None, h).
Proof.
  intros Hb. set (r := fun i => match body i h with Ok (x, _) => x | Fault _ => None end).
  assert (forall i, 0 <= i < 8 -> body i h = Ok (r i, h)) as Hr.
  { intros i Hi. destruct (Hb i Hi) as [x Hx]. unfold r. by rewrite Hx. }
  destruct (for_entries_cases (fun i => is_Some (r i)) body h) as [[Hno Hf]|(i & Hi & [a Ha] & _ & Hf)].
  - intros i Hi Hn. rewrite Hr by done. by apply eq_None_not_Some in Hn as ->.
  - right. split; [|done]. intros i Hi. rewrite Hr by done.
    by rewrite (proj2 (eq_None_not_Some _) (Hno i Hi)).
  - left. exists i, a. rewrite Hf with (h' := h) (a := a); by rewrite Hr, Ha by done.
Qed.

Definition full (h : qing_hash) (b : Z) : Prop :=
  forall j f, slot h (b, j) = Some f -> key_idx f <> 0.

Lemma find_alternative_spec h b :
  shape h -> 0 <= b <= bucket_bitmask h ->
  (exists i j e f, find_alternative b h = Ok (Some (i, bucket_of h (sig_alt e), j), h) /\
     slot h (b, i) = Some e /\ slot h (bucket_of h (sig_alt e), j) = Some f /\ key_idx f = 0) \/
  find_alternative b h = Ok (None, h) /\
    forall i e, slot h (b, i) = Some e -> full h (bucket_of h (sig_alt e)).
Proof.
  intros Hsh Hb.
  assert (forall nb, 0 <= nb <= bucket_bitmask h ->
    let inner := for_entries (fun j =>
      ne ← read_entry nb j;
      mret (if decide (key_idx ne = EMPTY_SLOT) then Some j else None)) in
    (exists j f, inner h = Ok (Some j, h) /\ slot h (nb, j) = Some f /\ key_idx f = 0) \/
    inner h = Ok (None, h) /\ full h nb) as Hinner.
  { intros nb Hnb inner. destruct (for_entries_reads (fun j =>
      ne ← read_entry nb j;
      mret (if decide (key_idx ne = EMPTY_SLOT) then Some j else None)) h)
      as [(i & a & Hi & Hbody & Hf)|[Hbody Hf]].
    - intros i Hi. destruct (slot_some h nb i Hsh Hnb Hi) as [e He].
      step by (by apply read_entry_ok). eauto.
    - left. destruct (slot_some h nb i Hsh Hnb Hi) as [e He].
      revert Hbody. step by (by apply read_entry_ok). case_decide as E; [|done].
      intros [= <-]. eauto.
    - right. split; [done|]. intros j f Hj. pose proof (slot_range _ _ _ _ Hsh Hj) as [_ Hjr].
      specialize (Hbody j Hjr). revert Hbody. step by (by apply read_entry_ok).
      case_decide; [done|]. done. }
  destruct (for_entries_reads (fun i =>
    h ← get;
    e ← read_entry b i;
    let next_bucket_idx := Z.land (sig_alt e) (bucket_bitmask h) in
    r ← for_entries (fun j =>
      ne ← read_entry next_bucket_idx j;
      mret (if decide (key_idx ne = EMPTY_SLOT) then Some j else None));
    mret (match r with Some j => Some (i, next_bucket_idx, j) | None => None end)) h)
    as [(i & a & Hi & Hbody & Hf)|[Hbody Hf]].
  - intros i Hi. destruct (slot_some h b i Hsh Hb Hi) as [e He].
    step by done. step by (by apply read_entry_ok).
    destruct (Hinner (bucket_of h (sig_alt e))) as [(j & f & Hj & _)|[Hj _]];
      [by apply bucket_of_range| |]; step by (exact Hj); eauto.
  - left. destruct (slot_some h b i Hsh Hb Hi) as [e He]. revert Hbody.
    step by done. step by (by apply read_entry_ok).
    destruct (Hinner (bucket_of h (sig_alt e))) as [(j & f & Hj & Hs & Hz)|[Hj _]];
      [by apply bucket_of_range| |]; step by (exact Hj); [|done].
    intros [= <-]. exists i, j, e, f. done.
  - right. split; [done|]. intros i e He.
    pose proof (slot_range _ _ _ _ Hsh He) as [_ Hir]. specialize (Hbody i Hir).
    revert Hbody. step by done. step by (by apply read_entry_ok).
    destruct (Hinner (bucket_of h (sig_alt e))) as [(j & f & Hj & _)|[Hj Hfull]];
      [by apply bucket_of_range| |]; step by (exact Hj); done.
Qed.

Lemma fill_entry_ok h p sig alt idx e :
  slot h p = Some e ->
  fill_entry p.1 p.2 sig alt idx h = Ok (tt, set_slot h p (Entry sig idx alt (flag e))).
Proof. intros He. unfold fill_entry. by rewrite (set_entry_ok _ _ _ _ He). Qed.

Lemma push_entry_ok h b i q e f :
  slot h (b, i) = Some e -> slot h q = Some f ->
  push_entry b i q.1 q.2 h =
    Ok (tt, set_slot h q (Entry (sig_alt e) (key_idx e) (sig_current e) (flag f))).
Proof.
  intros He Hf. unfold push_entry. step by (by apply read_entry_ok). by apply fill_entry_ok.
Qed.

(** ** Pushing entries around *)

(** Layouts that differ in the flags only. *)
Definition strip (e : bucket_entry) : Z * Z * Z := (sig_current e, key_idx e, sig_alt e).
Definition same_entries (L L' : layout) : Prop := forall p, strip <$> L' p = strip <$> L p.

Lemma same_entries_at L L' p e :
  same_entries L L' -> L' p = Some e ->
  exists e0, L p = Some e0 /\ sig_current e0 = sig_current e /\ key_idx e0 = key_idx e /\
    sig_alt e0 = sig_alt e.
Proof.
  intros HL Hp. specialize (HL p). rewrite Hp in HL. destruct (L p) as [e0|]; [|done].
  injection HL as ???. eauto.
Qed.

Lemma same_entries_sym L L' : same_entries L L' -> same_entries L' L.
Proof. intros HL p. by rewrite HL. Qed.

Lemma good_same mask sigof hole L L' :
  same_entries L L' -> good mask sigof hole L -> good mask sigof hole L'.
Proof.
  intros HL [Hh Hi He]. split.
  - intros p e Hp Hn Hk. destruct (same_entries_at _ _ _ _ HL Hp) as (e0 & H0 & E1 & E2 & E3).
    specialize (Hh p e0 H0 Hn). unfold home in *. rewrite E1, E2, E3 in Hh. by apply Hh.
  - intros p q e f Hp Hq Hnp Hnq Hk Hkf.
    destruct (same_entries_at _ _ _ _ HL Hp) as (e0 & H0 & _ & E2 & _).
    destruct (same_entries_at _ _ _ _ HL Hq) as (f0 & F0 & _ & E2' & _).
    eapply (Hi p q e0 f0); congruence.
  - intros p e Hp Hn Hk. destruct (same_entries_at _ _ _ _ HL Hp) as (e0 & H0 & E1 & E2 & E3).
    rewrite <- E1, <- E3. eapply He; [done..|congruence].
Qed.

Lemma used_same hole L L' k : same_entries L L' -> used hole L k -> used hole L' k.
Proof.
  intros HL (Hk & p & e & Hp & Hn & He). apply same_entries_sym in HL.
  destruct (same_entries_at _ _ _ _ HL Hp) as (e0 & H0 & _ & E2 & _).
  split; [done|]. exists p, e0. split_and!; congruence.
Qed.

Lemma set_flag_same h p e v :
  slot h p = Some e -> same_entries (slot h) (slot (set_slot h p (e <| flag := v |>))).
Proof.
  intros He q. rewrite (slot_set_slot _ _ _ _ _ He). case_decide; [|done].
  subst q. by rewrite He.
Qed.

Lemma full_same h h' b : same_entries (slot h) (slot h') -> full h b -> full h' b.
Proof.
  intros HL Hf j f Hj. destruct (same_entries_at _ _ _ _ HL Hj) as (f0 & H0 & _ & E & _).
  rewrite <- E. by apply (Hf j).
Qed.

(** Only the bucket array differs. *)
Definition frame (h h' : qing_hash) : Prop := exists bs, h' = h <| buckets := bs |>.

Lemma frame_refl h : frame h h.
Proof. exists (buckets h). by destruct h. Qed.
Lemma frame_set_slot h h' p e : frame h h' -> frame h (set_slot h' p e).
Proof. intros [bs ->]. by eexists. Qed.
Lemma frame_trans h1 h2 h3 : frame h1 h2 -> frame h2 h3 -> frame h1 h3.
Proof. intros [bs ->] [bs' ->]. by eexists. Qed.
Lemma frame_mask h h' : frame h h' -> bucket_bitmask h' = bucket_bitmask h.
Proof. by intros [bs ->]. Qed.

(** The entries on the current path of pushes: occupied, their alternative
    bucket full. *)
Definition flags_ok (h : qing_hash) : Prop :=
  forall p e, slot h p = Some e -> flag e <> 0 ->
    key_idx e <> 0 /\ full h (bucket_of h (sig_alt e)).

Section MakeSpace.
Context (sigof : Z -> Z).

(** Slot [r] of bucket [b] can be overwritten in [h'], which has the entries
    of [h] at their places or pushed to alternative places. *)
Record pushed (h : qing_hash) (b r : Z) (h' : qing_hash) : Prop := {
  pu_frame : frame h h';
  pu_shape : shape h';
  pu_range : 0 <= r < 8;
  pu_good : good (bucket_bitmask h) sigof (Some (b, r)) (slot h');
  pu_used k : used (Some (b, r)) (slot h') k <-> used None (slot h) k;
  pu_flagged q e : slot h q = Some e -> flag e <> 0 -> q <> (b, r) /\ slot h' q = Some e;
  pu_flags q : flag <$> slot h' q = flag <$> slot h q;
}.

Record pushable (h : qing_hash) (b : Z) : Prop := {
  pb_shape : shape h;
  pb_good : good (bucket_bitmask h) sigof None (slot h);
  pb_range : 0 <= b <= bucket_bitmask h;
  pb_full : full h b;
  pb_flags : flags_ok h;
}.

(** An entry whose alternative bucket [q.1] has an empty slot [q.2]. *)
Lemma push_direct h b i q e f :
  pushable h b -> slot h (b, i) = Some e -> slot h q = Some f -> key_idx f = 0 ->
  q.1 = bucket_of h (sig_alt e) ->
  pushed h b i (set_slot h q (Entry (sig_alt e) (key_idx e) (sig_current e) (flag f))).
Proof.
  intros [Hsh Hg Hb Hfull Hfl] He Hf Hf0 Hq.
  assert (key_idx e <> 0) as Hk by eauto.
  assert ((b, i) <> q) as Hne by congruence.
  assert (flag e = 0) as Hfe.
  { destruct (decide (flag e = 0)) as [|Hn]; [done|]. exfalso.
    destruct (Hfl _ _ He Hn) as [_ Hff]. apply (Hff q.2 f); [|done].
    rewrite <- Hq. by destruct q. }
  set (e' := Entry (sig_alt e) (key_idx e) (sig_current e) (flag f)).
  destruct (move_good (bucket_bitmask h) sigof None (slot h) (slot (set_slot h q e')) (b, i) q e e')
    as [Hg' Hu]; try done; [by eauto | intros p; by apply slot_set_slot with (e0 := f) |].
  pose proof (slot_range _ _ _ _ Hsh He) as [_ Hi].
  split; [apply frame_set_slot, frame_refl | by apply shape_set_slot | done | done | done | |].
  - intros p e0 Hp Hn. split; [congruence|]. rewrite (slot_set_slot _ _ _ _ _ Hf).
    case_decide as E; [|done]. subst p. exfalso. destruct (Hfl _ _ Hp Hn) as [Hk0 _]. congruence.
  - intros p. rewrite (slot_set_slot _ _ _ _ _ Hf). case_decide as E; [|done].
    subst p. by rewrite Hf.
Qed.

(** The recursive call made room at [(nb, r)] for entry [i] of [b]. *)
Lemma push_after h b i e r h' f :
  pushable h b -> slot h (b, i) = Some e -> flag e = 0 ->
  pushed (set_slot h (b, i) (e <| flag := 1 |>)) (bucket_of h (sig_alt e)) r h' ->
  slot h' (bucket_of h (sig_alt e), r) = Some f ->
  pushed h b i
    (set_slot (set_slot h' (b, i) e) (bucket_of h (sig_alt e), r)
      (Entry (sig_alt e) (key_idx e) (sig_current e) (flag f))).
Proof.
  intros [Hsh Hg Hb Hfull Hfl] He Hfe [Hfr Hsh' Hr Hg' Hu Hflg Hfs] Hf.
  set (nb := bucket_of h (sig_alt e)) in *. set (e1 := e <| flag := 1 |>) in *.
  assert (key_idx e <> 0) as Hk by eauto.
  assert (slot (set_slot h (b, i) e1) (b, i) = Some e1) as H1.
  { rewrite (slot_set_slot _ _ _ _ _ He). by rewrite decide_True. }
  destruct (Hflg _ _ H1) as [Hne H1']; [done|].
  assert (e = e1 <| flag := 0 |>) as Ee by (destruct e; simpl in *; by subst).
  assert (slot (set_slot h' (b, i) e) (nb, r) = Some f) as Hf2.
  { rewrite (slot_set_slot _ _ _ _ _ H1'). by rewrite decide_False. }
  assert (same_entries (slot h') (slot (set_slot h' (b, i) e))) as Hsame.
  { rewrite Ee. exact (set_flag_same h' (b, i) e1 0 H1'). }
  pose proof (set_flag_same h (b, i) e 1 He) as Hsame0. fold e1 in Hsame0.
  set (e' := Entry (sig_alt e) (key_idx e) (sig_current e) (flag f)).
  destruct (move_good (bucket_bitmask h) sigof (Some (nb, r)) (slot (set_slot h' (b, i) e))
    (slot (set_slot (set_slot h' (b, i) e) (nb, r) e')) (b, i) (nb, r) e e')
    as [Hg2 Hu2]; try done;
    [ eapply good_same; [exact Hsame|exact Hg'] | | congruence | by left
    | intros p; by apply slot_set_slot with (e0 := f) |].
  { rewrite (slot_set_slot _ _ _ _ _ H1'). by rewrite decide_True. }
  pose proof (slot_range _ _ _ _ Hsh He) as [_ Hi].
  assert (frame h (set_slot h (b, i) e1)) as Hfr0 by apply frame_set_slot, frame_refl.
  split; [ apply frame_set_slot, frame_set_slot; by eapply frame_trans
         | by apply shape_set_slot, shape_set_slot | done | done | | |].
  - intros k. rewrite Hu2. split.
    + intros Hk2. eapply used_same; [by apply same_entries_sym, Hsame0|]. apply Hu.
      eapply used_same; [by apply same_entries_sym, Hsame|]. done.
    + intros Hk2. eapply used_same; [exact Hsame|]. apply Hu. by eapply used_same.
  - intros p e0 Hp Hn. split; [congruence|].
    assert (slot (set_slot h (b, i) e1) p = Some e0) as Hp1.
    { rewrite (slot_set_slot _ _ _ _ _ He). rewrite decide_False; [done | congruence]. }
    destruct (Hflg _ _ Hp1 Hn) as [Hpn Hp'].
    rewrite (slot_set_slot _ _ _ _ _ Hf2), decide_False by done.
    rewrite (slot_set_slot _ _ _ _ _ H1'), decide_False by congruence. done.
  - intros p. rewrite (slot_set_slot _ _ _ _ _ Hf2). case_decide as E.
    + subst p. simpl. specialize (Hfs (nb, r)). rewrite Hf in Hfs. simpl in Hfs.
      rewrite Hfs, (slot_set_slot _ _ _ _ _ He), decide_False; done.
    + rewrite (slot_set_slot _ _ _ _ _ H1'). case_decide as E2.
      * subst p. by rewrite He.
      * by rewrite Hfs, (slot_set_slot _ _ _ _ _ He), decide_False.
Qed.

(** Marking an unflagged entry whose alternative bucket is full. *)
Lemma pushable_next h b i e :
  pushable h b -> slot h (b, i) = Some e -> full h (bucket_of h (sig_alt e)) ->
  pushable (set_slot h (b, i) (e <| flag := 1 |>)) (bucket_of h (sig_alt e)).
Proof.
  intros [Hsh Hg Hb Hfull Hfl] He Hnf.
  pose proof (set_flag_same h (b, i) e 1 He) as Hsame.
  split; [by apply shape_set_slot | by eapply good_same | exact (bucket_of_range h _ Hsh)
         | by eapply full_same |].
  intros p e0. rewrite (slot_set_slot _ _ _ _ _ He).
  case_decide as E; intros Hp Hn.
  - injection Hp as <-. simpl. split; [by eapply Hfull | by eapply full_same].
  - destruct (Hfl _ _ Hp Hn). split; [done | by eapply full_same].
Qed.

Lemma unpushed_spec h b :
  shape h -> 0 <= b <= bucket_bitmask h ->
  let find := for_entries (fun i =>
    e ← read_entry b i; mret (if decide (flag e = 0) then Some i else None)) in
  find h = Ok (None, h) \/
  exists i e, find h = Ok (Some i, h) /\ slot h (b, i) = Some e /\ flag e = 0.
Proof.
  intros Hsh Hb. edestruct (for_entries_reads (fun i =>
    e ← read_entry b i; mret (if decide (flag e = 0) then Some i else None)) h)
    as [(i & a & Hi & Hbody & Hf)|[_ Hf]]; [|right|by left].
  - intros i Hi. destruct (slot_some h b i Hsh Hb Hi) as [e He].
    step by (by apply read_entry_ok). eauto.
  - destruct (slot_some h b i Hsh Hb Hi) as [e He]. revert Hbody.
    step by (by apply read_entry_ok). case_decide; [|done]. intros [= <-]. eauto.
Qed.

Lemma make_space_spec fuel h b nr :
  pushable h b -> 0 <= nr <= 100 -> Z.of_nat fuel + nr > 100 ->
  exists r nr' h', make_space_bucket fuel b nr h = Ok ((r, nr'), h') /\
    (r = - ENOSPC /\ h' = h \/ pushed h b r h').
Proof.
  revert h b nr. induction fuel as [|fuel IH]; intros h b nr Hpb Hnr Hfuel; [lia|].
  pose proof Hpb as [Hsh Hg Hb Hfull Hfl]. cbn [make_space_bucket].
  destruct (find_alternative_spec h b Hsh Hb) as [(i & j & e & f & Hfa & He & Hf & Hf0)|[Hfa Hnf]].
  { step by (exact Hfa). step by (by apply (push_entry_ok _ _ _ (_, _) e f)).
    do 3 eexists. split; [done|]. right. by apply push_direct. }
  step by (exact Hfa).
  destruct (unpushed_spec h b Hsh Hb) as [Hun|(i & e & Hun & He & Hfe)]; step by (exact Hun).
  { do 3 eexists. split; [done|]. by left. }
  assert (u32 (nr + 1) = nr + 1) as Hu by (apply u32_id; unfold is_u32; lia). rewrite Hu.
  case_decide as Hgt. { do 3 eexists. split; [done|]. by left. }
  step by done. step by (by apply read_entry_ok). change (Z.land (sig_alt e) (bucket_bitmask h))
    with (bucket_of h (sig_alt e)).
  step by (by apply (set_entry_ok h (b, i) _ e)).
  destruct (IH (set_slot h (b, i) (e <| flag := 1 |>)) (bucket_of h (sig_alt e)) (nr + 1))
    as (r & nr' & h' & Hrec & Hres); [by eauto using pushable_next | unfold RTE_HASH_MAX_PUSHES in *; lia | lia|].
  step by (exact Hrec).
  assert (e <| flag := 1 |> <| flag := 0 |> = e) as Ee by (destruct e; simpl in *; by subst).
  assert (slot (set_slot h (b, i) (e <| flag := 1 |>)) (b, i) = Some (e <| flag := 1 |>)) as H1.
  { rewrite (slot_set_slot _ _ _ _ _ He). by rewrite decide_True. }
  destruct Hres as [[-> ->]|Hpu].
  - step by (by apply (set_entry_ok _ (b, i) _ _ H1)). do 3 eexists. split; [done|]. left.
    split; [done|]. rewrite Ee, set_slot_set_slot. by apply set_slot_id.
  - destruct (pu_flagged _ _ _ _ Hpu _ _ H1) as [Hne H1']; [done|].
    step by (by apply (set_entry_ok _ (b, i) _ _ H1')). rewrite Ee.
    rewrite decide_True by (pose proof (pu_range _ _ _ _ Hpu); lia).
    assert (slot (set_slot h' (b, i) e) (b, i) = Some e) as H2.
    { rewrite (slot_set_slot _ _ _ _ _ H1'). by rewrite decide_True. }
    destruct (slot_some h' (bucket_of h (sig_alt e)) r) as [f Hf];
      [apply Hpu | rewrite (frame_mask _ _ (pu_frame _ _ _ _ Hpu)); exact (bucket_of_range h _ Hsh) | apply Hpu |].
    assert (slot (set_slot h' (b, i) e) (bucket_of h (sig_alt e), r) = Some f) as Hf2.
    { rewrite (slot_set_slot _ _ _ _ _ H1'). by rewrite decide_False. }
    step by (by apply (push_entry_ok _ _ _ (_, _) _ _ H2 Hf2)).
    do 3 eexists. split; [done|]. right. by apply push_after.
Qed.
End MakeSpace.
