(* ===== verification/CuckooMap.v ===== *)
(** The cuckoo hash table of one writer refines a finite map of bounded size:
    the invariant of the table, what each operation does to the map it
    represents, and the refinement of every sequence of operations on a
    created table. *)
From S2P Require Import Prelude Fifo CircularQueue CuckooHash CuckooCorrect.
#[local] Open Scope Z_scope.

Section Table.
Context `{!Dpdk, !DpdkLaws}.

Definition valid_key (n : Z) (k : list Z) : Prop := bytes k /\ Z.of_nat (length k) = n.

(** The signature of the key stored at an index. *)
Definition sigof (h : qing_hash) (idx : Z) : Z :=
  match key_store h !! Z.to_nat idx with Some kr => hash_of h (key kr) | None => 0 end.

Abbreviation in_use h idx := (used None (slot h) idx).

(** ** The invariant

    [N] is the number of key slots; an index is in the ring of free slots, or
    lent to the insertion in progress, or in exactly one entry. *)
Record table_ok (N : Z) (lent : list Z) (h : qing_hash) : Prop := {
  t_shape : shape h;
  t_good : good (bucket_bitmask h) (sigof h) None (slot h);
  t_noflag p e : slot h p = Some e -> flag e = 0;
  t_keys idx kr : key_store h !! idx = Some kr -> valid_key (key_len h) (key kr);
  t_room : 0 <= N < 2 ^ 32 /\ N < Z.of_nat (length (key_store h));
  t_offsets : 0 < key_entry_size h /\ N * key_entry_size h < 2 ^ 32;
  t_inj i1 i2 r1 r2 : in_use h i1 -> in_use h i2 ->
    key_store h !! Z.to_nat i1 = Some r1 -> key_store h !! Z.to_nat i2 = Some r2 ->
    key r1 = key r2 -> i1 = i2;
  t_ring : heap_wf (free_slots h);
  t_cap : N <= Z.of_nat (cirq_cap (free_slots h));
  t_nodup : NoDup (lent ++ cirq_contents (free_slots h));
  t_free idx : idx ∈ lent ++ cirq_contents (free_slots h) -> 1 <= idx <= N /\ ~ in_use h idx;
  t_all idx : 1 <= idx <= N -> idx ∈ lent ++ cirq_contents (free_slots h) \/ in_use h idx;
  t_used idx : in_use h idx -> 1 <= idx <= N;
  t_hw : hw_trans_mem_support h = 0;
  t_add : add_key h <> ADD_KEY_MULTIWRITER_TM;
  t_cmp : cmp_jump_table_idx h = select_cmp (key_len h);
}.

(** What no operation changes, taken with the lock. *)
Definition conf (h : qing_hash) : Z * add_key_case * bool :=
  (key_len h, add_key h, multiwriter_lock h).

(** The finite map the table represents. *)
Definition rep (h : qing_hash) (m : gmap (list Z) ptr) : Prop :=
  forall k v, m !! k = Some v <->
    exists idx, in_use h idx /\ key_store h !! Z.to_nat idx = Some (HashKey v k).

Lemma key_rec_some N lent h idx : table_ok N lent h -> 0 <= idx <= N ->
  exists kr, key_store h !! Z.to_nat idx = Some kr.
Proof.
  intros Ht Hi. pose proof (t_room _ _ _ Ht) as [? ?]. apply lookup_lt_is_Some_2. lia.
Qed.

(** While the records take less than 4 GiB the offset of an index does not wrap. *)
Lemma record_at_ok N lent h idx : table_ok N lent h -> 0 <= idx <= N -> record_at h idx = Ok idx.
Proof.
  intros Ht Hi. destruct (t_offsets _ _ _ Ht) as [Hpos Hsz]. unfold record_at.
  rewrite u32_id by (unfold is_u32; nia).
  rewrite decide_True by (split; [done | by apply Z.mod_mul; lia]).
  by rewrite Z.div_mul by lia.
Qed.

(** ** Searching a bucket *)

(** Entry [i] of bucket [b] is in use under [cur] for the key [k]. *)
Definition hit (h : qing_hash) (b cur : Z) (k : list Z) (i : Z) : Prop :=
  match slot h (b, i) with
  | Some e => sig_current e = cur /\ key_idx e <> 0 /\
      (key <$> key_store h !! Z.to_nat (key_idx e)) = Some k
  | None => False
  end.
#[local] Instance hit_dec h b cur k i : Decision (hit h b cur k i).
Proof. unfold hit. destruct (slot h (b, i)); apply _. Defined.

Lemma hit_unfold h b cur k i : hit h b cur k i ->
  exists e kr, slot h (b, i) = Some e /\ sig_current e = cur /\ key_idx e <> 0 /\
    key_store h !! Z.to_nat (key_idx e) = Some kr /\ key kr = k.
Proof.
  unfold hit. destruct (slot h (b, i)) as [e|]; [|done]. intros (? & ? & Hk).
  apply fmap_Some in Hk as (kr & ? & ->). eauto 10.
Qed.

Lemma in_use_slot h p e : slot h p = Some e -> key_idx e <> 0 -> in_use h (key_idx e).
Proof. intros He Hk. split; [done|]. by exists p, e. Qed.

(** [cond] accepts the entries of [k] under [cur], and no unused entry. *)
Definition accepts (h : qing_hash) (b cur : Z) (cond : bucket_entry -> bool) (k : list Z) : Prop :=
  forall i e, slot h (b, i) = Some e ->
    (cond e = true -> key_idx e <> 0 /\ sig_current e = cur) /\
    (hit h b cur k i -> cond e = true).

Lemma scan_spec {A} N lent h b cur cond k (found : Z -> bucket_entry -> rte_hash_key -> HM A) :
  table_ok N lent h -> valid_key (key_len h) k -> 0 <= b <= bucket_bitmask h ->
  accepts h b cur cond k ->
  ((forall i, ~ hit h b cur k i) /\ scan_bucket b cond k found h = Ok (None, h)) \/
  exists i e kr, slot h (b, i) = Some e /\ sig_current e = cur /\ key_idx e <> 0 /\
    key_store h !! Z.to_nat (key_idx e) = Some kr /\ key kr = k /\
    forall a h', found i e kr h = Ok (a, h') ->
      scan_bucket b cond k found h = Ok (Some a, h').
Proof.
  intros Ht [Hkb Hkl] Hb Hacc. pose proof (t_shape _ _ _ Ht) as Hsh.
  assert (forall i e, slot h (b, i) = Some e -> cond e = true ->
    exists kr c, key_at (key_idx e) h = Ok (kr, h) /\
      key_store h !! Z.to_nat (key_idx e) = Some kr /\
      rte_hash_cmp_eq k (key kr) h = Ok (c, h) /\ (c = 0 <-> k = key kr)) as Hread.
  { intros i e He Hc. destruct (Hacc i e He) as [Hin _]. destruct (Hin Hc) as [Hk0 _].
    pose proof (t_used _ _ _ Ht _ (in_use_slot _ _ _ He Hk0)) as Hr.
    destruct (key_rec_some N lent h (key_idx e) Ht) as [kr Hkr]; [lia|].
    destruct (t_keys _ _ _ Ht _ _ Hkr) as [Hb' Hl'].
    destruct (selected_cmp_decides (key_len h) k (key kr)) as (c & Hc' & Hiff); try done.
    exists kr, c. split_and!; [|done| |done].
    - unfold key_at. step by done.
      step by (apply lift_ok; apply (record_at_ok _ _ _ _ Ht); lia). apply lift_ok. unfold read_at.
      rewrite decide_True by lia. by rewrite Hkr.
    - unfold rte_hash_cmp_eq. step by done. apply lift_ok. by rewrite (t_cmp _ _ _ Ht). }
  edestruct (for_entries_cases (hit h b cur k) (fun i =>
    e ← read_entry b i;
    if cond e then
      kr ← key_at (key_idx e);
      c ← rte_hash_cmp_eq k (key kr);
      if decide (c = 0) then a ← found i e kr; mret (Some a) else mret None
    else mret None) h) as [[Hno Hr]|(i & Hi & Hhit & _ & Hr)].
  - intros i Hi Hnh. destruct (slot_some h b i Hsh Hb Hi) as [e He].
    step by (by apply read_entry_ok). destruct (cond e) eqn:Ec; [|done].
    destruct (Hread i e He Ec) as (kr & c & Hk & Hkr & Hc & Hiff).
    step by (exact Hk). step by (exact Hc). rewrite decide_False; [done|].
    intros Hc0. apply Hnh. unfold hit. rewrite He, Hkr.
    destruct (proj1 (Hacc i e He) Ec). apply Hiff in Hc0 as ->. done.
  - left. split; [|done]. intros i Hh. pose proof (hit_unfold _ _ _ _ _ Hh) as (e & _ & He & _).
    by apply (Hno i (proj2 (slot_range _ _ _ _ Hsh He))).
  - right. destruct (hit_unfold _ _ _ _ _ Hhit) as (e & kr & He & Hcur & Hk0 & Hkr & Hk).
    exists i, e, kr. split_and!; try done. intros a h' Ha. apply Hr.
    assert (cond e = true) as Ec by by apply (Hacc i e He).
    step by (by apply read_entry_ok). rewrite Ec.
    destruct (Hread i e He Ec) as (kr' & c & Hka & Hkr' & Hc & Hiff).
    rewrite Hkr in Hkr'. injection Hkr' as <-.
    step by (exact Hka). step by (exact Hc). rewrite decide_True by (apply Hiff; done).
    by step by (exact Ha).
Qed.

(** ** The two places of a key *)

Lemma secondary_zero : rte_hash_secondary_hash 0 <> 0.
Proof. by vm_compute. Qed.

Lemma accepts_in_use h b s k : accepts h b s (sig_in_use s) k.
Proof.
  intros i e He. unfold sig_in_use. rewrite bool_decide_eq_true. split; [tauto|].
  intros (e' & kr & He' & ? & ? & _)%hit_unfold. by simplify_eq.
Qed.

Lemma accepts_sigs N lent h k b cur alt :
  table_ok N lent h ->
  (cur = hash_of h k /\ alt = rte_hash_secondary_hash (hash_of h k) \/
   cur = rte_hash_secondary_hash (hash_of h k) /\ alt = hash_of h k) ->
  accepts h b cur (sigs_match cur alt) k.
Proof.
  intros Ht Hs i e He. pose proof (t_good _ _ _ Ht) as Hg. unfold sigs_match.
  rewrite bool_decide_eq_true. split.
  - intros [Hc Ha]. split; [|done]. intros Hk.
    destruct (g_empty _ _ _ _ Hg _ _ He ltac:(done) Hk) as [Hc0 Ha0].
    pose proof secondary_zero. destruct Hs as [[-> ->]|[-> ->]]; congruence.
  - intros (e' & kr & He' & Hc & Hk & Hkr & Hkey)%hit_unfold. simplify_eq. split; [done|].
    destruct (g_home _ _ _ _ Hg _ _ He ltac:(done) Hk) as [Hh _].
    unfold sigof in Hh. rewrite Hkr in Hh. destruct Hs as [[? ?]|[? ?]], Hh as [[? ?]|[? ?]]; congruence.
Qed.

(** A key in the table is in its primary or in its secondary bucket. *)
Lemma present_hit N lent h idx kr :
  table_ok N lent h -> in_use h idx -> key_store h !! Z.to_nat idx = Some kr ->
  let sig := hash_of h (key kr) in let alt := rte_hash_secondary_hash sig in
  (exists i, hit h (bucket_of h sig) sig (key kr) i) \/
  (exists i, hit h (bucket_of h alt) alt (key kr) i).
Proof.
  intros Ht (Hk0 & [b i] & e & He & _ & <-) Hkr sig alt.
  destruct (g_home _ _ _ _ (t_good _ _ _ Ht) _ _ He ltac:(done) Hk0) as [Hs Hb].
  unfold sigof in Hs. rewrite Hkr in Hs. fold sig in Hs. fold alt in Hs. simpl in Hb.
  assert (hit h b (sig_current e) (key kr) i) as Hh.
  { unfold hit. rewrite He, Hkr. done. }
  destruct Hs as [[Hc _]|[Hc _]]; rewrite Hc in *; [left|right]; exists i; by rewrite Hb in Hh.
Qed.

(** A hit is the key's entry. *)
Lemma hit_lookup h m b k i e kr :
  rep h m -> slot h (b, i) = Some e -> key_idx e <> 0 ->
  key_store h !! Z.to_nat (key_idx e) = Some kr -> key kr = k -> m !! k = Some (pdata kr).
Proof.
  intros Hm He Hk Hkr <-. apply Hm. exists (key_idx e). split; [by eapply in_use_slot|].
  by destruct kr.
Qed.

Lemma no_hit_lookup N lent h m k :
  table_ok N lent h -> rep h m ->
  (forall i, ~ hit h (bucket_of h (hash_of h k)) (hash_of h k) k i) ->
  (forall i, ~ hit h (bucket_of h (rte_hash_secondary_hash (hash_of h k)))
     (rte_hash_secondary_hash (hash_of h k)) k i) ->
  m !! k = None.
Proof.
  intros Ht Hm H1 H2. apply eq_None_not_Some. intros [v (idx & Hu & Hkr)%Hm].
  destruct (present_hit _ _ _ _ _ Ht Hu Hkr) as [[i Hi]|[i Hi]]; simpl in *; naive_solver.
Qed.

(** ** Lookup *)
Lemma lookup_spec N h m k :
  table_ok N [] h -> rep h m -> valid_key (key_len h) k ->
  exists ret d, qing_hash_lookup_data k h = Ok ((ret, d), h) /\
    d = m !! k /\ (if m !! k is Some _ then 0 <= ret < N else ret = - ENOENT).
Proof.
  intros Ht Hm Hv. pose proof (t_shape _ _ _ Ht) as Hsh.
  unfold qing_hash_lookup_data, __qing_hash_lookup_with_hash. step by done. step by done.
  fold (bucket_of h (hash_of h k)) (bucket_of h (rte_hash_secondary_hash (hash_of h k))).
  assert (forall i e b, slot h (b, i) = Some e -> key_idx e <> 0 -> 0 <= key_idx e - 1 < N) as Hr.
  { intros i e b He Hk. pose proof (t_used _ _ _ Ht _ (in_use_slot _ _ _ He Hk)). lia. }
  destruct (scan_spec N [] h (bucket_of h (hash_of h k)) (hash_of h k) (sig_in_use (hash_of h k)) k
    (fun i e kr => mret (key_idx e - 1, pdata kr)))
    as [[Hno1 Hs]|(i & e & kr & He & Hc & Hk & Hkr & Hkey & Hs)];
    try done; [by apply bucket_of_range | apply accepts_in_use | |].
  - unfold lookup_in_bucket. step by (exact Hs).
    destruct (scan_spec N [] h (bucket_of h (rte_hash_secondary_hash (hash_of h k)))
      (rte_hash_secondary_hash (hash_of h k))
      (sigs_match (rte_hash_secondary_hash (hash_of h k)) (hash_of h k)) k
      (fun i e kr => mret (key_idx e - 1, pdata kr)))
      as [[Hno2 Hs2]|(i & e & kr & He & Hc & Hk & Hkr & Hkey & Hs2)];
      try done; [by apply bucket_of_range | eapply accepts_sigs; [done|by right] | |].
    + step by (exact Hs2). rewrite (no_hit_lookup _ _ _ _ _ Ht Hm Hno1 Hno2). eauto.
    + step by (by apply Hs2). rewrite (hit_lookup _ _ _ _ _ _ _ Hm He Hk Hkr Hkey).
      do 2 eexists. split; [done|]. split; [done|]. by eapply Hr.
  - unfold lookup_in_bucket. step by (by apply Hs).
    rewrite (hit_lookup _ _ _ _ _ _ _ Hm He Hk Hkr Hkey).
    do 2 eexists. split; [done|]. split; [done|]. by eapply Hr.
Qed.
(** ** The free slots *)

Lemma table_ok_ring N lent lent' h q :
  table_ok N lent h -> heap_wf q -> cirq_cap q = cirq_cap (free_slots h) ->
  lent' ++ cirq_contents q ≡ₚ lent ++ cirq_contents (free_slots h) ->
  table_ok N lent' (h <| free_slots := q |>).
Proof.
  intros Ht Hwf Hcap Hp. destruct Ht. split; try done; unfold update; cbn [free_slots].
  - by destruct t_shape0.
  - by rewrite Hcap.
  - by rewrite Hp.
  - intros idx. rewrite Hp. by apply t_free0.
  - intros idx. rewrite Hp. by apply t_all0.
Qed.

Lemma free_ring_bound N lent h :
  table_ok N lent h -> Z.of_nat (length (lent ++ cirq_contents (free_slots h))) <= N.
Proof.
  intros Ht. rewrite <- (Z2Nat.id N) by apply (t_room _ _ _ Ht). apply inj_le.
  rewrite <- (length_seqZ 1 N). apply submseteq_length, NoDup_submseteq; [apply Ht|].
  intros idx Hi. apply elem_of_seqZ. pose proof (t_free _ _ _ Ht _ Hi). lia.
Qed.

Lemma ring_add_ok N idx h :
  table_ok N [idx] h -> exists q, ring_add idx h = Ok (SUCCESS, h <| free_slots := q |>) /\
    table_ok N [] (h <| free_slots := q |>).
Proof.
  intros Ht. pose proof (free_ring_bound _ _ _ Ht) as Hl. pose proof (t_cap _ _ _ Ht) as Hcap.
  simpl in Hl. destruct (fifo_enq_room (free_slots h) idx (t_ring _ _ _ Ht))
    as (q & Hq & Hwf & Hc & Hcq); [lia|].
  exists q. split.
  - unfold ring_add. step by done. step by (by apply lift_ok). done.
  - eapply table_ok_ring; [done..|]. rewrite Hc. simpl. by rewrite Permutation_app_comm.
Qed.

Lemma ring_get_ok N h :
  table_ok N [] h ->
  (cirq_contents (free_slots h) = [] /\ ring_get h = Ok (NULL, h)) \/
  exists idx q, idx <> NULL /\ ring_get h = Ok (idx, h <| free_slots := q |>) /\
    table_ok N [idx] (h <| free_slots := q |>).
Proof.
  intros Ht. pose proof (t_ring _ _ _ Ht) as Hr.
  destruct (cirq_contents (free_slots h)) as [|idx l] eqn:E.
  - left. split; [done|]. unfold ring_get. step by done.
    step by (apply lift_ok; by apply fifo_deq_empty). by destruct h.
  - right. destruct (fifo_deq_head _ _ _ Hr E) as (q & Hq & Hwf & Hc & Hcq).
    exists idx, q. split_and!.
    + destruct (t_free _ _ _ Ht idx) as [? _]; [rewrite E; set_solver|]. unfold NULL. lia.
    + unfold ring_get. step by done. step by (by apply lift_ok). done.
    + eapply table_ok_ring; [done..|]. simpl. by rewrite Hc, E.
Qed.

Lemma enqueue_slot_back_ok N idx h :
  table_ok N [idx] h -> exists q, enqueue_slot_back idx h = Ok (tt, h <| free_slots := q |>) /\
    table_ok N [] (h <| free_slots := q |>).
Proof.
  intros Ht. destruct (ring_add_ok _ _ _ Ht) as (q & Hq & Hok). exists q. split; [|done].
  unfold enqueue_slot_back. step by done.
  rewrite decide_False by (rewrite (t_hw _ _ _ Ht); auto). by step by (exact Hq).
Qed.

(** ** Deletion *)

Lemma vacate_ok N lent h m p e kr :
  table_ok N lent h -> rep h m -> slot h p = Some e -> key_idx e <> 0 ->
  key_store h !! Z.to_nat (key_idx e) = Some kr ->
  let h' := set_slot h p (Entry 0 0 0 (flag e)) in
  table_ok N (key_idx e :: lent) h' /\ rep h' (delete (key kr) m).
Proof.
  intros Ht Hm He Hk Hkr h'.
  destruct (vacate_good (bucket_bitmask h) (sigof h) p (slot h) (slot h') e (Entry 0 0 0 (flag e)))
    as [Hg Hu]; try done; [apply Ht | intros r; by apply slot_set_slot with (e0 := e) |].
  pose proof (in_use_slot _ _ _ He Hk) as Hin. pose proof (t_used _ _ _ Ht _ Hin) as Hrange.
  split.
  - destruct Ht. split; try done.
    + by apply shape_set_slot.
    + intros q f. unfold h'. rewrite (slot_set_slot _ _ _ _ _ He). case_decide; [|eauto].
      intros [= <-]. simpl. eauto.
    + intros i1 i2 r1 r2 H1%Hu H2%Hu. apply t_inj0; tauto.
    + simpl. constructor; [|done]. intros Hi%t_free0. by apply Hi.
    + intros idx. simpl. rewrite elem_of_cons, Hu. intros [->|Hi]; [by split; [|intros []]|].
      destruct (t_free0 _ Hi). tauto.
    + intros idx Hi. simpl. rewrite elem_of_cons, Hu. destruct (decide (idx = key_idx e)); [tauto|].
      destruct (t_all0 _ Hi); tauto.
    + intros idx [Hi _]%Hu. eauto.
  - intros k v. rewrite lookup_delete_Some, (Hm k v). split.
    + intros (Hne & idx & Hi & Hs). exists idx. rewrite Hu. split_and!; try done.
      intros ->. apply Hne. by simplify_eq/=.
    + intros (idx & [Hi Hne]%Hu & Hs). split; [|eauto]. intros <-. apply Hne.
      eapply (t_inj _ _ _ Ht); [done|done|exact Hs|exact Hkr|done].
Qed.

(** What a scan does with a hit. *)
Definition del_found b (i : Z) (e : bucket_entry) (kr : rte_hash_key) : HM Z :=
  remove_entry b i;;
  e ← read_entry b i;
  set_entry b i (fun e => e <| key_idx := EMPTY_SLOT |>);;
  mret (key_idx e - 1).

Lemma del_found_ok N h m b i e kr :
  table_ok N [] h -> rep h m -> slot h (b, i) = Some e -> key_idx e <> 0 ->
  key_store h !! Z.to_nat (key_idx e) = Some kr ->
  exists h', del_found b i e kr h = Ok (key_idx e - 1, h') /\
    table_ok N [] h' /\ rep h' (delete (key kr) m) /\ conf h' = conf h.
Proof.
  intros Ht Hm He Hk Hkr.
  destruct (vacate_ok _ _ _ _ _ _ _ Ht Hm He Hk Hkr) as [Hv Hm'].
  destruct (ring_add_ok _ _ _ Hv) as (q & Hq & Hok).
  exists (set_slot h (b, i) (Entry 0 0 0 (flag e)) <| free_slots := q |>).
  split; [|done]. unfold del_found, remove_entry.
  set (e1 := Entry 0 (key_idx e) 0 (flag e)).
  assert (forall q' : circular_queue,
    slot (set_slot h (b, i) e1 <| free_slots := q' |>) (b, i) = Some e1) as H1.
  { intros q'. change (slot (set_slot h (b, i) e1) (b, i) = Some e1).
    rewrite (slot_set_slot _ _ _ _ _ He). by rewrite decide_True. }
  step by (by apply (set_entry_ok h (b, i) _ e)). step by done.
  step by (apply read_entry_ok; exact (H1 (free_slots h))).
  rewrite decide_False by (simpl; rewrite (t_hw _ _ _ Ht); auto).
  assert (ring_add (key_idx e) (set_slot h (b, i) e1) =
    Ok (SUCCESS, set_slot h (b, i) e1 <| free_slots := q |>)) as Hq1.
  { revert Hq. unfold ring_add. unfold mbind, M_bind, get, lift, modify; simpl.
    destruct (cirq_add (free_slots h) (key_idx e)) as [[r q']|]; [|done]. simpl.
    unfold mret, M_ret. intros [= -> ->]. done. }
  step by (exact Hq1). step by done.
  step by (apply read_entry_ok; exact (H1 q)).
  step by (exact (set_entry_ok (set_slot h (b, i) e1 <| free_slots := q |>) (b, i) _ e1 (H1 q))).
  unfold mret, M_ret. do 2 f_equal.
  change (set_slot (set_slot h (b, i) e1) (b, i) (Entry 0 0 0 (flag e)) <| free_slots := q |> =
    set_slot h (b, i) (Entry 0 0 0 (flag e)) <| free_slots := q |>).
  by rewrite set_slot_set_slot.
Qed.

Lemma delete_spec N h m k :
  table_ok N [] h -> rep h m -> valid_key (key_len h) k ->
  exists ret h', qing_hash_del_key k h = Ok (ret, h') /\
    table_ok N [] h' /\ rep h' (delete k m) /\ conf h' = conf h /\
    (if m !! k is Some _ then 0 <= ret < N else ret = - ENOENT).
Proof.
  intros Ht Hm Hv. pose proof (t_shape _ _ _ Ht) as Hsh.
  assert (forall i e b kr, slot h (b, i) = Some e -> key_idx e <> 0 ->
    key_store h !! Z.to_nat (key_idx e) = Some kr -> key kr = k ->
    0 <= key_idx e - 1 < N /\ is_Some (m !! k)) as Hr.
  { intros i e b kr He Hk Hkr Hkey. pose proof (t_used _ _ _ Ht _ (in_use_slot _ _ _ He Hk)).
    rewrite (hit_lookup _ _ _ _ _ _ _ Hm He Hk Hkr Hkey). split; [lia | done]. }
  unfold qing_hash_del_key, __qing_hash_del_key_with_hash. step by done. step by done.
  fold (bucket_of h (hash_of h k)) (bucket_of h (rte_hash_secondary_hash (hash_of h k))).
  destruct (scan_spec N [] h (bucket_of h (hash_of h k)) (hash_of h k) (sig_in_use (hash_of h k)) k
    (del_found (bucket_of h (hash_of h k))))
    as [[Hno1 Hs]|(i & e & kr & He & Hc & Hk & Hkr & Hkey & Hs)];
    try done; [by apply bucket_of_range | apply accepts_in_use | |].
  - step by (exact Hs).
    set (b2 := bucket_of h (rte_hash_secondary_hash (hash_of h k))).
    destruct (scan_spec N [] h b2 (rte_hash_secondary_hash (hash_of h k))
      (sig_in_use (rte_hash_secondary_hash (hash_of h k))) k (del_found b2))
      as [[Hno2 Hs2]|(i & e & kr & He & Hc & Hk & Hkr & Hkey & Hs2)];
      try done; [by apply bucket_of_range | apply accepts_in_use | |].
    + step by (exact Hs2). pose proof (no_hit_lookup _ _ _ _ _ Ht Hm Hno1 Hno2) as Hn.
      rewrite Hn. exists (- ENOENT), h. rewrite delete_id by done. done.
    + destruct (del_found_ok _ _ _ _ _ _ _ Ht Hm He Hk Hkr) as (h' & Hd & ? & Hm' & ?).
      step by (by apply Hs2). destruct (Hr _ _ _ _ He Hk Hkr Hkey) as [Hret [v ->]].
      rewrite Hkey in Hm'. eauto 10.
  - destruct (del_found_ok _ _ _ _ _ _ _ Ht Hm He Hk Hkr) as (h' & Hd & ? & Hm' & ?).
    step by (by apply Hs). destruct (Hr _ _ _ _ He Hk Hkr Hkey) as [Hret [v ->]].
    rewrite Hkey in Hm'. eauto 10.
Qed.
(** ** Insertion *)

Definition store_key (h : qing_hash) (idx : Z) (kr : rte_hash_key) : qing_hash :=
  h <| key_store := <[Z.to_nat idx := kr]> (key_store h) |>.

Lemma set_key_ok N lent h idx kr :
  table_ok N lent h -> 1 <= idx <= N -> set_key idx kr h = Ok (tt, store_key h idx kr).
Proof.
  intros Ht Hi. pose proof (t_room _ _ _ Ht) as [_ Hl]. unfold set_key. step by done.
  step by (apply lift_ok; unfold write_at; by rewrite decide_True by lia). done.
Qed.

Lemma set_pdata_ok N lent h idx kr data :
  table_ok N lent h -> 1 <= idx <= N -> key_store h !! Z.to_nat idx = Some kr ->
  set_pdata idx data h = Ok (tt, store_key h idx (HashKey data (key kr))).
Proof.
  intros Ht Hi Hkr. pose proof (t_room _ _ _ Ht) as [_ Hl]. unfold set_pdata. step by done.
  step by (apply lift_ok; apply (record_at_ok _ _ _ _ Ht); lia).
  step by (apply lift_ok; unfold read_at; rewrite decide_True by lia; by rewrite Hkr).
  step by (apply lift_ok; unfold write_at; by rewrite decide_True by lia). done.
Qed.

Lemma store_lookup N lent h idx kr j :
  table_ok N lent h -> 1 <= idx <= N -> 0 <= j ->
  key_store (store_key h idx kr) !! Z.to_nat j =
    if decide (idx = j) then Some kr else key_store h !! Z.to_nat j.
Proof.
  intros Ht Hi Hj. pose proof (t_room _ _ _ Ht) as [_ Hl]. unfold store_key, update; simpl.
  case_decide as E.
  - subst. apply list_lookup_insert_eq. lia.
  - apply list_lookup_insert_ne. lia.
Qed.

(** Storing a key record at an index whose key is unchanged or not in use. *)
Lemma store_key_ok N lent h idx kr kr0 :
  table_ok N lent h -> 1 <= idx <= N -> key_store h !! Z.to_nat idx = Some kr0 ->
  valid_key (key_len h) (key kr) -> (in_use h idx -> key kr = key kr0) ->
  table_ok N lent (store_key h idx kr).
Proof.
  intros Ht Hi Hkr0 Hv Hsame. pose proof (fun j => store_lookup _ _ _ _ kr j Ht Hi) as Hst.
  assert (forall j, in_use h j -> sigof h j = sigof (store_key h idx kr) j) as Hsig.
  { intros j Hj. pose proof (t_used _ _ _ Ht _ Hj). unfold sigof. rewrite Hst by lia.
    case_decide; [|done]. subst j. rewrite Hkr0, <- Hsame by done. done. }
  assert (forall j r, in_use h j -> key_store (store_key h idx kr) !! Z.to_nat j = Some r ->
    exists r0, key_store h !! Z.to_nat j = Some r0 /\ key r = key r0) as Hold.
  { intros j r Hj. pose proof (t_used _ _ _ Ht _ Hj). rewrite Hst by lia.
    case_decide; [|eauto]. subst j. intros [= <-]. eauto. }
  destruct Ht. split; try done.
  - by destruct t_shape0.
  - by eapply good_sigof.
  - intros j r Hj. assert (j = Z.to_nat (Z.of_nat j)) as Ej by lia. rewrite Ej in Hj.
    rewrite Hst in Hj by lia. case_decide; [by simplify_eq|]. rewrite <- Ej in Hj. eauto.
  - simpl. by rewrite length_insert.
  - intros i1 i2 r1 r2 H1 H2 Hr1 Hr2 Hk.
    destruct (Hold _ _ H1 Hr1) as (? & ? & ?), (Hold _ _ H2 Hr2) as (? & ? & ?).
    eapply t_inj0; [done..|congruence].
Qed.

Lemma set_data_rep N lent h m idx k v data :
  table_ok N lent h -> rep h m -> in_use h idx ->
  key_store h !! Z.to_nat idx = Some (HashKey v k) ->
  rep (store_key h idx (HashKey data k)) (<[k := data]> m).
Proof.
  intros Ht Hm Hin Hkr. pose proof (t_used _ _ _ Ht _ Hin) as Hi.
  pose proof (fun j => store_lookup _ _ _ _ (HashKey data k) j Ht Hi) as Hst.
  intros k' v'. rewrite lookup_insert_Some, (Hm k' v'). split.
  - intros [[-> ->]|(Hne & j & Hj & Hs)].
    + exists idx. split; [done|]. rewrite Hst by lia. by rewrite decide_True.
    + pose proof (t_used _ _ _ Ht _ Hj). exists j. split; [done|]. rewrite Hst by lia.
      rewrite decide_False; [done|]. intros ->. by simplify_eq.
  - intros (j & Hj & Hs). change (in_use h j) in Hj. pose proof (t_used _ _ _ Ht _ Hj).
    rewrite Hst in Hs by lia. case_decide; [left; by simplify_eq|]. right. split; [|eauto].
    intros ->. assert (idx = j); [|done]. by eapply (t_inj _ _ _ Ht).
Qed.

Lemma store_free_rep N lent h m idx kr :
  table_ok N lent h -> rep h m -> 1 <= idx <= N -> ~ in_use h idx -> rep (store_key h idx kr) m.
Proof.
  intros Ht Hm Hi Hn k v. rewrite (Hm k v). pose proof (fun j => store_lookup _ _ _ _ kr j Ht Hi) as Hst.
  split; intros (j & Hj & Hs); exists j; (split; [done|]); change (in_use h j) in Hj;
    pose proof (t_used _ _ _ Ht _ Hj); rewrite Hst in * by lia;
    (rewrite decide_False in * by (intros ->; done)); done.
Qed.

(** The new entry is in the table. *)
Lemma placed_ok N h h' m idx k v :
  table_ok N [idx] h -> rep h m -> key_store h !! Z.to_nat idx = Some (HashKey v k) ->
  m !! k = None -> frame h h' -> shape h' ->
  good (bucket_bitmask h) (sigof h) None (slot h') ->
  (forall j, in_use h' j <-> j = idx \/ in_use h j) ->
  (forall p e, slot h' p = Some e -> flag e = 0) ->
  table_ok N [] h' /\ rep h' (<[k := v]> m).
Proof.
  intros Ht Hm Hkr Hnew [bs ->] Hsh Hg Hu Hfl.
  pose proof (t_free _ _ _ Ht idx ltac:(set_solver)) as [Hi Hn].
  set (h' := h <| buckets := bs |>) in *.
  assert (forall j r, in_use h j -> key_store h !! Z.to_nat j = Some r -> key r <> k) as Hdiff.
  { intros j [v' k'] Hj Hs Hk. simpl in Hk. subst k'.
    assert (m !! k = Some v') by (apply Hm; eauto). congruence. }
  split.
  - destruct Ht. split; try done.
    + intros i1 i2 r1 r2 [->|H1]%Hu [->|H2]%Hu Hr1 Hr2 Hk; [done| | |by eapply t_inj0];
        exfalso; change (key_store h') with (key_store h) in *; rewrite Hkr in *; simplify_eq/=.
      * by eapply Hdiff.
      * by eapply Hdiff.
    + by apply NoDup_cons in t_nodup0 as [_ ?].
    + intros j Hj. rewrite Hu. change (j ∈ cirq_contents (free_slots h)) in Hj.
      destruct (t_free0 j) as [? ?]; [set_solver|]. split; [done|]. intros [->|?]; [|done].
      by apply NoDup_cons in t_nodup0 as [? _].
    + intros j Hj. rewrite Hu. change (j ∈ cirq_contents (free_slots h) \/ (j = idx \/ in_use h j)).
      destruct (t_all0 j Hj) as [Hx|]; [|tauto]. simpl in Hx. rewrite elem_of_cons in Hx. tauto.
    + intros j [->|Hj]%Hu; eauto.
  - intros k' v'. rewrite lookup_insert_Some, (Hm k' v'). split.
    + intros [[-> ->]|(Hne & j & Hj & Hs)]; [exists idx|exists j]; (rewrite Hu; tauto).
    + intros (j & Hj & Hs). apply Hu in Hj. change (key_store h') with (key_store h) in Hs.
      destruct Hj as [->|Hj]; [left; by simplify_eq|]. right. split; [|eauto].
      intros ->. by apply (Hdiff _ _ Hj Hs).
Qed.
(** Writing the new entry over a position to disregard. *)
Lemma fill_hole_ok N h h1 m idx k v b r f :
  table_ok N [idx] h -> rep h m -> key_store h !! Z.to_nat idx = Some (HashKey v k) ->
  m !! k = None -> frame h h1 -> shape h1 ->
  good (bucket_bitmask h) (sigof h) (Some (b, r)) (slot h1) ->
  (forall j, used (Some (b, r)) (slot h1) j <-> in_use h j) ->
  (forall p e, slot h1 p = Some e -> flag e = 0) ->
  slot h1 (b, r) = Some f -> b = bucket_of h (hash_of h k) ->
  let sig := hash_of h k in
  let h' := set_slot h1 (b, r) (Entry sig idx (rte_hash_secondary_hash sig) (flag f)) in
  table_ok N [] h' /\ rep h' (<[k := v]> m) /\ conf h' = conf h.
Proof.
  intros Ht Hm Hkr Hnew Hfr Hsh Hg Hu Hfl Hf Hb sig h'.
  pose proof (t_free _ _ _ Ht idx ltac:(set_solver)) as [Hi Hn].
  set (e' := Entry sig idx (rte_hash_secondary_hash sig) (flag f)) in *.
  assert (home (bucket_bitmask h) (sigof h) (b, r) e') as Hhome.
  { unfold home, sigof; simpl. rewrite Hkr. simpl. split; [by left | done]. }
  destruct (fill_good (bucket_bitmask h) (sigof h) (b, r) (slot h1) (slot h') e')
    as [Hg' Hu']; try done.
  { simpl. lia. }
  { simpl. by rewrite Hu. }
  { intros p. by apply slot_set_slot with (e0 := f). }
  destruct (placed_ok N h h' m idx k v) as [Hok Hrep]; try done.
  - by apply frame_set_slot.
  - by apply shape_set_slot.
  - intros j. by rewrite Hu', Hu.
  - intros p e. unfold h'. rewrite (slot_set_slot _ _ _ _ _ Hf). case_decide; [|eauto].
    intros [= <-]. simpl. eauto.
  - destruct (frame_set_slot h h1 (b, r) e' Hfr) as [bs Ebs]. split_and!; try done.
    unfold h'. by rewrite Ebs.
Qed.

(** The first empty slot of a bucket. *)
Definition is_empty (h : qing_hash) (b i : Z) : Prop :=
  match slot h (b, i) with Some e => key_idx e = 0 | None => False end.
#[local] Instance is_empty_dec h b i : Decision (is_empty h b i).
Proof. unfold is_empty. destruct (slot h (b, i)); apply _. Defined.

Lemma insert_empty_spec h b sig alt idx :
  shape h -> 0 <= b <= bucket_bitmask h ->
  (insert_empty b sig alt idx h = Ok (None, h) /\ full h b) \/
  exists i e, slot h (b, i) = Some e /\ key_idx e = 0 /\
    insert_empty b sig alt idx h = Ok (Some i, set_slot h (b, i) (Entry sig idx alt (flag e))).
Proof.
  intros Hsh Hb. edestruct (for_entries_cases (is_empty h b) (fun i =>
    e ← read_entry b i;
    if decide (key_idx e = EMPTY_SLOT) then
      fill_entry b i sig alt idx;; mret (Some i)
    else mret None) h) as [[Hno Hr]|(i & Hi & He & _ & Hr)].
  - intros i Hi Hne. destruct (slot_some h b i Hsh Hb Hi) as [e He].
    step by (by apply read_entry_ok). unfold is_empty in Hne. rewrite He in Hne.
    by rewrite decide_False.
  - left. split; [exact Hr|]. intros j f Hj Hf. apply (Hno j).
    + by apply (slot_range _ _ _ _ Hsh Hj).
    + unfold is_empty. by rewrite Hj.
  - right. unfold is_empty in He. destruct (slot h (b, i)) as [e|] eqn:Es; [|done].
    exists i, e. split_and!; [done..|]. apply Hr. step by (by apply read_entry_ok).
    rewrite decide_True by done. step by (by apply (fill_entry_ok h (b, i))). done.
Qed.

Lemma place_spec N h m idx k v sec :
  table_ok N [idx] h -> rep h m -> key_store h !! Z.to_nat idx = Some (HashKey v k) ->
  m !! k = None ->
  let sig := hash_of h k in
  exists placed h',
    place_entry (bucket_of h sig) sec sig (rte_hash_secondary_hash sig) idx h = Ok (placed, h') /\
    if placed then table_ok N [] h' /\ rep h' (<[k := v]> m) /\ conf h' = conf h
    else h' = h /\ full h (bucket_of h sig).
Proof.
  intros Ht Hm Hkr Hnew sig. pose proof (t_shape _ _ _ Ht) as Hsh.
  pose proof (bucket_of_range h sig Hsh) as Hb. unfold place_entry. step by done.
  rewrite decide_False by apply (t_add _ _ _ Ht).
  destruct (insert_empty_spec h (bucket_of h sig) sig (rte_hash_secondary_hash sig) idx Hsh Hb)
    as [[Hie Hfull]|(i & e & He & He0 & Hie)]; step by (exact Hie).
  - destruct (make_space_spec (sigof h) make_space_fuel h (bucket_of h sig) 0)
      as (r & nr & h' & Hrun & Hres); [|lia|vm_compute; done|].
    { split; try done; [apply Ht|]. intros p e He Hne. by rewrite (t_noflag _ _ _ Ht _ _ He) in Hne. }
    step by (exact Hrun). destruct Hres as [[-> ->]|[Hfr Hsh' Hr Hg Hu _ Hfs]].
    + exists false, h. done.
    + rewrite decide_True by lia.
      destruct (slot_some h' (bucket_of h sig) r) as [f Hf]; try done.
      { by rewrite (frame_mask _ _ Hfr). }
      step by (by apply (fill_entry_ok h' (bucket_of h sig, r))).
      exists true. eexists. split; [done|].
      eapply (fill_hole_ok N h h'); try done.
      intros p e He. specialize (Hfs p). rewrite He in Hfs. simpl in Hfs.
      symmetry in Hfs. apply fmap_Some in Hfs as (e0 & He0 & ->). by apply (t_noflag _ _ _ Ht p).
  - exists true. eexists. split; [done|].
    destruct (hole_at_empty (bucket_bitmask h) (sigof h) (bucket_of h sig, i) (slot h) e)
      as [Hg Hu]; try done; [apply Ht|].
    eapply (fill_hole_ok N h h); try done; [apply frame_refl | apply (t_noflag _ _ _ Ht)].
Qed.
(** ** Counting keys *)

Lemma in_use_bound N lent h m l :
  table_ok N lent h -> rep h m -> NoDup l -> (forall idx, idx ∈ l -> in_use h idx) ->
  (length l <= size m)%nat.
Proof.
  intros Ht Hm Hnd Hin.
  set (kof := fun idx => default [] (key <$> key_store h !! Z.to_nat idx)).
  assert (forall idx, idx ∈ l -> exists kr, key_store h !! Z.to_nat idx = Some kr /\ kof idx = key kr)
    as Hk.
  { intros idx Hi%Hin. destruct (key_rec_some _ _ _ idx Ht) as [kr Hkr].
    { pose proof (t_used _ _ _ Ht _ Hi). lia. }
    exists kr. unfold kof. by rewrite Hkr. }
  assert (NoDup (kof <$> l)) as Hnd'.
  { apply NoDup_fmap_2_strong; [|done]. intros i j Hi Hj Heq.
    destruct (Hk i Hi) as (r1 & H1 & E1), (Hk j Hj) as (r2 & H2 & E2).
    eapply (t_inj _ _ _ Ht i j); [by apply Hin|by apply Hin|done|done|congruence]. }
  rewrite <- (size_dom m), <- (length_fmap kof l), <- (size_list_to_set (C:=gset (list Z)) _ Hnd').
  apply subseteq_size. intros k (idx & -> & Hi)%elem_of_list_to_set%list_elem_of_fmap.
  destruct (Hk idx Hi) as ([v k] & Hkr & ->). apply elem_of_dom. exists v. apply Hm.
  exists idx. split; [by apply Hin | done].
Qed.

Lemma full_table_size N h m :
  table_ok N [] h -> rep h m -> cirq_contents (free_slots h) = [] -> N <= Z.of_nat (size m).
Proof.
  intros Ht Hm He. pose proof (t_room _ _ _ Ht) as [? _].
  rewrite <- (Z2Nat.id N) by lia. apply inj_le. rewrite <- (length_seqZ 1 N).
  eapply in_use_bound; [done..|apply NoDup_seqZ|]. intros idx Hi%elem_of_seqZ.
  destruct (t_all _ _ _ Ht idx) as [Hx|]; [lia| |done].
  simpl in Hx. rewrite He in Hx. by apply not_elem_of_nil in Hx.
Qed.

Lemma full_bucket_size N lent h m b :
  table_ok N lent h -> rep h m -> full h b -> 0 <= b <= bucket_bitmask h -> (8 <= size m)%nat.
Proof.
  intros Ht Hm Hf Hb. pose proof (t_shape _ _ _ Ht) as Hsh.
  set (kof := fun i => match slot h (b, i) with Some e => key_idx e | None => 0 end).
  assert (forall i, i ∈ seqZ 0 8 -> exists e, slot h (b, i) = Some e /\ kof i = key_idx e /\
    key_idx e <> 0) as Hk.
  { intros i Hi%elem_of_seqZ. destruct (slot_some h b i Hsh Hb) as [e He]; [lia|].
    exists e. unfold kof. rewrite He. eauto. }
  rewrite <- (length_seqZ 0 8 : _ = 8%nat), <- (length_fmap kof).
  eapply in_use_bound; [done..| |].
  - apply NoDup_fmap_2_strong; [|apply NoDup_seqZ]. intros i j Hi Hj Heq.
    destruct (Hk i Hi) as (e1 & H1 & E1 & N1), (Hk j Hj) as (e2 & H2 & E2 & N2).
    assert ((b, i) = (b, j)) as [=]; [|done].
    eapply (g_inj _ _ _ _ (t_good _ _ _ Ht)); [done..|congruence].
  - intros idx (i & -> & Hi)%list_elem_of_fmap. destruct (Hk i Hi) as (e & He & -> & Hn).
    by eapply in_use_slot.
Qed.

(** The map holds no more keys than there are slots. *)
Lemma map_size_bound N lent h m :
  table_ok N lent h -> rep h m -> Z.of_nat (size m) <= N.
Proof.
  intros Ht Hm. pose proof (t_room _ _ _ Ht) as [? _].
  assert (forall l : list (list Z * ptr), NoDup l.*1 ->
    (forall kv, kv ∈ l -> m !! kv.1 = Some kv.2) ->
    exists ids, length ids = length l /\ NoDup ids /\
      forall idx, idx ∈ ids -> in_use h idx /\ exists kv, kv ∈ l /\
        key_store h !! Z.to_nat idx = Some (HashKey kv.2 kv.1)) as Hl.
  { induction l as [|[k v] l IH]; intros Hnd Hin.
    - exists []. split_and!; [done|constructor|]. intros idx Hx. by apply not_elem_of_nil in Hx.
    - apply NoDup_cons in Hnd as [Hk Hnd].
      destruct IH as (ids & Hlen & Hnd' & His); [done|intros kv ?; apply Hin; by right|].
      specialize (Hin (k, v) ltac:(by left)). simpl in Hin.
      apply Hm in Hin as (idx & Hu & Hs). exists (idx :: ids). split_and!.
      + simpl. by rewrite Hlen.
      + constructor; [|done]. intros (_ & kv & Hkv & Hs')%His. rewrite Hs in Hs'.
        injection Hs' as _ ->. apply Hk. apply list_elem_of_fmap. by exists kv.
      + intros j [->|Hj]%elem_of_cons; [split; [done|]; exists (k, v); split; [by left|done]|].
        destruct (His j Hj) as (? & kv & ? & ?). split; [done|]. exists kv. split; [by right|done]. }
  destruct (Hl (map_to_list m)) as (ids & Hlen & Hnd & His).
  { apply NoDup_fst_map_to_list. }
  { intros [k v]. apply elem_of_map_to_list. }
  rewrite length_map_to_list in Hlen. rewrite <- Hlen, <- (Z2Nat.id N) by lia.
  apply inj_le. rewrite <- (length_seqZ 1 N). apply submseteq_length, NoDup_submseteq; [done|].
  intros idx [Hu _]%His. apply elem_of_seqZ. pose proof (t_used _ _ _ Ht _ Hu). lia.
Qed.
(** ** Insertion, all branches *)

Lemma take_slot_ok N h :
  table_ok N [] h ->
  (cirq_contents (free_slots h) = [] /\ take_slot h = Ok (None, h)) \/
  exists idx q, idx <> NULL /\ take_slot h = Ok (Some idx, h <| free_slots := q |>) /\
    table_ok N [idx] (h <| free_slots := q |>).
Proof.
  intros Ht. unfold take_slot.
  destruct (ring_get_ok N h Ht) as [[He Hg]|(idx & q & Hn & Hg & Hok)]; [left|right].
  - split; [done|]. step by done. rewrite decide_False by (rewrite (t_hw _ _ _ Ht); auto).
    by step by (exact Hg).
  - exists idx, q. split_and!; [done| |done]. step by done.
    rewrite decide_False by (rewrite (t_hw _ _ _ Ht); auto).
    step by (exact Hg). by rewrite decide_False.
Qed.

(** The key is in bucket [b]: its data is replaced and the slot given back. *)
Lemma update_existing_spec N idx h m b cur alt k v :
  table_ok N [idx] h -> rep h m -> valid_key (key_len h) k -> 0 <= b <= bucket_bitmask h ->
  accepts h b cur (sigs_match cur alt) k ->
  ((forall i, ~ hit h b cur k i) /\ update_existing b cur alt k v idx h = Ok (None, h)) \/
  exists ret h', update_existing b cur alt k v idx h = Ok (Some ret, h') /\ 0 <= ret /\
    table_ok N [] h' /\ rep h' (<[k := v]> m) /\ conf h' = conf h.
Proof.
  intros Ht Hm Hv Hb Hacc.
  destruct (scan_spec N [idx] h b cur (sigs_match cur alt) k (fun i e kr =>
    enqueue_slot_back idx;; set_pdata (key_idx e) v;; mret (key_idx e - 1)))
    as [?|(i & e & [v0 k0] & He & Hc & Hk & Hkr & <- & Hs)]; [done..|by left|right].
  pose proof (in_use_slot _ _ _ He Hk) as Hin. pose proof (t_used _ _ _ Ht _ Hin) as Hi.
  destruct (enqueue_slot_back_ok N idx h Ht) as (q & Hq & Hok).
  exists (key_idx e - 1), (store_key (h <| free_slots := q |>) (key_idx e) (HashKey v k0)).
  split_and!; [|lia| | |done].
  - apply Hs. step by (exact Hq).
    by step by (by eapply (set_pdata_ok _ _ _ _ (HashKey v0 k0) v Hok)).
  - by eapply store_key_ok.
  - by apply (set_data_rep N [] _ m _ k0 v0 v Hok).
Qed.

Lemma add_body_spec N h m k v :
  table_ok N [] h -> rep h m -> valid_key (key_len h) k ->
  exists ret h', add_body k (hash_of h k) v h = Ok (ret, h') /\ table_ok N [] h' /\
    conf h' = conf h /\
    (0 <= ret /\ rep h' (<[k := v]> m) \/
     ret = - ENOSPC /\ rep h' m /\
       (Z.of_nat (size m) = N \/ m !! k = None /\ (8 <= size m)%nat)).
Proof.
  intros Ht Hm Hv. pose proof (t_shape _ _ _ Ht) as Hsh. unfold add_body. step by done.
  fold (bucket_of h (hash_of h k)) (bucket_of h (rte_hash_secondary_hash (hash_of h k))).
  set (sig := hash_of h k). set (alt := rte_hash_secondary_hash sig).
  destruct (take_slot_ok N h Ht) as [[He Hts]|(idx & q & Hnull & Hts & Ht1)]; step by (exact Hts).
  { exists (- ENOSPC), h. split_and!; try done. right. split_and!; [done..|]. left.
    pose proof (full_table_size _ _ _ Ht Hm He). pose proof (map_size_bound _ _ _ _ Ht Hm). lia. }
  set (h1 := h <| free_slots := q |>) in *.
  pose proof (t_free _ _ _ Ht1 idx ltac:(set_solver)) as [Hir Hnu].
  pose proof (t_room _ _ _ Ht1) as [HN _].
  rewrite (u32_id idx) by (unfold is_u32; lia).
  destruct (update_existing_spec N idx h1 m (bucket_of h sig) sig alt k v Ht1 Hm Hv
      (bucket_of_range h sig Hsh)) as [[Hno1 Hu1]|(ret & h' & Hu1 & Hret & Hok & Hrep & Hcf)].
  { eapply accepts_sigs; [exact Ht1|]. by left. }
  2:{ step by (exact Hu1). exists ret, h'. split_and!; try done. by left. }
  step by (exact Hu1).
  destruct (update_existing_spec N idx h1 m (bucket_of h alt) alt sig k v Ht1 Hm Hv
      (bucket_of_range h alt Hsh)) as [[Hno2 Hu2]|(ret & h' & Hu2 & Hret & Hok & Hrep & Hcf)].
  { eapply accepts_sigs; [exact Ht1|]. by right. }
  2:{ step by (exact Hu2). exists ret, h'. split_and!; try done. by left. }
  step by (exact Hu2). pose proof (no_hit_lookup _ _ _ _ _ Ht1 Hm Hno1 Hno2) as Hnew.
  set (h2 := store_key h1 idx (HashKey v k)).
  assert (copy_key idx k v h1 = Ok (tt, h2)) as Hcopy.
  { unfold copy_key. step by done. destruct Hv as [Hvb Hvl].
    change (key_len h1) with (key_len h). rewrite decide_True by lia.
    rewrite take_ge by lia. by eapply set_key_ok. }
  step by (exact Hcopy).
  destruct (key_rec_some _ _ _ idx Ht1) as [kr0 Hkr0]; [lia|].
  assert (table_ok N [idx] h2) as Ht2 by (by eapply store_key_ok).
  assert (rep h2 m) as Hm2 by (by eapply store_free_rep).
  assert (key_store h2 !! Z.to_nat idx = Some (HashKey v k)) as Hk2.
  { unfold h2. rewrite (store_lookup N [idx]) by (done || lia). by rewrite decide_True. }
  destruct (place_spec N h2 m idx k v (bucket_of h alt) Ht2 Hm2 Hk2 Hnew)
    as (placed & h' & Hp & Hres). step by (exact Hp). destruct placed.
  - destruct Hres as (Hok & Hrep & Hcf). exists (idx - 1), h'. split_and!; try done.
    left. split; [lia|done].
  - destruct Hres as [-> Hfull].
    destruct (enqueue_slot_back_ok N idx h2 Ht2) as (q' & Hq & Hok). step by (exact Hq).
    exists (- ENOSPC). eexists. split_and!; [done..|]. right. split_and!; [done..|]. right.
    split; [done|]. by eapply (full_bucket_size _ _ _ _ _ Ht2 Hm2 Hfull (bucket_of_range h sig Hsh)).
Qed.

(** The same table with the lock taken or released. *)
Lemma table_ok_lock N lent h l :
  table_ok N lent h -> table_ok N lent (h <| multiwriter_lock := l |>).
Proof. intros Ht. destruct Ht. split; try done. by destruct t_shape0. Qed.

Lemma add_spec N h m k v :
  table_ok N [] h -> rep h m -> valid_key (key_len h) k -> multiwriter_lock h = false ->
  exists ret h', qing_hash_add_key_data k v h = Ok (ret, h') /\ table_ok N [] h' /\
    conf h' = conf h /\
    (ret = 0 /\ rep h' (<[k := v]> m) \/
     ret = - ENOSPC /\ rep h' m /\
       (Z.of_nat (size m) = N \/ m !! k = None /\ (8 <= size m)%nat)).
Proof.
  intros Ht Hm Hv Hl. unfold qing_hash_add_key_data, __qing_hash_add_key_with_hash.
  step by done. step by done.
  set (mw := bool_decide (add_key h = ADD_KEY_MULTIWRITER)).
  set (h0 := h <| multiwriter_lock := mw |>).
  assert (when mw rte_spinlock_lock h = Ok (tt, h0)) as Hlock.
  { unfold h0. destruct mw; simpl; unfold rte_spinlock_lock.
    - step by done. rewrite Hl. done.
    - rewrite <- Hl. unfold mret, M_ret. by destruct h. }
  step by (exact Hlock).
  destruct (add_body_spec N h0 m k v (table_ok_lock _ _ _ _ Ht) Hm Hv)
    as (ret & h1 & Hadd & Hok & Hcf & Hres). step by (exact Hadd). step by done.
  injection Hcf as Hkl Hak Hlk. rewrite Hak. change (add_key h0) with (add_key h). fold mw.
  exists (if decide (0 <= ret) then 0 else ret), (h1 <| multiwriter_lock := false |>). split_and!.
  - destruct mw; simpl; [done|]. change (multiwriter_lock h0) with false in Hlk.
    unfold mret, M_ret, mbind, M_bind. rewrite <- Hlk. by destruct h1.
  - by apply table_ok_lock.
  - unfold conf; simpl. by rewrite Hkl, Hak, Hl.
  - destruct Hres as [[Hr Hrep]|[-> Hrep]]; [left; by rewrite decide_True | right].
    by rewrite decide_False by (unfold ENOSPC; lia).
Qed.
(** ** A created table *)

Lemma populate_ok n i q :
  heap_wf q -> exists q', populate n i q = Ok q' /\ heap_wf q' /\ cirq_cap q' = cirq_cap q /\
    cirq_contents q' = cirq_contents q ++
      seqZ i (Z.min (Z.of_nat n) (Z.of_nat (cirq_cap q) - Z.of_nat (length (cirq_contents q)))).
Proof.
  revert i q. induction n as [|n IH]; intros i q Hwf; cbn [populate];
    pose proof (fifo_bound q Hwf) as Hb.
  - exists q. rewrite seqZ_nil, app_nil_r by lia. done.
  - destruct (decide (length (cirq_contents q) < cirq_cap q)%nat) as [Hlt|Hge].
    + destruct (fifo_enq_room q i Hwf Hlt) as (q1 & -> & Hwf1 & Hc1 & Hcap1). simpl.
      destruct (IH (i + 1) q1 Hwf1) as (q' & -> & Hwf' & Hcap' & Hc').
      exists q'. split_and!; [done|done|congruence|]. rewrite Hc', Hc1, Hcap1, length_app.
      rewrite <- app_assoc. f_equal. simpl.
      rewrite (seqZ_cons i) by lia. do 2 f_equal; lia.
    + rewrite (fifo_enq_full q i Hwf) by lia. simpl.
      destruct (IH (i + 1) q Hwf) as (q' & -> & Hwf' & Hcap' & Hc').
      exists q'. split_and!; try done. rewrite Hc'. by rewrite !seqZ_nil by lia.
Qed.

(** The ring of [rte_align32pow2 (entries)] cells holds one item less. *)
Definition usable_slots (n : Z) : Z := Z.min n (rte_align32pow2 n - 1).

Lemma usable_slots_exact n :
  0 < n <= 2 ^ 31 ->
  usable_slots n = if decide (rte_align32pow2 n = n) then n - 1 else n.
Proof.
  intros Hn. destruct (align_pow2 n Hn) as (j & Hj & Ha & Hr). unfold usable_slots.
  case_decide; lia.
Qed.

(** The parameters [qing_hash_create] accepts, for one writer, when the key
    records take at most 4 GiB. *)
Definition valid_params (p : rte_hash_parameters) : Prop :=
  8 <= p_entries p <= RTE_HASH_ENTRIES_MAX /\
  (0 < p_key_len p /\ (p_entries p + 1) * (sizeof_rte_hash_key + p_key_len p) <= 2 ^ 32) /\
  Z.land (p_extra_flag p) RTE_HASH_EXTRA_FLAGS_TRANS_MEM_SUPPORT = 0.

(** The slots of an array of empty buckets. *)
Lemma slot_replicate h n p e :
  buckets h = replicate n (replicate RTE_HASH_BUCKET_ENTRIES (Entry 0 0 0 0)) ->
  slot h p = Some e -> e = Entry 0 0 0 0.
Proof.
  destruct p as [b i]. intros Hb (_ & _ & bk & Hbk & He)%slot_unfold. rewrite Hb in Hbk.
  apply lookup_replicate in Hbk as [-> _]. by apply lookup_replicate in He as [-> _].
Qed.

Lemma new_table_ok p :
  valid_params p ->
  exists h, new_table p = Ok h /\ table_ok (usable_slots (p_entries p)) [] h /\ rep h ∅ /\
    key_len h = p_key_len p /\ multiwriter_lock h = false.
Proof.
  intros (He & [Hkl Hsz] & Hfl). pose proof entries_max as Hmax.
  destruct (align_pow2 (p_entries p)) as (j & Hj & Ha & Hr); [lia|].
  assert (u32 (p_entries p + 1) = p_entries p + 1) as Hu1 by (apply u32_id; unfold is_u32; lia).
  assert (u32 (p_entries p + 1 - 1) = p_entries p) as Hu2
    by (rewrite Z.add_simpl_r; apply u32_id; unfold is_u32; lia).
  assert (3 <= j) as Hj3.
  { destruct (decide (j < 3)) as [Hlt|]; [|lia]. pose proof (Z.pow_lt_mono_r 2 j 3). lia. }
  assert (2 ^ j / 8 = 2 ^ (j - 3)) as Hnb
    by (change 8 with (2 ^ 3); rewrite <- Z.pow_sub_r by lia; done).
  assert (0 < 2 ^ (j - 3) <= 2 ^ j) as Hpow.
  { pose proof (Z.pow_pos_nonneg 2 (j - 3)). pose proof (Z.pow_le_mono_r 2 (j - 3) j). lia. }
  destruct (cirq_init_wf (2 ^ j)) as [Hwf Hc0]; [lia|].
  destruct (populate_ok (Z.to_nat (p_entries p)) 1 _ Hwf) as (q & Hq & Hwfq & Hcq & Hcc).
  assert (cirq_cap (cirq_init (2 ^ j)) = Z.to_nat (2 ^ j - 1)) as Hcap0 by done.
  rewrite Hc0, Hcap0 in Hcc. rewrite Hcap0 in Hcq. simpl in Hcc.
  replace (Z.min (Z.of_nat (Z.to_nat (p_entries p))) (Z.of_nat (Z.to_nat (2 ^ j - 1)) - Z.of_nat 0))
    with (usable_slots (p_entries p)) in Hcc by (unfold usable_slots; rewrite Ha; lia).
  unfold new_table. rewrite Hfl, bool_decide_false by auto. rewrite Hu1, Hu2, Ha.
  change (Z.of_nat RTE_HASH_BUCKET_ENTRIES) with 8. rewrite Hnb, Hq. simpl. eexists. split; [done|].
  assert (u32 (2 ^ (j - 3) - 1) = 2 ^ (j - 3) - 1) as Hu3 by (apply u32_id; unfold is_u32; lia).
  match goal with |- table_ok _ _ ?t /\ _ => set (h := t) end.
  assert (forall p e, slot h p = Some e -> e = Entry 0 0 0 0) as Hs.
  { intros ??. by eapply slot_replicate. }
  assert (forall idx, ~ in_use h idx) as Hnone.
  { intros idx (Hne & q0 & e & Hq0 & _ & Hk). rewrite (Hs _ _ Hq0) in Hk. simpl in Hk. lia. }
  assert (usable_slots (p_entries p) <= p_entries p /\ usable_slots (p_entries p) <= 2 ^ j - 1 /\
    0 <= usable_slots (p_entries p)) as Hus by (unfold usable_slots; rewrite Ha; lia).
  split; [split|]; try done; try (intros ? ?%Hnone; done).
  - split; simpl.
    + rewrite length_replicate, Hu3. lia.
    + exists (j - 3). rewrite Hu3, Z.ones_equiv. lia.
    + apply Forall_replicate. done.
  - split.
    + intros r e Hr0 _ Hk. by rewrite (Hs _ _ Hr0) in Hk.
    + intros r1 r2 e f Hr0 _ _ _ Hk. by rewrite (Hs _ _ Hr0) in Hk.
    + intros r e Hr0 _ _. by rewrite (Hs _ _ Hr0).
  - intros r e Hr0. by rewrite (Hs _ _ Hr0).
  - intros idx kr (-> & _)%lookup_replicate. simpl. split.
    + apply Forall_replicate. unfold is_u8. lia.
    + rewrite length_replicate. lia.
  - simpl. rewrite length_replicate. lia.
  - simpl. unfold sizeof_rte_hash_key in *. rewrite u32_id by (unfold is_u32; nia). nia.
  - intros i1 i2 r1 r2 ?%Hnone. done.
  - simpl. rewrite Hcq. lia.
  - simpl. rewrite Hcc. apply NoDup_seqZ.
  - intros idx. simpl. rewrite Hcc, elem_of_seqZ. intros Hi. split; [lia | apply Hnone].
  - intros idx Hi. left. simpl. rewrite Hcc, elem_of_seqZ. lia.
  - simpl. repeat case_decide; done.
  - split; [|done]. intros k v. rewrite lookup_empty. split; [done|]. intros (idx & Hi & _).
    by apply Hnone in Hi.
Qed.
(** * Refinement *)

Inductive map_op : Type :=
  | MAdd (k : list Z) (v : ptr)
  | MDel (k : list Z)
  | MFind (k : list Z).
Definition op_key (o : map_op) : list Z :=
  match o with MAdd k _ | MDel k | MFind k => k end.

(** The abstract table: a finite map of at most [N] keys.  An addition may be
    refused only when [N] keys are present, or when the key is new and at
    least eight others are (its primary bucket and the places reachable from
    it are taken). *)
Inductive map_step (N : Z) (m : gmap (list Z) ptr) :
    map_op -> Z * option ptr -> gmap (list Z) ptr -> Prop :=
  | ms_add k v : Z.of_nat (size (<[k := v]> m)) <= N ->
      map_step N m (MAdd k v) (0, None) (<[k := v]> m)
  | ms_refuse k v : Z.of_nat (size m) = N \/ (m !! k = None /\ (8 <= size m)%nat) ->
      map_step N m (MAdd k v) (- ENOSPC, None) m
  | ms_del k v i : m !! k = Some v -> 0 <= i < N ->
      map_step N m (MDel k) (i, None) (delete k m)
  | ms_del_none k : m !! k = None -> map_step N m (MDel k) (- ENOENT, None) m
  | ms_find k v i : m !! k = Some v -> 0 <= i < N ->
      map_step N m (MFind k) (i, Some v) m
  | ms_find_none k : m !! k = None -> map_step N m (MFind k) (- ENOENT, None) m.

Inductive map_run (N : Z) : gmap (list Z) ptr -> list map_op -> list (Z * option ptr) ->
    gmap (list Z) ptr -> Prop :=
  | mr_nil m : map_run N m [] [] m
  | mr_cons m o r m1 os rs m2 :
      map_step N m o r m1 -> map_run N m1 os rs m2 -> map_run N m (o :: os) (r :: rs) m2.

Definition run_op (o : map_op) : HM (Z * option ptr) :=
  match o with
  | MAdd k v => r ← qing_hash_add_key_data k v; mret (r, None)
  | MDel k => r ← qing_hash_del_key k; mret (r, None)
  | MFind k => qing_hash_lookup_data k
  end.

Fixpoint run_ops (os : list map_op) : HM (list (Z * option ptr)) :=
  match os with
  | [] => mret []
  | o :: os' => r ← run_op o; rs ← run_ops os'; mret (r :: rs)
  end.

Lemma run_op_spec N h m o :
  table_ok N [] h -> rep h m -> multiwriter_lock h = false -> valid_key (key_len h) (op_key o) ->
  exists r h' m', run_op o h = Ok (r, h') /\ map_step N m o r m' /\
    table_ok N [] h' /\ rep h' m' /\ conf h' = conf h.
Proof.
  intros Ht Hm Hl Hv. destruct o as [k v|k|k]; simpl in *.
  - destruct (add_spec N h m k v Ht Hm Hv Hl) as (ret & h' & Hr & Hok & Hcf & Hres).
    step by (exact Hr). destruct Hres as [[-> Hrep]|(-> & Hrep & Hc)]; do 3 eexists;
      (split; [done|]); (split; [|done]).
    + constructor. by eapply map_size_bound.
    + by constructor.
  - destruct (delete_spec N h m k Ht Hm Hv) as (ret & h' & Hr & Hok & Hrep & Hcf & Hres).
    step by (exact Hr). destruct (m !! k) as [v|] eqn:E.
    + do 3 eexists. split; [done|]. split; [by econstructor|done].
    + subst ret. do 3 eexists. split; [done|]. split; [by constructor|].
      rewrite delete_id in Hrep by done. done.
  - destruct (lookup_spec N h m k Ht Hm Hv) as (ret & d & Hr & -> & Hres).
    destruct (m !! k) as [v|] eqn:E.
    + do 3 eexists. split; [done|]. split; [by econstructor|done].
    + subst ret. do 3 eexists. split; [done|]. split; [by constructor|done].
Qed.

Lemma run_ops_spec N os h m :
  table_ok N [] h -> rep h m -> multiwriter_lock h = false ->
  Forall (fun o => valid_key (key_len h) (op_key o)) os ->
  exists rs h' m', run_ops os h = Ok (rs, h') /\ map_run N m os rs m'.
Proof.
  revert h m. induction os as [|o os IH]; intros h m Ht Hm Hl Hv; cbn [run_ops].
  - exists [], h, m. split; [done|]. constructor.
  - apply Forall_cons in Hv as [Hv1 Hv].
    destruct (run_op_spec N h m o Ht Hm Hl Hv1) as (r & h1 & m1 & Hr & Hs & Ht1 & Hm1 & Hcf).
    injection Hcf as Hkl _ Hlk. step by (exact Hr).
    destruct (IH h1 m1) as (rs & h2 & m2 & Hrs & Hrun); [done|done|congruence|by rewrite Hkl|].
    step by (exact Hrs). exists (r :: rs), h2, m2. split; [done|]. by econstructor.
Qed.

Definition all_allocated : allocs := Allocs true true true true true.

Lemma create_ok p addr reg :
  valid_params p ->
  exists h reg', qing_hash_create (Some p) all_allocated addr reg = Ok (Some h, reg') /\
    table_ok (usable_slots (p_entries p)) [] h /\ rep h ∅ /\
    key_len h = p_key_len p /\ multiwriter_lock h = false.
Proof.
  intros Hp. destruct (new_table_ok p Hp) as (h & Hh & Hok).
  destruct Hp as (He & [Hkl _] & _). exists h. eexists. split; [|done].
  unfold qing_hash_create. rewrite decide_False by (unfold RTE_HASH_BUCKET_ENTRIES; lia). simpl.
  by rewrite Hh.
Qed.

(** An index whose offset is 4 GiB or more designates another record: with
    records of [2 ^ s] bytes, index [2 ^ (32 - s) + j] designates record [j]. *)
Lemma record_at_wraps h s j :
  0 <= s <= 32 -> key_entry_size h = 2 ^ s -> 0 <= j < 2 ^ (32 - s) ->
  record_at h (2 ^ (32 - s) + j) = Ok j.
Proof.
  intros Hs Hk Hj. unfold record_at. rewrite Hk.
  assert (0 < 2 ^ s) as Hpos by (apply Z.pow_pos_nonneg; lia).
  assert (2 ^ (32 - s) * 2 ^ s = 2 ^ 32) as Hp
    by (rewrite <- Z.pow_add_r by lia; f_equal; lia).
  assert (u32 ((2 ^ (32 - s) + j) * 2 ^ s) = j * 2 ^ s) as ->.
  { unfold u32. rewrite Z.mul_add_distr_r, Hp.
    rewrite Z.add_comm, <- (Z.mul_1_l (2 ^ 32)) at 1. rewrite Z.mod_add by lia.
    apply Z.mod_small. nia. }
  rewrite decide_True by (split; [done | apply Z.mod_mul; lia]). by rewrite Z.div_mul by lia.
Qed.

(** C16. A table created for a single writer (with or without the spin lock),
    whose key records take at most 4 GiB, refines a finite map from keys to
    data with at most [usable_slots] keys: whatever sequence of additions, deletions and look-ups is run on it, every
    operation returns (the pushes of the cuckoo insertion end and no access is
    out of bounds), look-ups and deletions answer exactly by the keys present,
    an addition updates the map or, when it is refused, leaves it unchanged. *)
Theorem qing_hash_refines_map p addr reg os :
  valid_params p -> Forall (fun o => valid_key (p_key_len p) (op_key o)) os ->
  exists h reg', qing_hash_create (Some p) all_allocated addr reg = Ok (Some h, reg') /\
    exists rs h' m, run_ops os h = Ok (rs, h') /\
      map_run (usable_slots (p_entries p)) ∅ os rs m.
Proof.
  intros Hp Hos. destruct (create_ok p addr reg Hp) as (h & reg' & Hc & Hok & Hrep & Hkl & Hl).
  exists h, reg'. split; [done|]. apply run_ops_spec; [done..|by rewrite Hkl].
Qed.

(** ** Capacity *)

Lemma map_run_size N m os rs m' :
  map_run N m os rs m' -> Z.of_nat (size m) <= N -> Z.of_nat (size m') <= N.
Proof.
  induction 1 as [|m o r m1 os rs m2 Hs _ IH]; [done|]. intros Hm. apply IH.
  inversion Hs; subst; try done.
  pose proof (map_size_delete k m) as ->. destruct (m !! k); simpl; lia.
Qed.

(** A run of additions that all succeed adds every key. *)
Lemma map_run_adds N m (kvs : list (list Z * ptr)) rs m' :
  map_run N m (uncurry MAdd <$> kvs) rs m' -> Forall (fun r => r = (0, None)) rs ->
  NoDup kvs.*1 -> (forall k, k ∈ kvs.*1 -> m !! k = None) ->
  size m' = (size m + length kvs)%nat.
Proof.
  revert m rs. induction kvs as [|[k v] kvs IH]; intros m rs Hr Hall Hnd Hnew; simpl in *.
  - inversion Hr; subst. lia.
  - inversion Hr as [|? ? ? m1 ? rs' ? Hs Hr']; subst. apply Forall_cons in Hall as [-> Hall].
    inversion Hs; subst. apply NoDup_cons in Hnd as [Hk Hnd].
    rewrite (IH _ _ Hr' Hall Hnd).
    + rewrite map_size_insert_None; [lia|]. apply Hnew. by left.
    + intros k' Hk'. rewrite lookup_insert_ne; [|by intros ->]. apply Hnew. by right.
Qed.

(** A table asked to hold a number of keys that is a power of two does not
    hold them: its ring of free slots is one cell short, so one of any
    [p_entries] distinct keys is refused. *)
Theorem qing_hash_power_of_two p addr reg kvs :
  valid_params p -> rte_align32pow2 (p_entries p) = p_entries p ->
  Z.of_nat (length kvs) = p_entries p -> NoDup kvs.*1 ->
  Forall (fun k => valid_key (p_key_len p) k) kvs.*1 ->
  exists h reg' rs h', qing_hash_create (Some p) all_allocated addr reg = Ok (Some h, reg') /\
    run_ops (uncurry MAdd <$> kvs) h = Ok (rs, h') /\ (- ENOSPC, None) ∈ rs.
Proof.
  intros Hp Ha Hlen Hnd Hv.
  destruct (create_ok p addr reg Hp) as (h & reg' & Hc & Hok & Hrep & Hkl & Hl).
  destruct (run_ops_spec _ (uncurry MAdd <$> kvs) h ∅ Hok Hrep Hl) as (rs & h' & m & Hr & Hrun).
  { apply Forall_fmap, Forall_forall. intros [k v] Hi. simpl. rewrite Hkl.
    rewrite Forall_forall in Hv. apply Hv. apply list_elem_of_fmap. by exists (k, v). }
  exists h, reg', rs, h'. split_and!; [done..|].
  destruct (decide ((- ENOSPC, None) ∈ rs)) as [|Hn]; [done|]. exfalso.
  assert (Forall (fun r => r = (0, None)) rs) as Hall.
  { clear -Hrun Hn. remember (uncurry MAdd <$> kvs) as os eqn:Eos. revert kvs Eos.
    induction Hrun as [|m o r m1 os rs m2 Hs _ IH]; intros kvs Eos; [constructor|].
    destruct kvs as [|[k v] kvs]; [done|]. injection Eos as -> ->.
    constructor; [|eapply IH; [set_solver|done]]. inversion Hs; subst; [done|set_solver]. }
  pose proof (map_run_adds _ _ _ _ _ Hrun Hall Hnd) as Hsz.
  rewrite map_size_empty in Hsz. specialize (Hsz ltac:(intros; apply lookup_empty)).
  destruct Hp as (He & _ & _). pose proof entries_max.
  pose proof (map_run_size _ _ _ _ _ Hrun) as Hb. rewrite map_size_empty in Hb.
  unfold usable_slots in Hb. lia.
Qed.
End Table.

(** * Instances *)

(** A hash and a rounding function with the documented behaviour. *)
Module CuckooDemo.
#[export] Instance demo_dpdk : Dpdk := {|
  rte_hash_crc k n i := u32 (foldl (fun a b => a * 31 + b) i k);
  rte_lcore_id := 0;
  rte_xbegin _ := false;
  rte_align32pow2 x := 2 ^ Z.log2_up x;
  RTE_HASH_ENTRIES_MAX := 2 ^ 30;
  RTE_MAX_LCORE := 128;
|}.

#[export] Instance demo_dpdk_laws : DpdkLaws.
Proof.
  split; simpl.
  - intros. apply u32_range.
  - intros x Hx. exists (Z.log2_up x). split; [apply Z.log2_up_nonneg|]. split; [done|].
    destruct (decide (x = 1)) as [->|Hne]; [vm_compute; split; [discriminate|done]|].
    pose proof (Z.log2_up_spec x ltac:(lia)) as [Hlo Hhi]. split; [done|].
    pose proof (Z.log2_up_pos x ltac:(lia)).
    replace (Z.log2_up x) with (Z.succ (Z.pred (Z.log2_up x))) at 1 by lia.
    rewrite Z.pow_succ_r by lia. lia.
  - lia.
Qed.

Definition demo_params : rte_hash_parameters := HashParams [] 8 2 0 0.
Definition demo_key (n : Z) : list Z := [n; 7].
End CuckooDemo.
Import CuckooDemo.

Lemma demo_params_valid : valid_params demo_params.
Proof. vm_compute. split; [split; discriminate|]. split; [split|]; done. Qed.

Lemma demo_key_valid n : 0 <= n < 256 -> valid_key 2 (demo_key n).
Proof.
  intros Hn. split; [|done]. repeat apply Forall_cons_2; [| |apply Forall_nil_2];
    unfold is_u8; lia.
Qed.

Lemma qing_hash_refines_map_witness :
  exists h reg', qing_hash_create (Some demo_params) all_allocated 4096 [] = Ok (Some h, reg') /\
    exists rs h' m, run_ops [MAdd (demo_key 1) 11; MFind (demo_key 1); MDel (demo_key 1);
        MFind (demo_key 1)] h = Ok (rs, h') /\
      map_run (usable_slots (p_entries demo_params)) ∅
        [MAdd (demo_key 1) 11; MFind (demo_key 1); MDel (demo_key 1); MFind (demo_key 1)] rs m.
Proof.
  apply (qing_hash_refines_map demo_params 4096 []); [exact demo_params_valid|].
  repeat first [apply Forall_nil_2 | apply Forall_cons_2; [apply demo_key_valid; lia|]].
Defined.

Lemma qing_hash_power_of_two_witness :
  exists h reg' rs h',
    qing_hash_create (Some demo_params) all_allocated 4096 [] = Ok (Some h, reg') /\
    run_ops (uncurry MAdd <$> ((fun n => (demo_key n, n)) <$> seqZ 1 8)) h = Ok (rs, h') /\
    (- ENOSPC, None) ∈ rs.
Proof.
  apply (qing_hash_power_of_two demo_params 4096 []); [exact demo_params_valid|done|done| |].
  - apply (bool_decide_unpack _). by vm_compute.
  - cbn. repeat first [apply Forall_nil_2 | apply Forall_cons_2; [apply demo_key_valid; lia|]].
Defined.
