(* ===== verification/Configuration.v ===== *)
(** The configuration file ([config.c]): the conversions of numbers and network
    prefixes, the parser of one line and the loop over the lines of the file.

    A C string is the list of its characters, without the terminating zero.  The
    functions of the C library ([strtok_r], [strtol], [fgets], [isspace]) are
    written out; [inet_addr] is a parameter.  [long] has 64 bits. *)
From Stdlib Require Import String Ascii.
From S2P Require Import Prelude.
#[local] Open Scope Z_scope.

Module Configuration.

Definition MAX_OPTLINE_LEN : nat := 1024.
Definition LONG_MAX : Z := 2 ^ 63 - 1.
Definition LONG_MIN : Z := - 2 ^ 63.

Definition cstring : Type := list Z.

(** The characters of a literal. *)
Fixpoint chars (s : string) : cstring :=
  match s with
  | EmptyString => []
  | String a s' => Z.of_nat (nat_of_ascii a) :: chars s'
  end.

Definition NL : Z := 10.
Definition isspace (c : Z) : bool := bool_decide (c = 32) || bool_decide (9 <= c <= 13).
Definition isdigit (c : Z) : bool := bool_decide (48 <= c <= 57).
Definition among (d : string) (c : Z) : bool := bool_decide (c ∈ chars d).

(** ** The C library *)
Fixpoint drop_while (f : Z -> bool) (s : cstring) : cstring :=
  match s with
  | [] => []
  | c :: s' => if f c then drop_while f s' else s
  end.

Fixpoint span (f : Z -> bool) (s : cstring) : cstring * cstring :=
  match s with
  | [] => ([], [])
  | c :: s' => if f c then let '(a, b) := span f s' in (c :: a, b) else ([], s)
  end.

(** The next token and what follows the delimiter behind it. *)
Definition strtok_r (delim : string) (s : cstring) : option (cstring * cstring) :=
  match drop_while (among delim) s with
  | [] => None
  | s' => let '(tok, rest) := span (fun c => negb (among delim c)) s' in Some (tok, tail rest)
  end.

Definition digits_value (ds : cstring) : Z := fold_left (fun v d => 10 * v + (d - 48)) ds 0.

(** Whether there is a minus sign, and what follows the sign. *)
Definition sign (s : cstring) : bool * cstring :=
  match s with
  | [] => (false, s)
  | c :: r => if decide (c = 45) then (true, r) else if decide (c = 43) then (false, r) else (false, s)
  end.

(** The value in base 10, whether it is out of range, and whether there was a
    number. *)
Definition strtol (s : cstring) : Z * bool * bool :=
  let s1 := drop_while isspace s in
  let '(neg, s2) := sign s1 in
  match (span isdigit s2).1 with
  | [] => (0, false, false)
  | ds =>
      let v := if (neg : bool) then - digits_value ds else digits_value ds in
      if decide (LONG_MAX < v) then (LONG_MAX, true, true)
      else if decide (v < LONG_MIN) then (LONG_MIN, true, true)
      else (v, false, true)
  end.

(** One line with its end, at most [n - 1] characters; what is left. *)
Fixpoint fgets_loop (n : nat) (s : cstring) : cstring * cstring :=
  match n, s with
  | S n', c :: s' =>
      if decide (c = NL) then ([c], s') else let '(l, rest) := fgets_loop n' s' in (c :: l, rest)
  | _, _ => ([], s)
  end.
Definition fgets (n : nat) (s : cstring) : option (cstring * cstring) :=
  match s with [] => None | _ => Some (fgets_loop (n - 1) s) end.

(** ** Conversions *)

(** [rval] is an [int]: the comparisons with the limits of [long] never hold. *)
Definition mystrtol (nptr : cstring) : res Z :=
  let '(v, erange, converted) := strtol nptr in
  let rval := s32 v in
  if (erange && (bool_decide (rval = LONG_MAX) || bool_decide (rval = LONG_MIN)))
     || (erange && bool_decide (rval = 0)) then Fault Exit else
  if negb converted then Fault Exit else Ok rval.

(** [for (j = 0; j < (prefix - i * 8) && j < 8; j++)]. *)
Fixpoint mask_byte (n : nat) (j left byte : Z) : Z :=
  match n with
  | O => byte
  | S n' => if decide (j < left) then mask_byte n' (j + 1) left (Z.lor byte (Z.shiftl 1 (7 - j))) else byte
  end.

(** [for (i = 0; i <= prefix / 8 && i < 4; i++)]; the bytes of [mask], lowest
    address first. *)
Fixpoint mask_bytes (n : nat) (i prefix : Z) : list Z :=
  match n with
  | O => []
  | S n' =>
      if decide (i <= Z.quot prefix 8) then mask_byte 8 0 (prefix - i * 8) 0 :: mask_bytes n' (i + 1) prefix
      else replicate n 0
  end.

(** The host is little-endian. *)
Definition MaskFromPrefix (prefix : Z) : Z :=
  foldr (fun b v => b + 256 * v) 0 (mask_bytes 4 0 prefix).

(** ** The configuration *)

(** The members of [struct qstack_config] and of its first [struct eth_table]
    that this file assigns, and [num_cpus]. *)
Record qstack_config : Type := QConfig {
  num_cores : Z;
  stack_thread : Z;
  app_thread : Z;
  max_concurrency : Z;
  max_num_buffers : Z;
  rcvbuf_size : Z;
  sndbuf_size : Z;
  pri : Z;
  eths_num : Z;
  ifindex : Z;
  stat_print : Z;
  ip_addr : Z;
  netmask : Z;
  num_cpus : Z;
}.
#[export] Instance qstack_config_rebuild : Rebuild qstack_config := fun c =>
  QConfig (num_cores c) (stack_thread c) (app_thread c) (max_concurrency c) (max_num_buffers c) (rcvbuf_size c)
    (sndbuf_size c) (pri c) (eths_num c) (ifindex c) (stat_print c) (ip_addr c) (netmask c) (num_cpus c).

(** [CONFIG = {0}]. *)
Definition config0 : qstack_config := QConfig 0 0 0 0 0 0 0 0 0 0 0 0 0 0.

Section Parser.
Context (inet_addr : cstring -> Z).

Definition set_host_ip (optstr : cstring) : M qstack_config unit :=
  match strtok_r "/" optstr with
  | None => throw AssertFail
  | Some (daddr_s, rest) =>
      match strtok_r " " rest with
      | None => throw AssertFail
      | Some (prefix, _) =>
          net_prefix ← lift (mystrtol prefix);
          modify (fun c => c <| ip_addr := inet_addr daddr_s |> <| netmask := MaskFromPrefix net_prefix |>)
      end
  end.

(** The options; a wrong number of threads is only reported. *)
Definition set_option (p q : cstring) : M qstack_config Z :=
  if decide (p = chars "num_cores") then
    v ← lift (mystrtol q);
    modify (fun c => c <| num_cores := v |>);;
    if decide (v <= 0) then mret (-1) else
    c ← get;
    if decide (num_cpus c < v) then mret (-1) else
    modify (fun c => c <| num_cpus := v |>);; mret 0
  else if decide (p = chars "max_concurrency") then
    v ← lift (mystrtol q);
    modify (fun c => c <| max_concurrency := v |>);; mret (if decide (v < 0) then -1 else 0)
  else if decide (p = chars "max_num_buffers") then
    v ← lift (mystrtol q);
    modify (fun c => c <| max_num_buffers := v |>);; mret (if decide (v < 0) then -1 else 0)
  else if decide (p = chars "rcvbuf") then
    v ← lift (mystrtol q);
    modify (fun c => c <| rcvbuf_size := v |>);; mret (if decide (v < 64) then -1 else 0)
  else if decide (p = chars "sndbuf") then
    v ← lift (mystrtol q);
    modify (fun c => c <| sndbuf_size := v |>);; mret (if decide (v < 64) then -1 else 0)
  else if decide (p = chars "stack_thread") then
    v ← lift (mystrtol q);
    modify (fun c => c <| stack_thread := if decide (v = 0) then 1 else v |>);; mret 0
  else if decide (p = chars "app_thread") then
    v ← lift (mystrtol q);
    modify (fun c => c <| app_thread := if decide (v = 0) then 1 else v |>);; mret 0
  else if decide (p = chars "stat_print") then
    v ← lift (mystrtol q);
    modify (fun c => c <| stat_print := if decide (v = 0) then num_cpus c - 1 else v |>);; mret 0
  else if decide (p = chars "host_ip") then set_host_ip q;; mret 0
  else if decide (p = chars "pri_enable") then
    v ← lift (mystrtol q);
    modify (fun c => c <| pri := v |>);; mret 0
  else mret (-1).

(** [junk] is what the stack holds behind the copy of a line that fills the
    whole buffer, up to the next zero. *)
Definition ParseConfiguration (junk line : cstring) : M qstack_config Z :=
  let optstr := take (MAX_OPTLINE_LEN - 1) line ++
                (if decide (length line < MAX_OPTLINE_LEN - 1)%nat then [] else junk) in
  let delim := String " "%char (String "009"%char (String "="%char EmptyString)) in
  match strtok_r delim optstr with
  | None => mret (-1)
  | Some (p, rest) =>
      match strtok_r delim rest with
      | None => mret (-1)
      | Some (q, _) => set_option p q
      end
  end.

(** The comment is cut off, then the space at the front and one space at the
    end: [temp] is not moved. *)
Definition clean (line : cstring) : cstring :=
  let p := drop_while isspace (span (fun c => bool_decide (c <> 35)) line).1 in
  match last p with
  | Some c => if isspace c then removelast p else p
  | None => p
  end.

Fixpoint load_loop (fuel : nat) (junk file : cstring) : M qstack_config Z :=
  match fuel with
  | O => throw NoReturn
  | S fuel' =>
      match fgets MAX_OPTLINE_LEN file with
      | None => mret 0
      | Some (line, rest) =>
          match clean line with
          | [] => load_loop fuel' junk rest
          | p => r ← ParseConfiguration junk p; if decide (r < 0) then mret (-1) else load_loop fuel' junk rest
          end
      end
  end.

(** [file] is the content of the file, when it can be opened; [cpus] the number
    of processors and [flows] is [MAX_FLOW_NUM].  [STATIC_BUFF_SIZE] is 8. *)
Definition load_configuration (cpus flows : Z) (junk : cstring) (file : option cstring) : M qstack_config Z :=
  match file with
  | None => mret (-1)
  | Some f =>
      modify (fun c => c <| num_cpus := cpus |> <| num_cores := 24 |> <| max_concurrency := flows |>
                         <| max_num_buffers := 100000 |> <| rcvbuf_size := 8 |> <| sndbuf_size := 8 |>
                         <| eths_num := 1 |> <| ifindex := 0 |> <| stat_print := 0 |>
                         <| ip_addr := 0 |> <| netmask := 0 |>);;
      load_loop (S (length f)) junk f
  end.
End Parser.
End Configuration.
