(* ===== verification/ConfigurationCorrect.v ===== *)
(** Correctness of the configuration file: the network mask of a prefix, and that
    the text of a list of settings is read as exactly these settings. *)
From Stdlib Require Import String Ascii.
From S2P Require Import Prelude Protocol Configuration.
Import Configuration.
#[local] Open Scope Z_scope.

(** * Network masks *)

Lemma mask_byte_none n j left b : left <= j -> mask_byte n j left b = b.
Proof. destruct n; cbn [mask_byte]; [done|]. intros H. by rewrite decide_False by lia. Qed.

Lemma mask_byte_full n j left left' b :
  j + Z.of_nat n <= left -> j + Z.of_nat n <= left' -> mask_byte n j left b = mask_byte n j left' b.
Proof.
  revert j b. induction n as [|n IH]; intros j b H H'; cbn [mask_byte]; [done|].
  rewrite !decide_True by lia. apply IH; lia.
Qed.

(** Only the prefix lengths from 0 to 32 differ. *)
Definition clamp (prefix : Z) : Z := Z.max 0 (Z.min 32 prefix).

Lemma mask_bytes_full n i prefix :
  i + Z.of_nat n <= 4 -> 32 <= prefix -> 0 <= i -> mask_bytes n i prefix = mask_bytes n i 32.
Proof.
  revert i. induction n as [|n IH]; intros i Hi Hp Hi0; cbn [mask_bytes]; [done|].
  assert (4 <= Z.quot prefix 8) by (rewrite Z.quot_div_nonneg by lia; apply Z.div_le_lower_bound; lia).
  rewrite !decide_True by (lia || (change (Z.quot 32 8) with 4; lia)).
  f_equal; [apply mask_byte_full; lia | apply IH; lia].
Qed.

Lemma mask_bytes_none prefix : prefix <= 0 -> mask_bytes 4 0 prefix = [0; 0; 0; 0].
Proof.
  intros Hp. assert (Z.quot prefix 8 <= 0).
  { pose proof (Z.quot_opp_l prefix 8 ltac:(lia)). pose proof (Z.quot_pos (- prefix) 8 ltac:(lia) ltac:(lia)). lia. }
  cbn [mask_bytes]. case_decide; [|done]. rewrite decide_False by lia.
  by rewrite mask_byte_none by lia.
Qed.

Lemma mask_clamp prefix : MaskFromPrefix prefix = MaskFromPrefix (clamp prefix).
Proof.
  unfold MaskFromPrefix, clamp. f_equal. destruct (decide (prefix <= 0)).
  - rewrite mask_bytes_none by done. replace (Z.max 0 (Z.min 32 prefix)) with 0 by lia. done.
  - destruct (decide (32 <= prefix)); [|by replace (Z.max 0 (Z.min 32 prefix)) with prefix by lia].
    rewrite mask_bytes_full by lia. by replace (Z.max 0 (Z.min 32 prefix)) with 32 by lia.
Qed.

(** [MaskFromPrefix] computes the network mask.  For every [int] the result is,
    in network order, the word whose first [prefix] bits are set, where a negative
    prefix counts as 0 and one above 32 as 32. *)
Theorem mask_from_prefix prefix :
  MaskFromPrefix prefix = htonl (2 ^ 32 - 2 ^ (32 - clamp prefix)).
Proof.
  rewrite mask_clamp. assert (0 <= clamp prefix < 33) as Hc by (unfold clamp; lia).
  revert Hc. generalize (clamp prefix). intros p Hp.
  assert (forallb (fun p => bool_decide (MaskFromPrefix p = htonl (2 ^ 32 - 2 ^ (32 - p)))) (seqZ 0 33) = true)
    as Hall by (vm_compute; reflexivity).
  rewrite forallb_forall in Hall. apply (bool_decide_eq_true_1 _), Hall.
  apply list_elem_of_In, elem_of_seqZ. lia.
Qed.

(** * Writing and reading settings *)

(** Decimal notation of a number below 10 to the power [fuel]. *)
Fixpoint digits (fuel : nat) (n : Z) (acc : cstring) : cstring :=
  match fuel with
  | O => acc
  | S fuel' => if decide (n < 10) then (48 + n) :: acc else digits fuel' (n / 10) ((48 + n mod 10) :: acc)
  end.
Definition decimal (n : Z) : cstring := digits 10 n [].

Lemma digits_ok fuel n acc :
  0 <= n < 10 ^ Z.of_nat fuel -> (0 < fuel)%nat ->
  exists ds, digits fuel n acc = ds ++ acc /\ digits_value ds = n /\ forallb isdigit ds = true /\
    ds <> [] /\ (length ds <= fuel)%nat.
Proof.
  revert n acc. induction fuel as [|fuel IH]; intros n acc Hn Hf; [lia|]. cbn [digits].
  destruct (decide (n < 10)) as [Hs|Hs].
  { exists [48 + n]. split; [done|]. split; [unfold digits_value; simpl; lia|]. split; [|split; [done | simpl; lia]].
    unfold isdigit. simpl. rewrite bool_decide_eq_true_2 by lia. done. }
  assert (0 <= n / 10 < 10 ^ Z.of_nat fuel) as Hd.
  { split; [apply Z.div_pos; lia|]. apply Z.div_lt_upper_bound; [lia|].
    rewrite Nat2Z.inj_succ, Z.pow_succ_r in Hn by lia. lia. }
  destruct (IH (n / 10) ((48 + n mod 10) :: acc) Hd) as (ds & -> & Hv & Hds & Hne & Hl).
  { destruct fuel; [|lia]. simpl in Hn. lia. }
  exists (ds ++ [48 + n mod 10]). rewrite <- app_assoc. split; [done|].
  pose proof (Z.mod_pos_bound n 10 ltac:(lia)). pose proof (Z.div_mod n 10 ltac:(lia)). split_and!.
  - unfold digits_value in *. rewrite fold_left_app, Hv. simpl. lia.
  - rewrite forallb_app, Hds. unfold isdigit. simpl. rewrite bool_decide_eq_true_2 by lia. done.
  - by destruct ds.
  - rewrite length_app. simpl. lia.
Qed.

Lemma decimal_ok n : 0 <= n <= 2 ^ 31 ->
  digits_value (decimal n) = n /\ forallb isdigit (decimal n) = true /\ decimal n <> [] /\ (length (decimal n) <= 10)%nat.
Proof.
  intros Hn. destruct (digits_ok 10 n []) as (ds & He & Hv & Hd & Hne & Hl); [lia | lia|].
  unfold decimal. rewrite He, app_nil_r. done.
Qed.

(** ** Scanning *)
Lemma drop_while_none f c s : f c = false -> drop_while f (c :: s) = c :: s.
Proof. cbn [drop_while]. by intros ->. Qed.

Lemma span_all f s t : forallb f s = true -> (forall c t', t = c :: t' -> f c = false) -> span f (s ++ t) = (s, t).
Proof.
  induction s as [|c s IH]; simpl.
  - intros _ Ht. destruct t as [|c t]; [done|]. cbn [span]. by rewrite (Ht c t eq_refl).
  - intros [-> Hs]%andb_prop Ht. by rewrite (IH Hs Ht).
Qed.

Lemma forallb_impl {A} (f g : A -> bool) l :
  (forall x, f x = true -> g x = true) -> forallb f l = true -> forallb g l = true.
Proof. intros Hi. rewrite !forallb_forall. auto. Qed.

(** Characters of words: no space, no delimiter, no comment. *)
Definition word (c : Z) : bool := negb (isspace c) && negb (among "=#" c).

Lemma isdigit_word c : isdigit c = true -> word c = true.
Proof.
  unfold isdigit, word, isspace, among. intros Hc%bool_decide_eq_true.
  rewrite (bool_decide_eq_false_2 (c = 32)), (bool_decide_eq_false_2 (9 <= c <= 13)) by lia.
  change (chars "=#") with [61; 35]. rewrite bool_decide_eq_false_2; [done|]. rewrite !elem_of_cons, elem_of_nil. lia.
Qed.

(** An [int] in decimal notation. *)
Definition is_int (v : Z) : Prop := - 2 ^ 31 <= v < 2 ^ 31.
Definition int_text (v : Z) : cstring := if decide (v < 0) then 45 :: decimal (- v) else decimal v.

Lemma int_text_word v : is_int v ->
  forallb word (int_text v) = true /\ int_text v <> [] /\ (length (int_text v) <= 11)%nat.
Proof.
  intros Hv. unfold is_int in Hv. unfold int_text. case_decide.
  - destruct (decimal_ok (- v)) as (_ & Hd & _ & Hl); [lia|]. split_and!; [|done | simpl; lia].
    cbn [forallb]. rewrite (forallb_impl _ _ _ isdigit_word Hd). reflexivity.
  - destruct (decimal_ok v) as (_ & Hd & Hn & Hl); [lia|]. split_and!; [|done | lia].
    by apply (forallb_impl _ _ _ isdigit_word).
Qed.

(** The digits of a number behind its sign. *)
Lemma span_decimal n : 0 <= n <= 2 ^ 31 ->
  exists c ds, decimal n = c :: ds /\ 48 <= c <= 57 /\ isspace c = false /\
    (span isdigit (c :: ds)).1 = c :: ds /\ digits_value (c :: ds) = n.
Proof.
  intros Hn. destruct (decimal_ok n Hn) as (Hv & Hd & Hne & _).
  destruct (decimal n) as [|c ds] eqn:E; [done|]. exists c, ds.
  pose proof (span_all isdigit (c :: ds) [] Hd) as Hs. rewrite app_nil_r in Hs. rewrite Hs by done.
  simpl in Hd. apply andb_prop in Hd as [Hc _]. pose proof (isdigit_word c Hc) as Hw.
  unfold word in Hw. apply andb_prop in Hw as [Hw%negb_true_iff _].
  unfold isdigit in Hc. apply bool_decide_eq_true in Hc. done.
Qed.

Lemma mystrtol_int v : is_int v -> mystrtol (int_text v) = Ok v.
Proof.
  intros Hv. unfold is_int in Hv. unfold int_text, mystrtol, strtol. case_decide as Hneg.
  - destruct (span_decimal (- v)) as (c & ds & -> & Hc & Hsp & Hspan & Hval); [lia|].
    rewrite drop_while_none by reflexivity. unfold sign. rewrite decide_True by done. rewrite Hspan.
    cbn [negb]. rewrite Hval, !decide_False by (unfold LONG_MAX, LONG_MIN; lia). simpl.
    rewrite s32_id by lia. f_equal. lia.
  - destruct (span_decimal v) as (c & ds & -> & Hc & Hsp & Hspan & Hval); [lia|].
    rewrite drop_while_none by done. unfold sign. rewrite !decide_False by lia. rewrite Hspan.
    rewrite Hval, !decide_False by (unfold LONG_MAX, LONG_MIN; lia). simpl. by rewrite s32_id by lia.
Qed.

(** ** One line *)
Definition option_line (key : string) (v : cstring) : cstring := chars key ++ chars " = " ++ v ++ [NL].

Definition key_ok (key : string) : bool :=
  forallb word (chars key) && bool_decide (chars key <> []) && bool_decide (length (chars key) <= 100)%nat.

Lemma word_spec c : word c = true -> isspace c = false /\ c <> 61 /\ c <> 35 /\ c <> NL /\ c <> 32 /\ c <> 9.
Proof.
  unfold word, isspace, among, NL. change (chars "=#") with [61; 35].
  intros [Hs%negb_true_iff Ha%negb_true_iff%bool_decide_eq_false]%andb_prop.
  split; [done|]. apply orb_false_iff in Hs as [H1%bool_decide_eq_false H2%bool_decide_eq_false].
  rewrite !elem_of_cons, elem_of_nil in Ha. split_and!; [tauto | tauto | | done |]; intros ->; apply H2; lia.
Qed.

Lemma fgets_line n l rest :
  Forall (fun c => c <> NL) l -> (length l < n)%nat -> fgets_loop n (l ++ NL :: rest) = (l ++ [NL], rest).
Proof.
  intros Hl. revert n. induction Hl as [|c l Hc _ IH]; intros n Hn.
  - destruct n; [simpl in Hn; lia|]. cbn [fgets_loop app]. by rewrite decide_True.
  - destruct n; [simpl in Hn; lia|]. cbn [fgets_loop app]. rewrite decide_False by done.
    rewrite IH by (simpl in Hn; lia). done.
Qed.

(** What is left of a line that ends with its newline. *)
Lemma clean_line c l : isspace c = false -> Forall (fun x => x <> 35) (c :: l) -> clean ((c :: l) ++ [NL]) = c :: l.
Proof.
  intros Hc Hl. unfold clean.
  assert (span (fun x => bool_decide (x <> 35)) ((c :: l) ++ [NL]) = ((c :: l) ++ [NL], [])) as ->.
  { rewrite <- (app_nil_r ((c :: l) ++ [NL])) at 1. apply span_all; [|done]. rewrite forallb_app.
    apply andb_true_intro. split; [|done]. apply forallb_forall. intros x Hx.
    apply bool_decide_eq_true_2. by eapply (proj1 (Forall_forall _ _) Hl), list_elem_of_In. }
  cbn [fst app]. rewrite drop_while_none by done. change (c :: l ++ [NL]) with ((c :: l) ++ [NL]).
  rewrite last_snoc. change (isspace NL) with true. cbn iota. by rewrite removelast_last.
Qed.

(** The two tokens of a line. *)
Lemma parse_line junk inet k v :
  forallb word k = true -> k <> [] -> forallb word v = true -> v <> [] -> (length k + length v <= 1000)%nat ->
  ParseConfiguration inet junk (k ++ chars " = " ++ v) = set_option inet k v.
Proof.
  intros Hk Hkn Hv Hvn Hlen. unfold ParseConfiguration, MAX_OPTLINE_LEN.
  rewrite decide_True, app_nil_r, take_ge by (rewrite !length_app; simpl; lia).
  set (delim := String " " (String "009" (String "=" EmptyString))).
  assert (forall c, word c = true -> among delim c = false) as Hd.
  { intros c (_ & H61 & _ & _ & H32 & H9)%word_spec. unfold among, delim. apply bool_decide_eq_false_2.
    change (chars _) with [32; 9; 61]. rewrite !elem_of_cons, elem_of_nil. tauto. }
  assert (forall s, forallb word s = true -> forallb (fun c => negb (among delim c)) s = true) as Hn.
  { intros s. apply forallb_impl. intros c Hc. by rewrite Hd. }
  unfold strtok_r. destruct k as [|ck k]; [done|]. destruct v as [|cv v]; [done|].
  simpl in Hk, Hv. pose proof (Hn (ck :: k) Hk) as Hk'. pose proof (Hn (cv :: v) Hv) as Hv'.
  apply andb_prop in Hk as [Hck _]. apply andb_prop in Hv as [Hcv _].
  cbn [app]. rewrite drop_while_none by (by apply Hd).
  change (ck :: k ++ chars " = " ++ cv :: v) with ((ck :: k) ++ 32 :: 61 :: 32 :: cv :: v).
  rewrite span_all by (done || by intros c t' [= <- <-]). cbn [tail drop_while].
  change (among delim 61) with true. change (among delim 32) with true. cbn iota. rewrite Hd by done.
  pose proof (span_all _ (cv :: v) [] Hv') as Hs. rewrite app_nil_r in Hs. by rewrite Hs.
Qed.

Lemma load_line inet fuel junk key v rest c r c' :
  key_ok key = true -> forallb word v = true -> v <> [] -> (length v <= 200)%nat ->
  set_option inet (chars key) v c = Ok (r, c') ->
  load_loop inet (S fuel) junk (option_line key v ++ rest) c =
    if decide (r < 0) then Ok (-1, c') else load_loop inet fuel junk rest c'.
Proof.
  intros Hkey Hdw Hdn Hdl Hset.
  apply andb_prop in Hkey as [[Hw Hkn%bool_decide_eq_true]%andb_prop Hkl%bool_decide_eq_true].
  set (l := chars key ++ chars " = " ++ v).
  assert (forall x, x ∈ l -> x <> 35 /\ x <> NL) as Hchars.
  { assert (forall s x, forallb word s = true -> x ∈ s -> x <> 35 /\ x <> NL) as Hx.
    { intros s x Hs Hin. rewrite forallb_forall in Hs. apply list_elem_of_In, Hs, word_spec in Hin. tauto. }
    unfold l. intros x. rewrite !elem_of_app. intros [Hin|[Hin|Hin]]; [exact (Hx _ x Hw Hin) | | exact (Hx _ x Hdw Hin)].
    change (chars " = ") with [32; 61; 32] in Hin. rewrite !elem_of_cons, elem_of_nil in Hin. unfold NL. lia. }
  assert (option_line key v ++ rest = l ++ NL :: rest) as ->.
  { unfold option_line, l. by rewrite <- !app_assoc. }
  cbn [load_loop]. unfold fgets. destruct (l ++ NL :: rest) eqn:E; [by destruct l|]. rewrite <- E.
  rewrite fgets_line; [| apply Forall_forall; intros x Hx; by apply Hchars
    | unfold l, MAX_OPTLINE_LEN; rewrite !length_app; simpl; lia].
  assert (clean (l ++ [NL]) = l) as ->.
  { unfold l in *. destruct (chars key) as [|ck k]; [done|]. cbn [app] in *.
    change ((ck :: ?x) ++ ?y) with (ck :: x ++ y). apply (clean_line ck).
    - simpl in Hw. apply andb_prop in Hw as [?%word_spec _]. tauto.
    - apply Forall_forall. intros x Hx. by apply Hchars. }
  assert (l <> []) as Hl by (unfold l; by destruct (chars key)).
  destruct l as [|cl l'] eqn:El; [done|]. rewrite <- El. unfold l in El |- *.
  rewrite parse_line by (done || lia). erewrite bind_ok by exact Hset. by case_decide.
Qed.

(** ** Settings *)

(** A line of the file, by its option. *)
Inductive setting : Type :=
  | NumCores (v : Z) | MaxConcurrency (v : Z) | MaxNumBuffers (v : Z) | RcvBuf (v : Z) | SndBuf (v : Z)
  | StackThread (v : Z) | AppThread (v : Z) | StatPrint (v : Z) | PriEnable (v : Z)
  | HostIp (addr : cstring) (prefix : Z).

Definition setting_key (s : setting) : string :=
  match s with
  | NumCores _ => "num_cores" | MaxConcurrency _ => "max_concurrency" | MaxNumBuffers _ => "max_num_buffers"
  | RcvBuf _ => "rcvbuf" | SndBuf _ => "sndbuf" | StackThread _ => "stack_thread" | AppThread _ => "app_thread"
  | StatPrint _ => "stat_print" | PriEnable _ => "pri_enable" | HostIp _ _ => "host_ip"
  end.
Definition setting_value (s : setting) : cstring :=
  match s with
  | NumCores v | MaxConcurrency v | MaxNumBuffers v | RcvBuf v | SndBuf v
  | StackThread v | AppThread v | StatPrint v | PriEnable v => int_text v
  | HostIp addr prefix => addr ++ chars "/" ++ int_text prefix
  end.
Definition settings_text (ss : list setting) : cstring :=
  ss ≫= fun s => option_line (setting_key s) (setting_value s).

(** Numbers are of the range of [int]; an address is a word without a slash. *)
Definition setting_ok (s : setting) : Prop :=
  match s with
  | NumCores v | MaxConcurrency v | MaxNumBuffers v | RcvBuf v | SndBuf v
  | StackThread v | AppThread v | StatPrint v | PriEnable v => is_int v
  | HostIp addr prefix => is_int prefix /\ addr <> [] /\ (length addr <= 100)%nat /\
      forallb (fun c => word c && negb (bool_decide (c = 47))) addr = true
  end.

(** What a setting means; the first component is negative when it is refused. *)
Definition assign (inet : cstring -> Z) (s : setting) (c : qstack_config) : Z * qstack_config :=
  let check (b : bool) := if b then 0 else -1 in
  match s with
  | NumCores v =>
      if bool_decide (0 < v <= num_cpus c) then (0, c <| num_cores := v |> <| num_cpus := v |>)
      else (-1, c <| num_cores := v |>)
  | MaxConcurrency v => (check (bool_decide (0 <= v)), c <| max_concurrency := v |>)
  | MaxNumBuffers v => (check (bool_decide (0 <= v)), c <| max_num_buffers := v |>)
  | RcvBuf v => (check (bool_decide (64 <= v)), c <| rcvbuf_size := v |>)
  | SndBuf v => (check (bool_decide (64 <= v)), c <| sndbuf_size := v |>)
  | StackThread v => (0, c <| stack_thread := if decide (v = 0) then 1 else v |>)
  | AppThread v => (0, c <| app_thread := if decide (v = 0) then 1 else v |>)
  | StatPrint v => (0, c <| stat_print := if decide (v = 0) then num_cpus c - 1 else v |>)
  | PriEnable v => (0, c <| pri := v |>)
  | HostIp addr prefix =>
      (0, c <| ip_addr := inet addr |> <| netmask := htonl (2 ^ 32 - 2 ^ (32 - clamp prefix)) |>)
  end.

(** In order, up to the first that is refused. *)
Fixpoint assign_all (inet : cstring -> Z) (ss : list setting) (c : qstack_config) : Z * qstack_config :=
  match ss with
  | [] => (0, c)
  | s :: ss' => let '(r, c') := assign inet s c in if decide (r < 0) then (-1, c') else assign_all inet ss' c'
  end.

(** Run the option of a line. *)
Ltac run_option :=
  unfold set_option;
  repeat match goal with
  | |- context [decide (chars ?a = chars ?b)] =>
      let H := fresh in
      destruct (decide (chars a = chars b)) as [H|H];
      [first [discriminate H | clear H] | first [by destruct H | clear H]]
  end.

Lemma set_host_ip_ok inet addr prefix c :
  setting_ok (HostIp addr prefix) ->
  set_host_ip inet (setting_value (HostIp addr prefix)) c = Ok (tt, (assign inet (HostIp addr prefix) c).2).
Proof.
  intros (Hp & Hne & _ & Ha). destruct (int_text_word prefix Hp) as (Hw & Hpn & _).
  unfold set_host_ip, setting_value, strtok_r. change (chars "/") with [47].
  assert (forallb (fun c => negb (among "/" c)) addr = true) as Ha'.
  { revert Ha. apply forallb_impl. intros x [_ Hx%negb_true_iff%bool_decide_eq_false]%andb_prop.
    unfold among. change (chars "/") with [47]. rewrite bool_decide_eq_false_2; [done|].
    by rewrite list_elem_of_singleton. }
  destruct addr as [|ca addr]; [done|]. cbn [app].
  rewrite drop_while_none by (simpl in Ha'; by apply andb_prop in Ha' as [?%negb_true_iff _]).
  change (ca :: addr ++ 47 :: int_text prefix) with ((ca :: addr) ++ 47 :: int_text prefix).
  rewrite span_all by (done || by intros ?? [= <- <-]). cbn [tail].
  assert (forallb (fun c => negb (among " " c)) (int_text prefix) = true) as Hs.
  { revert Hw. apply forallb_impl. intros x (_ & _ & _ & _ & H32 & _)%word_spec. unfold among.
    change (chars " ") with [32]. rewrite bool_decide_eq_false_2; [done|]. by rewrite list_elem_of_singleton. }
  destruct (int_text prefix) as [|cp ps] eqn:Ep; [done|].
  rewrite drop_while_none by (simpl in Hs; by apply andb_prop in Hs as [?%negb_true_iff _]).
  pose proof (span_all _ (cp :: ps) [] Hs) as Hsp. rewrite app_nil_r in Hsp. rewrite Hsp by done. rewrite <- Ep.
  step by (by apply lift_ok, mystrtol_int). rewrite mask_from_prefix. done.
Qed.

Lemma set_option_assign inet s c :
  setting_ok s -> set_option inet (chars (setting_key s)) (setting_value s) c = Ok (assign inet s c).
Proof.
  intros Hs. destruct s as [v|v|v|v|v|v|v|v|v|addr prefix]; cbn [setting_key]; run_option;
    try (cbn [setting_value]; step by (by apply lift_ok, mystrtol_int); step by reflexivity); cbn [assign].
  - destruct (decide (v <= 0)); [by rewrite bool_decide_eq_false_2 by lia|]. step by reflexivity.
    change (num_cpus (c <| num_cores := v |>)) with (num_cpus c).
    destruct (decide (num_cpus c < v)); [by rewrite bool_decide_eq_false_2 by lia|].
    rewrite bool_decide_eq_true_2 by lia. by step by reflexivity.
  - case_decide; [by rewrite bool_decide_eq_false_2 by lia | by rewrite bool_decide_eq_true_2 by lia].
  - case_decide; [by rewrite bool_decide_eq_false_2 by lia | by rewrite bool_decide_eq_true_2 by lia].
  - case_decide; [by rewrite bool_decide_eq_false_2 by lia | by rewrite bool_decide_eq_true_2 by lia].
  - case_decide; [by rewrite bool_decide_eq_false_2 by lia | by rewrite bool_decide_eq_true_2 by lia].
  - done.
  - done.
  - done.
  - done.
  - step by (by apply set_host_ip_ok). done.
Qed.

Lemma setting_value_word s : setting_ok s ->
  forallb word (setting_value s) = true /\ setting_value s <> [] /\ (length (setting_value s) <= 200)%nat.
Proof.
  intros Hs. destruct s as [v|v|v|v|v|v|v|v|v|addr prefix]; cbn [setting_value];
    try (destruct (int_text_word v Hs) as (? & ? & ?); split_and!; [done | done | lia]).
  destruct Hs as (Hp & Hne & Hl & Ha). destruct (int_text_word prefix Hp) as (Hw & _ & Hlp). split_and!.
  - rewrite !forallb_app, Hw. assert (forallb word addr = true) as ->; [|done].
    revert Ha. apply forallb_impl. by intros x [? _]%andb_prop.
  - by destruct addr.
  - rewrite !length_app. simpl. lia.
Qed.

Lemma load_settings inet fuel junk ss c :
  Forall setting_ok ss -> (length ss < fuel)%nat ->
  load_loop inet fuel junk (settings_text ss) c = Ok (assign_all inet ss c).
Proof.
  revert fuel c. induction ss as [|s ss IH]; intros fuel c Hss Hf; (destruct fuel as [|fuel]; [simpl in Hf; lia|]).
  - done.
  - apply Forall_cons in Hss as [Hs Hss]. destruct (setting_value_word s Hs) as (Hw & Hn & Hl).
    destruct (assign inet s c) as [r c'] eqn:Ea. unfold settings_text. rewrite bind_cons.
    erewrite load_line; [| by destruct s | done | done | done | rewrite set_option_assign, Ea by done; reflexivity].
    cbn [assign_all]. rewrite Ea. case_decide; [done|]. apply IH; [done | simpl in Hf; lia].
Qed.

Lemma settings_text_length ss : (length ss <= length (settings_text ss))%nat.
Proof.
  induction ss as [|s ss IH]; [done|]. unfold settings_text in *. rewrite bind_cons, length_app.
  unfold option_line at 1. rewrite !length_app. simpl. lia.
Qed.





(** The settings of a whole configuration. *)
Definition settings_of (c : qstack_config) (addr : cstring) (prefix : Z) : list setting :=
  [NumCores (num_cores c); MaxConcurrency (max_concurrency c); MaxNumBuffers (max_num_buffers c); RcvBuf (rcvbuf_size c);
   SndBuf (sndbuf_size c); StackThread (stack_thread c); AppThread (app_thread c); StatPrint (stat_print c);
   PriEnable (pri c); HostIp addr prefix].

(** A configuration that settings can produce, on a machine with [cpus]
    processors: all values are in range and no value is the 0 that stands for a
    default. *)
Record config_ok (inet : cstring -> Z) (cpus : Z) (addr : cstring) (prefix : Z) (c : qstack_config) : Prop := {
  co_settings : Forall setting_ok (settings_of c addr prefix);
  co_cores : 0 < num_cores c <= cpus;
  co_limits : 0 <= max_concurrency c /\ 0 <= max_num_buffers c /\ 64 <= rcvbuf_size c /\ 64 <= sndbuf_size c;
  co_threads : stack_thread c <> 0 /\ app_thread c <> 0 /\ stat_print c <> 0;
  co_eth : eths_num c = 1 /\ ifindex c = 0 /\ num_cpus c = num_cores c;
  co_host : ip_addr c = inet addr /\ netmask c = htonl (2 ^ 32 - 2 ^ (32 - clamp prefix));
}.

(** Such a configuration is read back from its settings, whatever was there before. *)
Lemma whole_configuration_read_back inet cpus flows junk c0 addr prefix c :
  config_ok inet cpus addr prefix c ->
  load_configuration inet cpus flows junk (Some (settings_text (settings_of c addr prefix))) c0 = Ok (0, c).
Proof.
  intros [Hss Hcores (Hl1 & Hl2 & Hl3 & Hl4) (Ht1 & Ht2 & Ht3) (He1 & He2 & He3) (Hh1 & Hh2)].
  unfold load_configuration. step by reflexivity.
  etrans; [apply load_settings; [done|]; pose proof (settings_text_length (settings_of c addr prefix)); lia|].
  unfold settings_of. cbn [assign_all assign].
  rewrite bool_decide_eq_true_2 by done. cbn [Z.ltb]. rewrite !bool_decide_eq_true_2 by lia.
  rewrite !(decide_False (P := 0 < 0)) by lia. rewrite !decide_False by done.
  destruct c as [a b d e f g h i j k' l m n o]. simpl in *. by subst.
Qed.

(** A number beyond the range of [long] is not refused: it is read as -1. *)
Example huge_number_accepted : mystrtol (chars "99999999999999999999") = Ok (-1).
Proof. vm_compute. reflexivity. Qed.

(** A file without the option leaves no stack threads. *)
Example no_stack_threads :
  match load_configuration (fun _ => 0) 32 15000000 [] (Some (chars "num_cores = 8")) config0 with
  | Ok (r, c) => r = 0 /\ stack_thread c = 0
  | Fault _ => False
  end.
Proof. vm_compute. done. Qed.
