(* ===== verification/Coroutine.v ===== *)
(** Coroutines ([tools/qcoroutine]: [routine.c], [context.c]): creation, resume,
    yield and hand-over between coroutines, over the environments of the threads.

    A saved context is a [point]: whose code stopped, and how many switches that
    code had done.  [coctx_swap], which is assembly, stores the point of the code
    that executes it in its first argument and continues at the point stored in
    its second.  No coroutine shares its stack ([cIsShareStack] is 0 everywhere),
    so stacks are never copied; their memory is not modelled. *)
From S2P Require Import Prelude.
#[local] Open Scope Z_scope.

Module Coroutine.

Definition ROSTACK_SIZE : Z := 204800.
Definition CALL_STACK : nat := 128.

Record point : Type := Point { pt_co : ptr; pt_pc : nat }.

(** [co_env] is the slot of the environment the coroutine was created in; [ctx]
    is empty before the first switch. *)
Record qCoroutine : Type := Co {
  co_env : Z;
  cStart : bool;
  cEnd : bool;
  cIsMain : bool;
  ss_size : Z;
  ctx : option point;
}.
#[export] Instance qCoroutine_rebuild : Rebuild qCoroutine := fun c =>
  Co (co_env c) (cStart c) (cEnd c) (cIsMain c) (ss_size c) (ctx c).

Record qCoEnv : Type := Env { pCallStack : list ptr; qCallStackSize : Z }.
#[export] Instance qCoEnv_rebuild : Rebuild qCoEnv := fun e => Env (pCallStack e) (qCallStackSize e).

(** The environments by slot, the coroutines, the code every thread executes, and
    the results of the coming [malloc] calls for coroutines. *)
Record coworld : Type := CoWorld {
  q_CoEnvPerThread : gmap Z qCoEnv;
  cos : gmap ptr qCoroutine;
  runs : gmap Z point;
  co_mallocs : list ptr;
}.
#[export] Instance coworld_rebuild : Rebuild coworld := fun w =>
  CoWorld (q_CoEnvPerThread w) (cos w) (runs w) (co_mallocs w).

(** ** Memory accesses *)
Definition co_at (p : ptr) : M coworld qCoroutine := fun w =>
  (fun c => (c, w)) <$> deref NullDeref (cos w !! p).
Definition set_co (p : ptr) (f : qCoroutine -> qCoroutine) : M coworld unit :=
  c ← co_at p; modify (fun w => w <| cos ::= <[p := f c]> |>).
Definition env_at (slot : Z) : M coworld qCoEnv := fun w =>
  (fun e => (e, w)) <$> deref NullDeref (q_CoEnvPerThread w !! slot).
Definition set_env (slot : Z) (e : qCoEnv) : M coworld unit :=
  modify (fun w => w <| q_CoEnvPerThread ::= <[slot := e]> |>).
Definition running (tid : Z) : M coworld point := fun w =>
  (fun r => (r, w)) <$> deref WildAccess (runs w !! tid).

(** The slot of a thread: its id modulo the number of slots. *)
Definition GetPid (tid : Z) : Z := Z.rem tid ROSTACK_SIZE.

(** ** Creation *)

(** The stack size of a coroutine: the default, the limit, and whole pages. *)
Definition page_round (s : Z) : Z :=
  let s := if decide (s <= 0) then 128 * 1024 else if decide (1024 * 1024 * 8 < s) then 1024 * 1024 * 8 else s in
  if decide (Z.land s 0xFFF <> 0) then Z.land s (Z.lnot 0xFFF) + 0x1000 else s.

(** [junk] is the uninitialised size that is used without an attribute. *)
Definition q_coCreate_env (slot : Z) (attr : option Z) (junk : Z) : M coworld ptr :=
  let size := page_round (default junk attr) in
  w ← get;
  match co_mallocs w with
  | [] => throw NullDeref
  | p :: l =>
      modify (fun w => w <| co_mallocs := l |> <| cos ::= <[p := Co slot false false false size None]> |>);;
      mret p
  end.

(** The environment of a thread, with its main coroutine at the bottom. *)
Definition q_coInit_env (tid junk : Z) : M coworld unit :=
  let slot := GetPid tid in
  set_env slot (Env (replicate CALL_STACK NULL) 0);;
  self ← q_coCreate_env slot None junk;
  set_co self (fun c => c <| cIsMain := true |>);;
  set_co self (fun c => c <| ctx := None |>);;
  e ← env_at slot;
  st ← lift (write_at (pCallStack e) (qCallStackSize e) self);
  set_env slot (Env st (qCallStackSize e + 1)).

Definition q_coCreate (tid : Z) (attr : option Z) (junk : Z) : M coworld ptr :=
  w ← get;
  (if decide (q_CoEnvPerThread w !! GetPid tid = None) then q_coInit_env tid junk else mret tt);;
  q_coCreate_env (GetPid tid) attr junk.

(** ** Switching *)
Definition coctx_swap (tid : Z) (curr pend : ptr) : M coworld unit :=
  r ← running tid;
  set_co curr (fun c => c <| ctx := Some (Point (pt_co r) (S (pt_pc r))) |>);;
  c ← co_at pend;
  target ← lift (deref WildAccess (ctx c));
  modify (fun w => w <| runs ::= <[tid := target]> |>).

(** The environment of the running thread holds the shared-stack bookkeeping: it
    must exist. *)
Definition co_swap (tid : Z) (curr pending_co : ptr) : M coworld unit :=
  env_at (GetPid tid);; coctx_swap tid curr pending_co.

(** [coctx_make]: the coroutine will start at its function. *)
Definition start (co : ptr) : M coworld unit :=
  c ← co_at co;
  when (negb (cStart c)) (
    set_co co (fun c => c <| ctx := Some (Point co 0) |>);;
    set_co co (fun c => c <| cStart := true |>)).

Definition q_coResume (tid : Z) (co : ptr) : M coworld unit :=
  c ← co_at co;
  e ← env_at (co_env c);
  lpCurrRoutine ← lift (read_at (pCallStack e) (qCallStackSize e - 1));
  start co;;
  st ← lift (write_at (pCallStack e) (qCallStackSize e) co);
  set_env (co_env c) (Env st (qCallStackSize e + 1));;
  co_swap tid lpCurrRoutine co.

Definition q_coYield_env (tid slot : Z) : M coworld unit :=
  e ← env_at slot;
  last ← lift (read_at (pCallStack e) (qCallStackSize e - 2));
  curr ← lift (read_at (pCallStack e) (qCallStackSize e - 1));
  set_env slot (e <| qCallStackSize := qCallStackSize e - 1 |>);;
  co_swap tid curr last.

Definition q_coYield_to (tid : Z) (curr_co pend_co : ptr) : M coworld unit :=
  start pend_co;; co_swap tid curr_co pend_co.

Definition q_coYield (tid : Z) (co : ptr) : M coworld unit :=
  c ← co_at co; q_coYield_env tid (co_env c).

Definition q_coYield_ct (tid : Z) : M coworld unit := q_coYield_env tid (GetPid tid).

(** The end of [CoRoutineFunc], after the function of the coroutine returned. *)
Definition CoRoutineFunc_end (tid : Z) : M coworld unit :=
  r ← running tid;
  set_co (pt_co r) (fun c => c <| cEnd := true |>);;
  c ← co_at (pt_co r);
  q_coYield_env tid (co_env c).

Definition q_coRelease (co : ptr) : M coworld unit :=
  co_at co;; modify (fun w => w <| cos ::= delete co |>).

(** The coroutine at the top of the thread's call stack, or NULL. *)
Definition q_coSelf (tid : Z) : M coworld ptr :=
  w ← get;
  match q_CoEnvPerThread w !! GetPid tid with
  | None => mret NULL
  | Some e => lift (read_at (pCallStack e) (qCallStackSize e - 1))
  end.
End Coroutine.
