(* ===== verification/Runtime.v ===== *)
(** The runtime of a core ([runtime_mgt.c], [runtime_mgt.h], and
    [wakeup_application] and [qstack_thread_start] of [core.c]): which of the
    stack thread and the application thread of a core runs, compiled with
    [CONTEXT_SWITCH], [COROUTINE_SCHEDULING] and [CHECK_INSERT].

    The state of a core is its runtime context with the coroutines of its
    thread.  [systs_t] has 32 bits.  Clocks are arguments. *)
From S2P Require Import Prelude Coroutine.
Import Coroutine.
#[local] Open Scope Z_scope.

Module Runtime.

Definition MAX_RUNTIME_NUM : Z := 24.
Definition STACK_PENDING_TIMEOUT : Z := 1000.
Definition STACK_CHECK_TIMEOUT : Z := 200.
Definition FETCH_NEW_TS : Z := 0.

(** [struct runtime_ctx] with its [struct thread_wakeup].  [qstack] and [qapp] are
    the coroutines of the two threads, NULL when there is none. *)
Record runtime_ctx : Type := RtCtx {
  on_stack : bool;
  core_id : Z;
  pending : bool;
  knocked : bool;
  waiting : bool;
  last_stack_ts : Z;
  last_check_ts : Z;
  last_event_check_ts : Z;
  qstack : ptr;
  qapp : ptr;
  rt_thread : Z;
}.
#[export] Instance runtime_ctx_rebuild : Rebuild runtime_ctx := fun r =>
  RtCtx (on_stack r) (core_id r) (pending r) (knocked r) (waiting r) (last_stack_ts r) (last_check_ts r)
    (last_event_check_ts r) (qstack r) (qapp r) (rt_thread r).

(** [rt_checks] counts the calls of [io_recv_check] that [rt_check] made. *)
Record core_state : Type := CoreState { rt : runtime_ctx; cw : coworld; rt_checks : nat }.
#[export] Instance core_state_rebuild : Rebuild core_state := fun s => CoreState (rt s) (cw s) (rt_checks s).

Definition rt_get : M core_state runtime_ctx := s ← get; mret (rt s).
Definition rt_set (f : runtime_ctx -> runtime_ctx) : M core_state unit := modify (fun s => s <| rt ::= f |>).
Definition on_cos {A} (m : M coworld A) : M core_state A := fun s =>
  '(a, w) ← m (cw s); Ok (a, s <| cw := w |>).

Definition runtime_init (core : Z) (r : runtime_ctx) : runtime_ctx :=
  r <| core_id := core |> <| qstack := NULL |> <| qapp := NULL |> <| rt_thread := NULL |> <| last_event_check_ts := 0 |>.

(** ** Hand-over *)
Definition yield_to_qapp (from target : ptr) : M core_state unit :=
  rt_set (fun r => r <| on_stack := false |>);;
  r ← rt_get; on_cos (q_coYield_to (rt_thread r) from target).

(** The coroutine of the application is read through [rt_ctx->qapp]. *)
Definition yield_to_stack : M core_state unit :=
  r ← rt_get;
  if decide (qapp r = NULL) then throw NullDeref else
  rt_set (fun r => r <| on_stack := true |>);;
  if decide (qstack r = NULL) then throw NullDeref else
  on_cos (q_coYield_to (rt_thread r) (qapp r) (qstack r)).

Definition wakeup_app_thread : M core_state unit := rt_set (fun r => r <| knocked := true |>).

(** Of the stack thread, once per round. *)
Definition wakeup_application : M core_state unit :=
  r ← rt_get;
  when (knocked r) (
    if decide (qapp r = NULL) then throw NullDeref else yield_to_qapp (qstack r) (qapp r)).

(** [now] is what [get_sys_ts] returns. *)
Definition runtime_schedule (now cur_ts : Z) : M core_state unit :=
  let cur_ts := if decide (cur_ts = 0) then now else cur_ts in
  r ← rt_get;
  when (bool_decide (qstack r <> NULL) && bool_decide (qapp r <> NULL)) (
    if decide (STACK_PENDING_TIMEOUT < u32 (cur_ts - last_stack_ts r)) then
      if on_stack r then mret tt else yield_to_stack
    else if on_stack r then yield_to_qapp (qstack r) (qapp r) else yield_to_stack).

(** [rt_check] of the application thread, at every fetch of an event, up to the
    point where it may hand over to the stack thread; [now] is what [get_time_us]
    returns.  The result is the time the rest works with. *)
Definition rt_check (now cur_ts : Z) : M core_state Z :=
  r ← rt_get;
  if decide (qstack r = NULL) then mret cur_ts else
  let cur_ts := if decide (cur_ts = FETCH_NEW_TS) then now else cur_ts in
  when (bool_decide (STACK_PENDING_TIMEOUT < u32 (cur_ts - last_stack_ts r))) yield_to_stack;;
  mret cur_ts.

(** The rest of it, when the application runs (again). *)
Definition rt_check_rest (cur_ts : Z) : M core_state unit :=
  r ← rt_get;
  when (bool_decide (qstack r <> NULL) && bool_decide (STACK_CHECK_TIMEOUT < u32 (cur_ts - last_check_ts r)))
    (modify (fun s => s <| rt_checks ::= S |>));;
  rt_set (fun r => r <| last_check_ts := cur_ts |>).

(** [eventmgt_get] and [qepoll_wait] without an event: the application sleeps;
    and what it does when it runs again. *)
Definition fall_asleep : M core_state unit :=
  r ← rt_get;
  when (bool_decide (qstack r <> NULL)) (
    rt_set (fun r => r <| knocked := false |>);;
    rt_set (fun r => r <| waiting := false |>);;
    rt_set (fun r => r <| pending := true |>);;
    yield_to_stack).
Definition wake_up : M core_state unit := rt_set (fun r => r <| pending := false |>).

(** ** Threads *)

(** The stack thread's first code: it creates the coroutine of the main loop and
    resumes it. *)
Definition qstack_thread_start (tid junk : Z) : M core_state unit :=
  co ← on_cos (q_coCreate tid (Some (8 * 1024 * 1024)) junk);
  rt_set (fun r => r <| qstack := co |> <| on_stack := true |>);;
  on_cos (q_coResume tid co).

(** The application joins a core that has a stack thread; [tid] is the thread that
    calls. *)
Definition create_app_thread (tid junk : Z) : M core_state unit :=
  co ← on_cos (q_coCreate tid (Some 0) junk);
  rt_set (fun r => r <| qapp := co |>);;
  rt_set (fun r => r <| waiting := true |> <| pending := true |> <| knocked := true |>).

(** ** The sorted array of active queues *)
Record active_queues : Type := Active { active_tq_num : Z; active_tq : list Z }.
#[export] Instance active_queues_rebuild : Rebuild active_queues := fun q => Active (active_tq_num q) (active_tq q).

(** [while (seq < length && q[seq] < new_tq)]. *)
Fixpoint find_slot (fuel : nat) (seq length new_tq : Z) (q : list Z) : res Z :=
  match fuel with
  | O => Fault NoReturn
  | S fuel' =>
      if decide (seq < length) then
        x ← read_at q seq;
        if decide (x < new_tq) then find_slot fuel' (seq + 1) length new_tq q else Ok seq
      else Ok seq
  end.

(** [for (i = length; i > seq; i--)]. *)
Fixpoint move_up (n : nat) (i : Z) (q : list Z) : res (list Z) :=
  match n with
  | O => Ok q
  | S n' => x ← read_at q (i - 1); q' ← write_at q i x; move_up n' (i - 1) q'
  end.

Definition active_tq_insert (a : active_queues) (new_tq : Z) : res active_queues :=
  let q := active_tq a in
  let length := active_tq_num a in
  if decide (length = MAX_RUNTIME_NUM) then Fault Exit else
  seq ← find_slot (S (Z.to_nat length)) 0 length new_tq q;
  q' ← (if decide (length = seq) then write_at q seq new_tq
        else q' ← move_up (Z.to_nat (length - seq)) length q; write_at q' seq new_tq);
  Ok (a <| active_tq := q' |> <| active_tq_num := u8 (length + 1) |>).
End Runtime.
