(* ===== verification/RuntimeCorrect.v ===== *)
(** Correctness of the runtime of a core: the sizes of coroutine stacks, the
    hand-over between the stack thread and the application thread, what happens
    when an application returns, the sorted array of queues, and the wake-up
    protocol between threads. *)
From stdpp Require Import sorting.
From S2P Require Import Prelude Coroutine Runtime.
Import Coroutine Runtime.
#[local] Open Scope Z_scope.

(** * Stacks *)

Lemma land_lnot_page s : 0 <= s -> Z.land s (Z.lnot 0xFFF) = s - s `mod` 4096.
Proof.
  intros Hs. rewrite <- Z.ldiff_land. change 0xFFF with (Z.ones 12). rewrite Z.ldiff_ones_r by lia.
  rewrite Z.shiftr_div_pow2, Z.shiftl_mul_pow2 by lia. change (2 ^ 12) with 4096.
  pose proof (Z.div_mod s 4096 ltac:(lia)). lia.
Qed.

(** The stack of a coroutine is a whole number of pages between one page and
    8 MB for every requested size, and a request in this range is rounded up by
    less than a page; a request that is not positive gets the default. *)
Theorem coroutine_stack_size s :
  let r := page_round s in
  r `mod` 4096 = 0 /\ 4096 <= r <= 8 * 1024 * 1024 /\
  (0 < s <= 8 * 1024 * 1024 -> s <= r < s + 4096) /\ (s <= 0 -> r = 128 * 1024).
Proof.
  unfold page_round.
  set (t := if decide (s <= 0) then 128 * 1024 else if decide (1024 * 1024 * 8 < s) then 1024 * 1024 * 8 else s).
  assert (0 < t <= 8 * 1024 * 1024 /\ (0 < s <= 8 * 1024 * 1024 -> t = s) /\ (s <= 0 -> t = 128 * 1024)) as (Ht & H1 & H2)
    by (unfold t; repeat case_decide; lia).
  cbn zeta. change (Z.land t 0xFFF) with (Z.land t (Z.ones 12)). rewrite Z.land_ones, land_lnot_page by lia.
  change (2 ^ 12) with 4096. pose proof (Z.mod_pos_bound t 4096 ltac:(lia)).
  pose proof (Z.div_mod t 4096 ltac:(lia)) as Hd. case_decide as Hz.
  - assert (t - t `mod` 4096 + 4096 = (t / 4096 + 1) * 4096) as -> by lia. rewrite Z.mod_mul by lia.
    assert (t / 4096 < 2048) by (apply Z.div_lt_upper_bound; [lia|]; destruct (decide (t = 2048 * 4096)) as [-> | ?]; [done | lia]).
    assert (0 <= t / 4096) by (apply Z.div_pos; lia).
    split_and!; [done | lia | lia | intros Hs; lia | intros Hs; rewrite (H2 Hs) in Hz; done].
  - split_and!; [done | lia | lia | lia | done].
Qed.

(** * Two threads on one core *)

(** Where the code of coroutine [x] is: where the thread [tid] runs, or where it
    stopped. *)
Definition live (tid : Z) (w : coworld) (x : ptr) : option point :=
  match runs w !! tid, cos w !! x with
  | Some r, Some c => if decide (pt_co r = x) then Some r else if cStart c then ctx c else Some (Point x 0)
  | _, _ => None
  end.

(** The stack thread [k] and the application [a] share the core; they have done
    [n] and [m] switches.  The thread that created the application has only its main
    coroutine on its call stack. *)
Record shares (tid : Z) (k a : ptr) (n m : nat) (s : core_state) : Prop := {
  sh_tid : rt_thread (rt s) = tid;
  sh_stack : qstack (rt s) = k;
  sh_app : qapp (rt s) = a;
  sh_ne : k <> a /\ k <> NULL /\ a <> NULL;
  sh_turn : exists r c, runs (cw s) !! tid = Some r /\ (pt_co r = if on_stack (rt s) then k else a) /\
    cos (cw s) !! pt_co r = Some c /\ cStart c = true;
  sh_k : live tid (cw s) k = Some (Point k n);
  sh_a : live tid (cw s) a = Some (Point a m);
  sh_env : is_Some (q_CoEnvPerThread (cw s) !! GetPid tid);
  sh_home : exists c main st, cos (cw s) !! a = Some c /\ q_CoEnvPerThread (cw s) !! co_env c = Some (Env (main :: st) 1);
}.

Lemma live_Some tid w x r c : runs w !! tid = Some r -> cos w !! x = Some c ->
  live tid w x = if decide (pt_co r = x) then Some r else if cStart c then ctx c else Some (Point x 0).
Proof. unfold live. by intros -> ->. Qed.

Lemma co_at_run w p c : cos w !! p = Some c -> co_at p w = Ok (c, w).
Proof. unfold co_at. by intros ->. Qed.
Lemma env_at_run w i e : q_CoEnvPerThread w !! i = Some e -> env_at i w = Ok (e, w).
Proof. unfold env_at. by intros ->. Qed.
Lemma running_run tid w r : runs w !! tid = Some r -> running tid w = Ok (r, w).
Proof. unfold running. by intros ->. Qed.
Lemma set_co_run w p f c : cos w !! p = Some c -> set_co p f w = Ok (tt, w <| cos ::= <[p := f c]> |>).
Proof. intros Hc. unfold set_co. by step by (by apply co_at_run). Qed.

(** The coroutine [y] is made ready. *)
Lemma start_run w y c : cos w !! y = Some c ->
  exists w' c', start y w = Ok (tt, w') /\ runs w' = runs w /\ cos w' = <[y := c']> (cos w) /\
    ctx c' = (if cStart c then ctx c else Some (Point y 0)) /\ cStart c' = true /\ co_env c' = co_env c /\
    q_CoEnvPerThread w' = q_CoEnvPerThread w.
Proof.
  intros Hc. unfold start. destruct (cStart c) eqn:E.
  - exists w, c. split_and!; try done; [|by rewrite insert_id].
    step by (by apply co_at_run). by rewrite E.
  - set (c1 := c <| ctx := Some (Point y 0) |>). set (w1 := w <| cos ::= <[y := c1]> |>).
    exists (w1 <| cos ::= <[y := c1 <| cStart := true |>]> |>), (c1 <| cStart := true |>). split_and!; try done.
    + step by (by apply co_at_run). rewrite E. cbn [negb when]. step by (by apply set_co_run).
      rewrite (set_co_run w1 y _ c1) by apply lookup_insert_eq. done.
    + simpl. by rewrite insert_insert_eq.
Qed.

(** A hand-over: [x] stops, [y] goes on where it was. *)
Lemma yield_to_run tid w x y cx cy r p :
  runs w !! tid = Some r -> pt_co r = x -> cos w !! x = Some cx -> cos w !! y = Some cy -> x <> y ->
  live tid w y = Some p -> pt_co p = y -> is_Some (q_CoEnvPerThread w !! GetPid tid) ->
  exists w', q_coYield_to tid x y w = Ok (tt, w') /\ runs w' = <[tid := p]> (runs w) /\ q_CoEnvPerThread w' = q_CoEnvPerThread w /\
    (exists cx' cy', cos w' = <[x := cx']> (<[y := cy']> (cos w)) /\ ctx cx' = Some (Point x (S (pt_pc r))) /\
       cStart cx' = cStart cx /\ cStart cy' = true /\ co_env cx' = co_env cx /\ co_env cy' = co_env cy).
Proof.
  intros Hr Hx Hcx Hcy Hne Hl Hp [e He]. unfold q_coYield_to. rewrite (live_Some _ _ _ _ _ Hr Hcy), decide_False in Hl by congruence.
  destruct (start_run w y cy Hcy) as (w1 & cy' & Hrun & Hr1 & Hc1 & Hctx & Hst & Hh & He1).
  step by (exact Hrun). unfold co_swap. step by (apply env_at_run; by rewrite He1). unfold coctx_swap.
  assert (cos w1 !! x = Some cx) as Hcx1 by (by rewrite Hc1, lookup_insert_ne).
  step by (apply running_run; by rewrite Hr1). step by (by apply set_co_run).
  set (cx' := cx <| ctx := _ |>). set (w2 := w1 <| cos ::= _ |>).
  assert (cos w2 !! y = Some cy') as Hcy2.
  { unfold w2. simpl. by rewrite lookup_insert_ne, Hc1, lookup_insert_eq. }
  step by (by apply co_at_run). step by (apply lift_ok; rewrite Hctx, Hl; reflexivity).
  eexists. split; [reflexivity|]. split; [unfold w2; simpl; by rewrite Hr1|]. split; [exact He1|].
  exists cx', cy'. split; [unfold w2; simpl; by rewrite Hc1|]. split; [by rewrite <- Hx | done].
Qed.

(** The positions after a hand-over from [x] to [y]. *)
Lemma live_after tid w w' x y r p cx' cy' :
  runs w' = <[tid := p]> (runs w) -> cos w' = <[x := cx']> (<[y := cy']> (cos w)) -> x <> y -> pt_co p = y ->
  ctx cx' = Some (Point x (S (pt_pc r))) -> cStart cx' = true ->
  live tid w' y = Some p /\ live tid w' x = Some (Point x (S (pt_pc r))).
Proof.
  intros Hr Hc Hne Hp Hx Hs. assert (runs w' !! tid = Some p) as Hr' by (by rewrite Hr, lookup_insert_eq). split.
  - assert (cos w' !! y = Some cy') as Hy by (by rewrite Hc, lookup_insert_ne, lookup_insert_eq).
    by rewrite (live_Some _ _ _ _ _ Hr' Hy), decide_True.
  - assert (cos w' !! x = Some cx') as Hx' by (by rewrite Hc, lookup_insert_eq).
    rewrite (live_Some _ _ _ _ _ Hr' Hx'), decide_False by congruence. by rewrite Hs.
Qed.

Lemma live_co tid w x p : live tid w x = Some p -> exists c, cos w !! x = Some c.
Proof. unfold live. destruct (runs w !! tid), (cos w !! x); eauto; done. Qed.

Lemma on_cos_run {A} (m : M coworld A) (s : core_state) x w :
  m (cw s) = Ok (x, w) -> on_cos m s = Ok (x, s <| cw := w |>).
Proof. unfold on_cos. by intros ->. Qed.

(** A hand-over in terms of positions. *)
Lemma handover tid w x y r c n m :
  runs w !! tid = Some r -> pt_co r = x -> cos w !! x = Some c -> cStart c = true -> x <> y ->
  live tid w x = Some (Point x n) -> live tid w y = Some (Point y m) -> is_Some (q_CoEnvPerThread w !! GetPid tid) ->
  exists w' c', q_coYield_to tid x y w = Ok (tt, w') /\ runs w' !! tid = Some (Point y m) /\
    cos w' !! y = Some c' /\ cStart c' = true /\
    live tid w' x = Some (Point x (S n)) /\ live tid w' y = Some (Point y m) /\
    q_CoEnvPerThread w' = q_CoEnvPerThread w /\
    (forall z c0, z = x \/ z = y -> cos w !! z = Some c0 -> exists c1, cos w' !! z = Some c1 /\ co_env c1 = co_env c0).
Proof.
  intros Hr Hx Hc Hst Hne Lx Ly He. destruct (live_co _ _ _ _ Ly) as [cy Hcy].
  rewrite (live_Some _ _ _ _ _ Hr Hc), decide_True in Lx by done. injection Lx as ->. simpl in Hx. clear Hx.
  destruct (yield_to_run tid w x y c cy (Point x n) (Point y m) Hr eq_refl Hc Hcy Hne Ly eq_refl He)
    as (w' & Hrun & Hrs & Henv & cx' & cy' & Hcos & Hctx & Hsx & Hsy & Hex & Hey).
  destruct (live_after tid w w' x y (Point x n) (Point y m) cx' cy' Hrs Hcos Hne eq_refl Hctx ltac:(congruence)) as [L1 L2].
  assert (cos w' !! y = Some cy') as Hy' by (by rewrite Hcos, lookup_insert_ne, lookup_insert_eq).
  exists w', cy'. split_and!; try done; [by rewrite Hrs, lookup_insert_eq|].
  intros z c0 [-> | ->] Hz; [exists cx' | exists cy']; (split; [|congruence]); [by rewrite Hcos, lookup_insert_eq | done].
Qed.

Section Core.
Context (tid : Z) (k a : ptr).

(** The stack thread hands over. *)
Lemma to_app n m s : shares tid k a n m s -> on_stack (rt s) = true ->
  exists s', yield_to_qapp k a s = Ok (tt, s') /\ shares tid k a (S n) m s' /\ on_stack (rt s') = false /\
    knocked (rt s') = knocked (rt s).
Proof.
  intros [Ht Hk Ha (Hne & Hk0 & Ha0) (r & c & Hr & Hco & Hc & Hst) Lk La He (c0 & main & st & Hc0 & He0)] Ho. rewrite Ho in Hco. rewrite Hco in Hc.
  destruct (handover tid (cw s) k a r c n m Hr Hco Hc Hst Hne Lk La He) as (w' & c' & Hrun & Hr' & Hc' & Hs' & Lk' & La' & He' & Hh).
  destruct (Hh a c0 ltac:(auto) Hc0) as (c1 & Hc1 & Hh1).
  exists (s <| rt ::= fun r => r <| on_stack := false |> |> <| cw := w' |>). split_and!; [| |done|done].
  - unfold yield_to_qapp. step by reflexivity. step by reflexivity. apply on_cos_run. simpl. by rewrite Ht.
  - split; try done; simpl; [eauto 10 | by rewrite He' | exists c1, main, st; by rewrite He', Hh1].
Qed.

(** The application hands over. *)
Lemma to_stack n m s : shares tid k a n m s -> on_stack (rt s) = false ->
  exists s', yield_to_stack s = Ok (tt, s') /\ shares tid k a n (S m) s' /\ on_stack (rt s') = true /\
    knocked (rt s') = knocked (rt s).
Proof.
  intros [Ht Hk Ha (Hne & Hk0 & Ha0) (r & c & Hr & Hco & Hc & Hst) Lk La He (c0 & main & st & Hc0 & He0)] Ho. rewrite Ho in Hco. rewrite Hco in Hc.
  destruct (handover tid (cw s) a k r c m n Hr Hco Hc Hst (not_eq_sym Hne) La Lk He) as (w' & c' & Hrun & Hr' & Hc' & Hs' & La' & Lk' & He' & Hh).
  destruct (Hh a c0 ltac:(auto) Hc0) as (c1 & Hc1 & Hh1).
  exists (s <| rt ::= fun r => r <| on_stack := true |> |> <| cw := w' |>). split_and!; [| |done|done].
  - unfold yield_to_stack. step by reflexivity. rewrite decide_False by congruence. step by reflexivity.
    rewrite decide_False by congruence. apply on_cos_run. simpl. by rewrite Ht, Ha, Hk.
  - split; try done; simpl; [eauto 10 | by rewrite He' | exists c1, main, st; by rewrite He', Hh1].
Qed.

(** What only sets the flags and times of the context. *)
Lemma shares_flags n m s s' :
  shares tid k a n m s -> cw s' = cw s -> rt_thread (rt s') = rt_thread (rt s) -> qstack (rt s') = qstack (rt s) ->
  qapp (rt s') = qapp (rt s) -> on_stack (rt s') = on_stack (rt s) -> shares tid k a n m s'.
Proof. intros [] Hw Ht Hk Ha Ho. split; rewrite ?Hw, ?Ht, ?Hk, ?Ha, ?Ho; done. Qed.

(** The application goes to sleep. *)
Lemma sleep_run n m s : shares tid k a n m s -> on_stack (rt s) = false ->
  exists s', fall_asleep s = Ok (tt, s') /\ shares tid k a n (S m) s' /\ on_stack (rt s') = true /\ knocked (rt s') = false.
Proof.
  intros Hs Ho. pose proof Hs as [_ Hk _ (_ & Hk0 & _) _ _ _ _ _]. unfold fall_asleep. step by reflexivity.
  rewrite (bool_decide_eq_true_2 (qstack (rt s) <> NULL)) by congruence. cbn [when]. do 3 step by reflexivity.
  match goal with |- context [yield_to_stack ?s1] => apply (to_stack n m s1) end; [by eapply (shares_flags n m s) | exact Ho].
Qed.

(** The stack thread looks for a knock. *)
Lemma wakeup_run n m s : shares tid k a n m s -> on_stack (rt s) = true ->
  if knocked (rt s) then
    exists s', wakeup_application s = Ok (tt, s') /\ shares tid k a (S n) m s' /\ on_stack (rt s') = false /\ knocked (rt s') = true
  else wakeup_application s = Ok (tt, s).
Proof.
  intros Hs Ho. pose proof Hs as [_ Hk Ha (_ & _ & Ha0) _ _ _ _ _]. destruct (to_app n m s Hs Ho) as (s' & Hrun & Hs').
  destruct (knocked (rt s)) eqn:Ek; [exists s'; split; [|done] |]; unfold wakeup_application; step by reflexivity; rewrite Ek; [|done].
  cbn [when]. by rewrite decide_False, Hk, Ha by congruence.
Qed.

(** What the code on the core does with the runtime; [who] tells who runs it.
    The stack thread or another core may knock at any time. *)
Inductive core_call : Type :=
  | Wakeup                      (* the main loop of the stack thread *)
  | Sleep | Woken               (* the application without and with an event *)
  | Check (now cur_ts : Z) | CheckRest (cur_ts : Z)
  | Schedule (stack : bool) (now cur_ts : Z)
  | Knock.

Definition who (c : core_call) : option bool :=
  match c with
  | Wakeup => Some true
  | Sleep | Woken | Check _ _ | CheckRest _ => Some false
  | Schedule b _ _ => Some b
  | Knock => None
  end.

Definition core_run (c : core_call) : M core_state unit :=
  match c with
  | Wakeup => wakeup_application
  | Sleep => fall_asleep
  | Woken => wake_up
  | Check now ts => rt_check now ts;; mret tt
  | CheckRest ts => rt_check_rest ts
  | Schedule _ now ts => runtime_schedule now ts
  | Knock => wakeup_app_thread
  end.

Definition enabled (c : core_call) (s : core_state) : Prop :=
  match who c with Some b => on_stack (rt s) = b | None => True end.

Inductive core_step : core_state -> core_state -> Prop :=
  | CoreStep c s s' : enabled c s -> core_run c s = Ok (tt, s') -> core_step s s'.

(** Every call of the code that runs returns, and the two positions only grow. *)
Lemma core_run_total n m c s : shares tid k a n m s -> enabled c s ->
  exists s' n' m', core_run c s = Ok (tt, s') /\ shares tid k a n' m' s' /\ (n <= n')%nat /\ (m <= m')%nat.
Proof.
  intros Hs He. pose proof Hs as [_ Hk Ha (_ & Hk0 & Ha0) _ _ _ _ _]. destruct c as [| | |now ts|ts|b now ts|]; cbn in He |- *.
  - pose proof (wakeup_run n m s Hs He) as Hw. destruct (knocked (rt s)); [|exists s, n, m; by split_and!].
    destruct Hw as (s' & Hrun & Hs' & _). exists s', (S n), m. split_and!; [done | done | lia | lia].
  - destruct (sleep_run n m s Hs He) as (s' & Hrun & Hs' & _). exists s', n, (S m). split_and!; [exact Hrun | done | lia | lia].
  - eexists _, n, m. split_and!; [reflexivity | by eapply (shares_flags n m s) | done | done].
  - unfold rt_check. step by reflexivity. rewrite decide_False by congruence. cbn zeta.
    set (t := if decide (ts = FETCH_NEW_TS) then now else ts).
    case_bool_decide; cbn [when]; [|eexists _, n, m; by split_and!].
    destruct (to_stack n m s Hs He) as (s' & Hrun & Hs' & _). exists s', n, (S m).
    split_and!; [by step by (exact Hrun) | done | lia | lia].
  - unfold rt_check_rest. step by reflexivity.
    destruct (_ && _); cbn [when]; step by reflexivity; (eexists _, n, m; split_and!; [reflexivity | by eapply (shares_flags n m s) | done | done]).
  - unfold runtime_schedule. cbn zeta. step by reflexivity.
    rewrite (bool_decide_eq_true_2 (qstack (rt s) <> NULL)), (bool_decide_eq_true_2 (qapp (rt s) <> NULL)) by congruence.
    cbn [andb when]. destruct (on_stack (rt s)) eqn:Ho.
    + destruct (to_app n m s Hs Ho) as (s' & Hrun & Hs' & _). rewrite Hk, Ha.
      case_decide; [exists s, n, m; by split_and! | exists s', (S n), m; split_and!; (done || lia)].
    + destruct (to_stack n m s Hs Ho) as (s' & Hrun & Hs' & _).
      exists s', n, (S m). case_decide; split_and!; (done || lia).
  - eexists _, n, m. split_and!; [reflexivity | by eapply (shares_flags n m s) | done | done].
Qed.

Lemma core_steps n m s s' : shares tid k a n m s -> rtc core_step s s' ->
  exists n' m', shares tid k a n' m' s' /\ (n <= n')%nat /\ (m <= m')%nat.
Proof.
  intros Hs Hr. revert n m Hs. induction Hr as [s | s s1 s' [c s0 s2 He Hc] _ IH]; intros n m Hs; [by exists n, m|].
  destruct (core_run_total n m c s0 Hs He) as (s3 & n1 & m1 & Hrun & Hs1 & Hn & Hm).
  rewrite Hrun in Hc. injection Hc as ->. destruct (IH n1 m1 Hs1) as (n' & m' & ? & ? & ?). exists n', m'. split_and!; (done || lia).
Qed.

(** C13. The stack thread and the application thread of a core take turns for ever:
    after any sequence of runtime calls of whichever of them runs (and of knocks
    from anywhere), exactly the thread that [on_stack] names executes, each of the
    two stands where it handed the core over last (its position never goes back
    and is never the other's), and every further runtime call of the running
    thread returns. *)
Theorem core_shared_in_turn n m s s' : shares tid k a n m s -> rtc core_step s s' ->
  exists n' m', (n <= n')%nat /\ (m <= m')%nat /\
    runs (cw s') !! tid = Some (if on_stack (rt s') then Point k n' else Point a m') /\
    live tid (cw s') k = Some (Point k n') /\ live tid (cw s') a = Some (Point a m') /\
    forall c, enabled c s' -> exists s2, core_step s' s2 /\ core_run c s' = Ok (tt, s2).
Proof.
  intros Hs Hr. destruct (core_steps n m s s' Hs Hr) as (n' & m' & Hs' & Hn & Hm).
  exists n', m'. pose proof Hs' as [Ht Hk Ha _ (r & c & Hrr & Hco & Hc & _) Lk La _ _]. split_and!; try done.
  - destruct (on_stack (rt s')); rewrite Hco in Hc.
    + by rewrite (live_Some _ _ _ _ _ Hrr Hc), decide_True in Lk by done; injection Lk as <-.
    + by rewrite (live_Some _ _ _ _ _ Hrr Hc), decide_True in La by done; injection La as <-.
  - intros call He. destruct (core_run_total n' m' call s' Hs' He) as (s2 & _ & _ & Hrun & _). eauto using CoreStep.
Qed.

(** * Waking the application up *)

(** The core with the events that are queued for its application, whether the
    application just found the queues empty, and the stack threads of other cores
    that queued an event and have not knocked yet. *)
Record wake : Type := Wake { wk_core : core_state; wk_events : nat; wk_empty : bool; wk_remote : nat }.

(** [other] tells whether other cores send events to this application. *)
Inductive wake_step (other : bool) : wake -> wake -> Prop :=
  | StackAdds s s' e b r : on_stack (rt s) = true -> wakeup_app_thread s = Ok (tt, s') ->
      wake_step other (Wake s e b r) (Wake s' (S e) b r)
  | StackWakes s s' e b r : on_stack (rt s) = true -> wakeup_application s = Ok (tt, s') ->
      wake_step other (Wake s e b r) (Wake s' e b r)
  | AppChecks s s' now ts t e r : on_stack (rt s) = false -> rt_check now ts s = Ok (t, s') ->
      wake_step other (Wake s e false r) (Wake s' e false r)
  | AppTakes s e r : on_stack (rt s) = false -> wake_step other (Wake s (S e) false r) (Wake s e false r)
  | AppFindsNone s r : on_stack (rt s) = false -> wake_step other (Wake s 0 false r) (Wake s 0 true r)
  | AppSleeps s s' e r : on_stack (rt s) = false -> fall_asleep s = Ok (tt, s') ->
      wake_step other (Wake s e true r) (Wake s' e false r)
  | AppWoken s s' e r : on_stack (rt s) = false -> wake_up s = Ok (tt, s') ->
      wake_step other (Wake s e false r) (Wake s' e false r)
  | OtherAdds s e b r : other = true -> wake_step other (Wake s e b r) (Wake s (S e) b (S r))
  | OtherKnocks s s' e b r : other = true -> wakeup_app_thread s = Ok (tt, s') ->
      wake_step other (Wake s e b (S r)) (Wake s' e b r).

(** The application runs only after a knock that is not cleared; an event waits
    only with a knock. *)
Record awake_ok (t : wake) : Prop := {
  aw_shares : exists n m, shares tid k a n m (wk_core t);
  aw_app : on_stack (rt (wk_core t)) = false -> knocked (rt (wk_core t)) = true;
  aw_empty : wk_empty t = true -> on_stack (rt (wk_core t)) = false /\ wk_events t = 0%nat;
  aw_event : wk_events t <> 0%nat -> knocked (rt (wk_core t)) = true;
}.

Lemma wake_step_ok t t' : wake_step false t t' -> awake_ok t -> awake_ok t'.
Proof.
  intros Hst [(n & m & Hs) Hap Hem Hev]. destruct Hst as
    [s s' e b r Ho Hr | s s' e b r Ho Hr | s s' now ts u e r Ho Hr | s e r Ho | s r Ho | s s' e r Ho Hr | s s' e r Ho Hr | | ];
    cbn in *; try done.
  - injection Hr as <-. split; cbn; [exists n, m; by eapply (shares_flags n m s) | done | | done].
    intros ->. by destruct (Hem eq_refl) as [Ho' _]; rewrite Ho in Ho'.
  - assert (b = false) as -> by (destruct b; [destruct (Hem eq_refl); congruence | done]).
    pose proof (wakeup_run n m s Hs Ho) as Hw. destruct (knocked (rt s)) eqn:Ek.
    + destruct Hw as (s1 & Hrun & Hs' & Ho' & Hk'). rewrite Hrun in Hr. injection Hr as ->. split; cbn; [by exists (S n), m | done | done | done].
    + rewrite Hw in Hr. injection Hr as <-. split; cbn; [by exists n, m | congruence | done | intros He; by rewrite (Hev He) in Ek].
  - pose proof Hs as [_ Hk _ (_ & Hk0 & _) _ _ _ _ _]. revert Hr. unfold rt_check. step by reflexivity.
    rewrite decide_False by congruence. cbn zeta. case_bool_decide; cbn [when].
    + destruct (to_stack n m s Hs Ho) as (s1 & Hrun & Hs' & Ho' & Hk'). step by (exact Hrun). intros [= _ <-].
      split; cbn; [by exists n, (S m) | intros; by rewrite Hk', Hap | done | intros; by rewrite Hk', Hap].
    + intros [= _ <-]. split; cbn; [by exists n, m | done | done | done].
  - split; cbn; [by exists n, m | done | done | intros; by apply Hap].
  - split; cbn; [by exists n, m | done | done | done].
  - destruct (Hem eq_refl) as [_ ->]. destruct (sleep_run n m s Hs Ho) as (s1 & Hrun & Hs' & Ho' & _).
    rewrite Hrun in Hr. injection Hr as ->. split; cbn; [by exists n, (S m) | congruence | done | done].
  - injection Hr as <-. split; cbn; [exists n, m; by eapply (shares_flags n m s) | done | done | done].
Qed.

(** C14. Of the events that its own stack thread queues, the application misses
    none: in every state that the core reaches when only its own stack thread
    sends events, if the stack thread runs and an event is queued, the next call
    of [wakeup_application] hands the core to the application.  This includes the
    events queued while the application is held up in [rt_check]. *)
Theorem own_event_wakes_application t t' :
  awake_ok t -> rtc (wake_step false) t t' -> on_stack (rt (wk_core t')) = true -> wk_events t' <> 0%nat ->
  exists s', wakeup_application (wk_core t') = Ok (tt, s') /\ on_stack (rt s') = false /\
    exists m, runs (cw s') !! tid = Some (Point a m).
Proof.
  intros Ht Hr Ho He. assert (awake_ok t') as [(n & m & Hs) _ _ Hev] by (induction Hr; eauto using wake_step_ok).
  pose proof (wakeup_run n m _ Hs Ho) as Hw. rewrite (Hev He) in Hw. destruct Hw as (s' & Hrun & Hs' & Ho' & _).
  exists s'. split_and!; [done | done |].
  pose proof Hs' as [_ _ _ _ (r & c & Hrr & Hco & Hc & _) _ La _ _]. rewrite Ho' in Hco. rewrite Hco in Hc.
  rewrite (live_Some _ _ _ _ _ Hrr Hc), decide_True in La by done. injection La as ->. eauto.
Qed.

(** C37. An event of another core can be missed: when the application has found its
    queues empty and another core queues an event and knocks before the
    application clears the flag on its way to sleep, the knock is gone; the core
    comes to a state where the event is queued, no core has a knock left to do,
    and [wakeup_application] leaves the application asleep. *)
Theorem other_core_event_missed n m s :
  shares tid k a n m s -> on_stack (rt s) = false ->
  exists s', rtc (wake_step true) (Wake s 0 false 0) (Wake s' 1 false 0) /\ on_stack (rt s') = true /\
    wakeup_application s' = Ok (tt, s').
Proof.
  intros Hs Ho. set (s1 := s <| rt ::= fun r => r <| knocked := true |> |>).
  assert (shares tid k a n m s1) as Hs1 by (by eapply (shares_flags n m s)).
  destruct (sleep_run n m s1 Hs1 Ho) as (s' & Hrun & Hs' & Ho' & Hk').
  pose proof (wakeup_run n (S m) s' Hs' Ho') as Hw. rewrite Hk' in Hw. exists s'. split_and!; [| done | done].
  eapply rtc_l; [by apply AppFindsNone|]. eapply rtc_l; [by apply OtherAdds|].
  eapply rtc_l; [by eapply (OtherKnocks _ _ s1)|]. apply rtc_once. by apply (AppSleeps _ s1).
Qed.
End Core.

(** * Starting a core *)

(** The first coroutine of a thread, with the thread's environment. *)
Lemma create_first tid sz junk w p0 p l :
  q_CoEnvPerThread w !! GetPid tid = None -> co_mallocs w = p0 :: p :: l ->
  exists st, length st = 127%nat /\ q_coCreate tid (Some sz) junk w =
    Ok (p, CoWorld (<[GetPid tid := Env (p0 :: st) 1]> (q_CoEnvPerThread w))
             (<[p := Co (GetPid tid) false false false (page_round sz) None]>
               (<[p0 := Co (GetPid tid) false false true (page_round junk) None]> (cos w))) (runs w) l).
Proof.
  destruct w as [envs cs rs ms]. cbn. intros He ->. exists (replicate 127 NULL). split; [done|]. unfold q_coCreate. step by reflexivity.
  cbn [q_CoEnvPerThread]. rewrite decide_True by done. unfold q_coInit_env. cbn zeta.
  step by reflexivity. step by reflexivity. step by (apply set_co_run; apply lookup_insert_eq).
  step by (apply set_co_run; apply lookup_insert_eq).
  step by (unfold env_at; cbn; rewrite lookup_insert_eq; reflexivity).
  step by reflexivity. step by reflexivity. unfold q_coCreate_env. step by reflexivity. cbn.
  rewrite !insert_insert_eq. reflexivity.
Qed.

(** A thread resumes its new coroutine [p] from its main coroutine [p0]. *)
Lemma resume_first tid w p0 p st c c0 r :
  q_CoEnvPerThread w !! GetPid tid = Some (Env (p0 :: st) 1) -> length st = 127%nat ->
  cos w !! p = Some c -> co_env c = GetPid tid -> cStart c = false -> cos w !! p0 = Some c0 -> p0 <> p -> runs w !! tid = Some r ->
  exists w' c', q_coResume tid p w = Ok (tt, w') /\ runs w' = <[tid := Point p 0]> (runs w) /\
    cos w' !! p = Some c' /\ cStart c' = true /\ co_mallocs w' = co_mallocs w /\
    exists e, q_CoEnvPerThread w' = <[GetPid tid := e]> (q_CoEnvPerThread w).
Proof.
  destruct w as [envs cs rs ms]. cbn [q_CoEnvPerThread cos runs co_mallocs].
  intros He Hl Hc Hen Hst H0 Hne Hr. unfold q_coResume. step by (by apply co_at_run). rewrite Hen.
  step by (by apply env_at_run). step by reflexivity.
  unfold start. step by (by apply co_at_run). rewrite Hst. cbn [negb when].
  step by (by apply set_co_run). step by (apply set_co_run; apply lookup_insert_eq).
  step by (apply lift_ok, (write_at_nat _ 1); cbn; lia). step by reflexivity. unfold co_swap.
  step by (apply env_at_run; cbn; apply lookup_insert_eq). unfold coctx_swap. step by (apply running_run; exact Hr).
  step by (apply set_co_run; cbn; rewrite !lookup_insert_ne by done; exact H0).
  step by (apply co_at_run; cbn; rewrite lookup_insert_ne by done; apply lookup_insert_eq).
  step by reflexivity. eexists _, _. split; [reflexivity|]. cbn. rewrite lookup_insert_ne by done. rewrite lookup_insert_eq.
  split_and!; try done. eauto.
Qed.

(** Starting a core: the stack thread creates its coroutine and resumes it, and
    the application joins from another thread; then the two share the core, both
    at their first instruction and with the stack thread running, and the flag
    that lets the application run first is set. *)
Theorem core_starts_shared tid tid2 junk junk2 p0 k q0 a l r0 s :
  GetPid tid <> GetPid tid2 -> q_CoEnvPerThread (cw s) = ∅ -> co_mallocs (cw s) = p0 :: k :: q0 :: a :: l ->
  NoDup [NULL; p0; k; q0; a] -> rt_thread (rt s) = tid -> runs (cw s) !! tid = Some r0 ->
  exists s1 s2, qstack_thread_start tid junk s = Ok (tt, s1) /\ create_app_thread tid2 junk2 s1 = Ok (tt, s2) /\
    shares tid k a 0 0 s2 /\ awake_ok tid k a (Wake s2 0 false 0) /\ on_stack (rt s2) = true /\ knocked (rt s2) = true.
Proof.
  intros Hp He Hm Hnd Ht Hr. repeat setoid_rewrite NoDup_cons in Hnd.
  repeat setoid_rewrite not_elem_of_cons in Hnd.
  destruct Hnd as ((? & ? & ? & ? & _) & (? & ? & ? & _) & (? & ? & _) & (? & _) & _).
  destruct (create_first tid (8 * 1024 * 1024) junk (cw s) p0 k (q0 :: a :: l)) as (st & Hl & Hc); [by rewrite He | done |].
  unfold qstack_thread_start.
  match type of Hc with _ = Ok (_, ?w) => set (w1 := w) in * end.
  destruct (resume_first tid w1 p0 k st (Co (GetPid tid) false false false (page_round (8 * 1024 * 1024)) None)
    (Co (GetPid tid) false false true (page_round junk) None) r0) as (w2 & c2 & Hres & Hr2 & Hc2 & Hs2 & Hm2 & e2 & He2);
    [apply lookup_insert_eq | done | apply lookup_insert_eq | done | done | cbn; by rewrite lookup_insert_ne, lookup_insert_eq | done | done |].
  eexists _. step by (apply on_cos_run; exact Hc). step by reflexivity.
  destruct (create_first tid2 0 junk2 w2 q0 a l) as (st' & _ & Hc').
  { rewrite He2. cbn. by rewrite !lookup_insert_ne, He. }
  { by rewrite Hm2. }
  eexists. split; [apply on_cos_run; exact Hres|]. unfold create_app_thread.
  match type of Hc' with _ = Ok (_, ?w) => set (w3 := w) in * end.
  step by (apply on_cos_run; exact Hc'). split; [reflexivity|].
  assert (cos w3 !! k = Some c2) as Hk3 by (cbn; by rewrite !lookup_insert_ne).
  assert (cos w3 !! a = Some (Co (GetPid tid2) false false false (page_round 0) None)) as Ha3 by apply lookup_insert_eq.
  assert (runs w3 !! tid = Some (Point k 0)) as Hr3 by (cbn; by rewrite Hr2, lookup_insert_eq).
  enough (shares tid k a 0 0 _) as Hs by (split_and!; [exact Hs | split; cbn; eauto; done | done | done]).
  pose proof (live_Some _ _ _ _ _ Hr3 Hk3) as Lk. rewrite decide_True in Lk by done.
  pose proof (live_Some _ _ _ _ _ Hr3 Ha3) as La. rewrite decide_False in La by done.
  split; [done | done | done | done | eauto 10 | exact Lk | exact La | |].
  - exists e2. change (q_CoEnvPerThread w3 !! GetPid tid = Some e2). cbn. by rewrite lookup_insert_ne, He2, lookup_insert_eq.
  - eexists _, q0, st'. split; [exact Ha3 | apply lookup_insert_eq].
Qed.

(** An application whose function returns ends the program with a wild read:
    its coroutine was created by a thread that has only its main coroutine on the
    call stack, so the coroutine to return to is read before the array. *)
Theorem application_return_faults tid k a n m s s' :
  shares tid k a n m s -> rtc core_step s s' -> on_stack (rt s') = false ->
  CoRoutineFunc_end tid (cw s') = Fault OutOfBounds.
Proof.
  intros Hs Hr Ho. destruct (core_steps tid k a n m s s' Hs Hr) as (n' & m' & Hs' & _).
  destruct Hs' as [_ _ _ _ (r & c & Hrr & Hco & Hc & _) _ _ _ (c0 & main & st & Hc0 & He)]. rewrite Ho in Hco. subst a.
  unfold CoRoutineFunc_end. step by (by apply running_run). step by (by apply set_co_run).
  step by (apply co_at_run; apply lookup_insert_eq). assert (c0 = c) as -> by congruence.
  unfold q_coYield_env. step by (apply env_at_run; exact He). done.
Qed.

(** * The sorted array of active queues *)

Lemma find_slot_run l1 l2 rest x f : Forall (fun y => y < x) l1 -> (forall y, head l2 = Some y -> x <= y) ->
  forall l0, (length l1 < f)%nat ->
  find_slot f (Z.of_nat (length l0)) (Z.of_nat (length (l0 ++ l1 ++ l2))) x (l0 ++ l1 ++ l2 ++ rest) = Ok (Z.of_nat (length (l0 ++ l1))).
Proof.
  intros H1 H2. revert f. induction H1 as [|y l1 Hy _ IH]; intros f l0 Hf; (destruct f as [|f]; [cbn in Hf; lia|]); cbn [find_slot].
  - rewrite app_nil_r. cbn [app]. destruct l2 as [|z l2]; [rewrite app_nil_r, decide_False by lia; done|].
    rewrite decide_True by (rewrite length_app; cbn; lia).
    rewrite (read_at_nat _ _ z) by (rewrite lookup_app_r, Nat.sub_diag by lia; done). cbn.
    by rewrite decide_False by (specialize (H2 z eq_refl); lia).
  - rewrite decide_True by (rewrite !length_app; cbn; lia).
    rewrite (read_at_nat _ _ y) by (rewrite lookup_app_r, Nat.sub_diag by lia; done). cbn [mbind res_bind].
    rewrite decide_True by done. specialize (IH f (l0 ++ [y]) ltac:(cbn in Hf; lia)).
    rewrite <- !app_assoc in IH. cbn [app] in IH.
    replace (Z.of_nat (length l0) + 1) with (Z.of_nat (length (l0 ++ [y]))) by (rewrite length_app; cbn; lia). done.
Qed.

Lemma move_up_run l1 m : forall y r,
  move_up (length m) (Z.of_nat (length (l1 ++ m))) (l1 ++ m ++ y :: r) = Ok (l1 ++ hd y m :: m ++ r).
Proof.
  induction m as [|u m IH] using rev_ind; intros y r; [done|]. rewrite length_app, Nat.add_1_r. cbn [move_up].
  replace (Z.of_nat (length (l1 ++ m ++ [u])) - 1) with (Z.of_nat (length (l1 ++ m))) by (rewrite !length_app; cbn; lia).
  replace (l1 ++ (m ++ [u]) ++ y :: r) with ((l1 ++ m) ++ u :: y :: r) by (by rewrite <- !app_assoc).
  rewrite (read_at_nat _ _ u) by (rewrite lookup_app_r, Nat.sub_diag by lia; done). cbn [mbind res_bind].
  rewrite write_at_nat by (rewrite !length_app; cbn; lia). cbn [mbind res_bind].
  replace (length (l1 ++ m ++ [u])) with (length (l1 ++ m) + 1)%nat by (rewrite !length_app; cbn; lia).
  rewrite insert_app_r. cbn. rewrite <- app_assoc, IH, <- app_assoc. by destruct m.
Qed.

(** A sorted list splits at the place of [x]. *)
Lemma sorted_split x l : Sorted Z.le l ->
  exists l1 l2, l = l1 ++ l2 /\ Forall (fun y => y < x) l1 /\ (forall y, head l2 = Some y -> x <= y) /\ Sorted Z.le (l1 ++ x :: l2).
Proof.
  induction 1 as [|y l Hs IH Hd]; [exists [], []; split_and!; [done | done | done | repeat constructor]|].
  destruct (decide (y < x)) as [Hy|Hy].
  - destruct IH as (l1 & l2 & -> & H1 & H2 & H3). exists (y :: l1), l2. split_and!; [done | by constructor | done |].
    cbn. constructor; [done|]. destruct l1 as [|z l1]; cbn in *; constructor; [lia | by inversion Hd].
  - exists [], (y :: l). split_and!; [done | done | intros ? [= <-]; lia | cbn]. repeat (constructor; try done). lia.
Qed.

(** [active_tq_insert] is a step of insertion sort: into an array with room,
    whose active part is sorted, it puts the new queue so that the active part
    stays sorted, with exactly the new queue added. *)
Theorem active_tq_insert_sorted l rest x :
  Sorted Z.le l -> (length l < 8)%nat -> length (l ++ rest) = 8%nat ->
  exists l' rest', active_tq_insert (Active (Z.of_nat (length l)) (l ++ rest)) x = Ok (Active (Z.of_nat (length l')) (l' ++ rest')) /\
    Sorted Z.le l' /\ l' ≡ₚ x :: l.
Proof.
  intros Hs Hl Hlen. destruct (sorted_split x l Hs) as (l1 & l2 & -> & H1 & H2 & H3).
  rewrite length_app in Hlen. destruct rest as [|y rest]; [cbn in Hlen; lia|].
  exists (l1 ++ x :: l2), rest. split_and!; [| done | by rewrite Permutation_middle].
  unfold active_tq_insert. cbn [active_tq active_tq_num]. rewrite decide_False by (unfold MAX_RUNTIME_NUM; lia).
  pose proof (find_slot_run l1 l2 (y :: rest) x (S (Z.to_nat (Z.of_nat (length (l1 ++ l2))))) H1 H2 []) as Hf.
  change (Z.of_nat (length [])) with 0 in Hf. cbn [app] in Hf. rewrite <- app_assoc, Hf by (rewrite length_app; lia). cbn [mbind res_bind].
  replace (u8 (Z.of_nat (length (l1 ++ l2)) + 1)) with (Z.of_nat (length (l1 ++ x :: l2)))
    by (unfold u8; rewrite !length_app in *; cbn; rewrite Z.mod_small; lia).
  case_decide as Hd.
  - assert (l2 = []) as -> by (rewrite length_app in Hd; apply length_zero_iff_nil; lia). cbn [app].
    rewrite write_at_nat by (rewrite length_app; cbn; lia). cbn.
    rewrite (insert_app_r_alt l1), Nat.sub_diag by lia. cbn. by rewrite <- app_assoc.
  - rewrite <- Nat2Z.inj_sub, Nat2Z.id by (rewrite length_app; lia). rewrite (length_app l1 l2) at 1.
    rewrite Nat.add_comm, Nat.add_sub, move_up_run. cbn [mbind res_bind].
    rewrite write_at_nat by (rewrite length_app; cbn; lia). cbn.
    rewrite (insert_app_r_alt l1), Nat.sub_diag by lia. cbn. by rewrite <- app_assoc.
Qed.

(** * A core *)

(** Thread 5 is the stack thread of core 1, thread 6 creates the application. *)
Definition blank_core : core_state :=
  CoreState (RtCtx false 1 false false false 0 0 0 NULL NULL 5) (CoWorld ∅ ∅ {[5 := Point 90 0]} [11; 12; 13; 14]) 0.
Definition start_core : M core_state unit := qstack_thread_start 5 0;; create_app_thread 6 0.
Definition core_after (m : M core_state unit) (s : core_state) : core_state :=
  match m s with Ok (_, s') => s' | Fault _ => s end.
Definition new_core : core_state := core_after start_core blank_core.
Definition app_core : core_state := core_after wakeup_application new_core.

Lemma new_core_shares : shares 5 12 14 0 0 new_core.
Proof. split; [done | done | done | done | by eexists _, _ | done | done | done | by eexists _, _, _]. Qed.
Lemma app_core_shares : shares 5 12 14 1 0 app_core.
Proof. split; [done | done | done | done | by eexists _, _ | done | done | done | by eexists _, _, _]. Qed.

Lemma core_starts_shared_witness : exists s1 s2, qstack_thread_start 5 0 blank_core = Ok (tt, s1) /\
  create_app_thread 6 0 s1 = Ok (tt, s2) /\ shares 5 12 14 0 0 s2 /\ awake_ok 5 12 14 (Wake s2 0 false 0) /\
  on_stack (rt s2) = true /\ knocked (rt s2) = true.
Proof.
  apply (core_starts_shared 5 6 0 0 11 12 13 14 [] (Point 90 0)); try reflexivity; [done|].
  by apply (bool_decide_unpack _); vm_compute.
Defined.

Lemma core_shared_in_turn_witness :
  rtc core_step new_core app_core /\ exists n' m', (0 <= n')%nat /\ (0 <= m')%nat /\
    runs (cw app_core) !! 5 = Some (if on_stack (rt app_core) then Point 12 n' else Point 14 m') /\
    live 5 (cw app_core) 12 = Some (Point 12 n') /\ live 5 (cw app_core) 14 = Some (Point 14 m') /\
    forall c, enabled c app_core -> exists s2, core_step app_core s2 /\ core_run c app_core = Ok (tt, s2).
Proof.
  assert (rtc core_step new_core app_core) as Hr by (apply rtc_once, (CoreStep Wakeup); done).
  split; [exact Hr|]. exact (core_shared_in_turn 5 12 14 0 0 new_core app_core new_core_shares Hr).
Defined.

Definition queued : wake := Wake (core_after wakeup_app_thread new_core) 1 false 0.
Lemma own_event_wakes_application_witness :
  rtc (wake_step false) (Wake new_core 0 false 0) queued /\
  exists s', wakeup_application (wk_core queued) = Ok (tt, s') /\ on_stack (rt s') = false /\
    exists m, runs (cw s') !! 5 = Some (Point 14 m).
Proof.
  assert (rtc (wake_step false) (Wake new_core 0 false 0) queued) as Hr by (apply rtc_once; by apply StackAdds).
  split; [exact Hr|]. apply (own_event_wakes_application 5 12 14 (Wake new_core 0 false 0) queued); [|exact Hr|done|done].
  split; [by exists 0%nat, 0%nat; apply new_core_shares | done | done | done].
Defined.

Lemma other_core_event_missed_witness :
  exists s', rtc (wake_step true) (Wake app_core 0 false 0) (Wake s' 1 false 0) /\ on_stack (rt s') = true /\
    wakeup_application s' = Ok (tt, s').
Proof. exact (other_core_event_missed 5 12 14 1 0 app_core app_core_shares eq_refl). Defined.

Lemma application_return_faults_witness : CoRoutineFunc_end 5 (cw app_core) = Fault OutOfBounds.
Proof. by apply (application_return_faults 5 12 14 1 0 app_core app_core app_core_shares). Defined.

Lemma active_tq_insert_sorted_witness : exists l' rest',
  active_tq_insert (Active 3 [1; 4; 6; 0; 0; 0; 0; 0]) 4 = Ok (Active (Z.of_nat (length l')) (l' ++ rest')) /\
  Sorted Z.le l' /\ l' ≡ₚ [4; 1; 4; 6].
Proof.
  apply (active_tq_insert_sorted [1; 4; 6] [0; 0; 0; 0; 0] 4); [repeat constructor; lia | cbn; lia | done].
Defined.
