(* ===== verification/Driver.v ===== *)
(** The driver module ([dpdk_module.c], its data in [dpdk_module.h]) and the
    packet interface on top of it ([io_module.c], compiled without the loop-back
    test mode): the queues between a stack thread and its card, the transmit and
    receive bursts, the allocation and the release of packet buffers across
    cores.

    The state of all cores is one record, [drv].  The results of the coming
    calls into DPDK (transmit and receive bursts, buffer allocations) are inputs
    of a run; what is handed to DPDK (packets for the wire, buffers to free) is
    recorded in order.  The priority filter is the function the application
    installs.  Tracing, time stamps and statistics are left out, as are the two
    queue set-ups of [dpdk_load_module] that only configure the card. *)
From S2P Require Import Prelude Protocol Fifo CircularQueue N21Queue.
#[local] Open Scope Z_scope.

Module Driver.

Definition MAX_CORE_NUM : Z := 24.
Definition MAX_PKT_BURST : nat := 256.
Definition MAX_PKT_TX_BURST : Z := 64.
Definition MAX_PKT_RX_BURST : nat := 128.
Definition MAX_TX_CHECK_BATCH : Z := 5.
Definition ETH_P_IP : Z := 2048.
Definition IPPROTO_TCP : Z := 6.
Definition PKT_TX_TCP_CKSUM : Z := Z.shiftl 1 52.
Definition PKT_TX_IP_CKSUM : Z := Z.shiftl 1 54.
Definition PKT_TX_IPV4 : Z := Z.shiftl 1 55.

(** * Data *)

(** What the driver reads and writes of the headers of a packet. *)
Record tx_hdr : Type := TxHdr {
  h_proto : Z;      (* network order *)
  ip_protocol : Z;
  ihl : Z;
  ip_check : Z;
  doff : Z;
  tcp_check : Z;
}.
#[export] Instance tx_hdr_rebuild : Rebuild tx_hdr := fun h =>
  TxHdr (h_proto h) (ip_protocol h) (ihl h) (ip_check h) (doff h) (tcp_check h).

(** The members of [struct rte_mbuf] of this module. *)
Record dbuf : Type := DBuf {
  score : Z;          (* the core that owns the buffer *)
  pool : ptr;
  refcnt : Z;
  payload_len : Z;
  tcp_seq : Z;
  udata64 : Z;
  priority : Z;
  pkt_len : Z;
  data_len : Z;
  l2_len : Z;
  l3_len : Z;
  l4_len : Z;
  ol_flags : Z;
  hdr : tx_hdr;
}.
#[export] Instance dbuf_rebuild : Rebuild dbuf := fun b =>
  DBuf (score b) (pool b) (refcnt b) (payload_len b) (tcp_seq b) (udata64 b) (priority b) (pkt_len b)
    (data_len b) (l2_len b) (l3_len b) (l4_len b) (ol_flags b) (hdr b).

(** [struct dpdk_private_context]. *)
Record dpdk_private_context : Type := Dpc {
  cpu : Z;
  tx_send_check : Z;
  rx_pktmbuf_pool : ptr;
  tx_pktmbuf_pool : ptr;
  pktmbuf_alloc_pool : ptr;
  pkts_txburst : list ptr;
  tx_num : Z;
  rx_num : Z;
  uwget_num : Z;
  uwget_fail_num : Z;
  swget_num : Z;
  swget_fail_num : Z;
  uwfree_num : Z;
  swfree_num : Z;
  rx_free_num : Z;
  rh_mbufs : circular_queue;
  rl_mbufs : circular_queue;
  th_mbufs : circular_queue;
  tl_mbufs : circular_queue;
  free_queue : n21_queue;
  nofree_queue : n21_queue;
  rxfree_queue : n21_queue;
}.
#[export] Instance dpc_rebuild : Rebuild dpdk_private_context := fun d =>
  Dpc (cpu d) (tx_send_check d) (rx_pktmbuf_pool d) (tx_pktmbuf_pool d) (pktmbuf_alloc_pool d)
    (pkts_txburst d) (tx_num d) (rx_num d) (uwget_num d) (uwget_fail_num d) (swget_num d) (swget_fail_num d)
    (uwfree_num d) (swfree_num d) (rx_free_num d) (rh_mbufs d) (rl_mbufs d) (th_mbufs d) (tl_mbufs d) (free_queue d) (nofree_queue d) (rxfree_queue d).

Record drv : Type := Drv {
  dpc_list : list dpdk_private_context;
  d_bufs : gmap ptr dbuf;
  d_txres : list nat;           (* packets the coming transmit bursts accept at most *)
  d_rxres : list (list ptr);    (* packets of the coming receive bursts *)
  d_allocs : list ptr;          (* results of the coming rte_pktmbuf_alloc calls *)
  d_wire : list (Z * ptr);      (* queue of the card and packet, oldest first *)
  d_freed : list ptr;           (* rte_pktmbuf_free calls, oldest first *)
}.
#[export] Instance drv_rebuild : Rebuild drv := fun s =>
  Drv (dpc_list s) (d_bufs s) (d_txres s) (d_rxres s) (d_allocs s) (d_wire s) (d_freed s).

(** ** Memory accesses *)
Definition dpc_at (core : Z) : M drv dpdk_private_context :=
  s ← get; lift (read_at (dpc_list s) core).
Definition set_dpc (core : Z) (f : dpdk_private_context -> dpdk_private_context) : M drv unit :=
  s ← get; d ← lift (read_at (dpc_list s) core); l ← lift (write_at (dpc_list s) core (f d));
  put (s <| dpc_list := l |>).
Definition buf (p : ptr) : M drv dbuf := fun s =>
  (fun b => (b, s)) <$> deref NullDeref (d_bufs s !! p).
Definition set_buf (p : ptr) (f : dbuf -> dbuf) : M drv unit :=
  b ← buf p; modify (fun s => s <| d_bufs ::= <[p := f b]> |>).

(** ** Calls into DPDK *)

(** [rte_eth_tx_burst] stores the first packets of the array, at most [num]. *)
Definition rte_eth_tx_burst (queue : Z) (pkts : list ptr) (num : Z) : M drv Z := fun s =>
  let r := default (Z.to_nat num) (head (d_txres s)) in
  let n := Nat.min r (Z.to_nat num) in
  Ok (Z.of_nat n, s <| d_txres := tail (d_txres s) |>
                    <| d_wire := d_wire s ++ (pair queue <$> take n pkts) |>).

(** [rte_eth_rx_burst] returns at most the number of packets asked for. *)
Definition rte_eth_rx_burst (num : nat) : M drv (list ptr) := fun s =>
  match d_rxres s with
  | [] => Ok ([], s)
  | l :: rest => Ok (take num l, s <| d_rxres := rest |>)
  end.

Definition rte_pktmbuf_alloc : M drv ptr := fun s =>
  match d_allocs s with
  | [] => Ok (NULL, s)
  | p :: l => Ok (p, s <| d_allocs := l |>)
  end.

Definition rte_pktmbuf_free (p : ptr) : M drv unit :=
  modify (fun s => s <| d_freed := d_freed s ++ [p] |>).

(** ** Initialisation *)

(** The context [dpdk_init_handle] builds for a core, given the pools of
    [dpdk_load_module]; [flows] is [MAX_FLOW_PSTACK]. *)
Definition dpdk_init_handle (num_cores flows rxp txp allocp core : Z) : dpdk_private_context :=
  Dpc core 0 rxp txp allocp (replicate MAX_PKT_BURST NULL) 0 0 0 0 0 0 0 0 0
    (cirq_init flows) (cirq_init flows) (cirq_init flows) (cirq_init flows)
    (n21q_init num_cores (Z.quot flows 20)) (n21q_init num_cores (Z.quot flows 20))
    (n21q_init num_cores (Z.quot flows 20)).

(** [rss_filter_init]: the redirection table it gives the card.  Entry [idx]
    sends its flows to a stack thread; entry [idx] is at position [idx % 64] of
    group [idx / 64], which is the order of the list.  [update] is the result
    of DPDK's update call; [TRACE_ERROR] ends the process. *)
Definition rss_filter_init (num_stacks reta_size update : Z) : res (Z * list Z) :=
  if decide (num_stacks = 0 /\ 0 < reta_size) then Fault DivByZero else
  let reta := (fun idx => u16 (Z.rem idx num_stacks)) <$> seqZ 0 reta_size in
  if decide (update <> 0) then Fault Exit else Ok (0, reta).

(** ** Transmission *)
Section Cksum.
Context (rte_ipv4_phdr_cksum : tx_hdr -> Z -> Z).

Definition tx_checksums (b : dbuf) : dbuf :=
  let h := hdr b in
  if negb (bool_decide (ntohs (h_proto h) = ETH_P_IP)) then b else
  if negb (bool_decide (ip_protocol h = IPPROTO_TCP)) then b else
  let h := h <| ip_check := 0 |> <| tcp_check := 0 |> in
  let flags := Z.lor (Z.lor PKT_TX_TCP_CKSUM PKT_TX_IP_CKSUM) PKT_TX_IPV4 in
  b <| l2_len := 14 |> <| l3_len := Z.shiftl (ihl h) 2 |> <| l4_len := Z.shiftl (doff h) 2 |>
    <| ol_flags := flags |> <| hdr := h <| tcp_check := rte_ipv4_phdr_cksum h flags |> |>.

Definition add_tx_checksum_offloading_flag (m : ptr) : M drv Z :=
  set_buf m tx_checksums;; mret 1.

(** The loop that moves the packets left to the front of the array. *)
Fixpoint shift_loop (n : nat) (i nb_tx : Z) (pkts : list ptr) : res (list ptr) :=
  match n with
  | O => Ok pkts
  | S n' =>
      x ← read_at pkts (i + nb_tx);
      pkts' ← write_at pkts i x;
      shift_loop n' (i + 1) nb_tx pkts'
  end.

(** One burst of what waits in [pkts_txburst]; [count] tells whether
    [tx_send_check] is updated. *)
Definition tx_flush (core : Z) (count : bool) : M drv Z :=
  d ← dpc_at core;
  nb_tx ← rte_eth_tx_burst (cpu d) (pkts_txburst d) (tx_num d);
  when count (set_dpc core (fun d => d <| tx_send_check := tx_send_check d + nb_tx |>));;
  set_dpc core (fun d => d <| tx_num := tx_num d - nb_tx |>);;
  d ← dpc_at core;
  pkts ← lift (if decide (tx_num d <> 0) then shift_loop (Z.to_nat (tx_num d)) 0 nb_tx (pkts_txburst d)
               else Ok (pkts_txburst d));
  set_dpc core (fun d => d <| pkts_txburst := pkts |>);;
  mret nb_tx.

(** Take one packet from a queue into the array. *)
Definition tx_fetch (core : Z) (x : ptr) : M drv unit :=
  d ← dpc_at core;
  pkts ← lift (write_at (pkts_txburst d) (tx_num d) x);
  set_dpc core (fun d => d <| pkts_txburst := pkts |>).

Definition tx_accept (core : Z) (x : ptr) : M drv unit :=
  r ← add_tx_checksum_offloading_flag x;
  when (bool_decide (r <> 1)) (throw Exit);;
  set_dpc core (fun d => d <| tx_num := tx_num d + 1 |>).

(** The [while (num > 0)] loop: returns whether the function returns, with the
    sums.  [loop_time] ends it. *)
Fixpoint tx_burst_loop (fuel : nat) (core loop_time tx_sum : Z) : M drv (bool * Z * Z) :=
  d ← dpc_at core;
  if decide (tx_num d <= 0) then mret (false, loop_time, tx_sum) else
  match fuel with
  | O => throw NoReturn
  | S fuel' =>
      nb_tx ← tx_flush core true;
      if decide (MAX_TX_CHECK_BATCH <= loop_time + 1) then mret (true, loop_time + 1, tx_sum + nb_tx)
      else tx_burst_loop fuel' core (loop_time + 1) (tx_sum + nb_tx)
  end.

Definition burst_fuel : nat := S (Z.to_nat MAX_TX_CHECK_BATCH).

(** The loop over the queue of high priority. *)
Fixpoint tx_high_loop (fuel : nat) (core loop_time tx_sum : Z) : M drv (bool * Z) :=
  d ← dpc_at core;
  if cirq_empty (th_mbufs d) then mret (false, tx_sum) else
  match fuel with
  | O => throw NoReturn
  | S fuel' =>
      '(x, q) ← lift (cirq_get (th_mbufs d));
      set_dpc core (fun d => d <| th_mbufs := q |>);;
      tx_fetch core x;;
      if decide (x = NULL) then throw Exit else
      tx_accept core x;;
      d ← dpc_at core;
      if decide (MAX_PKT_TX_BURST <= tx_num d) then
        '(stop, loop_time, tx_sum) ← tx_burst_loop burst_fuel core loop_time tx_sum;
        if (stop : bool) then mret (true, tx_sum) else tx_high_loop fuel' core loop_time tx_sum
      else tx_high_loop fuel' core loop_time tx_sum
  end.

(** The loop over the queue of low priority. *)
Fixpoint tx_low_loop (fuel : nat) (core tx_sum : Z) : M drv Z :=
  d ← dpc_at core;
  if cirq_empty (tl_mbufs d) then mret tx_sum else
  match fuel with
  | O => throw NoReturn
  | S fuel' =>
      '(x, q) ← lift (cirq_get (tl_mbufs d));
      set_dpc core (fun d => d <| tl_mbufs := q |>);;
      tx_fetch core x;;
      if decide (x = NULL) then mret tx_sum else
      tx_accept core x;;
      d ← dpc_at core;
      if decide (MAX_PKT_TX_BURST <= tx_num d) then
        nb_tx ← tx_flush core false; mret (tx_sum + nb_tx)
      else tx_low_loop fuel' core tx_sum
  end.

(** The last burst clears the cells of the packets it sent before it moves the
    others to the front. *)
Fixpoint clear_cells (n : nat) (i : Z) (pkts : list ptr) : res (list ptr) :=
  match n with
  | O => Ok pkts
  | S n' => pkts' ← write_at pkts i NULL; clear_cells n' (i + 1) pkts'
  end.

Definition tx_last (core : Z) : M drv Z :=
  d ← dpc_at core;
  nb_tx ← rte_eth_tx_burst (cpu d) (pkts_txburst d) (tx_num d);
  pkts ← lift (clear_cells (Z.to_nat nb_tx) 0 (pkts_txburst d));
  let num := tx_num d - nb_tx in
  pkts ← lift (if decide (num <> 0) then shift_loop (Z.to_nat num) 0 nb_tx pkts else Ok pkts);
  set_dpc core (fun d => d <| tx_send_check := tx_send_check d + nb_tx |>
                           <| pkts_txburst := pkts |> <| tx_num := num |>);;
  mret nb_tx.

Definition queue_fuel (q : circular_queue) : nat := Z.to_nat (cirq_count q).

Definition dpdk_check_tx_ring (core : Z) : M drv Z :=
  d ← dpc_at core;
  '(stop, tx_sum) ← tx_high_loop (queue_fuel (th_mbufs d)) core 0 0;
  if (stop : bool) then mret tx_sum else
  tx_sum ← tx_low_loop (queue_fuel (tl_mbufs d)) core tx_sum;
  d ← dpc_at core;
  if decide (tx_num d <> 0) then nb_tx ← tx_last core; mret (tx_sum + nb_tx)
  else mret tx_sum.
End Cksum.

(** One packet is put in the queue of its level.  A level that is neither 0 nor
    1 leaves the queue pointer unset. *)
Definition dpdk_tx_send (core level : Z) (m : ptr) : M drv Z :=
  b ← buf m;
  src ← dpc_at (score b);
  set_buf m (fun b => b <| priority := level |>);;
  d ← dpc_at core;
  q ← lift (if decide (level = 0) then Ok (tl_mbufs d)
            else if decide (level = 1) then Ok (th_mbufs d) else Fault WildAccess);
  full ← lift (cirq_full q);
  if (full : bool) then throw Exit else
  when (negb (bool_decide (pool b = tx_pktmbuf_pool src) || bool_decide (pool b = rx_pktmbuf_pool src)))
    (set_buf m (fun b => b <| refcnt := 2 |>));;
  '(r, q') ← lift (cirq_add q m);
  (if decide (level = 0) then set_dpc core (fun d => d <| tl_mbufs := q' |>)
   else set_dpc core (fun d => d <| th_mbufs := q' |>));;
  if decide (r <> SUCCESS) then throw Exit else mret 1.

(** ** Reception *)
Section Filter.
Context (driver_pri_filter : ptr -> Z).

Definition dpdk_soft_filter (m : ptr) : M drv Z :=
  let ret := driver_pri_filter m in
  set_buf m (fun b => b <| priority := ret |>);; mret ret.

(** The packets that other cores gave back are freed here. *)
Fixpoint rxfree_loop (fuel : nat) (core : Z) : M drv unit :=
  match fuel with
  | O => throw NoReturn
  | S fuel' =>
      d ← dpc_at core;
      '(p, q) ← lift (n21q_dequeue (rxfree_queue d));
      set_dpc core (fun d => d <| rxfree_queue := q |>);;
      if decide (p <> NULL) then rte_pktmbuf_free p;; rxfree_loop fuel' core else mret tt
  end.

(** One packet of a burst; a full queue ends the process. *)
Definition rx_one (core : Z) (m : ptr) : M drv unit :=
  level ← dpdk_soft_filter m;
  when (bool_decide (level = 0)) (
    d ← dpc_at core;
    '(r, q) ← lift (cirq_add (rl_mbufs d) m);
    set_dpc core (fun d => d <| rl_mbufs := q |>);;
    when (bool_decide (r <> SUCCESS)) (rte_pktmbuf_free m;; throw Exit));;
  when (bool_decide (level = 1)) (
    d ← dpc_at core;
    '(r, q) ← lift (cirq_add (rh_mbufs d) m);
    set_dpc core (fun d => d <| rh_mbufs := q |>);;
    when (bool_decide (r <> SUCCESS)) (rte_pktmbuf_free m;; throw Exit)).

Fixpoint rx_each (core : Z) (l : list ptr) : M drv unit :=
  match l with
  | [] => mret tt
  | m :: l' => rx_one core m;; rx_each core l'
  end.

(** [again:] -- bursts until one is empty. *)
Fixpoint rx_again (fuel : nat) (core : Z) : M drv unit :=
  match fuel with
  | O => throw NoReturn
  | S fuel' =>
      l ← rte_eth_rx_burst MAX_PKT_RX_BURST;
      rx_each core l;;
      match l with [] => mret tt | _ => rx_again fuel' core end
  end.

Definition dpdk_check_rx_ring (core : Z) : M drv Z :=
  d ← dpc_at core;
  rxfree_loop (S (length (concat (n21_contents (rxfree_queue d))))) core;;
  s ← get;
  rx_again (S (length (d_rxres s))) core;;
  d ← dpc_at core;
  mret (cirq_count (rh_mbufs d) + cirq_count (rl_mbufs d)).

Definition dpdk_check_device (rte_ipv4_phdr_cksum : tx_hdr -> Z -> Z) (core : Z) : M drv unit :=
  dpdk_check_rx_ring core;; dpdk_check_tx_ring rte_ipv4_phdr_cksum core;; mret tt.
End Filter.

(** The oldest packet of high priority when that level is asked for, or else
    of low priority; without any the process ends. *)
Definition dpdk_rx_receive_one (core level : Z) : M drv ptr :=
  d ← dpc_at core;
  tag ← (if decide (level = 1) then
           '(p, q) ← lift (cirq_get (rh_mbufs d));
           set_dpc core (fun d => d <| rh_mbufs := q |>);; mret p
         else mret NULL);
  if decide (tag <> NULL) then set_buf tag (fun b => b <| score := cpu d |>);; mret tag else
  '(p, q) ← lift (cirq_get (rl_mbufs d));
  set_dpc core (fun d => d <| rl_mbufs := q |>);;
  if decide (p <> NULL) then set_buf p (fun b => b <| score := cpu d |>);; mret p else throw Exit.

(** ** Buffers *)

(** [spin] bounds the [while (ptr == NULL)] loop of the user's allocation. *)
Fixpoint uw_loop (spin : nat) (core : Z) : M drv ptr :=
  match spin with
  | O => throw NoReturn
  | S spin' =>
      d ← dpc_at core;
      '(p, q) ← lift (n21q_dequeue (nofree_queue d));
      set_dpc core (fun d => d <| nofree_queue := q |>);;
      p ← (if decide (p = NULL) then rte_pktmbuf_alloc else mret p);
      if decide (p = NULL) then uw_loop spin' core else
      b ← buf p;
      if decide (udata64 b = 2) then uw_loop spin' core else
      set_buf p (fun b => b <| udata64 := 2 |>);;
      set_dpc core (fun d => d <| uwget_num := uwget_num d + 1 |>);;
      set_buf p (fun b => b <| score := core |> <| refcnt := 2 |>);;
      mret p
  end.

Definition dpdk_alloc_mbuf (spin : nat) (core type : Z) : M drv ptr :=
  d ← dpc_at core;
  if decide (pktmbuf_alloc_pool d = NULL) then throw Exit else
  if decide (tx_pktmbuf_pool d = NULL /\ type = 0) then throw Exit else
  if decide (type = 0) then
    '(p, q) ← lift (n21q_dequeue (free_queue d));
    set_dpc core (fun d => d <| free_queue := q |>);;
    p ← (if decide (p = NULL) then rte_pktmbuf_alloc else mret p);
    if decide (p = NULL) then mret NULL else
    set_buf p (fun b => b <| score := cpu d |> <| payload_len := 0 |> <| tcp_seq := 0 |>);;
    mret p
  else uw_loop spin core.

(** [spin] bounds the loop that retries a full queue of received buffers. *)
Fixpoint rxfree_enqueue (spin : nat) (owner source : Z) (m : ptr) : M drv unit :=
  match spin with
  | O => throw NoReturn
  | S spin' =>
      d ← dpc_at owner;
      '(r, q) ← lift (n21q_enqueue (rxfree_queue d) source m);
      set_dpc owner (fun d => d <| rxfree_queue := q |>);;
      if decide (r <> SUCCESS) then rxfree_enqueue spin' owner source m else mret tt
  end.

Definition dpdk_release_pkt (spin : nat) (core_id : Z) (m : ptr) : M drv unit :=
  free_dpc ← dpc_at core_id;
  b ← buf m;
  let targ := score b in
  dpc ← dpc_at targ;
  if decide (core_id = score b /\ pool b <> rx_pktmbuf_pool dpc) then
    set_buf m (fun b => b <| payload_len := 0 |>);;
    when (bool_decide (pool b = pktmbuf_alloc_pool free_dpc)) (
      set_buf m (fun b => b <| udata64 := 0 |> <| refcnt := 1 |>);;
      set_dpc targ (fun d => d <| uwfree_num := uwfree_num d + 1 |>));;
    rte_pktmbuf_free m
  else if decide (pool b = tx_pktmbuf_pool dpc) then
    '(r, q) ← lift (n21q_enqueue (free_queue dpc) core_id m);
    set_dpc targ (fun d => d <| free_queue := q |>);;
    when (bool_decide (r <> SUCCESS)) (throw Exit)
  else if decide (pool b = rx_pktmbuf_pool dpc) then rxfree_enqueue spin targ core_id m
  else
    set_buf m (fun b => b <| udata64 := 0 |> <| refcnt := 0 |>);;
    '(r, q) ← lift (n21q_enqueue (nofree_queue dpc) core_id m);
    set_dpc targ (fun d => d <| nofree_queue := q |>);;
    when (bool_decide (r <> SUCCESS)) (throw Exit);;
    set_dpc targ (fun d => d <| uwfree_num := uwfree_num d + 1 |>).

(** ** States and counters *)
Definition dpdk_get_rx_state (core level : Z) : M drv Z :=
  d ← dpc_at core;
  mret (if decide (level = 0) then cirq_count (rl_mbufs d) else cirq_count (rh_mbufs d)).

(** The level chooses a queue that is not the one counted. *)
Definition dpdk_get_tx_state (core level : Z) : M drv Z :=
  d ← dpc_at core; mret (cirq_count (th_mbufs d)).

Fixpoint sum_cores (f : dpdk_private_context -> Z) (wrap : Z -> Z) (n : nat) (i sum : Z) : M drv Z :=
  match n with
  | O => mret sum
  | S n' => d ← dpc_at i; sum_cores f wrap n' (i + 1) (wrap (sum + f d))
  end.

(** These two add in unsigned arithmetic over all cores, used or not. *)
Definition dpdk_total_recv_num : M drv Z := n ← sum_cores rx_num u32 (Z.to_nat MAX_CORE_NUM) 0 0; mret (s32 n).
Definition dpdk_total_free_num : M drv Z := n ← sum_cores rx_free_num u32 (Z.to_nat MAX_CORE_NUM) 0 0; mret (s32 n).
Definition dpdk_total_uwget_num (num_cores : Z) : M drv Z := sum_cores uwget_num s32 (Z.to_nat num_cores) 0 0.
Definition dpdk_total_uwget_free (num_cores : Z) : M drv Z := sum_cores uwfree_num s32 (Z.to_nat num_cores) 0 0.
Definition dpdk_total_swget_num (num_cores : Z) : M drv Z := sum_cores swget_num s32 (Z.to_nat num_cores) 0 0.
Definition dpdk_uwget_num (core : Z) : M drv Z := d ← dpc_at core; mret (uwget_num d).
Definition dpdk_uwget_fail_num (core : Z) : M drv Z := d ← dpc_at core; mret (uwget_fail_num d).
Definition dpdk_uwfree_num (core : Z) : M drv Z := d ← dpc_at core; mret (uwfree_num d).
Definition dpdk_swget_num (core : Z) : M drv Z := d ← dpc_at core; mret (swget_num d).
Definition dpdk_swget_fail_num (core : Z) : M drv Z := d ← dpc_at core; mret (swget_fail_num d).
Definition dpdk_swfree_num (core : Z) : M drv Z := d ← dpc_at core; mret (swfree_num d).
Definition dpdk_tx_num_thread_info (core : Z) : M drv Z := d ← dpc_at core; mret (tx_send_check d).
Definition dpdk_recv_num_thread_info (core : Z) : M drv Z := d ← dpc_at core; mret (rx_num d).

(** [avail] is DPDK's count of the free buffers of a pool. *)
Definition dpdk_get_mempool_state (avail : ptr -> Z) (core id : Z) : M drv Z :=
  d ← dpc_at core;
  mret (if decide (id = 0) then if decide (rx_pktmbuf_pool d = NULL) then -1 else avail (rx_pktmbuf_pool d)
        else if decide (id = 1) then if decide (pktmbuf_alloc_pool d = NULL) then -1 else avail (pktmbuf_alloc_pool d)
        else 0).

(** ** The packet interface *)
Definition io_recv_check (filter : ptr -> Z) (core ifidx : Z) : M drv Z :=
  if decide (ifidx = 0) then dpdk_check_rx_ring filter core else throw AssertFail.

(** The packet and its length. *)
Definition io_recv_mbuf (core : Z) : M drv (ptr * Z) :=
  point ← dpdk_rx_receive_one core 1;
  point ← (if decide (point = NULL) then dpdk_rx_receive_one core 0 else mret point);
  if decide (point = NULL) then throw Exit else
  b ← buf point; mret (point, u16 (pkt_len b)).

Definition io_send_check (cksum : tx_hdr -> Z -> Z) (core ifidx : Z) : M drv Z :=
  if decide (ifidx = 0) then dpdk_check_tx_ring cksum core else throw AssertFail.

(** The priority argument is overwritten with 1. *)
Definition io_send_mbuf (core : Z) (m : ptr) (len : Z) : M drv Z :=
  if decide (m = NULL) then throw Exit else
  b ← buf m;
  when (bool_decide (data_len b = 0)) (set_buf m (fun b => b <| data_len := u16 len |>));;
  when (bool_decide (pkt_len b = 0)) (set_buf m (fun b => b <| pkt_len := u32 len |>));;
  dpdk_tx_send core 1 m.

Definition io_get_uwmbuf (spin : nat) (core : Z) : M drv ptr := dpdk_alloc_mbuf spin core 1.
Definition io_get_swmbuf (core : Z) : M drv ptr := dpdk_alloc_mbuf 0 core 0.
Definition io_free_mbuf (spin : nat) (core : Z) (m : ptr) : M drv unit := dpdk_release_pkt spin core m.

Definition io_get_rx_backlog (core : Z) : M drv Z :=
  a ← dpdk_get_rx_state core 0; b ← dpdk_get_rx_state core 1; mret (a + b).

End Driver.
