(* ===== verification/DriverCorrect.v ===== *)
(** Correctness of the driver module: the transmit ring keeps the order and
    loses nothing, the receive ring sorts the packets into the queues of their
    levels, buffers go back to the core that owns them; and the ways in which a
    stalled card or an empty pool stop a core. *)
From S2P Require Import Prelude Protocol Fifo CircularQueue N21Queue Driver.
Import Driver.
#[local] Open Scope Z_scope.

(** * One core *)

(** The state with [d] as the context of core [c]. *)
Definition at_core (s : drv) (c : nat) (d : dpdk_private_context) : drv :=
  s <| dpc_list ::= <[c := d]> |>.

Lemma dpc_at_run s c d : (c < length (dpc_list s))%nat -> dpc_at (Z.of_nat c) (at_core s c d) = Ok (d, at_core s c d).
Proof.
  intros Hc. unfold dpc_at. step by done. apply lift_ok, read_at_nat. by apply list_lookup_insert_eq.
Qed.

Lemma set_dpc_run s c d f :
  (c < length (dpc_list s))%nat -> set_dpc (Z.of_nat c) f (at_core s c d) = Ok (tt, at_core s c (f d)).
Proof.
  intros Hc. unfold set_dpc. step by done.
  step by (apply lift_ok, read_at_nat; by apply list_lookup_insert_eq).
  step by (apply lift_ok, write_at_nat; simpl; by rewrite length_insert).
  unfold put, at_core. do 2 f_equal. unfold update; simpl. by rewrite list_insert_insert_eq.
Qed.

Lemma at_core_id s c d : dpc_list s !! c = Some d -> at_core s c d = s.
Proof. intros Hd. destruct s; unfold at_core, update; simpl in *. by rewrite list_insert_id. Qed.

Lemma set_buf_run s c d p f b :
  d_bufs s !! p = Some b -> set_buf p f (at_core s c d) = Ok (tt, at_core (s <| d_bufs ::= <[p := f b]> |>) c d).
Proof. intros Hb. unfold set_buf, mbind, M_bind, buf. simpl. by rewrite Hb. Qed.

(** * Transmission *)

(** The packets that wait in the array. *)
Definition pending (d : dpdk_private_context) : list ptr := take (Z.to_nat (tx_num d)) (pkts_txburst d).

Record array_ok (d : dpdk_private_context) : Prop := {
  ao_num : 0 <= tx_num d <= Z.of_nat MAX_PKT_BURST;
  ao_len : length (pkts_txburst d) = MAX_PKT_BURST;
}.

Lemma pending_length d : array_ok d -> Z.of_nat (length (pending d)) = tx_num d.
Proof. intros [Hn Hl]. unfold pending. rewrite length_take, Hl. unfold MAX_PKT_BURST in *. lia. Qed.

(** The loop that moves the rest to the front. *)
Lemma shift_loop_run n i nb pkts :
  (i + nb + n <= length pkts)%nat ->
  exists pkts', shift_loop n (Z.of_nat i) (Z.of_nat nb) pkts = Ok pkts' /\ length pkts' = length pkts /\
    forall k, pkts' !! k = if decide (i <= k < i + n)%nat then pkts !! (k + nb)%nat else pkts !! k.
Proof.
  revert i pkts. induction n as [|n IH]; intros i pkts Hlen; cbn [shift_loop].
  - exists pkts. split_and!; [done..|]. intros k. rewrite decide_False by lia. done.
  - destruct (lookup_lt_is_Some_2 pkts (i + nb)) as [x Hx]; [lia|].
    rewrite <- Nat2Z.inj_add, (read_at_nat _ _ _ Hx). simpl. rewrite write_at_nat by lia. simpl.
    replace (Z.of_nat i + 1) with (Z.of_nat (S i)) by lia.
    destruct (IH (S i) (<[i := x]> pkts)) as (p' & Hrun & Hl & Hk); [rewrite length_insert; lia|].
    exists p'. split; [done|]. rewrite Hl, length_insert. split; [done|]. intros k. rewrite Hk.
    repeat case_decide; try lia; rewrite ?list_lookup_insert_ne by lia; try done.
    + assert (k = i) as -> by lia. by rewrite list_lookup_insert_eq by lia.
Qed.

Lemma shift_take n nb (pkts pkts' : list ptr) :
  (forall k, pkts' !! k = if decide (0 <= k < n)%nat then pkts !! (k + nb)%nat else pkts !! k) ->
  take n pkts' = drop nb (take (nb + n) pkts).
Proof.
  intros Hk. apply list_eq. intros k. rewrite lookup_take, lookup_drop, lookup_take, Hk.
  repeat case_decide; try done; try lia. f_equal. lia.
Qed.

(** What transmission does between two states of a core: [inp] entered the
    array, [sent] went to the wire. *)
Record sends (s : drv) (d : dpdk_private_context) (s' : drv) (d' : dpdk_private_context)
    (inp sent : list ptr) : Prop := {
  sd_wire : d_wire s' = d_wire s ++ (pair (cpu d) <$> sent);
  sd_order : sent ++ pending d' = pending d ++ inp;
  sd_array : array_ok d';
  sd_cpu : cpu d' = cpu d;
  sd_rx : rh_mbufs d' = rh_mbufs d /\ rl_mbufs d' = rl_mbufs d;
  sd_free : free_queue d' = free_queue d /\ nofree_queue d' = nofree_queue d /\ rxfree_queue d' = rxfree_queue d;
  sd_list : dpc_list s' = dpc_list s;
  sd_bufs p : is_Some (d_bufs s !! p) -> is_Some (d_bufs s' !! p);
  sd_freed : d_freed s' = d_freed s;
}.

Lemma sends_refl s d : array_ok d -> sends s d s d [] [].
Proof. intros Ha. split; try done; by rewrite ?app_nil_r. Qed.

Lemma sends_trans s0 d0 s1 d1 s2 d2 i1 i2 t1 t2 :
  sends s0 d0 s1 d1 i1 t1 -> sends s1 d1 s2 d2 i2 t2 -> sends s0 d0 s2 d2 (i1 ++ i2) (t1 ++ t2).
Proof.
  intros [W1 O1 A1 C1 [R1 R1'] [F1 [F1' F1'']] L1 B1 D1] [W2 O2 A2 C2 [R2 R2'] [F2 [F2' F2'']] L2 B2 D2].
  split; try congruence; try (split_and!; congruence); try by auto.
  - rewrite W2, W1, C1, fmap_app, app_assoc. done.
  - rewrite <- app_assoc, O2, app_assoc, O1, app_assoc. done.
Qed.

(** One burst. *)
Lemma tx_flush_run s c d count :
  (c < length (dpc_list s))%nat -> array_ok d ->
  exists n s' d' sent, tx_flush (Z.of_nat c) count (at_core s c d) = Ok (n, at_core s' c d') /\
    n = Z.of_nat (length sent) /\ sends s d s' d' [] sent /\ tx_num d' = tx_num d - n /\
    th_mbufs d' = th_mbufs d /\ tl_mbufs d' = tl_mbufs d /\ d_txres s' = tail (d_txres s) /\
    length sent = Nat.min (default (Z.to_nat (tx_num d)) (head (d_txres s))) (Z.to_nat (tx_num d)).
Proof.
  intros Hc Ha. pose proof Ha as [Hnum Hlen].
  set (n := Nat.min (default (Z.to_nat (tx_num d)) (head (d_txres s))) (Z.to_nat (tx_num d))).
  set (s' := s <| d_txres := tail (d_txres s) |> <| d_wire := d_wire s ++ (pair (cpu d) <$> take n (pkts_txburst d)) |>).
  assert (exists pkts, (if decide (tx_num d - Z.of_nat n <> 0)
      then shift_loop (Z.to_nat (tx_num d - Z.of_nat n)) 0 (Z.of_nat n) (pkts_txburst d)
      else Ok (pkts_txburst d)) = Ok pkts /\ length pkts = length (pkts_txburst d) /\
      take (Z.to_nat (tx_num d - Z.of_nat n)) pkts = drop n (pending d)) as (pkts & Hsh & Hl & Htake).
  { destruct (decide (tx_num d - Z.of_nat n <> 0)) as [Hne|Heq].
    - destruct (shift_loop_run (Z.to_nat (tx_num d - Z.of_nat n)) 0 n (pkts_txburst d)) as (p' & Hr & Hl & Hk).
      { rewrite Hlen. unfold MAX_PKT_BURST in *. lia. }
      exists p'. split_and!; [done..|]. rewrite (shift_take _ n (pkts_txburst d)) by done.
      unfold pending. do 2 f_equal. lia.
    - exists (pkts_txburst d). split_and!; [done..|]. unfold pending.
      replace (tx_num d - Z.of_nat n) with 0 by lia. rewrite drop_ge; [done|]. rewrite length_take. lia. }
  exists (Z.of_nat n), s', (d <| tx_send_check := if count then tx_send_check d + Z.of_nat n else tx_send_check d |>
      <| tx_num := tx_num d - Z.of_nat n |> <| pkts_txburst := pkts |>), (take n (pending d)).
  assert (length (take n (pending d)) = n) as Hlt.
  { rewrite length_take. pose proof (pending_length d Ha). lia. }
  split_and!; try done; [|by rewrite Hlt|].
  - unfold tx_flush. step by (by apply dpc_at_run).
    assert (rte_eth_tx_burst (cpu d) (pkts_txburst d) (tx_num d) (at_core s c d) = Ok (Z.of_nat n, at_core s' c d))
      as Hb by reflexivity.
    step by (exact Hb). destruct count; cbn [when].
    + step by (by apply set_dpc_run). step by (by apply set_dpc_run). step by (by apply dpc_at_run). simpl.
      step by (apply lift_ok; exact Hsh). step by (by apply set_dpc_run). done.
    + step by done. step by (by apply set_dpc_run). step by (by apply dpc_at_run). simpl.
      step by (apply lift_ok; exact Hsh). step by (by apply set_dpc_run). destruct d; done.
  - split; try done; simpl.
    + unfold s'. simpl. unfold pending. rewrite take_take. do 3 f_equal. lia.
    + rewrite app_nil_r. unfold pending at 2; simpl. rewrite Htake. apply take_drop.
    + split; simpl; [lia | congruence].
Qed.

(** The bursts of a full array: they end with an empty array, or the function
    returns after [MAX_TX_CHECK_BATCH] bursts. *)
Lemma tx_burst_loop_run fuel s c d lt sum :
  (c < length (dpc_list s))%nat -> array_ok d -> 0 <= lt < MAX_TX_CHECK_BATCH ->
  MAX_TX_CHECK_BATCH - lt <= Z.of_nat fuel ->
  exists stop lt' s' d' sent,
    tx_burst_loop fuel (Z.of_nat c) lt sum (at_core s c d) =
      Ok ((stop, lt', sum + Z.of_nat (length sent)), at_core s' c d') /\
    sends s d s' d' [] sent /\ th_mbufs d' = th_mbufs d /\ tl_mbufs d' = tl_mbufs d /\
    tx_num d' <= tx_num d /\ (stop = false -> tx_num d' = 0 /\ 0 <= lt' < MAX_TX_CHECK_BATCH).
Proof.
  revert s d lt sum. induction fuel as [|fuel IH]; intros s d lt sum Hc Ha Hlt Hf; [lia|].
  cbn [tx_burst_loop]. pose proof (ao_num _ Ha) as Hn.
  destruct (decide (tx_num d <= 0)) as [Hz|Hz].
  { exists false, lt, s, d, []. split_and!; try done; [|by apply sends_refl | intros _; lia].
    step by (by apply dpc_at_run). rewrite decide_True by done. by rewrite Z.add_0_r. }
  destruct (tx_flush_run s c d true Hc Ha) as (n & s1 & d1 & t1 & Hrun & -> & Hs1 & Hn1 & Hth1 & Htl1 & _).
  assert (c < length (dpc_list s1))%nat as Hc1 by (by rewrite (sd_list _ _ _ _ _ _ Hs1)).
  destruct (decide (MAX_TX_CHECK_BATCH <= lt + 1)) as [Hend|Hgo].
  - exists true, (lt + 1), s1, d1, t1. split_and!; try done; [|lia].
    step by (by apply dpc_at_run). rewrite decide_False by done. by step by (exact Hrun).
  - destruct (IH s1 d1 (lt + 1) (sum + Z.of_nat (length t1)) Hc1 (sd_array _ _ _ _ _ _ Hs1)) as
      (stop & lt' & s2 & d2 & t2 & Hrun2 & Hs2 & Hth2 & Htl2 & Hn2 & Hstop); [lia..|].
    exists stop, lt', s2, d2, (t1 ++ t2). split_and!; try congruence; try lia.
    + step by (by apply dpc_at_run). rewrite decide_False by done. step by (exact Hrun).
      rewrite Hrun2, length_app. do 3 f_equal. lia.
    + exact (sends_trans _ _ _ _ _ _ _ _ _ _ Hs1 Hs2).
    + done.
Qed.

(** What the queues of the stack hold: packets, each with its buffer. *)
Record queue_ok (s : drv) (q : circular_queue) : Prop := {
  qk_wf : heap_wf q;
  qk_bufs x : x ∈ cirq_contents q -> x <> NULL /\ is_Some (d_bufs s !! x);
}.

Lemma queue_ok_mono s s' q :
  (forall p, is_Some (d_bufs s !! p) -> is_Some (d_bufs s' !! p)) -> queue_ok s q -> queue_ok s' q.
Proof. intros Hm [Hw Hb]. split; [done|]. intros x (? & ?)%Hb. auto. Qed.

Section Tx.
Context (cksum : tx_hdr -> Z -> Z).

(** One packet enters the array. *)
Definition entered (d : dpdk_private_context) (x : ptr) : dpdk_private_context :=
  d <| pkts_txburst ::= <[Z.to_nat (tx_num d) := x]> |> <| tx_num := tx_num d + 1 |>.

Lemma tx_enter_run s c d x b :
  (c < length (dpc_list s))%nat -> array_ok d -> tx_num d < Z.of_nat MAX_PKT_BURST -> d_bufs s !! x = Some b ->
  let s' := s <| d_bufs ::= <[x := tx_checksums cksum b]> |> in
  tx_fetch (Z.of_nat c) x (at_core s c d) =
    Ok (tt, at_core s c (d <| pkts_txburst ::= <[Z.to_nat (tx_num d) := x]> |>)) /\
  tx_accept cksum (Z.of_nat c) x (at_core s c (d <| pkts_txburst ::= <[Z.to_nat (tx_num d) := x]> |>)) =
    Ok (tt, at_core s' c (entered d x)) /\
  sends s d s' (entered d x) [x] [].
Proof.
  intros Hc Ha Hlt Hb s'. pose proof Ha as [Hn Hl]. split_and!.
  - unfold tx_fetch. step by (by apply dpc_at_run).
    assert (write_at (pkts_txburst d) (tx_num d) x = Ok (<[Z.to_nat (tx_num d) := x]> (pkts_txburst d))) as Hw.
    { unfold write_at. rewrite decide_True by (rewrite Hl; lia). done. }
    step by (apply lift_ok; exact Hw). rewrite set_dpc_run by done. done.
  - unfold tx_accept, add_tx_checksum_offloading_flag. step by (by apply set_buf_run). step by done. step by done.
    rewrite set_dpc_run by done. done.
  - split; try done; simpl.
    + by rewrite app_nil_r.
    + unfold pending, entered; simpl. replace (Z.to_nat (tx_num d + 1)) with (S (Z.to_nat (tx_num d))) by lia.
      rewrite (take_S_r _ _ x) by (apply list_lookup_insert_eq; rewrite Hl; lia).
      by rewrite take_insert_ge by lia.
    + split; simpl; [lia | by rewrite length_insert].
    + intros p Hp. destruct (decide (p = x)) as [-> | Hne]; [rewrite lookup_insert_eq; eauto|].
      by rewrite lookup_insert_ne.
Qed.

(** The first packet of a queue enters the array; [upd] stores the queue. *)
Lemma tx_dequeue_run s c d x l (sel : dpdk_private_context -> circular_queue)
    (upd : circular_queue -> dpdk_private_context -> dpdk_private_context) :
  (c < length (dpc_list s))%nat -> array_ok d -> tx_num d < Z.of_nat MAX_PKT_BURST ->
  queue_ok s (sel d) -> cirq_contents (sel d) = x :: l ->
  (forall q, tx_num (upd q d) = tx_num d /\ pkts_txburst (upd q d) = pkts_txburst d /\
     cpu (upd q d) = cpu d /\ rh_mbufs (upd q d) = rh_mbufs d /\ rl_mbufs (upd q d) = rl_mbufs d /\
     free_queue (upd q d) = free_queue d /\ nofree_queue (upd q d) = nofree_queue d /\
     rxfree_queue (upd q d) = rxfree_queue d) ->
  exists q' s',
    let d' := entered (upd q' d) x in
    cirq_empty (sel d) = false /\ x <> NULL /\
    (forall A (n k : M drv A),
      ('(x, q) ← lift (cirq_get (sel d)); set_dpc (Z.of_nat c) (upd q);; tx_fetch (Z.of_nat c) x;;
       if decide (x = NULL) then n else tx_accept cksum (Z.of_nat c) x;; k) (at_core s c d) =
      k (at_core s' c d')) /\
    sends s d s' d' [x] [] /\ tx_num d' = tx_num d + 1 /\
    heap_wf q' /\ cirq_contents q' = l /\ queue_ok s' q' /\ d_txres s' = d_txres s.
Proof.
  intros Hc Ha Hlt [Hw Hbufs] Ec Hupd.
  pose proof (cirq_empty_spec (sel d) (proj1 Hw)) as He. rewrite Ec, bool_decide_eq_false_2 in He by done.
  destruct (fifo_deq_head _ x l Hw Ec) as (q' & Hget & Hw' & Hc' & _). rewrite Ec in Hbufs.
  destruct (Hbufs x ltac:(set_solver)) as [Hx [b Hb]].
  destruct (Hupd q') as (U1 & U2 & U3 & U4 & U5 & U6 & U7 & U8).
  assert (array_ok (upd q' d)) as Ha1 by (destruct Ha; split; congruence).
  destruct (tx_enter_run s c (upd q' d) x b Hc Ha1 ltac:(lia) Hb) as (Hfetch & Hacc & Hs1).
  exists q', (s <| d_bufs ::= <[x := tx_checksums cksum b]> |>). cbn zeta. split_and!; try done.
  - intros A n k. step by (by apply lift_ok). step by (by apply set_dpc_run).
    step by (exact Hfetch). rewrite decide_False by done. by step by (exact Hacc).
  - destruct Hs1 as [W O A C [R1 R2] (F1 & F2 & F3) L B D]. unfold pending in *.
    rewrite ?U1, ?U2, ?U3 in *. split; try done; try (split_and!; congruence).
  - simpl. by rewrite U1.
  - split; [done|]. rewrite Hc'. intros y Hy. destruct (Hbufs y ltac:(set_solver)) as [? Hy'].
    split; [done|]. by apply (sd_bufs _ _ _ _ _ _ Hs1).
Qed.

(** The loop over the high queue. *)
Lemma tx_high_run fuel s c d lt sum :
  (c < length (dpc_list s))%nat -> array_ok d -> tx_num d < Z.of_nat MAX_PKT_BURST ->
  queue_ok s (th_mbufs d) -> (length (cirq_contents (th_mbufs d)) <= fuel)%nat ->
  0 <= lt < MAX_TX_CHECK_BATCH ->
  exists stop s' d' inp sent,
    tx_high_loop cksum fuel (Z.of_nat c) lt sum (at_core s c d) =
      Ok ((stop, sum + Z.of_nat (length sent)), at_core s' c d') /\
    sends s d s' d' inp sent /\ cirq_contents (th_mbufs d) = inp ++ cirq_contents (th_mbufs d') /\
    heap_wf (th_mbufs d') /\ tl_mbufs d' = tl_mbufs d /\
    (stop = false -> cirq_contents (th_mbufs d') = []) /\
    tx_num d' <= Z.max MAX_PKT_TX_BURST (tx_num d + 1) /\
    (stop = false -> tx_num d' <= Z.max (MAX_PKT_TX_BURST - 1) (tx_num d)).
Proof.
  revert s d lt sum. induction fuel as [|fuel IH]; intros s d lt sum Hc Ha Hlt Hq Hf Hlt5; cbn [tx_high_loop];
    destruct (cirq_contents (th_mbufs d)) as [|x l] eqn:Ec; try (simpl in Hf; lia);
    try (exists false, s, d, [], []; rewrite Ec; split_and!; try done; try lia;
      [step by (by apply dpc_at_run); rewrite cirq_empty_spec, Ec by apply Hq; by rewrite Z.add_0_r
      | by apply sends_refl | apply Hq]).
  destruct (tx_dequeue_run s c d x l th_mbufs (fun q d => d <| th_mbufs := q |>) Hc Ha Hlt Hq Ec)
    as (q' & s1 & He & Hx & Hstep & Hs & Hn2 & Hw' & Hc' & Hq1 & Hr1); [done|].
  set (d2 := entered (d <| th_mbufs := q' |>) x) in *.
  assert (c < length (dpc_list s1))%nat as Hc1 by (by rewrite (sd_list _ _ _ _ _ _ Hs)).
  step by (by apply dpc_at_run). rewrite He. cbn beta in Hstep. rewrite Hstep. step by (by apply dpc_at_run).
  destruct (decide (MAX_PKT_TX_BURST <= tx_num d2)) as [Hfull|Hroom].
  - destruct (tx_burst_loop_run burst_fuel s1 c d2 lt sum Hc1 (sd_array _ _ _ _ _ _ Hs) Hlt5)
      as (stop & lt' & s3 & d3 & t3 & Hrun3 & Hs3 & Hth3 & Htl3 & Hn3 & Hstop3).
    { unfold burst_fuel, MAX_TX_CHECK_BATCH in *. lia. }
    step by (exact Hrun3). pose proof (sends_trans _ _ _ _ _ _ _ _ _ _ Hs Hs3) as Hs03. simpl in Hs03.
    destruct stop.
    + exists true, s3, d3, [x], t3. rewrite Hth3. split_and!; try done; [simpl; by rewrite Hc' | lia].
    + destruct (Hstop3 eq_refl) as [Hz3 Hlt3].
      destruct (IH s3 d3 lt' (sum + Z.of_nat (length t3))) as
        (stop & s4 & d4 & inp & t4 & Hrun4 & Hs4 & Hin4 & Hw4 & Htl4 & He4 & Hn4 & Hm4).
      { by rewrite (sd_list _ _ _ _ _ _ Hs3). } { apply Hs3. } { rewrite Hz3. done. }
      { rewrite Hth3. eapply queue_ok_mono; [apply Hs3 | done]. }
      { rewrite Hth3. simpl. rewrite Hc'. simpl in Hf. lia. } { done. }
      rewrite Hth3 in Hin4. simpl in Hin4. rewrite Hc' in Hin4.
      exists stop, s4, d4, (x :: inp), (t3 ++ t4). split_and!; try done.
      * rewrite Hrun4, length_app. do 3 f_equal. lia.
      * exact (sends_trans _ _ _ _ _ _ _ _ _ _ Hs03 Hs4).
      * simpl. by rewrite Hin4.
      * rewrite Htl4, Htl3. done.
      * unfold MAX_PKT_TX_BURST in *. lia.
      * intros E. specialize (Hm4 E). unfold MAX_PKT_TX_BURST in *. lia.
  - destruct (IH s1 d2 lt sum) as (stop & s4 & d4 & inp & t4 & Hrun4 & Hs4 & Hin4 & Hw4 & Htl4 & He4 & Hn4 & Hm4);
      [done | apply Hs | unfold MAX_PKT_TX_BURST, MAX_PKT_BURST in *; lia | done | simpl; rewrite Hc'; simpl in Hf; lia | done|].
    simpl in Hin4. rewrite Hc' in Hin4.
    exists stop, s4, d4, (x :: inp), t4. split_and!; try done.
    + exact (sends_trans _ _ _ _ _ _ _ _ _ _ Hs Hs4).
    + simpl. by rewrite Hin4.
    + unfold MAX_PKT_TX_BURST in *. lia.
    + intros E. specialize (Hm4 E). unfold MAX_PKT_TX_BURST in *. lia.
Qed.
(** The loop over the low queue. *)
Lemma tx_low_run fuel s c d sum :
  (c < length (dpc_list s))%nat -> array_ok d -> tx_num d < Z.of_nat MAX_PKT_BURST ->
  queue_ok s (tl_mbufs d) -> (length (cirq_contents (tl_mbufs d)) <= fuel)%nat ->
  exists s' d' inp sent,
    tx_low_loop cksum fuel (Z.of_nat c) sum (at_core s c d) =
      Ok (sum + Z.of_nat (length sent), at_core s' c d') /\
    sends s d s' d' inp sent /\ cirq_contents (tl_mbufs d) = inp ++ cirq_contents (tl_mbufs d') /\
    heap_wf (tl_mbufs d') /\ th_mbufs d' = th_mbufs d /\
    tx_num d' <= Z.max MAX_PKT_TX_BURST (tx_num d + 1).
Proof.
  revert s d sum. induction fuel as [|fuel IH]; intros s d sum Hc Ha Hlt Hq Hf; cbn [tx_low_loop];
    destruct (cirq_contents (tl_mbufs d)) as [|x l] eqn:Ec; try (simpl in Hf; lia);
    try (exists s, d, [], []; rewrite Ec; split_and!; try done; try lia;
      [step by (by apply dpc_at_run); rewrite cirq_empty_spec, Ec by apply Hq; by rewrite Z.add_0_r
      | by apply sends_refl | apply Hq]).
  destruct (tx_dequeue_run s c d x l tl_mbufs (fun q d => d <| tl_mbufs := q |>) Hc Ha Hlt Hq Ec)
    as (q' & s1 & He & Hx & Hstep & Hs & Hn2 & Hw' & Hc' & Hq1 & Hr1); [done|].
  set (d2 := entered (d <| tl_mbufs := q' |>) x) in *.
  assert (c < length (dpc_list s1))%nat as Hc1 by (by rewrite (sd_list _ _ _ _ _ _ Hs)).
  step by (by apply dpc_at_run). rewrite He. cbn beta in Hstep. rewrite Hstep. step by (by apply dpc_at_run).
  destruct (decide (MAX_PKT_TX_BURST <= tx_num d2)) as [Hfull|Hroom].
  - destruct (tx_flush_run s1 c d2 false Hc1 (sd_array _ _ _ _ _ _ Hs))
      as (n & s3 & d3 & t3 & Hrun3 & -> & Hs3 & Hn3 & Hth3 & Htl3 & _).
    step by (exact Hrun3). exists s3, d3, [x], t3.
    split_and!; [done | exact (sends_trans _ _ _ _ _ _ _ _ _ _ Hs Hs3) | rewrite Htl3; simpl; by rewrite Hc'
      | by rewrite Htl3 | by rewrite Hth3 | lia].
  - destruct (IH s1 d2 sum) as (s4 & d4 & inp & t4 & Hrun4 & Hs4 & Hin4 & Hw4 & Hth4 & Hn4);
      [done | apply Hs | unfold MAX_PKT_TX_BURST, MAX_PKT_BURST in *; lia | done | simpl; rewrite Hc'; simpl in Hf; lia|].
    simpl in Hin4. rewrite Hc' in Hin4. exists s4, d4, (x :: inp), t4. split_and!; try done.
    + exact (sends_trans _ _ _ _ _ _ _ _ _ _ Hs Hs4).
    + simpl. by rewrite Hin4.
    + unfold MAX_PKT_TX_BURST in *. lia.
Qed.

Lemma clear_cells_run n i pkts :
  (i + n <= length pkts)%nat ->
  exists pkts', clear_cells n (Z.of_nat i) pkts = Ok pkts' /\ length pkts' = length pkts /\
    forall k, (i + n <= k)%nat -> pkts' !! k = pkts !! k.
Proof.
  revert i pkts. induction n as [|n IH]; intros i pkts Hl; cbn [clear_cells]; [eauto|].
  rewrite write_at_nat by lia. simpl. replace (Z.of_nat i + 1) with (Z.of_nat (S i)) by lia.
  destruct (IH (S i) (<[i := NULL]> pkts)) as (p' & Hrun & Hlen & Hk); [rewrite length_insert; lia|].
  exists p'. rewrite length_insert in Hlen. split_and!; [done..|]. intros k Hk'. rewrite Hk by lia.
  by rewrite list_lookup_insert_ne by lia.
Qed.

(** The last burst. *)
Lemma tx_last_run s c d :
  (c < length (dpc_list s))%nat -> array_ok d ->
  exists s' d' sent, tx_last (Z.of_nat c) (at_core s c d) = Ok (Z.of_nat (length sent), at_core s' c d') /\
    sends s d s' d' [] sent /\ th_mbufs d' = th_mbufs d /\ tl_mbufs d' = tl_mbufs d /\ tx_num d' <= tx_num d.
Proof.
  intros Hc Ha. pose proof Ha as [Hnum Hlen].
  set (n := Nat.min (default (Z.to_nat (tx_num d)) (head (d_txres s))) (Z.to_nat (tx_num d))).
  set (s' := s <| d_txres := tail (d_txres s) |> <| d_wire := d_wire s ++ (pair (cpu d) <$> take n (pkts_txburst d)) |>).
  assert (length (take n (pending d)) = n) as Hlt.
  { rewrite length_take. pose proof (pending_length d Ha). lia. }
  destruct (clear_cells_run n 0 (pkts_txburst d)) as (p1 & Hcl & Hl1 & Hk1).
  { rewrite Hlen. unfold MAX_PKT_BURST in *. lia. }
  assert (exists p2, (if decide (tx_num d - Z.of_nat n <> 0)
      then shift_loop (Z.to_nat (tx_num d - Z.of_nat n)) 0 (Z.of_nat n) p1 else Ok p1) = Ok p2 /\
      length p2 = length p1 /\ take (Z.to_nat (tx_num d - Z.of_nat n)) p2 = drop n (pending d)) as (p2 & Hsh & Hl2 & Htake).
  { destruct (decide (tx_num d - Z.of_nat n <> 0)) as [Hne|Heq].
    - destruct (shift_loop_run (Z.to_nat (tx_num d - Z.of_nat n)) 0 n p1) as (p2 & Hr & Hl & Hk).
      { rewrite Hl1, Hlen. unfold MAX_PKT_BURST in *. lia. }
      exists p2. split_and!; [done..|]. rewrite (shift_take _ n p1) by done. unfold pending.
      apply list_eq. intros k. rewrite !lookup_drop, !lookup_take.
      repeat case_decide; try lia; [|done]. apply Hk1. lia.
    - exists p1. split_and!; [done..|]. replace (tx_num d - Z.of_nat n) with 0 by lia.
      unfold pending. rewrite drop_ge; [done|]. rewrite length_take. lia. }
  exists s', (d <| tx_send_check := tx_send_check d + Z.of_nat n |> <| pkts_txburst := p2 |>
                <| tx_num := tx_num d - Z.of_nat n |>), (take n (pending d)).
  split_and!; try done; [| |simpl; lia].
  - unfold tx_last. step by (by apply dpc_at_run).
    assert (rte_eth_tx_burst (cpu d) (pkts_txburst d) (tx_num d) (at_core s c d) = Ok (Z.of_nat n, at_core s' c d))
      as Hb by reflexivity.
    step by (exact Hb). rewrite Nat2Z.id. step by (apply lift_ok; exact Hcl). step by (apply lift_ok; exact Hsh).
    step by (by apply set_dpc_run). by rewrite Hlt.
  - split; try done; simpl.
    + unfold s'. simpl. unfold pending. rewrite take_take. do 3 f_equal. lia.
    + rewrite app_nil_r. unfold pending at 2; simpl. rewrite Htake. apply take_drop.
    + split; simpl; [lia | congruence].
Qed.

Lemma queue_fuel_enough q : heap_wf q -> (length (cirq_contents q) <= queue_fuel q)%nat.
Proof. intros [Hw _]. unfold queue_fuel. pose proof (cirq_length q Hw). lia. Qed.

(** C11. The transmit ring keeps the order of the packets and loses none.  A call
    of [dpdk_check_tx_ring] returns, whatever the card accepts, unless the array of
    256 packets is full already.  The packets that left (in the array first,
    then from the high queue, then from the low queue) are on the wire or wait in
    the array, in this order and once; a low packet leaves only when no high one
    is left; the result counts the packets sent; and the array grows by at most
    one packet beyond a full burst. *)
Theorem tx_ring_in_order s c d :
  dpc_list s !! c = Some d -> array_ok d -> tx_num d < Z.of_nat MAX_PKT_BURST ->
  queue_ok s (th_mbufs d) -> queue_ok s (tl_mbufs d) ->
  exists n s' d' high low sent,
    dpdk_check_tx_ring cksum (Z.of_nat c) s = Ok (n, s') /\ dpc_list s' = <[c := d']> (dpc_list s) /\
    n = Z.of_nat (length sent) /\ d_wire s' = d_wire s ++ (pair (cpu d) <$> sent) /\
    sent ++ pending d' = pending d ++ high ++ low /\
    cirq_contents (th_mbufs d) = high ++ cirq_contents (th_mbufs d') /\
    cirq_contents (tl_mbufs d) = low ++ cirq_contents (tl_mbufs d') /\
    (low <> [] -> cirq_contents (th_mbufs d') = []) /\
    array_ok d' /\ tx_num d' <= Z.max MAX_PKT_TX_BURST (tx_num d + 1).
Proof.
  intros Hd Ha Hlt Hh Hl. pose proof (lookup_lt_Some _ _ _ Hd) as Hc.
  replace (dpdk_check_tx_ring cksum (Z.of_nat c) s) with (dpdk_check_tx_ring cksum (Z.of_nat c) (at_core s c d))
    by (by rewrite at_core_id).
  unfold dpdk_check_tx_ring. step by (by apply dpc_at_run).
  destruct (tx_high_run (queue_fuel (th_mbufs d)) s c d 0 0 Hc Ha Hlt Hh) as
    (stop & s1 & d1 & high & t1 & Hrun1 & Hs1 & Hin1 & Hw1 & Htl1 & He1 & Hn1 & Hm1);
    [apply queue_fuel_enough, Hh | done|].
  step by (exact Hrun1). destruct stop.
  { exists (Z.of_nat (length t1)), (at_core s1 c d1), d1, high, [], t1. rewrite app_nil_r, Htl1.
    split_and!; try done; [by simpl; rewrite (sd_list _ _ _ _ _ _ Hs1) | apply Hs1..]. }
  assert (c < length (dpc_list s1))%nat as Hc1 by (by rewrite (sd_list _ _ _ _ _ _ Hs1)).
  destruct (tx_low_run (queue_fuel (tl_mbufs d)) s1 c d1 (Z.of_nat (length t1)) Hc1 (sd_array _ _ _ _ _ _ Hs1)) as
    (s2 & d2 & low & t2 & Hrun2 & Hs2 & Hin2 & Hw2 & Hth2 & Hn2).
  { specialize (Hm1 eq_refl). unfold MAX_PKT_TX_BURST, MAX_PKT_BURST in *. lia. }
  { rewrite Htl1. eapply queue_ok_mono; [apply Hs1 | done]. }
  { rewrite Htl1. apply queue_fuel_enough, Hl. }
  step by (exact Hrun2). assert (c < length (dpc_list s2))%nat as Hc2 by (by rewrite (sd_list _ _ _ _ _ _ Hs2)).
  step by (by apply dpc_at_run). pose proof (sends_trans _ _ _ _ _ _ _ _ _ _ Hs1 Hs2) as Hs02.
  specialize (Hm1 eq_refl). rewrite Htl1 in Hin2. rewrite <- Hth2 in Hin1.
  destruct (decide (tx_num d2 <> 0)).
  - destruct (tx_last_run s2 c d2 Hc2 (sd_array _ _ _ _ _ _ Hs2)) as (s3 & d3 & t3 & Hrun3 & Hs3 & Hth3 & Htl3 & Hn3).
    step by (exact Hrun3). pose proof (sends_trans _ _ _ _ _ _ _ _ _ _ Hs02 Hs3) as Hs03. rewrite app_nil_r in Hs03.
    exists (Z.of_nat (length t1) + Z.of_nat (length t2) + Z.of_nat (length t3)), (at_core s3 c d3), d3, high, low, ((t1 ++ t2) ++ t3).
    rewrite Hth3, Htl3. split_and!; try done; try apply Hs03;
      first [by simpl; rewrite (sd_list _ _ _ _ _ _ Hs03) | rewrite !length_app; lia
            | intros _; rewrite Hth2; by apply He1 | unfold MAX_PKT_TX_BURST in *; lia].
  - exists (Z.of_nat (length t1) + Z.of_nat (length t2)), (at_core s2 c d2), d2, high, low, (t1 ++ t2).
    split_and!; try done; try apply Hs02;
      first [by simpl; rewrite (sd_list _ _ _ _ _ _ Hs02) | rewrite !length_app; lia
            | intros _; rewrite Hth2; by apply He1 | unfold MAX_PKT_TX_BURST in *; lia].
Qed.
(** ** A card that accepts nothing *)

Lemma burst_stalled k fuel s c d lt sum rest :
  (c < length (dpc_list s))%nat -> array_ok d -> 0 < tx_num d -> (k <= fuel)%nat -> (0 < k)%nat ->
  lt + Z.of_nat k = MAX_TX_CHECK_BATCH -> d_txres s = replicate k 0%nat ++ rest ->
  exists s' d',
    tx_burst_loop fuel (Z.of_nat c) lt sum (at_core s c d) = Ok ((true, MAX_TX_CHECK_BATCH, sum), at_core s' c d') /\
    sends s d s' d' [] [] /\ th_mbufs d' = th_mbufs d /\ tx_num d' = tx_num d /\ d_txres s' = rest.
Proof.
  revert fuel s d lt sum. induction k as [|k IH]; intros fuel s d lt sum Hc Ha Hn Hf Hk Hlt Hr; [lia|].
  destruct fuel as [|fuel]; [lia|]. cbn [tx_burst_loop].
  destruct (tx_flush_run s c d true Hc Ha) as (n & s1 & d1 & t1 & Hrun & -> & Hs1 & Hn1 & Hth1 & Htl1 & Hr1 & Hlen).
  rewrite Hr in Hlen, Hr1. simpl in Hlen, Hr1. apply nil_length_inv in Hlen as ->. simpl in *.
  assert (c < length (dpc_list s1))%nat as Hc1 by (by rewrite (sd_list _ _ _ _ _ _ Hs1)).
  step by (by apply dpc_at_run). rewrite decide_False by lia. step by (exact Hrun). rewrite Z.add_0_r.
  destruct k as [|k].
  - rewrite decide_True by lia. exists s1, d1. split_and!; try done; [|lia]. by replace (lt + 1) with MAX_TX_CHECK_BATCH by lia.
  - rewrite decide_False by lia.
    destruct (IH fuel s1 d1 (lt + 1) sum Hc1 (sd_array _ _ _ _ _ _ Hs1)) as (s2 & d2 & Hrun2 & Hs2 & Hth2 & Hn2 & Hr2);
      [lia..|by rewrite Hr1|].
    exists s2, d2. split_and!; try congruence; [|lia]. exact (sends_trans _ _ _ _ _ _ _ _ _ _ Hs1 Hs2).
Qed.

(** One call then takes a packet from the high queue into the array. *)
Lemma tx_stalled_call s c d x l rest :
  dpc_list s !! c = Some d -> array_ok d -> MAX_PKT_TX_BURST - 1 <= tx_num d < Z.of_nat MAX_PKT_BURST ->
  queue_ok s (th_mbufs d) -> cirq_contents (th_mbufs d) = x :: l ->
  d_txres s = replicate (Z.to_nat MAX_TX_CHECK_BATCH) 0%nat ++ rest ->
  exists s' d', dpdk_check_tx_ring cksum (Z.of_nat c) s = Ok (0, s') /\ dpc_list s' !! c = Some d' /\
    array_ok d' /\ tx_num d' = tx_num d + 1 /\ queue_ok s' (th_mbufs d') /\ cirq_contents (th_mbufs d') = l /\
    d_txres s' = rest.
Proof.
  intros Hd Ha [Hlo Hlt] Hh Ec Hr. pose proof (lookup_lt_Some _ _ _ Hd) as Hc.
  replace (dpdk_check_tx_ring cksum (Z.of_nat c) s) with (dpdk_check_tx_ring cksum (Z.of_nat c) (at_core s c d))
    by (by rewrite at_core_id).
  unfold dpdk_check_tx_ring. step by (by apply dpc_at_run).
  pose proof (queue_fuel_enough _ (qk_wf _ _ Hh)) as Hfuel. rewrite Ec in Hfuel.
  destruct (queue_fuel (th_mbufs d)) as [|fuel]; [simpl in Hfuel; lia|].
  destruct (tx_dequeue_run s c d x l th_mbufs (fun q d => d <| th_mbufs := q |>) Hc Ha Hlt Hh Ec)
    as (q' & s1 & He & Hx & Hstep & Hs & Hn2 & Hw' & Hc' & Hq1 & Hr1); [done|].
  set (d2 := entered (d <| th_mbufs := q' |>) x) in *.
  assert (c < length (dpc_list s1))%nat as Hc1 by (by rewrite (sd_list _ _ _ _ _ _ Hs)).
  destruct (burst_stalled (Z.to_nat MAX_TX_CHECK_BATCH) burst_fuel s1 c d2 0 0 rest Hc1 (sd_array _ _ _ _ _ _ Hs))
    as (s3 & d3 & Hrun3 & Hs3 & Hth3 & Hn3 & Hr3); [unfold MAX_PKT_TX_BURST in *; lia | unfold burst_fuel; lia | unfold MAX_TX_CHECK_BATCH; lia.. | congruence |].
  exists (at_core s3 c d3), d3. split_and!.
  - assert (tx_high_loop cksum (S fuel) (Z.of_nat c) 0 0 (at_core s c d) = Ok ((true, 0), at_core s3 c d3)) as Hhigh.
    { cbn [tx_high_loop]. step by (by apply dpc_at_run). rewrite He. cbn beta in Hstep. rewrite Hstep.
      step by (by apply dpc_at_run). rewrite decide_True by (unfold MAX_PKT_TX_BURST in *; lia).
      by step by (exact Hrun3). }
    by step by (exact Hhigh).
  - simpl. apply list_lookup_insert_eq. rewrite (sd_list _ _ _ _ _ _ Hs3). done.
  - apply Hs3.
  - lia.
  - rewrite Hth3. eapply queue_ok_mono; [apply Hs3 | done].
  - by rewrite Hth3.
  - done.
Qed.

(** With a full array the call stores behind its end. *)
Lemma tx_overflow_call s c d x l :
  dpc_list s !! c = Some d -> array_ok d -> queue_ok s (th_mbufs d) -> cirq_contents (th_mbufs d) = x :: l ->
  tx_num d = Z.of_nat MAX_PKT_BURST -> dpdk_check_tx_ring cksum (Z.of_nat c) s = Fault OutOfBounds.
Proof.
  intros Hd Ha Hq Ec Hn. pose proof (lookup_lt_Some _ _ _ Hd) as Hc.
  rewrite <- (at_core_id s c d Hd). unfold dpdk_check_tx_ring. step by (by apply dpc_at_run).
  pose proof (queue_fuel_enough _ (qk_wf _ _ Hq)) as Hfuel. rewrite Ec in Hfuel.
  destruct (queue_fuel (th_mbufs d)) as [|fuel]; [simpl in Hfuel; lia|]. cbn [tx_high_loop].
  pose proof (cirq_empty_spec (th_mbufs d) (proj1 (qk_wf _ _ Hq))) as He. rewrite Ec in He.
  destruct (fifo_deq_head _ x l (qk_wf _ _ Hq) Ec) as (q' & Hget & _).
  apply bind_fault. step by (by apply dpc_at_run). rewrite He, bool_decide_eq_false_2 by done.
  step by (by apply lift_ok). step by (by apply set_dpc_run). apply bind_fault.
  unfold tx_fetch. step by (by apply dpc_at_run). apply bind_fault. unfold lift, write_at. simpl.
  by rewrite decide_False by (rewrite (ao_len _ Ha); lia).
Qed.

Fixpoint check_times (n : nat) (core : Z) : M drv unit :=
  match n with
  | O => mret tt
  | S n' => dpdk_check_tx_ring cksum core;; check_times n' core
  end.

(** A stalled card corrupts memory.  While the card accepts no packet and
    the high queue has packets, every call moves one more packet into the array
    than the last one, and the call after the array's 256 cells are full stores
    outside of it. *)
Theorem tx_stall_overflows n s c d :
  dpc_list s !! c = Some d -> array_ok d -> MAX_PKT_TX_BURST - 1 <= tx_num d ->
  tx_num d + Z.of_nat n = Z.of_nat MAX_PKT_BURST ->
  queue_ok s (th_mbufs d) -> (n < length (cirq_contents (th_mbufs d)))%nat ->
  d_txres s = replicate (n * Z.to_nat MAX_TX_CHECK_BATCH) 0%nat ->
  check_times (S n) (Z.of_nat c) s = Fault OutOfBounds.
Proof.
  revert s d. induction n as [|n IH]; intros s d Hd Ha Hlo Hn Hq Hlen Hr;
    destruct (cirq_contents (th_mbufs d)) as [|x l] eqn:Ec; try (simpl in Hlen; lia).
  - apply bind_fault, (tx_overflow_call s c d x l Hd Ha Hq Ec). lia.
  - rewrite Nat.mul_succ_l, Nat.add_comm, replicate_add in Hr.
    destruct (tx_stalled_call s c d x l _ Hd Ha ltac:(lia) Hq Ec Hr) as (s' & d' & Hrun & Hd' & Ha' & Hn' & Hq' & Hc' & Hr').
    change (check_times (S (S n)) (Z.of_nat c)) with (dpdk_check_tx_ring cksum (Z.of_nat c);; check_times (S n) (Z.of_nat c)).
    step by (exact Hrun). apply (IH s' d'); try done; [lia | lia | rewrite Hc'; simpl in Hlen; lia].
Qed.
End Tx.

(** * Reception *)

Section Rx.
Context (flt : ptr -> Z).

(** The packets of a level, in order. *)
Definition of_level (k : Z) (l : list ptr) : list ptr := filter (fun p => flt p = k) l.

(** What reception changes: the receive queues, the priorities of the buffers
    and what it was given. *)
Record receives (s : drv) (d : dpdk_private_context) (s' : drv) (d' : dpdk_private_context)
    (l : list ptr) : Prop := {
  rv_low : cirq_contents (rl_mbufs d') = cirq_contents (rl_mbufs d) ++ of_level 0 l;
  rv_high : cirq_contents (rh_mbufs d') = cirq_contents (rh_mbufs d) ++ of_level 1 l;
  rv_wf : heap_wf (rl_mbufs d') /\ heap_wf (rh_mbufs d');
  rv_cap : cirq_cap (rl_mbufs d') = cirq_cap (rl_mbufs d) /\ cirq_cap (rh_mbufs d') = cirq_cap (rh_mbufs d);
  rv_rest : d' <| rl_mbufs := rl_mbufs d |> <| rh_mbufs := rh_mbufs d |> = d;
  rv_list : dpc_list s' = dpc_list s;
  rv_freed : d_freed s' = d_freed s;
  rv_res : d_rxres s' = d_rxres s;
  rv_bufs p : is_Some (d_bufs s !! p) -> is_Some (d_bufs s' !! p);
}.

Definition rx_room (d : dpdk_private_context) (l : list ptr) : Prop :=
  (length (cirq_contents (rl_mbufs d)) + length (of_level 0 l) <= cirq_cap (rl_mbufs d))%nat /\
  (length (cirq_contents (rh_mbufs d)) + length (of_level 1 l) <= cirq_cap (rh_mbufs d))%nat.

Lemma receives_refl s d : heap_wf (rl_mbufs d) -> heap_wf (rh_mbufs d) -> receives s d s d [].
Proof. intros. split; try done; try (by rewrite app_nil_r). by destruct d. Qed.

Lemma receives_trans s0 d0 s1 d1 s2 d2 l1 l2 :
  receives s0 d0 s1 d1 l1 -> receives s1 d1 s2 d2 l2 -> receives s0 d0 s2 d2 (l1 ++ l2).
Proof.
  intros [L1 H1 W1 [C1 C1'] R1 P1 F1 E1 B1] [L2 H2 W2 [C2 C2'] R2 P2 F2 E2 B2]. unfold of_level in *.
  split; try congruence; try done; try (split; congruence); try by auto.
  - unfold of_level. by rewrite L2, L1, filter_app, app_assoc.
  - unfold of_level. by rewrite H2, H1, filter_app, app_assoc.
  - rewrite <- R1. destruct d2. unfold update in *. simpl in *. rewrite <- R2. simpl. done.
Qed.

(** One packet goes to the queue of its level. *)
Lemma rx_one_run s c d m :
  (c < length (dpc_list s))%nat -> heap_wf (rl_mbufs d) -> heap_wf (rh_mbufs d) -> is_Some (d_bufs s !! m) ->
  rx_room d [m] ->
  exists s' d', rx_one flt (Z.of_nat c) m (at_core s c d) = Ok (tt, at_core s' c d') /\ receives s d s' d' [m].
Proof.
  intros Hc Hwl Hwh [b Hb] [Hl Hh]. unfold of_level in *.
  set (s1 := s <| d_bufs ::= <[m := b <| priority := flt m |>]> |>).
  assert (forall p, is_Some (d_bufs s !! p) -> is_Some (d_bufs s1 !! p)) as Hbufs.
  { intros p Hp. simpl. destruct (decide (p = m)) as [-> | Hne]; [rewrite lookup_insert_eq; eauto|].
    by rewrite lookup_insert_ne. }
  assert (dpdk_soft_filter flt m (at_core s c d) = Ok (flt m, at_core s1 c d)) as Hflt.
  { unfold dpdk_soft_filter. by step by (by apply set_buf_run). }
  unfold rx_one. rewrite !filter_cons, filter_nil in *.
  destruct (decide (flt m = 0)) as [H0|H0]; [|destruct (decide (flt m = 1)) as [H1|H1]].
  - rewrite decide_False in Hh by lia. simpl in Hl, Hh.
    destruct (fifo_enq_room (rl_mbufs d) m Hwl) as (q & Ha & Hw & Hcq & Hcap); [lia|].
    exists s1, (d <| rl_mbufs := q |>). split.
    + step by (exact Hflt). rewrite (bool_decide_eq_true_2 (flt m = 0)) by done. cbn [when].
      step by (by apply dpc_at_run). step by (by apply lift_ok). step by (by apply set_dpc_run).
      rewrite (bool_decide_eq_false_2 (SUCCESS <> SUCCESS)) by (intros Hne; by apply Hne). cbn [when]. step by done.
      by rewrite (bool_decide_eq_false_2 (flt m = 1)) by lia.
    + split; try done; simpl; unfold of_level;
        rewrite ?filter_cons, ?filter_nil, ?decide_True, ?decide_False, ?app_nil_r by lia; try done. by destruct d.
  - simpl in Hl, Hh.
    destruct (fifo_enq_room (rh_mbufs d) m Hwh) as (q & Ha & Hw & Hcq & Hcap); [lia|].
    exists s1, (d <| rh_mbufs := q |>). split.
    + step by (exact Hflt). rewrite (bool_decide_eq_false_2 (flt m = 0)) by done. cbn [when]. step by done.
      rewrite (bool_decide_eq_true_2 (flt m = 1)) by done. cbn [when].
      step by (by apply dpc_at_run). step by (by apply lift_ok). step by (by apply set_dpc_run).
      by rewrite (bool_decide_eq_false_2 (SUCCESS <> SUCCESS)) by (intros Hne; by apply Hne).
    + split; try done; simpl; unfold of_level;
        rewrite ?filter_cons, ?filter_nil, ?decide_True, ?decide_False, ?app_nil_r by lia; try done. by destruct d.
  - exists s1, d. split.
    + step by (exact Hflt). rewrite (bool_decide_eq_false_2 (flt m = 0)), (bool_decide_eq_false_2 (flt m = 1)) by done.
      cbn [when]. by step by done.
    + split; try done; simpl; unfold of_level;
        rewrite ?filter_cons, ?filter_nil, ?decide_False, ?app_nil_r by lia; try done. by destruct d.
Qed.
Lemma rx_room_app d l1 l2 s s' d' :
  rx_room d (l1 ++ l2) -> receives s d s' d' l1 -> rx_room d l1 /\ rx_room d' l2.
Proof.
  unfold rx_room, of_level. rewrite !filter_app, !length_app. intros [Hl Hh] [L H _ [C C'] _ _ _ _ _].
  rewrite L, H, C, C', !length_app. unfold of_level. lia.
Qed.

Lemma rx_each_run l s c d :
  (c < length (dpc_list s))%nat -> heap_wf (rl_mbufs d) -> heap_wf (rh_mbufs d) ->
  (forall m, m ∈ l -> is_Some (d_bufs s !! m)) -> rx_room d l ->
  exists s' d', rx_each flt (Z.of_nat c) l (at_core s c d) = Ok (tt, at_core s' c d') /\ receives s d s' d' l.
Proof.
  revert s d. induction l as [|m l IH]; intros s d Hc Hwl Hwh Hb Hr.
  - exists s, d. split; [done | by apply receives_refl].
  - assert (rx_room d [m]) as Hr1.
    { revert Hr. unfold rx_room, of_level. change (m :: l) with ([m] ++ l). rewrite !filter_app, !length_app. lia. }
    destruct (rx_one_run s c d m Hc Hwl Hwh (Hb m ltac:(set_solver)) Hr1) as (s1 & d1 & Hrun & H1).
    change (m :: l) with ([m] ++ l) in Hr. destruct (rx_room_app _ _ _ _ _ _ Hr H1) as [_ Hr2].
    destruct (IH s1 d1) as (s2 & d2 & Hrun2 & H2); [by rewrite (rv_list _ _ _ _ _ H1) | apply H1.. | | done |].
    { intros y Hy. apply (rv_bufs _ _ _ _ _ H1), Hb. set_solver. }
    exists s2, d2. split; [cbn [rx_each]; by step by (exact Hrun)|]. exact (receives_trans _ _ _ _ _ _ _ _ H1 H2).
Qed.

(** The packets of the coming bursts, up to the first that is empty. *)
Fixpoint arrivals (bs : list (list ptr)) : list ptr :=
  match bs with
  | [] | [] :: _ => []
  | l :: rest => l ++ arrivals rest
  end.

(** The driver's state once the bursts were taken. *)
Lemma rx_again_run fuel bs s c d :
  (c < length (dpc_list s))%nat -> heap_wf (rl_mbufs d) -> heap_wf (rh_mbufs d) ->
  d_rxres s = bs -> (length bs < fuel)%nat -> Forall (fun l => length l <= MAX_PKT_RX_BURST)%nat bs ->
  (forall m, m ∈ arrivals bs -> is_Some (d_bufs s !! m)) -> rx_room d (arrivals bs) ->
  exists s' d', rx_again flt fuel (Z.of_nat c) (at_core s c d) = Ok (tt, at_core s' c d') /\
    exists rest, receives (s <| d_rxres := rest |>) d s' d' (arrivals bs).
Proof.
  revert bs s d. induction fuel as [|fuel IH]; intros bs s d Hc Hwl Hwh Hbs Hf Hsz Hb Hr; [lia|]. cbn [rx_again].
  destruct bs as [|[|m l] bs].
  - exists s, d. split; [|exists []; replace (s <| d_rxres := [] |>) with s by (destruct s; simpl in *; by subst); by apply receives_refl].
    assert (rte_eth_rx_burst MAX_PKT_RX_BURST (at_core s c d) = Ok ([], at_core s c d)) as Hburst
      by (unfold rte_eth_rx_burst; simpl; by rewrite Hbs).
    by step by (exact Hburst).
  - exists (s <| d_rxres := bs |>), d. split; [|exists bs; by apply receives_refl].
    assert (rte_eth_rx_burst MAX_PKT_RX_BURST (at_core s c d) = Ok ([], at_core (s <| d_rxres := bs |>) c d)) as Hburst
      by (unfold rte_eth_rx_burst; simpl; by rewrite Hbs).
    by step by (exact Hburst).
  - apply Forall_cons in Hsz as [Hl Hsz]. cbn [arrivals] in *.
    assert (rte_eth_rx_burst MAX_PKT_RX_BURST (at_core s c d) = Ok (m :: l, at_core (s <| d_rxres := bs |>) c d)) as Hburst.
    { unfold rte_eth_rx_burst. simpl. rewrite Hbs. rewrite take_ge by done. done. }
    assert (rx_room d (m :: l)) as Hr1.
    { revert Hr. unfold rx_room, of_level. rewrite !filter_app, !length_app. lia. }
    destruct (rx_each_run (m :: l) (s <| d_rxres := bs |>) c d) as (s1 & d1 & Hrun & H1); [done..| |done|].
    { intros y Hy. apply Hb. set_solver. }
    destruct (rx_room_app _ _ _ _ _ _ Hr H1) as [_ Hr2].
    destruct (IH bs s1 d1) as (s2 & d2 & Hrun2 & rest & H2);
      [by rewrite (rv_list _ _ _ _ _ H1) | apply H1 | apply H1 | by rewrite (rv_res _ _ _ _ _ H1)
      | simpl in Hf; lia | done | | done |].
    { intros y Hy. apply (rv_bufs _ _ _ _ _ H1), Hb. set_solver. }
    exists s2, d2. split; [step by (exact Hburst); by step by (exact Hrun)|].
    exists rest. refine (receives_trans _ _ (s1 <| d_rxres := rest |>) d1 _ _ _ _ _ H2).
    destruct H1. by split.
Qed.
(** The buffers that other cores gave back are freed. *)
Lemma rxfree_run fuel s c d :
  (c < length (dpc_list s))%nat -> n21_wf (rxfree_queue d) ->
  (length (concat (n21_contents (rxfree_queue d))) < fuel)%nat ->
  exists q l, rxfree_loop fuel (Z.of_nat c) (at_core s c d) =
      Ok (tt, at_core (s <| d_freed := d_freed s ++ l |>) c (d <| rxfree_queue := q |>)) /\
    l ≡ₚ concat (n21_contents (rxfree_queue d)) /\ n21_wf q /\ Forall (fun l => l = []) (n21_contents q).
Proof.
  revert s d. induction fuel as [|fuel IH]; intros s d Hc Hw Hf; [lia|]. cbn [rxfree_loop].
  destruct (n21_dequeue_cases (rxfree_queue d) Hw) as [(k & x & l & q & Hd & Hx & _ & Hk & Hw' & Hc' & _)|[Hd He]].
  - pose proof (concat_pop (n21_contents (rxfree_queue d)) _ x l Hk) as Hperm. rewrite <- Hc' in Hperm.
    destruct (IH (s <| d_freed := d_freed s ++ [x] |>) (d <| rxfree_queue := q |>)) as (q2 & l2 & Hrun & Hl2 & Hw2 & He2);
      [done | done | simpl; apply Permutation_length in Hperm; simpl in Hperm; lia|].
    exists q2, (x :: l2). split_and!; [|by rewrite Hl2, Hperm | done | done].
    step by (by apply dpc_at_run). step by (by apply lift_ok). step by (by apply set_dpc_run).
    rewrite decide_True by done. step by done. simpl in Hrun. rewrite <- app_assoc in Hrun. exact Hrun.
  - exists (rxfree_queue d), []. rewrite app_nil_r. split_and!; [| |done|done].
    + step by (by apply dpc_at_run). step by (by apply lift_ok). step by (by apply set_dpc_run).
      rewrite decide_False by (intros Hn; by apply Hn). by destruct s.
    + clear -He. induction He as [|l ls -> _ IH]; [done|]. simpl. exact IH.
Qed.
(** C12. The receive ring sorts the packets.  A call of [dpdk_check_rx_ring] frees
    the buffers the other cores gave back and takes bursts until one is empty;
    when the queues have room it returns, with every packet of level 0 in the low
    queue and every packet of level 1 in the high queue, in the order of their
    arrival, and the number of packets that wait.  A packet of another level is
    in neither queue and is not freed. *)
Theorem rx_ring_sorts s c d :
  dpc_list s !! c = Some d -> n21_wf (rxfree_queue d) -> heap_wf (rl_mbufs d) -> heap_wf (rh_mbufs d) ->
  Forall (fun l => length l <= MAX_PKT_RX_BURST)%nat (d_rxres s) ->
  (forall m, m ∈ arrivals (d_rxres s) -> is_Some (d_bufs s !! m)) -> rx_room d (arrivals (d_rxres s)) ->
  exists n s' d' freed,
    dpdk_check_rx_ring flt (Z.of_nat c) s = Ok (n, s') /\ dpc_list s' = <[c := d']> (dpc_list s) /\
    cirq_contents (rl_mbufs d') = cirq_contents (rl_mbufs d) ++ of_level 0 (arrivals (d_rxres s)) /\
    cirq_contents (rh_mbufs d') = cirq_contents (rh_mbufs d) ++ of_level 1 (arrivals (d_rxres s)) /\
    n = Z.of_nat (length (cirq_contents (rh_mbufs d')) + length (cirq_contents (rl_mbufs d'))) /\
    d_freed s' = d_freed s ++ freed /\ freed ≡ₚ concat (n21_contents (rxfree_queue d)) /\
    Forall (fun l => l = []) (n21_contents (rxfree_queue d')) /\
    th_mbufs d' = th_mbufs d /\ tl_mbufs d' = tl_mbufs d /\ pending d' = pending d.
Proof.
  intros Hd Hn Hwl Hwh Hsz Hb Hr. pose proof (lookup_lt_Some _ _ _ Hd) as Hc.
  replace (dpdk_check_rx_ring flt (Z.of_nat c) s) with (dpdk_check_rx_ring flt (Z.of_nat c) (at_core s c d))
    by (by rewrite at_core_id).
  destruct (rxfree_run (S (length (concat (n21_contents (rxfree_queue d))))) s c d Hc Hn ltac:(lia))
    as (q & freed & Hrun1 & Hfreed & Hwq & Heq).
  destruct (rx_again_run (S (length (d_rxres s))) (d_rxres s) (s <| d_freed := d_freed s ++ freed |>) c
    (d <| rxfree_queue := q |>)) as (s2 & d2 & Hrun2 & rest & H2); [done..| lia | done | done | done |].
  pose proof H2 as [L H [W W'] _ R P F _ _].
  assert (c < length (dpc_list s2))%nat as Hc2 by (by rewrite P).
  exists (Z.of_nat (length (cirq_contents (rh_mbufs d2)) + length (cirq_contents (rl_mbufs d2)))), (at_core s2 c d2), d2, freed.
  split_and!; try done.
  - unfold dpdk_check_rx_ring. step by (by apply dpc_at_run). step by (exact Hrun1). step by done.
    step by (exact Hrun2). step by (by apply dpc_at_run).
    pose proof (cirq_length _ (proj1 W)). pose proof (cirq_length _ (proj1 W')). unfold mret, M_ret. do 2 f_equal. lia.
  - by simpl; rewrite P.
  - apply (f_equal rxfree_queue) in R. simpl in R. by rewrite R.
  - by apply (f_equal th_mbufs) in R.
  - by apply (f_equal tl_mbufs) in R.
  - by apply (f_equal pending) in R.
Qed.
End Rx.

(** * Buffers *)

Lemma dpc_at_other s c d c' d' :
  dpc_list s !! c' = Some d' -> c <> c' -> dpc_at (Z.of_nat c') (at_core s c d) = Ok (d', at_core s c d).
Proof.
  intros Hd Hne. unfold dpc_at. step by done. apply lift_ok, read_at_nat. simpl. by rewrite list_lookup_insert_ne.
Qed.

Lemma buf_run s c d p b : d_bufs s !! p = Some b -> buf p (at_core s c d) = Ok (b, at_core s c d).
Proof. intros Hb. unfold buf. simpl. by rewrite Hb. Qed.

(** What the n-to-1 queue of a core returns when only one producer has put an
    item. *)
Lemma n21_one_item q (i : nat) x q' :
  n21_wf q -> Forall (fun l => l = []) (n21_contents q) -> (i < length (queues q))%nat ->
  n21_wf q' -> n21_contents q' = <[i := [x]]> (n21_contents q) ->
  exists q2, n21q_dequeue q' = Ok (x, q2) /\ n21_wf q2 /\ n21_contents q2 = n21_contents q.
Proof.
  intros Hw He Hi Hw' Hc.
  assert (i < length (n21_contents q))%nat as Hi' by (unfold n21_contents; by rewrite length_fmap).
  assert (forall j l, n21_contents q' !! j = Some l -> j = i /\ l = [x] \/ l = []) as Hcells.
  { intros j l. rewrite Hc. intros [(<- & <- & _)|[_ Hj]]%list_lookup_insert_Some; [by left|].
    right. by eapply (Forall_lookup_1 _ _ _ _ He Hj). }
  destruct (n21_dequeue_cases q' Hw') as [(k & y & l & q2 & Hd & Hy & _ & Hk & Hw2 & Hc2 & _)|[_ Hall]].
  - exists q2. destruct (Hcells _ _ Hk) as [[Hv [= -> ->]]|?]; [|done]. split_and!; [done..|].
    rewrite Hc2, Hc, Hv, list_insert_insert_eq. apply list_insert_id.
    destruct (lookup_lt_is_Some_2 _ _ Hi') as [l Hl]. rewrite Hl. f_equal. by eapply (Forall_lookup_1 _ _ _ _ He Hl).
  - exfalso. rewrite Hc in Hall. eapply (Forall_lookup_1 _ _ i [x]) in Hall; [done|]. by apply list_lookup_insert_eq.
Qed.

(** A core other than the owner returns a buffer of the transmit pool. *)
Lemma release_other_run s c d c' d' m b spin q :
  (c < length (dpc_list s))%nat -> dpc_list s !! c' = Some d' -> c <> c' -> d_bufs s !! m = Some b ->
  score b = Z.of_nat c -> pool b = tx_pktmbuf_pool d ->
  n21q_enqueue (free_queue d) (Z.of_nat c') m = Ok (SUCCESS, q) ->
  dpdk_release_pkt spin (Z.of_nat c') m (at_core s c d) = Ok (tt, at_core s c (d <| free_queue := q |>)).
Proof.
  intros Hc Hd' Hne Hb Hs Hp Hq. unfold dpdk_release_pkt.
  step by (by apply dpc_at_other). step by (by apply buf_run). rewrite Hs. step by (by apply dpc_at_run).
  rewrite decide_False by (intros [? _]; lia). rewrite decide_True by done.
  step by (by apply lift_ok). step by (by apply set_dpc_run).
  by rewrite (bool_decide_eq_false_2 (SUCCESS <> SUCCESS)) by (intros Hn; by apply Hn).
Qed.

(** The owner allocates for its stack from the buffers that came back. *)
Lemma alloc_returned_run s c d m b q :
  (c < length (dpc_list s))%nat -> pktmbuf_alloc_pool d <> NULL -> tx_pktmbuf_pool d <> NULL ->
  d_bufs s !! m = Some b -> m <> NULL -> n21q_dequeue (free_queue d) = Ok (m, q) ->
  dpdk_alloc_mbuf 0 (Z.of_nat c) 0 (at_core s c d) =
  Ok (m, at_core (s <| d_bufs ::= <[m := b <| score := cpu d |> <| payload_len := 0 |> <| tcp_seq := 0 |>]> |>) c
           (d <| free_queue := q |>)).
Proof.
  intros Hc Ha Ht Hb Hm Hq. unfold dpdk_alloc_mbuf. step by (by apply dpc_at_run).
  rewrite decide_False by done. rewrite decide_False by naive_solver. rewrite decide_True by done.
  step by (by apply lift_ok). step by (by apply set_dpc_run). rewrite decide_False by done. step by done.
  rewrite decide_False by done. by step by (by apply set_buf_run).
Qed.

(** A buffer comes back to the core that owns it.  When another core
    releases a buffer of the owner's transmit pool, and the owner has got no
    other buffer back, the owner's next allocation for its stack returns this
    buffer, reset and marked as the owner's; DPDK is not called, and the queues
    are as before. *)
Theorem buffer_round_trip s c d c' d' m b spin :
  dpc_list s !! c = Some d -> dpc_list s !! c' = Some d' -> c <> c' ->
  d_bufs s !! m = Some b -> m <> NULL -> score b = Z.of_nat c -> pool b = tx_pktmbuf_pool d ->
  pktmbuf_alloc_pool d <> NULL -> tx_pktmbuf_pool d <> NULL ->
  n21_wf (free_queue d) -> Forall (fun l => l = []) (n21_contents (free_queue d)) ->
  (exists qc, queues (free_queue d) !! c' = Some qc /\ (0 < cirq_cap qc)%nat) ->
  exists s1 s2 d2, dpdk_release_pkt spin (Z.of_nat c') m s = Ok (tt, s1) /\
    dpdk_alloc_mbuf 0 (Z.of_nat c) 0 s1 = Ok (m, s2) /\
    d_bufs s2 !! m = Some (b <| score := cpu d |> <| payload_len := 0 |> <| tcp_seq := 0 |>) /\
    d_freed s2 = d_freed s /\ d_allocs s2 = d_allocs s /\
    dpc_list s2 = <[c := d2]> (dpc_list s) /\ n21_wf (free_queue d2) /\
    n21_contents (free_queue d2) = n21_contents (free_queue d).
Proof.
  intros Hd Hd' Hne Hb Hm Hs Hp Ha Ht Hw He (qc & Hqc & Hcap). pose proof (lookup_lt_Some _ _ _ Hd) as Hc.
  assert (n21_contents (free_queue d) !! c' = Some []) as Hl.
  { unfold n21_contents in *. rewrite list_lookup_fmap, Hqc. simpl. f_equal.
    eapply (Forall_lookup_1 _ _ c' _ He). by rewrite list_lookup_fmap, Hqc. }
  destruct (n21_enqueue_spec (free_queue d) c' [] m Hw Hm Hl) as (qc' & Hqc' & Henq). simplify_eq.
  rewrite decide_True in Henq by done. destruct Henq as (q1 & Henq & Hw1 & Hc1 & _).
  destruct (n21_one_item (free_queue d) c' m q1 Hw He (lookup_lt_Some _ _ _ Hqc) Hw1 Hc1) as (q2 & Hdeq & Hw2 & Hc2).
  pose proof (release_other_run s c d c' d' m b spin q1 Hc Hd' Hne Hb Hs Hp Henq) as Hrel.
  rewrite (at_core_id s c d Hd) in Hrel.
  set (d1 := d <| free_queue := q1 |>) in Hrel.
  pose proof (alloc_returned_run s c d1 m b q2 Hc Ha Ht Hb Hm Hdeq) as Hget.
  eexists _, _, (d <| free_queue := q2 |>). split; [exact Hrel|]. split; [exact Hget|].
  split_and!; try done. simpl. by rewrite lookup_insert_eq.
Qed.

(** The allocation for an application never returns when there is no
    buffer: while no buffer was given back and the pool is empty the loop runs
    for ever, whatever the number of its turns. *)
Theorem uw_alloc_spins spin s c d :
  dpc_list s !! c = Some d -> pktmbuf_alloc_pool d <> NULL -> n21_wf (nofree_queue d) ->
  Forall (fun l => l = []) (n21_contents (nofree_queue d)) -> d_allocs s = [] ->
  dpdk_alloc_mbuf spin (Z.of_nat c) 1 s = Fault NoReturn.
Proof.
  intros Hd Ha Hw He Hal. pose proof (lookup_lt_Some _ _ _ Hd) as Hc. rewrite <- (at_core_id s c d Hd).
  unfold dpdk_alloc_mbuf. step by (by apply dpc_at_run). rewrite decide_False by done.
  rewrite decide_False by (intros [_ ?]; lia). rewrite decide_False by lia.
  assert (n21q_dequeue (nofree_queue d) = Ok (NULL, nofree_queue d)) as Hdq.
  { destruct (n21_dequeue_cases _ Hw) as [(k & x & l & q & _ & _ & _ & Hk & _)|[Hq _]]; [|done].
    apply (Forall_lookup_1 _ _ _ _ He) in Hk. done. }
  induction spin as [|spin IH]; [done|]. cbn [uw_loop].
  step by (by apply dpc_at_run). step by (by apply lift_ok). step by (by apply set_dpc_run).
  assert (d <| nofree_queue := nofree_queue d |> = d) as -> by (by destruct d).
  rewrite decide_True by done.
  assert (rte_pktmbuf_alloc (at_core s c d) = Ok (NULL, at_core s c d)) as Hnone.
  { unfold rte_pktmbuf_alloc. simpl. by rewrite Hal. }
  step by (exact Hnone). rewrite decide_True by done. exact IH.
Qed.

(** * Concrete states *)

(** Two cores, each with the pools at 101 (receive), 102 (transmit) and 103
    (applications). *)
Definition demo_core (c : Z) : dpdk_private_context := dpdk_init_handle 2 40 101 102 103 c.

(** Buffers 11 to 14 of core 0 hold TCP packets; core 1 has released none. *)
Definition demo_dbuf (owner from : Z) : dbuf :=
  DBuf owner from 1 40 7 0 0 60 60 0 0 0 0 (TxHdr (htons ETH_P_IP) IPPROTO_TCP 5 9 5 9).
Definition demo_bufs : gmap ptr dbuf :=
  <[11 := demo_dbuf 0 102]> (<[12 := demo_dbuf 0 102]> (<[13 := demo_dbuf 0 102]> {[14 := demo_dbuf 0 101]})).
Definition demo_drv (d : dpdk_private_context) (txres : list nat) (rxres : list (list ptr)) : drv :=
  Drv [d; demo_core 1] demo_bufs txres rxres [] [] [].

Definition demo_high : circular_queue := Cirq 2 (Heap [11; 12; 0]) 3 0.
Definition demo_low : circular_queue := Cirq 1 (Heap [13; 0; 0]) 3 0.

Lemma demo_queue_ok d txres rxres q :
  q = demo_high \/ q = demo_low -> queue_ok (demo_drv d txres rxres) q.
Proof.
  intros [-> | ->]; (split; [split; [split; simpl; lia | done]|]); intros x Hx.
  - assert (x = 11 \/ x = 12) as [-> | ->] by (change (x ∈ [11; 12]) in Hx; set_solver); (split; [done | by eexists]).
  - assert (x = 13) as -> by (change (x ∈ [13]) in Hx; set_solver). split; [done | by eexists].
Qed.

(** Two packets of high priority and one of low priority; the card accepts two
    of the three. *)
Definition demo_sender : dpdk_private_context :=
  demo_core 0 <| th_mbufs := demo_high |> <| tl_mbufs := demo_low |>.

Lemma demo_array_ok : array_ok demo_sender.
Proof. split; [simpl; unfold MAX_PKT_BURST; lia | done]. Qed.

Lemma tx_ring_in_order_witness :
  exists s', dpdk_check_tx_ring (fun _ _ => 0) 0 (demo_drv demo_sender [2%nat] []) = Ok (2, s') /\
    d_wire s' = [(0, 11); (0, 12)].
Proof.
  destruct (tx_ring_in_order (fun _ _ => 0) (demo_drv demo_sender [2%nat] []) 0 demo_sender) as
    (n & s' & d' & high & low & sent & Hrun & _ & Hn & Hwire & _);
    [reflexivity | exact demo_array_ok | reflexivity | apply demo_queue_ok; auto.. |].
  assert (n = 2) as ->.
  { apply (f_equal (fun r => match r with Ok (v, _) => Some v | _ => None end)) in Hrun.
    vm_compute in Hrun. congruence. }
  exists s'. split; [exact Hrun|].
  apply (f_equal (fun r => match r with Ok (_, s) => Some (d_wire s) | _ => None end)) in Hrun.
  vm_compute in Hrun. injection Hrun. intros Hw. symmetry. exact Hw.
Defined.

(** The array has room for one packet; the card accepts nothing. *)
Definition demo_stalled : dpdk_private_context := demo_sender <| tx_num := 255 |>.

Lemma tx_stall_overflows_witness :
  check_times (fun _ _ => 0) 2 0 (demo_drv demo_stalled (replicate 5 0%nat) []) = Fault OutOfBounds.
Proof.
  apply (tx_stall_overflows (fun _ _ => 0) 1 _ 0 demo_stalled); try reflexivity.
  - split; [simpl; unfold MAX_PKT_BURST; lia | done].
  - unfold MAX_PKT_TX_BURST; simpl; lia.
  - apply demo_queue_ok; auto.
  - vm_compute. lia.
Defined.

(** Three packets arrive; the second has high priority. *)
Definition demo_filter (p : ptr) : Z := if decide (p = 12) then 1 else 0.

Lemma rx_ring_sorts_witness :
  exists n s' d', dpdk_check_rx_ring demo_filter 0 (demo_drv (demo_core 0) [] [[11; 12]; [13]; []]) = Ok (n, s') /\
    dpc_list s' = <[0%nat := d']> [demo_core 0; demo_core 1] /\
    cirq_contents (rl_mbufs d') = [11; 13] /\ cirq_contents (rh_mbufs d') = [12].
Proof.
  destruct (rx_ring_sorts demo_filter (demo_drv (demo_core 0) [] [[11; 12]; [13]; []]) 0 (demo_core 0)) as
    (n & s' & d' & freed & Hrun & Hd & Hl & Hh & _);
    [reflexivity | by apply n21q_init_wf | by apply cirq_init_wf.. | | | | ].
  - repeat (apply Forall_cons_2; [simpl; unfold MAX_PKT_RX_BURST; lia|]). done.
  - intros m Hm. assert (m = 11 \/ m = 12 \/ m = 13) as [-> | [-> | ->]]
      by (change (m ∈ [11; 12; 13]) in Hm; set_solver); by eexists.
  - split; vm_compute; lia.
  - exists n, s', d'. split; [exact Hrun|]. split; [exact Hd|]. rewrite Hl, Hh. split; reflexivity.
Defined.

Lemma buffer_round_trip_witness :
  exists s1 s2, dpdk_release_pkt 0 1 11 (demo_drv (demo_core 0) [] []) = Ok (tt, s1) /\
    dpdk_alloc_mbuf 0 0 0 s1 = Ok (11, s2) /\ d_freed s2 = [].
Proof.
  destruct (buffer_round_trip (demo_drv (demo_core 0) [] []) 0 (demo_core 0) 1 (demo_core 1) 11 (demo_dbuf 0 102) 0)
    as (s1 & s2 & d2 & Hrel & Hget & _ & Hf & _); try reflexivity; try done; try by apply n21q_init_wf.
  - eexists. split; [reflexivity|]. vm_compute. lia.
  - exists s1, s2. split; [exact Hrel|]. split; [exact Hget|]. exact Hf.
Defined.

Lemma uw_alloc_spins_witness :
  dpdk_alloc_mbuf 1000 0 1 (demo_drv (demo_core 0) [] []) = Fault NoReturn.
Proof.
  apply (uw_alloc_spins 1000 (demo_drv (demo_core 0) [] []) 0 (demo_core 0)); try reflexivity; try done;
    by apply n21q_init_wf.
Defined.
