(* ===== verification/MemPool.v ===== *)
(** The chunk allocator ([tools/mempool/src/dpdk_chunk.c], [dpdk_mempool.c]):
    one DPDK pool per core and one shared pool, with per-core lists of shared
    chunks that were taken in bulk and of shared chunks that wait to be given
    back in bulk.

    DPDK's pools, and the creation of them, are the parameter [RteMempool];
    [RteMempoolLaws] is what its documentation promises.  The memory of one
    [struct Mempool_t] is the record [arena]: the context itself, its pools, the
    heads of its chunks and, for every chunk, the pool that DPDK's own header in
    front of it names.  A call is atomic. *)
From S2P Require Import Prelude.
#[local] Open Scope Z_scope.

Module MemPool.

Definition MAX_CORE : Z := 100.
Definition MAX_CPUS : nat := 40.
Definition MAX_TYPES : Z := 20.
Definition ALLOC_NUM : nat := 1024.
Definition TEST_ARR : nat := 1024.
Definition MEMPOOL_F_SP_PUT : Z := 4.
Definition MEMPOOL_F_SC_GET : Z := 8.
Definition SOCKET_ID_ANY : Z := -1.

(** Three [int]s and four pointers. *)
Definition sizeof_chunk_head : Z := 48.

(** The field [lpool] is never assigned. *)
Record chunk_head : Type := ChunkHead {
  ch_id : Z;
  ch_type : Z;
  ch_size : Z;
  ch_pool : ptr;
  ch_next : ptr;
  ch_re : ptr;
}.
#[export] Instance chunk_head_rebuild : Rebuild chunk_head := fun h =>
  ChunkHead (ch_id h) (ch_type h) (ch_size h) (ch_pool h) (ch_next h) (ch_re h).

(** One core's entries of [l_len], [l_pkt], [l_hpkt] (or of [s_len], [s_pkt],
    [s_hpkt]). *)
Record chunk_list : Type := ChunkList {
  cl_len : Z;
  cl_pkt : ptr;
  cl_hpkt : ptr;
}.
#[export] Instance chunk_list_rebuild : Rebuild chunk_list := fun c =>
  ChunkList (cl_len c) (cl_pkt c) (cl_hpkt c).

(** [mempool_p] holds [None] where nothing was stored after [malloc].  The three
    function pointers are assigned together; [chunk_fns] tells whether they are
    set.  The memory zones [mz] are only stored. *)
Record Mempool_t : Type := MempoolT {
  mt_type : Z;
  max_core : Z;
  mt_size : Z;
  chunk_fns : bool;
  mempool_p : list (option ptr);
  mempool_s : ptr;
  l_list : list chunk_list;
  s_list : list chunk_list;
  cur_id : Z;
}.
#[export] Instance Mempool_t_rebuild : Rebuild Mempool_t := fun m =>
  MempoolT (mt_type m) (max_core m) (mt_size m) (chunk_fns m) (mempool_p m) (mempool_s m)
    (l_list m) (s_list m) (cur_id m).

(** The names [PRIVATE_a_CSIZE_b] and [PUBLIC_a_CSIEZE_b]. *)
Inductive pool_name : Type :=
  | PRIVATE (a b : Z)
  | PUBLIC (a b : Z).

(** A created pool: its address, its state and its objects in the order the
    initialiser visits them. *)
Record created_pool (P : Type) : Type := CreatedPool {
  cp_addr : ptr;
  cp_pool : P;
  cp_objs : list ptr;
}.
Arguments CreatedPool {P}.
Arguments cp_addr {P}.
Arguments cp_pool {P}.
Arguments cp_objs {P}.

(** DPDK's pools: [P] is the state of one, [E] what DPDK knows of all. *)
Class RteMempool (P E : Type) : Type := {
  rte_mempool_get : P -> option (ptr * P);
  rte_mempool_get_bulk : P -> nat -> option (list ptr * P);
  rte_mempool_put : P -> ptr -> P;
  rte_mempool_put_bulk : P -> list ptr -> P;
  rte_mempool_size : P -> Z;       (* the member size *)
  (* name, number of objects, object size, cache size, node, flags *)
  rte_mempool_create : E -> pool_name -> Z -> Z -> Z -> Z -> Z -> option (created_pool P * E);
  (* name, number of objects, node *)
  rte_pktmbuf_pool_create : E -> pool_name -> Z -> Z -> option (created_pool P * E);
  rte_lcore_to_socket_id : Z -> Z;
}.

(** What the documentation promises: a pool hands out each of its objects to one
    holder at a time, refuses when it has too few, and new pools have new
    objects at addresses other than [NULL]. *)
Class RteMempoolLaws (P E : Type) `{!RteMempool P E} : Type := {
  mp_objects : P -> list ptr;
  eal_objects : E -> list ptr;
  eal_pools : E -> list ptr;
  get_some p x p' : rte_mempool_get p = Some (x, p') -> mp_objects p ≡ₚ x :: mp_objects p';
  get_none p : rte_mempool_get p = None -> mp_objects p = [];
  get_bulk_some p n l p' : rte_mempool_get_bulk p n = Some (l, p') ->
    length l = n /\ mp_objects p ≡ₚ l ++ mp_objects p';
  get_bulk_none p n : rte_mempool_get_bulk p n = None -> (length (mp_objects p) < n)%nat;
  put_adds p x : mp_objects (rte_mempool_put p x) ≡ₚ x :: mp_objects p;
  put_bulk_adds p l : mp_objects (rte_mempool_put_bulk p l) ≡ₚ l ++ mp_objects p;
  create_pool e name n sz cache numa flags c e' :
    rte_mempool_create e name n sz cache numa flags = Some (c, e') ->
    mp_objects (cp_pool c) ≡ₚ cp_objs c /\ Z.of_nat (length (cp_objs c)) = n;
  create_objects e name n sz cache numa flags c e' :
    rte_mempool_create e name n sz cache numa flags = Some (c, e') ->
    eal_objects e' = cp_objs c ++ eal_objects e /\ (forall x, x ∈ cp_objs c -> NULL < x) /\
    (NoDup (eal_objects e) -> NoDup (eal_objects e'));
  create_address e name n sz cache numa flags c e' :
    rte_mempool_create e name n sz cache numa flags = Some (c, e') ->
    eal_pools e' = cp_addr c :: eal_pools e /\ cp_addr c <> NULL /\ cp_addr c ∉ eal_pools e;
}.

Section Alloc.
Context {P E : Type} `{!RteMempool P E}.

Record arena : Type := Arena {
  ar_ctx : Mempool_t;
  ar_pools : gmap ptr P;
  ar_heads : gmap ptr chunk_head;
  ar_owner : gmap ptr ptr;       (* mp of the rte_mempool_objhdr in front of the chunk *)
}.
#[export] Instance arena_rebuild : Rebuild arena := fun a =>
  Arena (ar_ctx a) (ar_pools a) (ar_heads a) (ar_owner a).

(** ** Memory accesses *)
Definition head_at (x : ptr) : M arena chunk_head := fun a =>
  (fun h => (h, a)) <$> deref NullDeref (ar_heads a !! x).
Definition set_head (x : ptr) (f : chunk_head -> chunk_head) : M arena unit :=
  h ← head_at x; modify (fun a => a <| ar_heads ::= <[x := f h]> |>).
Definition pool_at (mp : ptr) : M arena P := fun a =>
  (fun p => (p, a)) <$> deref NullDeref (ar_pools a !! mp).
Definition set_pool (mp : ptr) (p : P) : M arena unit :=
  modify (fun a => a <| ar_pools ::= <[mp := p]> |>).
Definition mp_of_objhdr (x : ptr) : M arena ptr := fun a =>
  (fun mp => (mp, a)) <$> deref WildAccess (ar_owner a !! x).

Definition private_at (core : Z) : M arena ptr :=
  a ← get; o ← lift (read_at (mempool_p (ar_ctx a)) core); lift (deref WildAccess o).
Definition l_at (core : Z) : M arena chunk_list :=
  a ← get; lift (read_at (l_list (ar_ctx a)) core).
Definition s_at (core : Z) : M arena chunk_list :=
  a ← get; lift (read_at (s_list (ar_ctx a)) core).
Definition set_l (core : Z) (c : chunk_list) : M arena unit :=
  a ← get; l ← lift (write_at (l_list (ar_ctx a)) core c);
  put (a <| ar_ctx ::= fun m => m <| l_list := l |> |>).
Definition set_s (core : Z) (c : chunk_list) : M arena unit :=
  a ← get; l ← lift (write_at (s_list (ar_ctx a)) core c);
  put (a <| ar_ctx ::= fun m => m <| s_list := l |> |>).

Definition assert_ (b : bool) : M arena unit := if b then mret tt else throw AssertFail.

(** ** Chunks *)

(** [data_type_init_notype]: the head DPDK's creation leaves in an object. *)
Definition data_type_init_notype (mp : ptr) (type : Z) (obj : ptr) (i : Z) (h : chunk_head) : Z * chunk_head :=
  if decide (obj = NULL) then (-1, h) else
  (2, h <| ch_type := type |> <| ch_id := i |> <| ch_pool := mp |>
        <| ch_re := obj + sizeof_chunk_head |>).

(** Append a chunk to the core's list of taken shared chunks. *)
Definition l_append (core_id : Z) (targ : ptr) : M arena unit :=
  c ← l_at core_id;
  if decide (cl_len c = 0) then
    set_head targ (fun h => h <| ch_next := NULL |>);;
    set_l core_id (ChunkList (cl_len c + 1) targ targ)
  else
    set_head (cl_pkt c) (fun h => h <| ch_next := targ |>);;
    set_head targ (fun h => h <| ch_next := NULL |>);;
    set_l core_id (c <| cl_pkt := targ |> <| cl_len := cl_len c + 1 |>).

(** The loop over the objects taken in bulk: all but the last are kept for
    later calls of the core, the last is returned. *)
Fixpoint take_loop (core_id : Z) (i : nat) (obj_p : list ptr) : M arena ptr :=
  match obj_p with
  | [] => mret NULL
  | targ :: rest =>
      if decide (targ = NULL) then mret NULL else
      if decide (i = ALLOC_NUM - 1)%nat then h ← head_at targ; mret (ch_re h) else
      l_append core_id targ;; take_loop core_id (S i) rest
  end.

Definition chunk_alloc_notype (mp : ptr) (type core_id : Z) : M arena ptr :=
  if decide (mp = NULL) then mret NULL else
  if decide (type = 1) then
    mpc ← private_at core_id;
    assert_ (bool_decide (mpc = mp));;
    p ← pool_at mp;
    targ ← (match rte_mempool_get p with
            | Some (x, p') => set_pool mp p';; mret x
            | None => mret NULL
            end);
    if decide (targ <> NULL) then
      set_head targ (fun h => h <| ch_pool := mp |>);;
      set_head targ (fun h => h <| ch_size := rte_mempool_size p |>);;
      h ← head_at targ; mret (ch_re h)
    else
      c ← l_at core_id;
      let targ := cl_hpkt c in
      if decide (targ = NULL) then mret NULL else
      h ← head_at targ;
      set_l core_id (c <| cl_hpkt := ch_next h |> <| cl_len := cl_len c - 1 |>);;
      set_head targ (fun h => h <| ch_size := rte_mempool_size p |>);;
      mret (ch_re h)
  else
    a ← get;
    assert_ (bool_decide (mempool_s (ar_ctx a) = mp));;
    p ← pool_at mp;
    match rte_mempool_get_bulk p ALLOC_NUM with
    | None => mret NULL
    | Some (obj_p, p') => set_pool mp p';; take_loop core_id 0 obj_p
    end.

(** The loop that gathers the list of freed shared chunks in an array. *)
Fixpoint gather (n : nat) (point pool : ptr) : M arena (list ptr) :=
  match n with
  | O => mret []
  | S n' =>
      h ← head_at point;
      assert_ (bool_decide (ch_pool h = pool));;
      l ← gather n' (ch_next h) pool; mret (point :: l)
  end.

Definition chunk_free_notype (chunk : ptr) (core : Z) : M arena Z :=
  let targ := chunk - sizeof_chunk_head in
  assert_ (bool_decide (targ <> NULL));;
  h ← head_at targ;
  assert_ (bool_decide (ch_pool h <> NULL));;
  mp ← mp_of_objhdr targ;
  a ← get;
  (if decide (mp = mempool_s (ar_ctx a)) then
     c ← s_at core;
     if decide (cl_len c = 0) then
       set_head targ (fun h => h <| ch_next := NULL |>);;
       set_s core (ChunkList (cl_len c + 1) targ targ)
     else
       set_head targ (fun h => h <| ch_next := NULL |>);;
       assert_ (bool_decide (cl_pkt c <> NULL));;
       set_head (cl_pkt c) (fun h => h <| ch_next := targ |>);;
       set_s core (c <| cl_pkt := targ |> <| cl_len := cl_len c + 1 |>);;
       when (bool_decide (cl_len c + 1 = Z.of_nat TEST_ARR)) (
         array ← gather TEST_ARR (cl_hpkt c) (ch_pool h);
         p ← pool_at (mempool_s (ar_ctx a));
         set_pool (mempool_s (ar_ctx a)) (rte_mempool_put_bulk p array);;
         set_s core (ChunkList 0 NULL NULL))
   else
     p ← pool_at (ch_pool h);
     set_pool (ch_pool h) (rte_mempool_put p targ));;
  mret 2.

(** ** The interface of the allocator *)
Definition mempool_alloc_chunk (core_id : Z) : M arena ptr :=
  a ← get;
  let m := ar_ctx a in
  if decide (mt_type m < 0 \/ MAX_TYPES <= mt_type m) then mret NULL else
  if chunk_fns m then
    modify (fun a => a <| ar_ctx ::= fun m => m <| cur_id := core_id |> |>);;
    mp ← private_at core_id;
    target ← chunk_alloc_notype mp 1 core_id;
    if decide (target = NULL) then chunk_alloc_notype (mempool_s m) 100 core_id
    else mret target
  else mret NULL.

Definition mempool_free_chunk (chunk : ptr) (core_id : Z) : M arena Z :=
  if decide (chunk = NULL) then mret (-1) else
  a ← get;
  if chunk_fns (ar_ctx a) then chunk_free_notype chunk core_id else mret 0.

Definition mempool_destroy : Z := -1.

(** ** Creation *)

(** DPDK, and the coming results of [rand]. *)
Record setup : Type := Setup { su_eal : E; su_rands : list Z }.
#[export] Instance setup_rebuild : Rebuild setup := fun s => Setup (su_eal s) (su_rands s).

Definition rand : M setup Z := fun s =>
  match su_rands s with
  | [] => Ok (0, s)
  | r :: l => Ok (r, s <| su_rands := l |>)
  end.

(** The pool DPDK returns, or NULL. *)
Definition eal_result (r : E -> option (created_pool P * E)) : M setup (option (created_pool P)) := fun s =>
  match r (su_eal s) with
  | Some (c, e) => Ok (Some c, s <| su_eal := e |>)
  | None => Ok (None, s)
  end.

(** [rte_pool_create] and its wrapper [rte_chunk_pool_create]; [priv_size] is a
    [uint16_t].  The initialiser runs on the objects of every pool but the one
    of packet buffers (type 0). *)
Definition rte_pool_create (name : pool_name) (n priv_size core_id type : Z) : M setup (option (created_pool P)) :=
  let numa_id := if decide (core_id <> -1) then rte_lcore_to_socket_id core_id else SOCKET_ID_ANY in
  let flags := if decide (core_id <> -1) then Z.lor MEMPOOL_F_SP_PUT MEMPOOL_F_SC_GET else 0 in
  let create cache := eal_result (fun e => rte_mempool_create e name n (u16 priv_size) cache numa_id flags) in
  if decide (type = 0) then eal_result (fun e => rte_pktmbuf_pool_create e name n numa_id) else
  if decide (type = 1) then create 32 else
  if decide (type = 2) then create 0 else
  if decide (type = 3) then create 32 else
  if decide (type = 4) then create 32 else mret None.

(** A chunk size with the head, rounded up to a multiple of 64; [%] and [/]
    truncate. *)
Definition chunk_size_of (csize : Z) : Z :=
  let chunk_size := s32 (sizeof_chunk_head + csize) in
  if decide (Z.rem chunk_size 64 <> 0) then s32 ((Z.quot chunk_size 64 + 1) * 64) else chunk_size.

Definition init_chunk_functions (m : Mempool_t) (type : Z) : res (Z * Mempool_t) :=
  if decide (mt_type m = type) then Ok (1, m <| chunk_fns := true |>) else Fault AssertFail.

(** The effect of the creation of a pool on the memory of the arena: DPDK fills
    its header in front of each object and calls [chunk_init] on each; the head
    had the content [junk] before. *)
Fixpoint init_objects (mp : ptr) (type i : Z) (junk : chunk_head) (objs : list ptr) (a : arena) : arena :=
  match objs with
  | [] => a
  | x :: l =>
      init_objects mp type (i + 1) junk l
        (a <| ar_heads ::= <[x := (data_type_init_notype mp type x i junk).2]> |>
           <| ar_owner ::= <[x := mp]> |>)
  end.

Definition install (c : created_pool P) (junk : chunk_head) (a : arena) : arena :=
  init_objects (cp_addr c) (mt_type (ar_ctx a)) 0 junk (cp_objs c)
    (a <| ar_pools ::= <[cp_addr c := cp_pool c]> |>).

(** The loop over the cores and the shared pool.  [TRACE_EXIT] ends the
    process when a pool cannot be created; the private pools are created with
    the number of cores in place of the core. *)
Fixpoint create_pools (todo : nat) (i core_num csize chunk_size num_p num_s : Z) (junk : chunk_head)
    (a : arena) : M setup arena :=
  r1 ← rand; r2 ← rand;
  match todo with
  | O =>
      mp ← rte_pool_create (PUBLIC (-1 + Z.rem r1 100) (csize + Z.rem r2 100)) num_s chunk_size (-1)
             (mt_type (ar_ctx a));
      match mp with
      | None => throw Exit
      | Some c => mret (install c junk a <| ar_ctx ::= fun m => m <| mempool_s := cp_addr c |> |>)
      end
  | S todo' =>
      mp ← rte_pool_create (PRIVATE (i + Z.rem r1 100) (csize + Z.rem r2 100)) num_p chunk_size core_num
             (mt_type (ar_ctx a));
      match mp with
      | None => throw Exit
      | Some c =>
          l ← lift (write_at (mempool_p (ar_ctx a)) i (Some (cp_addr c)));
          create_pools todo' (i + 1) core_num csize chunk_size num_p num_s junk
            (install c junk a <| ar_ctx ::= fun m => m <| mempool_p := l |> |>)
      end
  end.

(** [mempool_create].  [ok] is the outcome of [malloc], [cell] and [junk] what
    the memory it returns holds.  The sizes are [uint32_t], so the tests for
    negative sizes never fire. *)
Definition mempool_create (ok : bool) (cell : Mempool_t) (junk : chunk_head)
    (csize p_pool_size s_pool_size core_num : Z) : M setup (option arena) :=
  if negb ok then mret None else
  if decide (MAX_CORE <= core_num) then mret None else
  let chunk_size := chunk_size_of csize in
  if decide (chunk_size = -1) then mret None else
  let zone_size := s32 (u32 (p_pool_size * core_num) + s_pool_size + 1000) in
  if decide (zone_size <= 0) then mret None else
  r ← lift (init_chunk_functions (cell <| mt_type := 2 |> <| mt_size := csize |>) 2);
  if decide (r.1 <> 1) then mret None else
  let empty := replicate MAX_CPUS (ChunkList 0 NULL NULL) in
  let m := r.2 <| max_core := core_num |> <| mt_size := chunk_size |>
            <| mempool_p := replicate MAX_CPUS None |> <| l_list := empty |> <| s_list := empty |> in
  if decide (core_num < 0) then mret (Some (Arena m ∅ ∅ ∅)) else
  a ← create_pools (Z.to_nat core_num) 0 core_num csize chunk_size (s32 p_pool_size) (s32 s_pool_size)
        junk (Arena m ∅ ∅ ∅);
  mret (Some a).

End Alloc.
Arguments arena P : clear implicits.
Arguments setup E : clear implicits.

End MemPool.
