(* ===== verification/MemPoolCorrect.v ===== *)
(** Correctness of the chunk allocator: every chunk is in one place at a time
    (the pool it came from, a core's list of taken shared chunks, a core's list
    of shared chunks to give back, or the hands of a caller), whatever the order
    in which the cores allocate and free. *)
From S2P Require Import Prelude MemPool.
Import MemPool.
#[local] Open Scope Z_scope.

(** * Places *)
Inductive place : Type :=
  | Private (c : nat)    (* the pool of core c *)
  | Public               (* the shared pool *)
  | Taken (c : nat)      (* l_hpkt of core c *)
  | Freed (c : nat)      (* s_hpkt of core c *)
  | Used.                (* allocated *)

#[export] Instance place_eq_dec : EqDecision place.
Proof. solve_decision. Defined.

(** [l] lists the chunks at a place, each once. *)
Definition holds (loc : gmap ptr place) (pl : place) (l : list ptr) : Prop :=
  NoDup l /\ forall x, x ∈ l <-> loc !! x = Some pl.

(** The chunks of [l] have moved to a place. *)
Definition moves (l : list ptr) (pl : place) (loc : gmap ptr place) : gmap ptr place :=
  foldr (fun x => <[x := pl]>) loc l.

Lemma lookup_moves l pl loc x :
  moves l pl loc !! x = if decide (x ∈ l) then Some pl else loc !! x.
Proof.
  induction l as [|y l IH]; simpl; [done|].
  destruct (decide (x = y)) as [-> | Hne].
  - rewrite lookup_insert_eq. by rewrite decide_True by set_solver.
  - rewrite lookup_insert_ne, IH by done. repeat case_decide; set_solver.
Qed.

Lemma holds_out loc pl pl' l0 l l' :
  holds loc pl l0 -> l0 ≡ₚ l ++ l' -> pl' <> pl -> holds (moves l pl' loc) pl l'.
Proof.
  intros [Hnd Hin] Hp Hne. rewrite Hp in Hnd. apply NoDup_app in Hnd as (Hl & Hd & Hl').
  split; [done|]. intros x. rewrite lookup_moves. specialize (Hin x). rewrite Hp in Hin.
  destruct (decide (x ∈ l)); [naive_solver|]. set_solver.
Qed.

Lemma holds_in loc pl pl' l0 l l1 :
  holds loc pl l0 -> NoDup l -> (forall x, x ∈ l -> loc !! x = Some pl') -> pl' <> pl ->
  l1 ≡ₚ l ++ l0 -> holds (moves l pl loc) pl l1.
Proof.
  intros [Hnd Hin] Hl Hpl Hne Hp. split.
  - rewrite Hp. apply NoDup_app. split_and!; [done| |done]. intros x Hx Hx0%Hin.
    apply Hpl in Hx. congruence.
  - intros x. rewrite lookup_moves, Hp, elem_of_app, Hin. destruct (decide (x ∈ l)); naive_solver.
Qed.

Lemma holds_other loc pl p1 p2 l0 l :
  holds loc pl l0 -> (forall x, x ∈ l -> loc !! x = Some p1) -> p1 <> pl -> p2 <> pl ->
  holds (moves l p2 loc) pl l0.
Proof.
  intros [Hnd Hin] Hpl H1 H2. split; [done|]. intros x. rewrite lookup_moves, Hin.
  destruct (decide (x ∈ l)) as [Hx|]; [|done]. apply Hpl in Hx. naive_solver.
Qed.

(** * Lists of chunks *)
Abbreviation heap := (gmap ptr chunk_head).

Fixpoint linked (H : heap) (p : ptr) (l : list ptr) : Prop :=
  match l with
  | [] => p = NULL
  | x :: l' => p = x /\ x <> NULL /\ exists h, H !! x = Some h /\ linked H (ch_next h) l'
  end.

(** The chunks of a core's list, in order, and its tail and length. *)
Record queue_of (H : heap) (q : chunk_list) (l : list ptr) : Prop := {
  qo_linked : linked H (cl_hpkt q) l;
  qo_len : cl_len q = Z.of_nat (length l);
  qo_last t : last l = Some t -> cl_pkt q = t;
}.

Lemma linked_ext (H H' : heap) p l :
  (forall x, x ∈ l -> ch_next <$> H' !! x = ch_next <$> H !! x) -> linked H p l -> linked H' p l.
Proof.
  revert p. induction l as [|x l IH]; intros p Hx; simpl; [done|].
  intros (-> & Hn & h & Hh & Hl). split_and!; [done..|].
  specialize (Hx x ltac:(set_solver)) as Hxx. rewrite Hh in Hxx. simpl in Hxx.
  apply fmap_Some in Hxx as (h' & Hh' & Heq). exists h'. split; [done|]. rewrite <- Heq.
  apply IH; [set_solver|done].
Qed.

Lemma queue_of_ext H H' q l :
  (forall x, x ∈ l -> ch_next <$> H' !! x = ch_next <$> H !! x) -> queue_of H q l -> queue_of H' q l.
Proof. intros Hx []. split; [by eapply linked_ext | done | done]. Qed.

(** Linking a chunk behind the last one. *)
Lemma linked_snoc (H : heap) p l t x h :
  linked H p l -> last l = Some t -> NoDup (l ++ [x]) -> x <> NULL -> H !! x = Some h -> ch_next h = NULL ->
  forall ht, H !! t = Some ht -> linked (<[t := ht <| ch_next := x |>]> H) p (l ++ [x]).
Proof.
  intros Hl Ht Hnd Hx Hh Hnext ht Hht. revert p Hl Ht Hnd.
  induction l as [|y l IH]; intros p Hl Ht Hnd; [done|].
  destruct Hl as (-> & Hy & hy & Hhy & Hl). simpl app. cbn [linked]. split_and!; [done..|].
  apply NoDup_cons in Hnd as [Hyn Hnd].
  destruct l as [|z l].
  - simpl in Ht. injection Ht as ->. exists (ht <| ch_next := x |>).
    rewrite lookup_insert_eq. split; [done|]. simpl. split_and!; [done..|].
    exists h. rewrite lookup_insert_ne by set_solver. done.
  - assert (y <> t). { intros ->. apply Hyn. rewrite last_cons_cons in Ht.
      apply last_Some_elem_of in Ht. set_solver. }
    exists hy. rewrite lookup_insert_ne by done. split; [done|]. by apply IH.
Qed.

Lemma linked_lookup H p l x : linked H p l -> x ∈ l -> exists h, H !! x = Some h.
Proof.
  revert p. induction l as [|y l IH]; intros p; simpl; [set_solver|].
  intros (_ & _ & h & Hh & Hl) [-> | Hx]%elem_of_cons; eauto.
Qed.

(** Appending a chunk: what the two stores do to the heads, and the queue that
    results.  [relinked H H' k] tells that only [ch_next] of the chunks of [k]
    has changed. *)
Definition relinked (H H' : heap) (k : list ptr) : Prop :=
  (forall y, y ∉ k -> H' !! y = H !! y) /\
  forall y h, H !! y = Some h -> exists h', H' !! y = Some h' /\ ch_re h' = ch_re h /\ ch_pool h' = ch_pool h.

Definition append_heads (H : heap) (q : chunk_list) (x : ptr) (h : chunk_head) : heap :=
  let H1 := <[x := h <| ch_next := NULL |>]> H in
  if decide (cl_len q = 0) then H1 else
  match H !! cl_pkt q with
  | Some t => <[cl_pkt q := t <| ch_next := x |>]> H1
  | None => H1
  end.

Definition append_queue (q : chunk_list) (x : ptr) : chunk_list :=
  if decide (cl_len q = 0) then ChunkList (cl_len q + 1) x x
  else q <| cl_pkt := x |> <| cl_len := cl_len q + 1 |>.

Lemma relinked_insert H x h h' k :
  H !! x = Some h -> ch_re h' = ch_re h -> ch_pool h' = ch_pool h -> x ∈ k -> relinked H (<[x := h']> H) k.
Proof.
  intros Hx Hr Hp Hk. split.
  - intros y Hy. rewrite lookup_insert_ne; [done|]. by intros ->.
  - intros y hy Hy. destruct (decide (y = x)) as [-> | Hne].
    + rewrite lookup_insert_eq. exists h'. naive_solver.
    + rewrite lookup_insert_ne by done. eauto.
Qed.

Lemma relinked_trans H1 H2 H3 k : relinked H1 H2 k -> relinked H2 H3 k -> relinked H1 H3 k.
Proof.
  intros [Ha Hb] [Hc Hd]. split.
  - intros y Hy. by rewrite Hc, Ha.
  - intros y h (h1 & Hh1 & Hr & Hp)%Hb. apply Hd in Hh1 as (h2 & Hh2 & Hr2 & Hp2).
    exists h2. split_and!; [done | congruence..].
Qed.

(** The tail of a queue that is not empty is one of its chunks. *)
Lemma queue_tail H q l :
  queue_of H q l -> cl_len q <> 0 ->
  last l = Some (cl_pkt q) /\ cl_pkt q ∈ l /\ exists t, H !! cl_pkt q = Some t.
Proof.
  intros [Hl Hn Ht] Hz. destruct (last l) as [t|] eqn:El.
  - rewrite (Ht t eq_refl). pose proof (last_Some_elem_of _ _ El) as Hin.
    split_and!; [done..|]. by eapply linked_lookup.
  - apply last_None in El as ->. simpl in Hn. lia.
Qed.

Lemma append_run H q l x h :
  queue_of H q l -> NoDup (l ++ [x]) -> x <> NULL -> H !! x = Some h ->
  queue_of (append_heads H q x h) (append_queue q x) (l ++ [x]) /\
  relinked H (append_heads H q x h) (l ++ [x]).
Proof.
  intros Hq Hnd Hx Hh. pose proof Hq as [Hl Hn Ht]. unfold append_heads, append_queue.
  destruct (decide (cl_len q = 0)) as [Hz|Hz].
  - destruct l; [|simpl in Hn; lia]. split; [|apply (relinked_insert _ _ h); set_solver].
    split; simpl; [|lia|congruence]. split_and!; [done..|]. eexists. by rewrite lookup_insert_eq.
  - destruct (queue_tail _ _ _ Hq Hz) as (El & Hin & t & Htt). rewrite Htt.
    assert (cl_pkt q <> x) as Hne. { intros <-. apply NoDup_app in Hnd as (_ & Hd & _). set_solver. }
    assert (linked (<[x := h <| ch_next := NULL |>]> H) (cl_hpkt q) l) as Hl'.
    { revert Hl. apply linked_ext. intros y Hy. rewrite lookup_insert_ne; [done|]. intros <-.
      apply NoDup_app in Hnd as (_ & Hd & _). set_solver. }
    split.
    + split; simpl.
      * eapply linked_snoc; eauto; [by rewrite lookup_insert_eq | done | by rewrite lookup_insert_ne].
      * rewrite length_app. simpl. lia.
      * rewrite last_snoc. congruence.
    + eapply (relinked_trans _ (<[x := h <| ch_next := NULL |>]> H)).
      * apply (relinked_insert _ _ h); set_solver.
      * apply (relinked_insert _ _ t); [by rewrite lookup_insert_ne | done | done | set_solver].
Qed.

(** * The invariant *)
Section Invariant.
Context {P E : Type} `{!RteMempool P E, !RteMempoolLaws P E}.
Abbreviation arena := (arena P).
Implicit Types (a : arena) (loc : gmap ptr place).

Definition private_pool (a : arena) (c : nat) (mp : ptr) : Prop :=
  mempool_p (ar_ctx a) !! c = Some (Some mp).

(** The pools a chunk at a place can come from; a list belongs to a core. *)
Definition origin (a : arena) (pl : place) (mp : ptr) : Prop :=
  match pl with
  | Private c => private_pool a c mp
  | Public => mp = mempool_s (ar_ctx a)
  | Taken c | Freed c => (c < MAX_CPUS)%nat /\ mp = mempool_s (ar_ctx a)
  | Used => mp = mempool_s (ar_ctx a) \/ exists c, private_pool a c mp
  end.

(** What the memory has at a place. *)
Definition stock (a : arena) (pl : place) (l : list ptr) : Prop :=
  match pl with
  | Private c => exists mp p, private_pool a c mp /\ ar_pools a !! mp = Some p /\ l = mp_objects p
  | Public => exists p, ar_pools a !! mempool_s (ar_ctx a) = Some p /\ l = mp_objects p
  | Taken c => exists q, l_list (ar_ctx a) !! c = Some q /\ queue_of (ar_heads a) q l
  | Freed c => exists q, s_list (ar_ctx a) !! c = Some q /\ queue_of (ar_heads a) q l
  | Used => True
  end.

Definition valid_place (a : arena) (pl : place) : Prop :=
  match pl with
  | Private c => Z.of_nat c < max_core (ar_ctx a)
  | Taken c | Freed c => (c < MAX_CPUS)%nat
  | Public => True
  | Used => False
  end.

(** A chunk's head, and DPDK's header, name the pool it came from. *)
Definition head_ok (a : arena) (x : ptr) (pl : place) : Prop :=
  NULL < x /\ exists h, ar_heads a !! x = Some h /\ ch_re h = x + sizeof_chunk_head /\
    ar_owner a !! x = Some (ch_pool h) /\ origin a pl (ch_pool h).

(** The context: what no call changes after the creation. *)
Record context_ok (a : arena) : Prop := {
  co_type : mt_type (ar_ctx a) = 2;
  co_fns : chunk_fns (ar_ctx a) = true;
  co_cores : max_core (ar_ctx a) <= Z.of_nat MAX_CPUS;
  co_l : length (l_list (ar_ctx a)) = MAX_CPUS;
  co_s : length (s_list (ar_ctx a)) = MAX_CPUS;
  co_shared : mempool_s (ar_ctx a) <> NULL;
  co_private c mp : private_pool a c mp -> mp <> NULL /\ mp <> mempool_s (ar_ctx a);
  co_bound c mp : private_pool a c mp -> Z.of_nat c < max_core (ar_ctx a);
  co_inj c c' mp : private_pool a c mp -> private_pool a c' mp -> c = c';
}.

Record placed (a : arena) (loc : gmap ptr place) : Prop := {
  pi_ctx : context_ok a;
  pi_stock pl : valid_place a pl -> exists l, stock a pl l /\ holds loc pl l;
  pi_heads x pl : loc !! x = Some pl -> head_ok a x pl;
}.

(** Between calls no list of chunks to give back is full. *)
Definition short (a : arena) : Prop :=
  forall c q, s_list (ar_ctx a) !! c = Some q -> cl_len q < Z.of_nat TEST_ARR.

(** ** Moving chunks *)

(** The parts of the memory that stay when chunks move. *)
Record same_frame (a a' : arena) : Prop := {
  sf_p : mempool_p (ar_ctx a') = mempool_p (ar_ctx a);
  sf_s : mempool_s (ar_ctx a') = mempool_s (ar_ctx a);
  sf_core : max_core (ar_ctx a') = max_core (ar_ctx a);
  sf_type : mt_type (ar_ctx a') = mt_type (ar_ctx a);
  sf_fns : chunk_fns (ar_ctx a') = chunk_fns (ar_ctx a);
  sf_l : length (l_list (ar_ctx a')) = length (l_list (ar_ctx a));
  sf_sl : length (s_list (ar_ctx a')) = length (s_list (ar_ctx a));
  sf_owner : ar_owner a' = ar_owner a;
  sf_heads x h : ar_heads a !! x = Some h ->
    exists h', ar_heads a' !! x = Some h' /\ ch_re h' = ch_re h /\ ch_pool h' = ch_pool h;
}.

Lemma same_frame_refl a : same_frame a a.
Proof. by split; eauto. Qed.

Lemma same_frame_trans a b c : same_frame a b -> same_frame b c -> same_frame a c.
Proof.
  intros H1 H2. split; try (destruct H1, H2; congruence).
  intros x h Hh. destruct (sf_heads _ _ H1 _ _ Hh) as (h1 & Hh1 & Hr & Hp).
  destruct (sf_heads _ _ H2 _ _ Hh1) as (h2 & Hh2 & Hr2 & Hp2).
  exists h2. split_and!; [done | congruence | congruence].
Qed.

Lemma same_frame_private a a' c mp : same_frame a a' -> private_pool a' c mp <-> private_pool a c mp.
Proof. intros H. unfold private_pool. by rewrite (sf_p _ _ H). Qed.

Lemma same_frame_origin a a' pl mp : same_frame a a' -> origin a pl mp -> origin a' pl mp.
Proof.
  intros H. destruct pl; simpl; unfold private_pool; rewrite ?(sf_p _ _ H), ?(sf_s _ _ H); done.
Qed.

Lemma same_frame_ctx a a' : same_frame a a' -> context_ok a -> context_ok a'.
Proof.
  intros H [H1 H2 H3 H4 H5 H6 H7 H9 H8]. pose proof H as [F1 F2 F3 F4 F5 F6 F7 _ _].
  split; try congruence.
  - intros c mp Hp%(same_frame_private _ _ _ _ H). rewrite F2. by eapply H7.
  - intros c mp Hp%(same_frame_private _ _ _ _ H). rewrite F3. by eapply H9.
  - intros c c' mp Hp%(same_frame_private _ _ _ _ H) Hp'%(same_frame_private _ _ _ _ H). by eapply H8.
Qed.

(** Chunks move from a place to another; the other places keep their stock. *)
Lemma placed_moves a a' loc l p1 p2 :
  placed a loc -> same_frame a a' -> p1 <> p2 -> NoDup l ->
  (forall x, x ∈ l -> loc !! x = Some p1) ->
  (forall x mp, x ∈ l -> ar_owner a !! x = Some mp -> origin a p2 mp) ->
  (valid_place a p1 -> exists l0 l1, holds loc p1 l0 /\ l0 ≡ₚ l ++ l1 /\ stock a' p1 l1) ->
  (valid_place a p2 -> exists l0 l1, holds loc p2 l0 /\ l1 ≡ₚ l ++ l0 /\ stock a' p2 l1) ->
  (forall pl k, pl <> p1 -> pl <> p2 -> valid_place a pl -> holds loc pl k -> stock a pl k -> stock a' pl k) ->
  placed a' (moves l p2 loc).
Proof.
  intros Hp Hf Hne Hnd Hat Horig H1 H2 Hrest. split.
  - eapply same_frame_ctx; [done | apply Hp].
  - intros pl Hv. assert (valid_place a pl) as Hv0.
    { revert Hv. unfold valid_place. by rewrite (sf_core _ _ Hf). }
    destruct (decide (pl = p1)) as [-> | Hn1].
    { destruct (H1 Hv0) as (l0 & l1 & Hh & Hl & Hs). exists l1. split; [done|]. by eapply holds_out. }
    destruct (decide (pl = p2)) as [-> | Hn2].
    { destruct (H2 Hv0) as (l0 & l1 & Hh & Hl & Hs). exists l1. split; [done|]. by eapply holds_in. }
    destruct (pi_stock _ _ Hp pl Hv0) as (k & Hs & Hk). exists k. split; [by apply Hrest|].
    by eapply holds_other.
  - intros x pl. rewrite lookup_moves. intros Hx.
    assert (exists pl0, loc !! x = Some pl0 /\ (forall mp, ar_owner a !! x = Some mp -> origin a pl0 mp ->
      origin a pl mp)) as (pl0 & Hx0 & Ho).
    { destruct (decide (x ∈ l)) as [Hin|]; [|by eauto]. injection Hx as <-. eauto. }
    destruct (pi_heads _ _ Hp _ _ Hx0) as (Hpos & h & Hh & Hre & Hown & Hor). split; [done|].
    destruct (sf_heads _ _ Hf _ _ Hh) as (h' & Hh' & Hre' & Hpool). exists h'.
    rewrite Hre', Hpool, (sf_owner _ _ Hf). split_and!; [done..|].
    eapply same_frame_origin; [done|]. by apply Ho.
Qed.

(** Changes that keep the links keep the places. *)
Lemma placed_same a a' loc :
  placed a loc -> same_frame a a' ->
  (forall pl k, valid_place a pl -> stock a pl k -> stock a' pl k) -> placed a' loc.
Proof.
  intros Hp Hf Hs. split.
  - eapply same_frame_ctx; [done | apply Hp].
  - intros pl Hv. assert (valid_place a pl) as Hv0.
    { revert Hv. unfold valid_place. by rewrite (sf_core _ _ Hf). }
    destruct (pi_stock _ _ Hp pl Hv0) as (k & Hk & Hh). eauto.
  - intros x pl (Hpos & h & Hh & Hre & Hown & Hor)%(pi_heads _ _ Hp). split; [done|].
    destruct (sf_heads _ _ Hf _ _ Hh) as (h' & Hh' & Hre' & Hpool). exists h'.
    rewrite Hre', Hpool, (sf_owner _ _ Hf). split_and!; [done..|]. by eapply same_frame_origin.
Qed.

(** ** Steps of the memory *)
Lemma frame_set_pool a mp p : same_frame a (a <| ar_pools ::= <[mp := p]> |>).
Proof. by split; eauto. Qed.

Lemma frame_heads a H k : relinked (ar_heads a) H k -> same_frame a (a <| ar_heads := H |>).
Proof. intros [_ Hh]. by split. Qed.

Lemma stock_set_pool a mp p pl k :
  (forall c, pl = Private c -> ~ private_pool a c mp) -> (pl = Public -> mempool_s (ar_ctx a) <> mp) ->
  stock a pl k -> stock (a <| ar_pools ::= <[mp := p]> |>) pl k.
Proof.
  intros H1 H2. destruct pl as [c| |c|c|]; simpl; try done.
  - intros (mp' & p' & Hmp & Hp' & ->). exists mp', p'. rewrite lookup_insert_ne; [done|].
    intros ->. by eapply H1.
  - intros (p' & Hp' & ->). exists p'. rewrite lookup_insert_ne; [done|]. intros ->. by apply H2.
Qed.

(** A change of the links of chunks [l] leaves the lists without them alone. *)
Lemma stock_relinked a H k pl l :
  relinked (ar_heads a) H k -> (forall x, x ∈ l -> x ∉ k) -> stock a pl l -> stock (a <| ar_heads := H |>) pl l.
Proof.
  intros [Hr _] Hd. destruct pl as [c| |c|c|]; simpl; try done;
    intros (q & Hq & Hl); exists q; (split; [done|]); revert Hl; apply queue_of_ext;
    intros x Hx; by rewrite Hr by auto.
Qed.

(** A change that keeps every link. *)
Lemma stock_same_next a H pl l :
  (forall x, ch_next <$> H !! x = ch_next <$> ar_heads a !! x) -> stock a pl l -> stock (a <| ar_heads := H |>) pl l.
Proof.
  intros Hn. destruct pl as [c| |c|c|]; simpl; try done;
    intros (q & Hq & Hl); exists q; (split; [done|]); revert Hl; by apply queue_of_ext.
Qed.

Lemma set_head_run x f a h :
  ar_heads a !! x = Some h -> set_head x f a = Ok (tt, a <| ar_heads ::= <[x := f h]> |>).
Proof. intros Hh. unfold set_head, mbind, M_bind, head_at. by rewrite Hh. Qed.

Lemma head_at_run x a h : ar_heads a !! x = Some h -> head_at x a = Ok (h, a).
Proof. intros Hh. unfold head_at. by rewrite Hh. Qed.

Lemma pool_at_run mp a p : ar_pools a !! mp = Some p -> pool_at mp a = Ok (p, a).
Proof. intros Hh. unfold pool_at. by rewrite Hh. Qed.

Lemma l_at_run c a q : l_list (ar_ctx a) !! c = Some q -> l_at (Z.of_nat c) a = Ok (q, a).
Proof. intros Hq. unfold l_at. step by done. apply lift_ok. by apply read_at_nat. Qed.

Lemma s_at_run c a q : s_list (ar_ctx a) !! c = Some q -> s_at (Z.of_nat c) a = Ok (q, a).
Proof. intros Hq. unfold s_at. step by done. apply lift_ok. by apply read_at_nat. Qed.

Definition with_l (a : arena) (c : nat) (q : chunk_list) : arena :=
  a <| ar_ctx ::= fun m => m <| l_list ::= <[c := q]> |> |>.
Definition with_s (a : arena) (c : nat) (q : chunk_list) : arena :=
  a <| ar_ctx ::= fun m => m <| s_list ::= <[c := q]> |> |>.

Lemma set_l_run c a q : (c < length (l_list (ar_ctx a)))%nat -> set_l (Z.of_nat c) q a = Ok (tt, with_l a c q).
Proof. intros Hc. unfold set_l. step by done. step by (apply lift_ok; by apply write_at_nat). done. Qed.

Lemma set_s_run c a q : (c < length (s_list (ar_ctx a)))%nat -> set_s (Z.of_nat c) q a = Ok (tt, with_s a c q).
Proof. intros Hc. unfold set_s. step by done. step by (apply lift_ok; by apply write_at_nat). done. Qed.

Lemma frame_with_l a c q : same_frame a (with_l a c q).
Proof. split; try done; [apply length_insert | eauto]. Qed.

Lemma frame_with_s a c q : same_frame a (with_s a c q).
Proof. split; try done; [apply length_insert | eauto]. Qed.

Lemma stock_with_l a c q pl k : pl <> Taken c -> stock a pl k -> stock (with_l a c q) pl k.
Proof.
  intros Hne. destruct pl as [c'| |c'|c'|]; simpl; try done.
  by rewrite list_lookup_insert_ne by congruence.
Qed.

Lemma stock_with_s a c q pl k : pl <> Freed c -> stock a pl k -> stock (with_s a c q) pl k.
Proof.
  intros Hne. destruct pl as [c'| |c'|c'|]; simpl; try done.
  by rewrite list_lookup_insert_ne by congruence.
Qed.

(** ** Elementary moves *)
Lemma place_of_owner a loc x pl mp :
  placed a loc -> loc !! x = Some pl -> ar_owner a !! x = Some mp -> origin a pl mp.
Proof. intros Hp (_ & h & _ & _ & Ho & Hor)%(pi_heads _ _ Hp) Hmp. congruence. Qed.

Lemma owner_used a loc x pl mp :
  placed a loc -> loc !! x = Some pl -> valid_place a pl -> ar_owner a !! x = Some mp -> origin a Used mp.
Proof.
  intros Hp Hx Hv Hmp. pose proof (place_of_owner _ _ _ _ _ Hp Hx Hmp) as Ho.
  destruct pl; simpl in *; naive_solver eauto.
Qed.

(** The private pool hands out a chunk. *)
Lemma private_get_placed a loc c mp p x p' :
  placed a loc -> Z.of_nat c < max_core (ar_ctx a) -> private_pool a c mp ->
  ar_pools a !! mp = Some p -> rte_mempool_get p = Some (x, p') ->
  loc !! x = Some (Private c) /\ placed (a <| ar_pools ::= <[mp := p']> |>) (moves [x] Used loc).
Proof.
  intros Hp Hc Hmp Hpool Hget. pose proof (get_some _ _ _ Hget) as Hperm.
  destruct (pi_stock _ _ Hp (Private c) Hc) as (l & (mp' & p0 & Hmp' & Hp0 & ->) & Hh).
  unfold private_pool in *. simplify_eq.
  assert (forall y, y ∈ [x] -> loc !! y = Some (Private c)) as Hat.
  { intros y ->%list_elem_of_singleton. apply Hh. rewrite Hperm. set_solver. }
  split; [apply Hat; set_solver|].
  eapply (placed_moves _ _ _ _ (Private c) Used); [done | apply frame_set_pool | done | apply NoDup_singleton | done | | | by intros [] | ].
  - intros y mp0 Hy Hmp0. by eapply owner_used; eauto.
  - intros _. exists (mp_objects p), (mp_objects p'). split_and!; [done..|].
    exists mp, p'. simpl. by rewrite lookup_insert_eq.
  - intros pl k H1 H2 Hv _. apply stock_set_pool.
    + intros c' -> Hc'. apply H1. f_equal. by eapply (co_inj _ (pi_ctx _ _ Hp)).
    + intros _ Heq. by destruct (co_private _ (pi_ctx _ _ Hp) _ _ Hmp).
Qed.

(** The shared pool hands out chunks in bulk. *)
Lemma public_get_placed a loc p n l p' :
  placed a loc -> ar_pools a !! mempool_s (ar_ctx a) = Some p -> rte_mempool_get_bulk p n = Some (l, p') ->
  NoDup l /\ (forall x, x ∈ l -> loc !! x = Some Public) /\
  placed (a <| ar_pools ::= <[mempool_s (ar_ctx a) := p']> |>) (moves l Used loc).
Proof.
  intros Hp Hpool Hget. destruct (get_bulk_some _ _ _ _ Hget) as [Hlen Hperm].
  destruct (pi_stock _ _ Hp Public I) as (l0 & (p0 & Hp0 & ->) & Hh). simplify_eq.
  assert (NoDup l). { destruct Hh as [Hnd _]. rewrite Hperm in Hnd. by apply NoDup_app in Hnd as [? _]. }
  assert (forall y, y ∈ l -> loc !! y = Some Public) as Hat.
  { intros y Hy. apply Hh. rewrite Hperm. set_solver. }
  split_and!; [done..|].
  eapply (placed_moves _ _ _ _ Public Used); [done | apply frame_set_pool | done | done | done | | | by intros [] | ].
  - intros y mp0 Hy Hmp0. by eapply owner_used; eauto.
  - intros _. exists (mp_objects p), (mp_objects p'). split_and!; [done..|].
    exists p'. simpl. by rewrite lookup_insert_eq.
  - intros pl k H1 H2 Hv _. apply stock_set_pool; [|done].
    intros c' -> Hc'. by apply (co_private _ (pi_ctx _ _ Hp)) in Hc' as [_ []].
Qed.

(** A chunk goes back to its private pool. *)
Lemma private_put_placed a loc x mp p :
  placed a loc -> loc !! x = Some Used -> ar_owner a !! x = Some mp -> mp <> mempool_s (ar_ctx a) ->
  ar_pools a !! mp = Some p ->
  exists c, placed (a <| ar_pools ::= <[mp := rte_mempool_put p x]> |>) (moves [x] (Private c) loc).
Proof.
  intros Hp Hx Hown Hne Hpool.
  destruct (place_of_owner _ _ _ _ _ Hp Hx Hown) as [|[c Hc]]; [done|]. exists c.
  eapply (placed_moves _ _ _ _ Used (Private c)); [done | apply frame_set_pool | done | apply NoDup_singleton | | | by intros [] | | ].
  - by intros y ->%list_elem_of_singleton.
  - intros y mp' ->%list_elem_of_singleton Hmp'. by simplify_eq.
  - intros Hv. destruct (pi_stock _ _ Hp _ Hv) as (l & (mp' & p' & Hmp' & Hp' & ->) & Hh).
    assert (mp' = mp) as -> by (unfold private_pool in *; congruence).
    assert (p' = p) as -> by congruence.
    exists (mp_objects p), (mp_objects (rte_mempool_put p x)). split_and!; [done | apply put_adds|].
    exists mp, (rte_mempool_put p x). simpl. by rewrite lookup_insert_eq.
  - intros pl k H1 H2 Hv _. apply stock_set_pool; [|congruence].
    intros c' -> Hc'. apply H2. f_equal. by eapply (co_inj _ (pi_ctx _ _ Hp)).
Qed.

(** A core takes the first of its list of shared chunks. *)
Lemma taken_pop_placed a loc c q :
  placed a loc -> (c < MAX_CPUS)%nat -> l_list (ar_ctx a) !! c = Some q -> cl_hpkt q <> NULL ->
  exists h, ar_heads a !! cl_hpkt q = Some h /\ loc !! cl_hpkt q = Some (Taken c) /\
    placed (with_l a c (q <| cl_hpkt := ch_next h |> <| cl_len := cl_len q - 1 |>))
      (moves [cl_hpkt q] Used loc).
Proof.
  intros Hp Hc Hq Hn. destruct (pi_stock _ _ Hp (Taken c) Hc) as (l & (q0 & Hq0 & [Hl Hlen Hlast]) & Hh).
  simplify_eq. destruct l as [|x l]; [done|]. destruct Hl as (Hx & _ & h & Hhx & Hl). rewrite Hx.
  assert (loc !! x = Some (Taken c)) as Hat by (apply Hh; set_solver).
  exists h. split_and!; [done..|].
  eapply (placed_moves _ _ _ _ (Taken c) Used);
    [done | apply frame_with_l | done | apply NoDup_singleton | | | | by intros [] | ].
  - by intros y ->%list_elem_of_singleton.
  - intros y mp0 ->%list_elem_of_singleton Hmp0. by eapply owner_used; eauto.
  - intros _. exists (x :: l), l. split_and!; [done..|]. simpl. eexists.
    rewrite list_lookup_insert_eq by (rewrite (co_l _ (pi_ctx _ _ Hp)); lia). split; [done|].
    split; simpl; [done | simpl in Hlen; lia|]. intros t Ht. apply Hlast. destruct l; [done|]. by rewrite last_cons_cons.
  - intros pl k H1 H2 Hv _. by apply stock_with_l.
Qed.

(** A used shared chunk joins a core's list. *)
Lemma append_placed a a' loc x pl q l h :
  placed a loc -> loc !! x = Some Used -> ar_owner a !! x = Some (mempool_s (ar_ctx a)) ->
  origin a pl (mempool_s (ar_ctx a)) -> pl <> Used -> holds loc pl l ->
  ar_heads a !! x = Some h -> queue_of (ar_heads a) q l ->
  let b := a <| ar_heads := append_heads (ar_heads a) q x h |> in
  same_frame b a' ->
  (queue_of (ar_heads b) (append_queue q x) (l ++ [x]) -> stock a' pl (l ++ [x])) ->
  (forall pl' k, pl' <> pl -> stock b pl' k -> stock a' pl' k) ->
  placed a' (moves [x] pl loc) /\ same_frame a a'.
Proof.
  intros Hp Hx Hown Hor Hne Hh Hhx Hq b Hf Hs Hrest.
  assert (NoDup (l ++ [x])) as Hnd.
  { apply NoDup_app. split_and!; [apply Hh | | apply NoDup_singleton].
    intros y Hy%Hh ->%list_elem_of_singleton. congruence. }
  assert (x <> NULL). { apply (pi_heads _ _ Hp) in Hx as [? _]. lia. }
  destruct (append_run _ _ _ _ _ Hq Hnd ltac:(done) Hhx) as [Hq' Hre].
  assert (same_frame a a') as Hfa by (eapply same_frame_trans; [by eapply frame_heads | done]).
  split; [|done]. eapply (placed_moves _ _ _ _ Used pl); [done | done | done | apply NoDup_singleton | | | by intros [] | | ].
  - by intros y ->%list_elem_of_singleton.
  - intros y mp0 ->%list_elem_of_singleton Hmp0. by simplify_eq.
  - intros _. exists l, (l ++ [x]). split_and!; [done | apply Permutation_app_comm | auto].
  - intros pl' k H1 H2 Hv Hk Hst. apply Hrest; [done|]. eapply stock_relinked; [done| |done].
    intros y Hy [Hy' | ->%list_elem_of_singleton]%elem_of_app; apply Hk in Hy; [|congruence].
    apply Hh in Hy'. congruence.
Qed.

Lemma taken_append a loc c x q h :
  placed a loc -> (c < MAX_CPUS)%nat -> loc !! x = Some Used ->
  ar_owner a !! x = Some (mempool_s (ar_ctx a)) ->
  l_list (ar_ctx a) !! c = Some q -> ar_heads a !! x = Some h ->
  let a' := with_l (a <| ar_heads := append_heads (ar_heads a) q x h |>) c (append_queue q x) in
  placed a' (moves [x] (Taken c) loc) /\ same_frame a a'.
Proof.
  intros Hp Hc Hx Hown Hq Hh. destruct (pi_stock _ _ Hp (Taken c) Hc) as (l & (q0 & Hq0 & Hql) & Hl).
  simplify_eq. intros a'. apply (append_placed a _ loc x (Taken c) q l h); [done.. | apply frame_with_l | |].
  - intros Hq'. simpl. eexists. rewrite list_lookup_insert_eq; [done|].
    rewrite (co_l _ (pi_ctx _ _ Hp)). lia.
  - intros pl' k Hne. by apply stock_with_l.
Qed.

Lemma freed_append a loc c x q h :
  placed a loc -> (c < MAX_CPUS)%nat -> loc !! x = Some Used ->
  ar_owner a !! x = Some (mempool_s (ar_ctx a)) ->
  s_list (ar_ctx a) !! c = Some q -> ar_heads a !! x = Some h ->
  let a' := with_s (a <| ar_heads := append_heads (ar_heads a) q x h |>) c (append_queue q x) in
  placed a' (moves [x] (Freed c) loc) /\ same_frame a a'.
Proof.
  intros Hp Hc Hx Hown Hq Hh. destruct (pi_stock _ _ Hp (Freed c) Hc) as (l & (q0 & Hq0 & Hql) & Hl).
  simplify_eq. intros a'. apply (append_placed a _ loc x (Freed c) q l h); [done.. | apply frame_with_s | |].
  - intros Hq'. simpl. eexists. rewrite list_lookup_insert_eq; [done|].
    rewrite (co_s _ (pi_ctx _ _ Hp)). lia.
  - intros pl' k Hne. by apply stock_with_s.
Qed.

(** A full list of freed chunks goes back to the shared pool. *)
Lemma freed_flush a loc c q p l :
  placed a loc -> (c < MAX_CPUS)%nat -> s_list (ar_ctx a) !! c = Some q -> holds loc (Freed c) l ->
  ar_pools a !! mempool_s (ar_ctx a) = Some p ->
  placed (with_s (a <| ar_pools ::= <[mempool_s (ar_ctx a) := rte_mempool_put_bulk p l]> |>) c
            (ChunkList 0 NULL NULL)) (moves l Public loc).
Proof.
  intros Hp Hc Hq Hl Hpool.
  eapply (placed_moves _ _ _ _ (Freed c) Public); [done | | done | apply Hl | | | | | ].
  - eapply same_frame_trans; [apply frame_set_pool | apply frame_with_s].
  - intros x. apply Hl.
  - intros x mp Hx Hmp. apply Hl in Hx. exact (proj2 (place_of_owner _ _ _ _ _ Hp Hx Hmp)).
  - intros _. exists l, []. rewrite app_nil_r. split_and!; [done..|]. simpl. eexists.
    rewrite list_lookup_insert_eq by (rewrite (co_s _ (pi_ctx _ _ Hp)); lia). by split.
  - intros _. destruct (pi_stock _ _ Hp Public I) as (l0 & (p0 & Hp0 & ->) & Hh). simplify_eq.
    exists (mp_objects p), (mp_objects (rte_mempool_put_bulk p l)). split_and!; [done | apply put_bulk_adds|].
    simpl. eexists. by rewrite lookup_insert_eq.
  - intros pl k H1 H2 Hv _ Hs. apply stock_with_s; [done|]. apply stock_set_pool; [|done|done].
    intros c' -> Hc'. by apply (co_private _ (pi_ctx _ _ Hp)) in Hc' as [_ []].
Qed.

(** ** Runs of the allocator *)
Lemma moves_app l l' pl loc : moves (l ++ l') pl loc = moves l pl (moves l' pl loc).
Proof. unfold moves. by rewrite foldr_app. Qed.

Lemma moves_comm l l' pl loc : moves l pl (moves l' pl loc) = moves l' pl (moves l pl loc).
Proof. apply map_eq. intros x. rewrite !lookup_moves. by repeat case_decide. Qed.

Lemma moves_back l p1 p2 loc : moves l p2 (moves l p1 loc) = moves l p2 loc.
Proof. apply map_eq. intros x. rewrite !lookup_moves. by case_decide. Qed.

(** Stores to fields of a head that no link and no release reads. *)
Lemma touch_placed a loc x h h' :
  placed a loc -> ar_heads a !! x = Some h -> ch_next h' = ch_next h -> ch_re h' = ch_re h ->
  ch_pool h' = ch_pool h -> placed (a <| ar_heads ::= <[x := h']> |>) loc.
Proof.
  intros Hp Hh Hn Hr Hpo. apply (placed_same a); [done | |].
  - apply (frame_heads _ _ [x]). apply (relinked_insert _ _ h); [done..|set_solver].
  - intros pl k _. apply stock_same_next. intros y.
    destruct (decide (y = x)) as [-> | Hne]; [|by rewrite lookup_insert_ne].
    by rewrite lookup_insert_eq, Hh; simpl; rewrite Hn.
Qed.

Lemma used_head a loc x pl :
  placed a loc -> loc !! x = Some pl ->
  NULL < x /\ exists h, ar_heads a !! x = Some h /\ ch_re h = x + sizeof_chunk_head /\
    ar_owner a !! x = Some (ch_pool h).
Proof. intros Hp (Hx & h & Hh & Hre & Ho & _)%(pi_heads _ _ Hp). eauto 10. Qed.

Lemma l_append_run a loc c x q h :
  placed a loc -> (c < MAX_CPUS)%nat -> loc !! x = Some Used -> l_list (ar_ctx a) !! c = Some q ->
  ar_heads a !! x = Some h ->
  l_append (Z.of_nat c) x a =
  Ok (tt, with_l (a <| ar_heads := append_heads (ar_heads a) q x h |>) c (append_queue q x)).
Proof.
  intros Hp Hc Hx Hq Hh. pose proof (co_l _ (pi_ctx _ _ Hp)) as Hlen.
  destruct (pi_stock _ _ Hp (Taken c) Hc) as (l & (q0 & Hq0 & Hql) & Hl). simplify_eq.
  unfold l_append. step by (by apply l_at_run). unfold append_heads, append_queue.
  destruct (decide (cl_len q = 0)) as [Hz|Hz].
  - step by (by apply set_head_run). rewrite set_l_run by (simpl; lia). done.
  - destruct (queue_tail _ _ _ Hql Hz) as (El & Hin & t & Htt). rewrite Htt.
    assert (cl_pkt q <> x). { intros <-. apply Hl in Hin. congruence. }
    step by (by apply set_head_run).
    step by (apply set_head_run; simpl; rewrite lookup_insert_ne; done).
    rewrite set_l_run by (simpl; lia). simpl. by rewrite insert_insert_ne by done.
Qed.

(** What an allocation leaves of the context. *)
Definition ctx_frame a a' : Prop :=
  s_list (ar_ctx a') = s_list (ar_ctx a) /\ mempool_p (ar_ctx a') = mempool_p (ar_ctx a) /\
  max_core (ar_ctx a') = max_core (ar_ctx a) /\ mempool_s (ar_ctx a') = mempool_s (ar_ctx a).

(** All the chunks taken in bulk but the last join the core's list. *)
Lemma take_loop_run c l i a loc :
  placed a loc -> (c < MAX_CPUS)%nat -> (i + length l = ALLOC_NUM)%nat -> l <> [] -> NoDup l ->
  (forall x, x ∈ l -> loc !! x = Some Used /\ ar_owner a !! x = Some (mempool_s (ar_ctx a))) ->
  exists l' x a', l = l' ++ [x] /\ take_loop (Z.of_nat c) i l a = Ok (x + sizeof_chunk_head, a') /\
    placed a' (moves l' (Taken c) loc) /\ ctx_frame a a'.
Proof.
  intros Hp Hc. revert i a loc Hp. induction l as [|x l IH]; intros i a loc Hp Hi Hne Hnd Hl; [done|].
  destruct (Hl x ltac:(set_solver)) as [Hx Hown].
  destruct (used_head _ _ _ _ Hp Hx) as (Hpos & h & Hh & Hre & _). simpl in Hi.
  cbn [take_loop]. rewrite decide_False by (unfold NULL in *; lia).
  destruct l as [|y l].
  - rewrite decide_True by (simpl in Hi; lia). exists [], x, a. split_and!; [done| |done|by split_and!].
    step by (by apply head_at_run). by rewrite Hre.
  - rewrite decide_False by (simpl in Hi; lia).
    destruct (lookup_lt_is_Some_2 (l_list (ar_ctx a)) c) as [q Hq].
    { rewrite (co_l _ (pi_ctx _ _ Hp)). lia. }
    step by (by eapply l_append_run).
    apply NoDup_cons in Hnd as [Hxn Hnd].
    destruct (taken_append _ _ _ _ _ _ Hp Hc Hx Hown Hq Hh) as [Hp' _].
    destruct (IH (S i) _ _ Hp') as (l' & z & a' & Heq & Hrun & Hp2 & Hs);
      [simpl in Hi |- *; lia | done | done | |].
    { intros w Hw. destruct (Hl w ltac:(set_solver)) as [Hw1 Hw2]. split; [|done].
      rewrite lookup_moves, decide_False; [done|]. set_solver. }
    exists (x :: l'), z, a'. rewrite Heq. split_and!; [done | | | done].
    + rewrite <- Hrun. by rewrite <- Heq.
    + change (x :: l') with ([x] ++ l'). rewrite moves_app, moves_comm. done.
Qed.

(** The chunks in the hands of callers. *)
Definition in_use (loc : gmap ptr place) : gset ptr := dom (filter (fun kv => kv.2 = Used) loc).

Lemma elem_of_in_use loc x : x ∈ in_use loc <-> loc !! x = Some Used.
Proof.
  unfold in_use. rewrite elem_of_dom. unfold is_Some.
  setoid_rewrite map_lookup_filter_Some. simpl. naive_solver.
Qed.

Lemma dom_moves l pl loc : (forall x, x ∈ l -> is_Some (loc !! x)) -> dom (moves l pl loc) = dom loc.
Proof.
  intros Hl. apply set_eq. intros x. rewrite !elem_of_dom, lookup_moves.
  destruct (decide (x ∈ l)) as [Hx|]; [|done]. split; [by intros _; apply Hl | by eauto].
Qed.

(** What an allocation does to the places: [x] changes hands. *)
Definition hands_out (loc loc' : gmap ptr place) (x : ptr) : Prop :=
  x ∈ dom loc /\ x ∉ in_use loc /\ in_use loc' = {[x]} ∪ in_use loc /\ dom loc' = dom loc.

Lemma hands_out_one loc x pl : loc !! x = Some pl -> pl <> Used -> hands_out loc (moves [x] Used loc) x.
Proof.
  intros Hx Hne. split_and!.
  - apply elem_of_dom. eauto.
  - rewrite elem_of_in_use. congruence.
  - apply set_eq. intros y. rewrite elem_of_union, !elem_of_in_use, lookup_moves, elem_of_singleton.
    case_decide; set_solver.
  - apply dom_moves. intros y ->%list_elem_of_singleton. eauto.
Qed.

(** The core's own pool, and then its list of shared chunks. *)
Lemma alloc_private a loc c mp :
  placed a loc -> Z.of_nat c < max_core (ar_ctx a) -> private_pool a c mp ->
  exists r a' loc', chunk_alloc_notype mp 1 (Z.of_nat c) a = Ok (r, a') /\
    placed a' loc' /\ ctx_frame a a' /\
    (r = NULL /\ a' = a /\ loc' = loc /\ holds loc (Private c) [] /\ holds loc (Taken c) [] \/
     exists x, r = x + sizeof_chunk_head /\ NULL < x /\ hands_out loc loc' x).
Proof.
  intros Hp Hc Hmp. pose proof (pi_ctx _ _ Hp) as Hctx.
  destruct (co_private _ Hctx _ _ Hmp) as [Hn Hns].
  assert (c < MAX_CPUS)%nat as Hcpu by (pose proof (co_cores _ Hctx); lia).
  destruct (pi_stock _ _ Hp (Private c) Hc) as (lp & (mp' & p & Hmp' & Hpool & ->) & Hlp).
  assert (mp' = mp) as -> by (unfold private_pool in *; congruence).
  destruct (pi_stock _ _ Hp (Taken c) Hcpu) as (lt & (q & Hq & Hqt) & Hlt).
  unfold chunk_alloc_notype. rewrite decide_False, decide_True by done.
  step by (unfold private_at; step by done; step by (apply lift_ok; by apply read_at_nat); done).
  rewrite bool_decide_eq_true_2 by done. step by done. step by (by apply pool_at_run).
  destruct (rte_mempool_get p) as [[x p']|] eqn:Eget.
  - destruct (private_get_placed _ _ _ _ _ _ _ Hp Hc Hmp Hpool Eget) as [Hx Hp'].
    assert (moves [x] Used loc !! x = Some Used) as Hx' by (rewrite lookup_moves, decide_True; set_solver).
    destruct (used_head _ _ _ _ Hp' Hx') as (Hpos & h & Hh & Hre & Hown).
    pose proof (place_of_owner _ _ _ _ _ Hp Hx Hown) as Hor. simpl in Hor.
    assert (ch_pool h = mp) as Hcp by (unfold private_pool in *; congruence).
    step by done. step by done. rewrite decide_True by (unfold NULL in *; lia).
    step by (by apply set_head_run). step by (apply set_head_run; apply lookup_insert_eq).
    step by (apply head_at_run; apply lookup_insert_eq).
    eexists _, _, (moves [x] Used loc). split; [done|]. split; [|split; [done|]].
    + eapply touch_placed; [|apply lookup_insert_eq|done..].
      eapply touch_placed; [exact Hp' | exact Hh | done | done | done].
    + right. exists x. simpl. split_and!; [done..|]. by eapply hands_out_one.
  - step by done. rewrite decide_False by (intros []; done). step by (by apply l_at_run).
    destruct (decide (cl_hpkt q = NULL)) as [Hz|Hz].
    + exists NULL, a, loc. split_and!; [done..|]. left. split_and!; [done..| |].
      * rewrite <- (get_none _ Eget). done.
      * destruct lt as [|y lt]; [done|]. destruct (qo_linked _ _ _ Hqt) as (? & ? & _). congruence.
    + destruct (taken_pop_placed _ _ _ _ Hp Hcpu Hq Hz) as (h & Hh & Hx & Hp').
      destruct (used_head _ _ _ _ Hp Hx) as (Hpos & h0 & Hh0 & Hre & _). simplify_eq.
      step by (by apply head_at_run).
      step by (apply set_l_run; rewrite (co_l _ Hctx); lia). step by (by apply set_head_run).
      eexists _, _, (moves [cl_hpkt q] Used loc). split; [done|]. split; [|split; [done|]].
      * eapply touch_placed; [exact Hp' | exact Hh | done | done | done].
      * right. exists (cl_hpkt q). split_and!; [done..|]. by eapply hands_out_one.
Qed.

Lemma public_owner a loc x : placed a loc -> loc !! x = Some Public -> ar_owner a !! x = Some (mempool_s (ar_ctx a)).
Proof. intros Hp (_ & h & _ & _ & Ho & Hor)%(pi_heads _ _ Hp). simpl in Hor. by rewrite Ho, Hor. Qed.

(** The shared pool: a batch, or nothing. *)
Lemma alloc_public a loc c :
  placed a loc -> (c < MAX_CPUS)%nat ->
  exists r a' loc', chunk_alloc_notype (mempool_s (ar_ctx a)) 100 (Z.of_nat c) a = Ok (r, a') /\
    placed a' loc' /\ ctx_frame a a' /\
    (r = NULL /\ a' = a /\ loc' = loc /\ (exists l, holds loc Public l /\ (length l < ALLOC_NUM)%nat) \/
     exists x, r = x + sizeof_chunk_head /\ NULL < x /\ hands_out loc loc' x).
Proof.
  intros Hp Hc. pose proof (pi_ctx _ _ Hp) as Hctx.
  destruct (pi_stock _ _ Hp Public I) as (l & (p & Hpool & ->) & Hl).
  unfold chunk_alloc_notype. rewrite decide_False, decide_False by (done || apply Hctx).
  step by done. rewrite bool_decide_eq_true_2 by done. step by done. step by (by apply pool_at_run).
  destruct (rte_mempool_get_bulk p ALLOC_NUM) as [[l p']|] eqn:Eget.
  - destruct (public_get_placed _ _ _ _ _ _ Hp Hpool Eget) as (Hnd & Hat & Hp').
    destruct (get_bulk_some _ _ _ _ Eget) as [Hlen _].
    step by done.
    destruct (take_loop_run c l 0 _ _ Hp' Hc) as (l' & x & a' & -> & Hrun & Hp2 & Hs);
      [done | by intros -> | done | |].
    { intros x Hx. split; [by rewrite lookup_moves, decide_True|]. exact (public_owner _ _ _ Hp (Hat x Hx)). }
    exists (x + sizeof_chunk_head), a', (moves l' (Taken c) (moves (l' ++ [x]) Used loc)).
    split_and!; [done..|]. right. exists x.
    assert (loc !! x = Some Public) as Hx by (apply Hat; set_solver).
    destruct (used_head _ _ _ _ Hp Hx) as [Hpos _]. split_and!; [done..|]. split_and!.
    + apply elem_of_dom. eauto.
    + rewrite elem_of_in_use. congruence.
    + apply NoDup_app in Hnd as (_ & Hd & _). apply set_eq. intros y.
      rewrite elem_of_union, !elem_of_in_use, !lookup_moves, elem_of_singleton.
      specialize (Hat y). specialize (Hd y).
      destruct (decide (y ∈ l')); [|destruct (decide (y ∈ l' ++ [x]))]; set_solver.
    + rewrite !dom_moves; [done| |].
      * intros y Hy. rewrite Hat; [done|]. done.
      * intros y Hy. rewrite lookup_moves, decide_True by set_solver. done.
  - exists NULL, a, loc. split_and!; [done..|]. left. split_and!; [done..|].
    exists (mp_objects p). split; [done|]. by apply get_bulk_none.
Qed.

(** [loc] has nothing a core could be given. *)
Definition exhausted (loc : gmap ptr place) (c : nat) : Prop :=
  holds loc (Private c) [] /\ holds loc (Taken c) [] /\
  exists l, holds loc Public l /\ (length l < ALLOC_NUM)%nat.

Definition pool_inv a loc : Prop :=
  placed a loc /\ short a /\ forall c, Z.of_nat c < max_core (ar_ctx a) -> exists mp, private_pool a c mp.

Lemma pool_inv_core a loc c : pool_inv a loc -> Z.of_nat c < max_core (ar_ctx a) -> (c < MAX_CPUS)%nat.
Proof. intros (Hp & _ & _) Hc. pose proof (co_cores _ (pi_ctx _ _ Hp)). lia. Qed.

Lemma touch_ctx a loc i :
  placed a loc -> placed (a <| ar_ctx ::= fun m => m <| cur_id := i |> |>) loc.
Proof. intros Hp. apply (placed_same a); [done | by split; eauto | by intros [] k]. Qed.

Lemma ctx_frame_inv a a' loc loc' i :
  pool_inv a loc -> ctx_frame (a <| ar_ctx ::= fun m => m <| cur_id := i |> |>) a' -> placed a' loc' -> pool_inv a' loc'.
Proof.
  intros (Hp & Hs & Hc) (F1 & F2 & F3 & F4) Hp'. unfold pool_inv, short, private_pool in *. simpl in *.
  by rewrite F1, F2, F3.
Qed.

Lemma alloc_run a loc c :
  pool_inv a loc -> Z.of_nat c < max_core (ar_ctx a) ->
  exists r a' loc', mempool_alloc_chunk (Z.of_nat c) a = Ok (r, a') /\ pool_inv a' loc' /\
    max_core (ar_ctx a') = max_core (ar_ctx a) /\
    (r = NULL /\ loc' = loc /\ exhausted loc c \/
     exists x, r = x + sizeof_chunk_head /\ NULL < x /\ hands_out loc loc' x).
Proof.
  intros Hinv Hc. pose proof Hinv as (Hp & Hs & Hcores). pose proof (pi_ctx _ _ Hp) as Hctx.
  destruct (Hcores c Hc) as [mp Hmp]. pose proof (pool_inv_core _ _ _ Hinv Hc) as Hcpu.
  unfold mempool_alloc_chunk. step by done. rewrite decide_False by (rewrite (co_type _ Hctx); unfold MAX_TYPES; lia).
  rewrite (co_fns _ Hctx). step by done.
  step by (unfold private_at; step by done; step by (apply lift_ok; by apply read_at_nat); done).
  pose proof (touch_ctx a loc (Z.of_nat c) Hp) as Hp0.
  destruct (alloc_private _ _ c mp Hp0 Hc Hmp) as (r & a1 & loc1 & Hrun & Hp1 & Hf1 & Hcase).
  step by (exact Hrun). destruct Hcase as [(-> & -> & -> & He1 & He2)|(x & -> & Hpos & Hh)].
  - rewrite decide_True by done.
    destruct (alloc_public _ _ c Hp0 Hcpu) as (r & a2 & loc2 & Hrun2 & Hp2 & Hf2 & Hcase).
    exists r, a2, loc2. split; [exact Hrun2|]. split; [by eapply ctx_frame_inv|]. split; [apply Hf2|].
    destruct Hcase as [(-> & _ & -> & Hl)|Hx]; [left; done | by right].
  - rewrite decide_False by (unfold NULL, sizeof_chunk_head in *; lia).
    eexists _, a1, loc1. split; [done|]. split; [by eapply ctx_frame_inv|]. split; [apply Hf1|]. right. eauto.
Qed.

Lemma gather_run a l p pool :
  linked (ar_heads a) p l -> (forall x h, x ∈ l -> ar_heads a !! x = Some h -> ch_pool h = pool) ->
  gather (length l) p pool a = Ok (l, a).
Proof.
  revert p. induction l as [|x l IH]; intros p; simpl; [done|].
  intros (-> & _ & h & Hh & Hl) Hpool. step by (by apply head_at_run).
  rewrite bool_decide_eq_true_2 by (apply (Hpool x); [set_solver | done]). step by done.
  step by (apply IH; [done|]; intros y hy Hy; apply Hpool; set_solver). done.
Qed.

(** What a release does to the places: [x] leaves the hands of its holder. *)
Definition takes_back (loc loc' : gmap ptr place) (x : ptr) : Prop :=
  in_use loc' = in_use loc ∖ {[x]} /\ dom loc' = dom loc.

Lemma takes_back_one loc x pl : loc !! x = Some Used -> pl <> Used -> takes_back loc (moves [x] pl loc) x.
Proof.
  intros Hx Hne. split.
  - apply set_eq. intros y. rewrite elem_of_difference, !elem_of_in_use, lookup_moves, elem_of_singleton.
    case_decide; set_solver.
  - apply dom_moves. intros y ->%list_elem_of_singleton. eauto.
Qed.

(** A later move between places that are not [Used] changes nothing for holders. *)
Lemma takes_back_move loc loc' x l p1 p2 :
  takes_back loc loc' x -> (forall y, y ∈ l -> loc' !! y = Some p1) -> p1 <> Used -> p2 <> Used ->
  takes_back loc (moves l p2 loc') x.
Proof.
  intros [Hu Hd] Hl H1 H2. split.
  - rewrite <- Hu. apply set_eq. intros y. rewrite !elem_of_in_use, lookup_moves.
    specialize (Hl y). case_decide; naive_solver.
  - rewrite dom_moves; [done|]. intros y Hy. by rewrite Hl.
Qed.

Lemma frame_inv a a' loc loc' :
  pool_inv a loc -> same_frame a a' -> placed a' loc' -> short a' -> pool_inv a' loc'.
Proof.
  intros (_ & _ & Hc) Hf Hp Hs. split_and!; [done..|]. unfold private_pool.
  by rewrite (sf_p _ _ Hf), (sf_core _ _ Hf).
Qed.

(** Putting a shared chunk on the core's list of freed chunks. *)
Lemma free_append_run a loc c x q h (k : M arena unit) :
  placed a loc -> (c < MAX_CPUS)%nat -> loc !! x = Some Used -> s_list (ar_ctx a) !! c = Some q ->
  ar_heads a !! x = Some h -> cl_len q <> 0 ->
  (set_head x (fun h => h <| ch_next := NULL |>);;
   assert_ (bool_decide (cl_pkt q <> NULL));;
   set_head (cl_pkt q) (fun h => h <| ch_next := x |>);;
   set_s (Z.of_nat c) (q <| cl_pkt := x |> <| cl_len := cl_len q + 1 |>);; k) a =
  k (with_s (a <| ar_heads := append_heads (ar_heads a) q x h |>) c (append_queue q x)).
Proof.
  intros Hp Hc Hx Hq Hh Hz. pose proof (co_s _ (pi_ctx _ _ Hp)) as Hlen.
  destruct (pi_stock _ _ Hp (Freed c) Hc) as (l & (q0 & Hq0 & Hql) & Hl). simplify_eq.
  destruct (queue_tail _ _ _ Hql Hz) as (El & Hin & t & Htt).
  assert (cl_pkt q <> x). { intros <-. apply Hl in Hin. congruence. }
  assert (cl_pkt q <> NULL). { apply Hl in Hin. apply (used_head _ _ _ _ Hp) in Hin as [? _]. lia. }
  unfold append_heads, append_queue. rewrite !decide_False, Htt by done.
  step by (by apply set_head_run). rewrite bool_decide_eq_true_2 by done. step by done.
  step by (apply set_head_run; simpl; by rewrite lookup_insert_ne).
  step by (apply set_s_run; simpl; lia). done.
Qed.

Lemma short_with_s a c q : short a -> cl_len q < Z.of_nat TEST_ARR -> short (with_s a c q).
Proof.
  intros Hs Hq c' q'. simpl. intros [(<- & -> & _)|[_ Hq']]%list_lookup_insert_Some; [done | by apply (Hs c')].
Qed.

(** A list that is full goes back to the shared pool. *)
Lemma flush_run a loc c q :
  placed a loc -> (c < MAX_CPUS)%nat -> s_list (ar_ctx a) !! c = Some q -> cl_len q = Z.of_nat TEST_ARR ->
  exists l p, holds loc (Freed c) l /\
    (array ← gather TEST_ARR (cl_hpkt q) (mempool_s (ar_ctx a));
     p ← pool_at (mempool_s (ar_ctx a));
     set_pool (mempool_s (ar_ctx a)) (rte_mempool_put_bulk p array);;
     set_s (Z.of_nat c) (ChunkList 0 NULL NULL)) a =
    Ok (tt, with_s (a <| ar_pools ::= <[mempool_s (ar_ctx a) := p]> |>) c (ChunkList 0 NULL NULL)) /\
    placed (with_s (a <| ar_pools ::= <[mempool_s (ar_ctx a) := p]> |>) c (ChunkList 0 NULL NULL))
      (moves l Public loc).
Proof.
  intros Hp Hc Hq Hlen. destruct (pi_stock _ _ Hp (Freed c) Hc) as (l & (q0 & Hq0 & Hql) & Hl). simplify_eq.
  destruct (pi_stock _ _ Hp Public I) as (l0 & (p & Hpool & ->) & _).
  exists l, (rte_mempool_put_bulk p l). split; [done|]. split; [|by eapply freed_flush].
  assert (length l = TEST_ARR) as <- by (pose proof (qo_len _ _ _ Hql); lia).
  assert (forall x h, x ∈ l -> ar_heads a !! x = Some h -> ch_pool h = mempool_s (ar_ctx a)) as Hpools.
  { intros x h Hx Hh. apply Hl, (pi_heads _ _ Hp) in Hx as (_ & h' & Hh' & _ & _ & [_ Ho]). congruence. }
  step by (by apply gather_run; [apply Hql|]).
  step by (by apply pool_at_run). step by done.
  apply set_s_run. simpl. rewrite (co_s _ (pi_ctx _ _ Hp)). lia.
Qed.

(** The release of a shared chunk: it joins the core's list, and a full list
    goes back to the shared pool. *)
Lemma free_shared_run a loc c x h q :
  pool_inv a loc -> (c < MAX_CPUS)%nat -> loc !! x = Some Used -> ar_heads a !! x = Some h ->
  ar_owner a !! x = Some (mempool_s (ar_ctx a)) -> s_list (ar_ctx a) !! c = Some q ->
  exists a' loc',
    (if decide (cl_len q = 0) then
       set_head x (fun h => h <| ch_next := NULL |>);;
       set_s (Z.of_nat c) (ChunkList (cl_len q + 1) x x)
     else
       set_head x (fun h => h <| ch_next := NULL |>);;
       assert_ (bool_decide (cl_pkt q <> NULL));;
       set_head (cl_pkt q) (fun h => h <| ch_next := x |>);;
       set_s (Z.of_nat c) (q <| cl_pkt := x |> <| cl_len := cl_len q + 1 |>);;
       when (bool_decide (cl_len q + 1 = Z.of_nat TEST_ARR)) (
         array ← gather TEST_ARR (cl_hpkt q) (ch_pool h);
         p ← pool_at (mempool_s (ar_ctx a));
         set_pool (mempool_s (ar_ctx a)) (rte_mempool_put_bulk p array);;
         set_s (Z.of_nat c) (ChunkList 0 NULL NULL))) a = Ok (tt, a') /\
    pool_inv a' loc' /\ takes_back loc loc' x /\ max_core (ar_ctx a') = max_core (ar_ctx a).
Proof.
  intros Hinv Hc Hx Hh Hown Hq. pose proof Hinv as (Hp & Hs & _).
  destruct (freed_append _ _ _ _ _ _ Hp Hc Hx Hown Hq Hh) as [Hp' Hf].
  pose proof (takes_back_one loc x (Freed c) Hx ltac:(done)) as Hback.
  assert (cl_len (append_queue q x) = cl_len q + 1) as Hlq by (unfold append_queue; by case_decide).
  assert (ch_pool h = mempool_s (ar_ctx a)) as Hcp.
  { apply (pi_heads _ _ Hp) in Hx as (_ & h' & Hh' & _ & Ho & _). congruence. }
  pose proof (Hs _ _ Hq) as Hlt. pose proof (co_s _ (pi_ctx _ _ Hp)) as Hlen.
  destruct (decide (cl_len q = 0)) as [Hz|Hz].
  - exists (with_s (a <| ar_heads := append_heads (ar_heads a) q x h |>) c (append_queue q x)), (moves [x] (Freed c) loc).
    split; [|split; [|by split; [exact Hback|]]].
    + step by (by apply set_head_run). rewrite set_s_run by (simpl; lia).
      unfold append_heads, append_queue. by rewrite !decide_True by done.
    + eapply frame_inv; [done..|]. apply short_with_s; [done|]. rewrite Hlq, Hz. done.
  - rewrite (free_append_run _ _ _ _ _ _ _ Hp Hc Hx Hq Hh Hz). simpl in Hp'.
    destruct (decide (cl_len q + 1 = Z.of_nat TEST_ARR)) as [Hfull|Hnot].
    + rewrite bool_decide_eq_true_2 by done. cbn [when]. rewrite Hcp.
      destruct (flush_run _ _ c (append_queue q x) Hp' Hc) as (l & p & Hl & Hrun & Hp2).
      { simpl. rewrite list_lookup_insert_eq; [done|lia]. }
      { lia. }
      replace (cl_hpkt (append_queue q x)) with (cl_hpkt q) in Hrun
        by (unfold append_queue; by rewrite decide_False).
      eexists _, _. split; [exact Hrun|]. split; [|split; [|done]].
      * eapply frame_inv; [done | | exact Hp2 |].
        -- eapply same_frame_trans; [exact Hf|]. eapply same_frame_trans; [apply frame_set_pool | apply frame_with_s].
        -- intros c' q'. simpl. rewrite list_insert_insert_eq.
           intros [(<- & <- & _)|[_ Hq']]%list_lookup_insert_Some; [done | by apply (Hs c')].
      * eapply takes_back_move; [done | apply Hl | done | done].
    + rewrite bool_decide_eq_false_2 by done. eexists _, _. split; [done|]. split; [|by split; [exact Hback|]].
      eapply frame_inv; [done..|]. apply short_with_s; [done|]. lia.
Qed.

Lemma free_run a loc c x :
  pool_inv a loc -> (c < MAX_CPUS)%nat -> loc !! x = Some Used ->
  exists a' loc', mempool_free_chunk (x + sizeof_chunk_head) (Z.of_nat c) a = Ok (2, a') /\
    pool_inv a' loc' /\ takes_back loc loc' x /\ max_core (ar_ctx a') = max_core (ar_ctx a).
Proof.
  intros Hinv Hc Hx. pose proof Hinv as (Hp & Hs & _). pose proof (pi_ctx _ _ Hp) as Hctx.
  destruct (pi_heads _ _ Hp _ _ Hx) as (Hpos & h & Hh & Hre & Hown & Hor).
  assert (ch_pool h <> NULL) as Hcp.
  { destruct Hor as [-> | [c' Hc']]; [apply Hctx | by apply (co_private _ Hctx _ _ Hc')]. }
  unfold mempool_free_chunk. rewrite decide_False by (unfold NULL, sizeof_chunk_head in *; lia).
  step by done. rewrite (co_fns _ Hctx). unfold chunk_free_notype.
  replace (x + sizeof_chunk_head - sizeof_chunk_head) with x by lia.
  rewrite bool_decide_eq_true_2 by lia. step by done. step by (by apply head_at_run).
  rewrite bool_decide_eq_true_2 by done. step by done.
  step by (unfold mp_of_objhdr; rewrite Hown; simpl; done). step by done.
  destruct (decide (ch_pool h = mempool_s (ar_ctx a))) as [Hsh|Hpr].
  - destruct (lookup_lt_is_Some_2 (s_list (ar_ctx a)) c) as [q Hq]; [rewrite (co_s _ Hctx); lia|].
    destruct (free_shared_run a loc c x h q) as (a' & loc' & Hrun & Hinv' & Hb & Hm); [congruence..|].
    exists a', loc'. split; [|done]. step by (by apply s_at_run). unfold mbind, M_bind in *. by rewrite Hrun.
  - destruct Hor as [|[c' Hc']]; [done|].
    assert (valid_place a (Private c')) as Hv by (by eapply (co_bound _ Hctx)).
    destruct (pi_stock _ _ Hp _ Hv) as (l & (mp & p & Hmp & Hpool & _) & _).
    assert (mp = ch_pool h) as -> by (unfold private_pool in *; congruence).
    destruct (private_put_placed _ _ _ _ _ Hp Hx Hown Hpr Hpool) as (c2 & Hp').
    eexists _, (moves [x] (Private c2) loc). split; [step by (by apply pool_at_run); step by done; done|].
    split; [|split; [by apply takes_back_one | done]].
    eapply frame_inv; [done | apply frame_set_pool | exact Hp' | exact Hs].
Qed.

(** ** Creation *)

(** Chunks that no place has yet. *)
Lemma holds_new loc pl l l' :
  NoDup l -> (forall x, x ∈ l -> loc !! x = None) -> (forall x, loc !! x <> Some pl) -> l' ≡ₚ l ->
  holds (moves l pl loc) pl l'.
Proof.
  intros Hnd Hnew Hpl Hp. split; [by rewrite Hp|]. intros x. rewrite lookup_moves, Hp.
  case_decide; naive_solver.
Qed.

Lemma holds_other_new loc pl pl' l l0 :
  holds loc pl l0 -> (forall x, x ∈ l -> loc !! x = None) -> pl' <> pl -> holds (moves l pl' loc) pl l0.
Proof.
  intros [Hnd Hin] Hnew Hne. split; [done|]. intros x. rewrite lookup_moves, Hin.
  destruct (decide (x ∈ l)) as [Hx|]; [|done]. apply Hnew in Hx. naive_solver.
Qed.

Lemma size_new loc pl l :
  NoDup l -> (forall x, x ∈ l -> loc !! x = None) -> size (moves l pl loc) = (length l + size loc)%nat.
Proof.
  induction l as [|x l IH]; intros Hnd Hnew; [done|]. apply NoDup_cons in Hnd as [Hx Hnd]. simpl.
  rewrite map_size_insert_None, IH; [done | done | set_solver|].
  rewrite lookup_moves, decide_False by done. apply Hnew. set_solver.
Qed.

Lemma init_objects_spec mp type i junk objs a :
  (forall x, x ∈ objs -> NULL < x) ->
  let a' := init_objects mp type i junk objs a in
  ar_ctx a' = ar_ctx a /\ ar_pools a' = ar_pools a /\
  (forall x, x ∈ objs -> ar_owner a' !! x = Some mp /\
    exists h, ar_heads a' !! x = Some h /\ ch_re h = x + sizeof_chunk_head /\ ch_pool h = mp) /\
  (forall x, x ∉ objs -> ar_owner a' !! x = ar_owner a !! x /\ ar_heads a' !! x = ar_heads a !! x).
Proof.
  revert i a. induction objs as [|x l IH]; intros i a Hpos; cbn zeta; cbn [init_objects]; [set_solver|].
  destruct (IH (i + 1) (a <| ar_heads ::= <[x := (data_type_init_notype mp type x i junk).2]> |>
           <| ar_owner ::= <[x := mp]> |>)) as (H1 & H2 & H3 & H4); [set_solver|].
  split_and!; [done..| |].
  - intros y Hy. destruct (decide (y ∈ l)) as [Hl|Hl]; [by apply H3|].
    destruct (H4 y Hl) as [-> ->]. assert (y = x) as -> by set_solver. simpl.
    rewrite !lookup_insert_eq. split; [done|]. eexists. split; [done|].
    unfold data_type_init_notype. rewrite decide_False; [done|]. specialize (Hpos x ltac:(set_solver)). lia.
  - intros y Hy. destruct (H4 y) as [-> ->]; [set_solver|]. simpl.
    rewrite !lookup_insert_ne by set_solver. done.
Qed.

(** The memory while the private pools are created: those of the cores below
    [i] are there. *)
Record building a loc (e : E) (i : nat) (n : Z) : Prop := {
  b_type : mt_type (ar_ctx a) = 2;
  b_fns : chunk_fns (ar_ctx a) = true;
  b_max : max_core (ar_ctx a) = n;
  b_plen : length (mempool_p (ar_ctx a)) = MAX_CPUS;
  b_lists : l_list (ar_ctx a) = replicate MAX_CPUS (ChunkList 0 NULL NULL) /\
    s_list (ar_ctx a) = replicate MAX_CPUS (ChunkList 0 NULL NULL);
  b_nodup : NoDup (eal_objects e);
  b_private c mp : private_pool a c mp ->
    (c < i)%nat /\ mp <> NULL /\ mp ∈ eal_pools e /\
    exists p, ar_pools a !! mp = Some p /\ holds loc (Private c) (mp_objects p);
  b_all c : (c < i)%nat -> exists mp, private_pool a c mp;
  b_inj c c' mp : private_pool a c mp -> private_pool a c' mp -> c = c';
  b_loc x pl : loc !! x = Some pl ->
    x ∈ eal_objects e /\ (exists c, pl = Private c /\ (c < i)%nat) /\ head_ok a x pl;
}.

(** What DPDK promises of a new pool, in the terms of the memory. *)
Record new_pool (c : created_pool P) (e e' : E) (n : Z) : Prop := {
  np_objs : mp_objects (cp_pool c) ≡ₚ cp_objs c;
  np_len : Z.of_nat (length (cp_objs c)) = n;
  np_eal : eal_objects e' = cp_objs c ++ eal_objects e;
  np_pos x : x ∈ cp_objs c -> NULL < x;
  np_nodup : NoDup (eal_objects e) -> NoDup (eal_objects e');
  np_pools : eal_pools e' = cp_addr c :: eal_pools e;
  np_addr : cp_addr c <> NULL /\ cp_addr c ∉ eal_pools e;
}.

Lemma rte_pool_create_new name n sz core r s s' :
  rte_pool_create name n sz core 2 s = Ok (r, s') ->
  match r with Some c => new_pool c (su_eal s) (su_eal s') n | None => True end /\ su_rands s' = su_rands s.
Proof.
  unfold rte_pool_create, eal_result. rewrite decide_False, decide_False, decide_True by done.
  destruct (rte_mempool_create _ _ _ _ _ _ _) as [[c e']|] eqn:Ec; intros [= <- <-]; [|done]. split; [|done].
  destruct (create_pool _ _ _ _ _ _ _ _ _ Ec) as [H1 H2].
  destruct (create_objects _ _ _ _ _ _ _ _ _ Ec) as (H3 & H4 & H5).
  destruct (create_address _ _ _ _ _ _ _ _ _ Ec) as (H6 & H7 & H8). by split.
Qed.

(** The objects of a new pool are at no place. *)
Lemma new_objects a loc e e' i n c k x :
  building a loc e i n -> new_pool c e e' k -> x ∈ cp_objs c -> loc !! x = None.
Proof.
  intros Hb Hn Hx. apply eq_None_not_Some. intros [pl (Hin & _ & _)%(b_loc _ _ _ _ _ Hb)].
  pose proof (np_nodup _ _ _ _ Hn (b_nodup _ _ _ _ _ Hb)) as Hnd. rewrite (np_eal _ _ _ _ Hn) in Hnd.
  apply NoDup_app in Hnd as (_ & Hd & _). by apply (Hd x).
Qed.

Lemma new_objects_nodup a loc e e' i n c k :
  building a loc e i n -> new_pool c e e' k -> NoDup (cp_objs c).
Proof.
  intros Hb Hn. pose proof (np_nodup _ _ _ _ Hn (b_nodup _ _ _ _ _ Hb)) as Hnd.
  rewrite (np_eal _ _ _ _ Hn) in Hnd. by apply NoDup_app in Hnd as [? _].
Qed.

Lemma install_spec c junk a e e' n :
  new_pool c e e' n ->
  let a' := install c junk a in
  ar_ctx a' = ar_ctx a /\ ar_pools a' = <[cp_addr c := cp_pool c]> (ar_pools a) /\
  (forall x, x ∈ cp_objs c -> ar_owner a' !! x = Some (cp_addr c) /\
    exists h, ar_heads a' !! x = Some h /\ ch_re h = x + sizeof_chunk_head /\ ch_pool h = cp_addr c) /\
  (forall x, x ∉ cp_objs c -> ar_owner a' !! x = ar_owner a !! x /\ ar_heads a' !! x = ar_heads a !! x).
Proof.
  intros Hn. exact (init_objects_spec (cp_addr c) (mt_type (ar_ctx a)) 0 junk (cp_objs c)
    (a <| ar_pools ::= <[cp_addr c := cp_pool c]> |>) (np_pos _ _ _ _ Hn)).
Qed.

(** The head of a chunk in a memory with one pool more. *)
Lemma install_heads c junk a a' loc e e' n pl0 x pl :
  new_pool c e e' n -> ar_owner a' = ar_owner (install c junk a) -> ar_heads a' = ar_heads (install c junk a) ->
  (forall x pl, loc !! x = Some pl -> head_ok a x pl /\ (x ∉ cp_objs c) /\ forall mp, origin a pl mp -> origin a' pl mp) ->
  origin a' pl0 (cp_addr c) ->
  moves (cp_objs c) pl0 loc !! x = Some pl -> head_ok a' x pl.
Proof.
  intros Hn Ho Hh Hold Hor. rewrite lookup_moves.
  destruct (install_spec c junk a _ _ _ Hn) as (_ & _ & H3 & H4). unfold head_ok. rewrite Ho, Hh.
  destruct (decide (x ∈ cp_objs c)) as [Hx|Hx].
  - intros [= <-]. destruct (H3 x Hx) as (Hox & h & Hhx & Hre & Hp).
    split; [by apply (np_pos _ _ _ _ Hn)|]. exists h. rewrite Hp. done.
  - intros ((Hpos & h & Hhx & Hre & Hown & Horig) & _ & Hmono)%Hold. split; [done|].
    destruct (H4 x Hx) as [-> ->]. exists h. split_and!; auto.
Qed.

(** One private pool more. *)
Lemma building_step a loc e e' i n c k junk l :
  building a loc e i n -> new_pool c e e' k ->
  write_at (mempool_p (ar_ctx a)) (Z.of_nat i) (Some (cp_addr c)) = Ok l ->
  building (install c junk a <| ar_ctx ::= fun m => m <| mempool_p := l |> |>)
    (moves (cp_objs c) (Private i) loc) e' (S i) n /\ (i < MAX_CPUS)%nat.
Proof.
  intros Hb Hn Hw. unfold write_at in Hw. case_decide as Hi; [|done]. injection Hw as <-. rewrite Nat2Z.id.
  rewrite (b_plen _ _ _ _ _ Hb) in Hi. split; [|lia].
  destruct (install_spec c junk a _ _ _ Hn) as (Hctx & Hpools & _).
  assert (forall c0 mp, mempool_p (ar_ctx a) !! c0 = Some (Some mp) -> (c0 < i)%nat) as Hlow.
  { intros c0 mp Hp. by apply (b_private _ _ _ _ _ Hb) in Hp as [? _]. }
  assert (forall c0 mp, <[i := Some (cp_addr c)]> (mempool_p (ar_ctx a)) !! c0 = Some (Some mp) <->
    c0 = i /\ mp = cp_addr c \/ private_pool a c0 mp) as Hpp.
  { intros c0 mp. unfold private_pool. destruct (decide (c0 = i)) as [-> | Hne].
    - rewrite list_lookup_insert_eq by (rewrite (b_plen _ _ _ _ _ Hb); lia).
      split; [naive_solver|]. intros [[_ ->]|?%Hlow]; [done|lia].
    - rewrite list_lookup_insert_ne by done. naive_solver. }
  split; unfold private_pool; simpl; rewrite ?Hctx; try apply Hb.
  - by rewrite length_insert, (b_plen _ _ _ _ _ Hb).
  - apply (np_nodup _ _ _ _ Hn), Hb.
  - intros c0 mp [[-> ->]|Hp]%Hpp.
    + split_and!; [lia | apply Hn | rewrite (np_pools _ _ _ _ Hn); set_solver|].
      exists (cp_pool c). rewrite Hpools, lookup_insert_eq. split; [done|].
      eapply holds_new; [by eapply new_objects_nodup | by intros x; eapply new_objects | | apply Hn].
      intros x (_ & (c' & [= <-] & ?) & _)%(b_loc _ _ _ _ _ Hb). lia.
    + destruct (b_private _ _ _ _ _ Hb _ _ Hp) as (Hc0 & Hnn & Hin & p & Hpool & Hh).
      split_and!; [lia | done | rewrite (np_pools _ _ _ _ Hn); set_solver|]. exists p.
      rewrite Hpools, lookup_insert_ne by (intros <-; by apply (np_addr _ _ _ _ Hn)). split; [done|].
      apply holds_other_new; [done | by intros x; eapply new_objects | naive_solver lia].
  - intros c0 Hc0. destruct (decide (c0 = i)) as [-> | Hne].
    + exists (cp_addr c). apply Hpp. by left.
    + destruct (b_all _ _ _ _ _ Hb c0) as [mp Hmp]; [lia|]. exists mp. apply Hpp. by right.
  - assert (forall c0, ~ private_pool a c0 (cp_addr c)) as Hno.
    { intros c0 (_ & _ & Hin & _)%(b_private _ _ _ _ _ Hb). by apply (np_addr _ _ _ _ Hn). }
    intros c0 c1 mp [[-> ->]|Hp]%Hpp [[-> Hmp]|Hp']%Hpp; try done; subst; try naive_solver.
    by eapply (b_inj _ _ _ _ _ Hb).
  - intros x pl Hx.
    assert (head_ok (install c junk a <| ar_ctx ::= fun m => m <| mempool_p := <[i := Some (cp_addr c)]> (mempool_p (ar_ctx a)) |> |>) x pl) as Hok.
    { eapply install_heads; [done..| | |done].
      - intros y pl' Hy. destruct (b_loc _ _ _ _ _ Hb _ _ Hy) as (_ & (c' & -> & Hc') & Hk).
        split; [done|]. split; [intros Hin; rewrite (new_objects _ _ _ _ _ _ _ _ _ Hb Hn Hin) in Hy; done|].
        intros mp Hmp. simpl. unfold private_pool. simpl. apply Hpp. by right.
      - simpl. unfold private_pool. simpl. apply Hpp. by left. }
    split; [|split; [|exact Hok]]; rewrite lookup_moves in Hx; destruct (decide (x ∈ cp_objs c)).
    + rewrite (np_eal _ _ _ _ Hn). set_solver.
    + rewrite (np_eal _ _ _ _ Hn). apply elem_of_app. right. by eapply (b_loc _ _ _ _ _ Hb).
    + exists i. split; [congruence|lia].
    + destruct (b_loc _ _ _ _ _ Hb _ _ Hx) as (_ & (c' & -> & Hc') & _). exists c'. split; [done|lia].
Qed.

Lemma queue_empty H : queue_of H (ChunkList 0 NULL NULL) [].
Proof. by split. Qed.

(** The shared pool comes last. *)
Lemma building_done a loc e e' i n c k junk :
  building a loc e i n -> Z.of_nat i = n -> (i <= MAX_CPUS)%nat -> new_pool c e e' k ->
  pool_inv (install c junk a <| ar_ctx ::= fun m => m <| mempool_s := cp_addr c |> |>)
    (moves (cp_objs c) Public loc).
Proof.
  intros Hb Hi Hcpu Hn. destruct (install_spec c junk a _ _ _ Hn) as (Hctx & Hpools & _).
  destruct (b_lists _ _ _ _ _ Hb) as [Hll Hsl].
  assert (forall x, x ∈ cp_objs c -> loc !! x = None) as Hnew by (by intros x; eapply new_objects).
  assert (forall c0 mp, private_pool a c0 mp -> mp <> cp_addr c) as Haddr.
  { intros c0 mp (_ & _ & Hin & _)%(b_private _ _ _ _ _ Hb) ->. by apply (np_addr _ _ _ _ Hn). }
  assert (forall pl, (forall c0, pl <> Private c0) -> pl <> Public -> holds (moves (cp_objs c) Public loc) pl []) as Hempty.
  { intros pl H1 H2. apply holds_other_new; [|done|done]. split; [constructor|]. intros x. split; [set_solver|].
    intros (_ & (c0 & -> & _) & _)%(b_loc _ _ _ _ _ Hb). by destruct (H1 c0). }
  split_and!; [split| |].
  - split; unfold private_pool; simpl; rewrite ?Hctx; try apply Hb.
    + rewrite (b_max _ _ _ _ _ Hb). lia.
    + rewrite Hll. apply length_replicate.
    + rewrite Hsl. apply length_replicate.
    + apply Hn.
    + intros c0 mp Hp. split; [by apply (b_private _ _ _ _ _ Hb) in Hp as (_ & ? & _) | by eapply Haddr].
    + intros c0 mp Hp. apply (b_private _ _ _ _ _ Hb) in Hp as (? & _). rewrite (b_max _ _ _ _ _ Hb). lia.
  - intros [c0| |c0|c0|]; unfold valid_place, stock, private_pool; simpl; rewrite ?Hctx; simpl.
    + rewrite (b_max _ _ _ _ _ Hb). intros Hc0. destruct (b_all _ _ _ _ _ Hb c0) as [mp Hmp]; [lia|].
      destruct (b_private _ _ _ _ _ Hb _ _ Hmp) as (_ & _ & _ & p & Hp & Hh). exists (mp_objects p).
      split; [|by apply holds_other_new]. exists mp, p. rewrite Hpools, lookup_insert_ne; [done|].
      intros Heq. by eapply Haddr.
    + intros _. exists (mp_objects (cp_pool c)). split; [exists (cp_pool c); by rewrite Hpools, lookup_insert_eq|].
      eapply holds_new; [by eapply new_objects_nodup | done | | apply Hn].
      by intros x (_ & (c' & ? & ?) & _)%(b_loc _ _ _ _ _ Hb).
    + intros Hc0. exists []. split; [|by apply Hempty]. eexists. rewrite Hll, lookup_replicate_2 by done.
      split; [done | apply queue_empty].
    + intros Hc0. exists []. split; [|by apply Hempty]. eexists. rewrite Hsl, lookup_replicate_2 by done.
      split; [done | apply queue_empty].
    + done.
  - intros x pl. eapply install_heads; [done..| |done].
    intros y pl' Hy. destruct (b_loc _ _ _ _ _ Hb _ _ Hy) as (_ & (c' & -> & Hc') & Hk).
    split; [done|]. split; [intros Hin; by rewrite (Hnew _ Hin) in Hy|].
    intros mp. simpl. unfold private_pool. simpl. by rewrite Hctx.
  - intros c0 q. simpl. rewrite Hctx, Hsl. intros [-> _]%lookup_replicate_1. done.
  - intros c0. unfold private_pool. simpl. rewrite Hctx, (b_max _ _ _ _ _ Hb). intros Hc0.
    apply (b_all _ _ _ _ _ Hb). lia.
Qed.

Lemma rand_eal (s s' : setup E) r : rand s = Ok (r, s') -> su_eal s' = su_eal s.
Proof. unfold rand. by destruct (su_rands s); intros [= <- <-]. Qed.

Lemma in_use_none loc : (forall x, loc !! x <> Some Used) -> in_use loc = ∅.
Proof. intros H. apply set_eq. intros x. rewrite elem_of_in_use. set_solver. Qed.

Lemma create_pools_inv todo i n csize sz num_p num_s junk a loc s a' s' :
  building a loc (su_eal s) i n -> Z.of_nat (i + todo) = n -> (i <= MAX_CPUS)%nat ->
  0 <= num_p -> 0 <= num_s ->
  create_pools todo (Z.of_nat i) n csize sz num_p num_s junk a s = Ok (a', s') ->
  exists loc', pool_inv a' loc' /\ in_use loc' = ∅ /\ max_core (ar_ctx a') = n /\
    Z.of_nat (size loc') = Z.of_nat (size loc) + num_p * Z.of_nat todo + num_s.
Proof.
  revert i a loc s. induction todo as [|todo IH]; intros i a loc s Hb Hi Hcpu Hnp Hns.
  - cbn [create_pools]. intros (r1 & s1 & Hr1 & (r2 & s2 & Hr2 & (r & s3 & Hc & Hk)%M_bind_Ok)%M_bind_Ok)%M_bind_Ok.
    rewrite (b_type _ _ _ _ _ Hb) in Hc.
    apply rand_eal in Hr1, Hr2. apply rte_pool_create_new in Hc as [Hn _].
    destruct r as [c|]; [|done]. injection Hk as <- <-. rewrite Hr2, Hr1 in Hn.
    eexists. split; [eapply building_done; [done | lia | done | done]|].
    split; [|split].
    + apply in_use_none. intros x. rewrite lookup_moves. case_decide; [done|].
      intros (_ & (c0 & ? & _) & _)%(b_loc _ _ _ _ _ Hb). done.
    + simpl. destruct (install_spec c junk a _ _ _ Hn) as (-> & _). apply Hb.
    + rewrite size_new; [|by eapply new_objects_nodup | by intros x; eapply new_objects].
      pose proof (np_len _ _ _ _ Hn). lia.
  - cbn [create_pools]. intros (r1 & s1 & Hr1 & (r2 & s2 & Hr2 & (r & s3 & Hc & Hk)%M_bind_Ok)%M_bind_Ok)%M_bind_Ok.
    rewrite (b_type _ _ _ _ _ Hb) in Hc.
    apply rand_eal in Hr1, Hr2. apply rte_pool_create_new in Hc as [Hn _]. rewrite Hr2, Hr1 in Hn.
    destruct r as [c|]; [|done]. apply M_bind_Ok in Hk as (l & s4 & Hl & Hk).
    apply lift_Ok_inv in Hl as [Hl ->].
    destruct (building_step _ _ _ _ _ _ _ _ junk _ Hb Hn Hl) as [Hb' Hlt].
    replace (Z.of_nat i + 1) with (Z.of_nat (S i)) in Hk by lia.
    destruct (IH (S i) _ _ _ Hb' ltac:(lia) ltac:(lia) Hnp Hns Hk) as (loc' & Hinv & Hu & Hm & Hsz).
    exists loc'. split_and!; [done..|]. rewrite Hsz, size_new;
      [|exact (new_objects_nodup _ _ _ _ _ _ _ _ Hb Hn) | intros x; exact (new_objects _ _ _ _ _ _ _ _ x Hb Hn)].
    pose proof (np_len _ _ _ _ Hn). lia.
Qed.

Lemma building_init m e n :
  mt_type m = 2 -> chunk_fns m = true -> max_core m = n -> mempool_p m = replicate MAX_CPUS None ->
  l_list m = replicate MAX_CPUS (ChunkList 0 NULL NULL) ->
  s_list m = replicate MAX_CPUS (ChunkList 0 NULL NULL) -> NoDup (eal_objects e) ->
  building (Arena m ∅ ∅ ∅) ∅ e 0 n.
Proof.
  intros Ht Hf Hm Hp Hl Hs Hnd.
  assert (forall c mp, ~ private_pool (Arena m ∅ ∅ ∅) c mp) as Hno.
  { intros c mp. unfold private_pool. simpl. rewrite Hp. by intros [? _]%lookup_replicate_1. }
  split; simpl; try done; try lia.
  - rewrite Hp. apply length_replicate.
  - by intros c mp ?%Hno.
  - by intros c c' mp ?%Hno.
Qed.

(** A created allocator has every chunk it was asked for, and none in use. *)
Lemma mempool_create_inv ok cell junk csize p_size s_size n s a s' :
  0 <= n -> 0 <= p_size < 2 ^ 31 -> 0 <= s_size < 2 ^ 31 -> NoDup (eal_objects (su_eal s)) ->
  mempool_create ok cell junk csize p_size s_size n s = Ok (Some a, s') ->
  exists loc, pool_inv a loc /\ in_use loc = ∅ /\ max_core (ar_ctx a) = n /\
    Z.of_nat (size loc) = p_size * n + s_size.
Proof.
  intros Hn Hp Hs Hnd. unfold mempool_create. destruct ok; simpl negb; cbv iota; [|by intros [=]].
  do 3 (case_decide; [by intros [=]|]). unfold init_chunk_functions. rewrite decide_True by done. cbv [negb].
  step by done. cbn [fst snd]. rewrite decide_False by (intros []; done). rewrite decide_False by lia.
  rewrite (s32_id p_size), (s32_id s_size) by lia.
  intros (a0 & s0 & Hc & [= <- <-])%M_bind_Ok.
  change 0 with (Z.of_nat 0) in Hc at 1.
  eapply create_pools_inv in Hc as (loc & Hinv & Hu & Hm & Hsz);
    [|apply building_init; done | lia | lia | lia | lia].
  exists loc. split_and!; [done..|]. rewrite Hsz, map_size_empty. lia.
Qed.

(** * Callers *)

(** Calls of the threads: an allocation by a core, and the release, by a core,
    of one of the chunks that are held (by its position among them). *)
Inductive call : Type :=
  | Alloc (core : nat)
  | Free (k core : nat).

Definition core_of (o : call) : nat := match o with Alloc c | Free _ c => c end.

(** The memory and the addresses that callers hold, newest first. *)
Definition serve (o : call) (held : list ptr) : M arena (list ptr) :=
  match o with
  | Alloc c =>
      r ← mempool_alloc_chunk (Z.of_nat c);
      mret (if decide (r = NULL) then held else r :: held)
  | Free k c =>
      match held !! k with
      | None => mret held
      | Some x => mempool_free_chunk x (Z.of_nat c);; mret (delete k held)
      end
  end.

Fixpoint serve_all (os : list call) (held : list ptr) : M arena (list ptr) :=
  match os with
  | [] => mret held
  | o :: os' => held' ← serve o held; serve_all os' held'
  end.

(** The addresses held are those of the chunks in use, each once. *)
Definition held_ok (loc : gmap ptr place) (held : list ptr) : Prop :=
  NoDup held /\ forall x, x ∈ held <-> x - sizeof_chunk_head ∈ in_use loc.

Lemma serve_run o held a loc :
  pool_inv a loc -> held_ok loc held -> Z.of_nat (core_of o) < max_core (ar_ctx a) ->
  exists held' a' loc', serve o held a = Ok (held', a') /\ pool_inv a' loc' /\ held_ok loc' held' /\
    max_core (ar_ctx a') = max_core (ar_ctx a) /\ dom loc' = dom loc.
Proof.
  intros Hinv [Hnd Hheld] Hc. destruct o as [c|k c]; simpl in Hc |- *.
  - destruct (alloc_run _ _ c Hinv Hc) as (r & a' & loc' & Hrun & Hinv' & Hm & [(-> & -> & _)|Hx]).
    + exists held, a', loc. split; [step by (exact Hrun); by rewrite decide_True|]. by split_and!.
    + destruct Hx as (x & -> & Hpos & Hdom & Hnu & Hu & Hd).
      exists ((x + sizeof_chunk_head) :: held), a', loc'.
      split; [step by (exact Hrun); rewrite decide_False by (unfold NULL, sizeof_chunk_head in *; lia); done|].
      split_and!; [done| |done|done]. split.
      * constructor; [|done]. rewrite Hheld. replace (x + _ - _) with x by lia. done.
      * intros y. rewrite elem_of_cons, Hheld, Hu, elem_of_union, elem_of_singleton.
        split; (intros [?|?]; [left; lia | by right]).
  - destruct (held !! k) as [y|] eqn:Ek; [|exists held, a, loc; by split_and!].
    pose proof Ek as Hy%list_elem_of_lookup_2%Hheld%elem_of_in_use.
    pose proof (pool_inv_core _ _ _ Hinv Hc) as Hcpu.
    destruct (free_run a loc c _ Hinv Hcpu Hy) as (a' & loc' & Hrun & Hinv' & [Hu Hd] & Hm).
    replace (y - _ + _) with y in Hrun by lia.
    exists (delete k held), a', loc'. split; [by step by (exact Hrun)|]. split_and!; [done| |done|done].
    pose proof (delete_Permutation _ _ _ Ek) as Hperm. rewrite Hperm in Hnd. apply NoDup_cons in Hnd as [Hyn Hnd].
    split; [done|]. intros z. specialize (Hheld z). rewrite Hperm, elem_of_cons in Hheld.
    rewrite Hu, elem_of_difference, elem_of_singleton, <- Hheld.
    split; [intros Hz; split; [by right|]; intros ?; apply Hyn; by replace y with z by lia|].
    intros [[-> | ?] Hne]; [lia | done].
Qed.

Lemma serve_all_run os held a loc :
  pool_inv a loc -> held_ok loc held -> Forall (fun o => Z.of_nat (core_of o) < max_core (ar_ctx a)) os ->
  exists held' a' loc', serve_all os held a = Ok (held', a') /\ pool_inv a' loc' /\ held_ok loc' held' /\
    max_core (ar_ctx a') = max_core (ar_ctx a) /\ dom loc' = dom loc.
Proof.
  revert held a loc. induction os as [|o os IH]; intros held a loc Hinv Hh Hos.
  - exists held, a, loc. by split_and!.
  - apply Forall_cons in Hos as [Ho Hos].
    destruct (serve_run o held a loc Hinv Hh Ho) as (h1 & a1 & loc1 & Hrun & Hinv1 & Hh1 & Hm1 & Hd1).
    destruct (IH h1 a1 loc1 Hinv1 Hh1) as (h2 & a2 & loc2 & Hrun2 & Hinv2 & Hh2 & Hm2 & Hd2).
    { by rewrite Hm1. }
    exists h2, a2, loc2. split_and!; [|done|done|congruence|congruence]. cbn [serve_all]. step by (exact Hrun).
    exact Hrun2.
Qed.
End Invariant.

(** * The contract *)
Section Contract.
Context {P E : Type} `{!RteMempool P E, !RteMempoolLaws P E}.

Lemma holds_nil_stock (a : arena P) loc pl :
  placed a loc -> valid_place a pl -> holds loc pl [] -> stock a pl [].
Proof.
  intros Hp Hv [_ Hn]. destruct (pi_stock _ _ Hp pl Hv) as (l & Hs & [_ Hl]).
  assert (l = []) as <-; [|done]. apply elem_of_nil_inv. intros x Hx%Hl%Hn. set_solver.
Qed.

Lemma exhausted_stock (a : arena P) loc c :
  pool_inv a loc -> Z.of_nat c < max_core (ar_ctx a) -> exhausted loc c ->
  stock a (Private c) [] /\ stock a (Taken c) [] /\
  exists l, stock a Public l /\ (length l < ALLOC_NUM)%nat.
Proof.
  intros Hinv Hc (H1 & H2 & l & [Hnd Hl] & Hlen). pose proof Hinv as (Hp & _ & _).
  pose proof (pool_inv_core _ _ _ Hinv Hc) as Hcpu.
  split_and!; [by eapply holds_nil_stock..|].
  destruct (pi_stock _ _ Hp Public I) as (l' & Hs & [Hnd' Hl']). exists l'. split; [done|].
  assert (l' ≡ₚ l) as ->; [|done]. apply NoDup_Permutation; [done..|]. intros x. by rewrite Hl, Hl'.
Qed.

(** Every chunk is in one place: a map from the chunks to places whose part for a
    pool or a list is what the memory has there, and whose used chunks are those the
    callers hold.  So the pools, the lists and the holders have together each chunk
    exactly once. *)
Definition accounted (a : arena P) (held : list ptr) (loc : gmap ptr place) : Prop :=
  held_ok loc held /\
  (forall x pl, loc !! x = Some pl -> pl = Used \/ valid_place a pl) /\
  forall pl, valid_place a pl -> exists l, stock a pl l /\ NoDup l /\ forall x, x ∈ l <-> loc !! x = Some pl.

Lemma pool_inv_accounted (a : arena P) loc held : pool_inv a loc -> held_ok loc held -> accounted a held loc.
Proof.
  intros (Hp & _ & _) Hh. split; [done|]. split; [|exact (pi_stock _ _ Hp)].
  intros x pl (_ & h & _ & _ & _ & Ho)%(pi_heads _ _ Hp).
  destruct pl; simpl in Ho |- *; [right | by right | right | right | by left]; [by eapply (co_bound _ (pi_ctx _ _ Hp)) | apply Ho..].
Qed.

(** C10. The allocator keeps account of every chunk.  A created allocator manages
    [p_size] chunks per core and [s_size] shared ones; it serves every sequence of
    allocations and releases of its cores without a fault.  Afterwards the private
    pools, the shared pool, the cores' two lists and the callers have together every
    chunk of this set exactly once, so no chunk is handed out twice and none is
    lost; and an allocation is refused only when the core's pool and its list of
    shared chunks are empty and the shared pool has fewer than a batch of 1024. *)
Theorem mempool_hands_out_once ok cell junk csize p_size s_size n s a s' :
  0 <= n -> 0 <= p_size < 2 ^ 31 -> 0 <= s_size < 2 ^ 31 -> NoDup (eal_objects (su_eal s)) ->
  mempool_create ok cell junk csize p_size s_size n s = Ok (Some a, s') ->
  exists chunks : gset ptr, Z.of_nat (size chunks) = p_size * n + s_size /\
  forall os, Forall (fun o => Z.of_nat (core_of o) < n) os ->
  exists held a' loc, serve_all os [] a = Ok (held, a') /\ accounted a' held loc /\ dom loc = chunks /\
    NoDup held /\ (forall x, x ∈ held -> x - sizeof_chunk_head ∈ chunks) /\
    forall c, Z.of_nat c < n -> exists r a2, mempool_alloc_chunk (Z.of_nat c) a' = Ok (r, a2) /\
      (r = NULL -> stock a' (Private c) [] /\ stock a' (Taken c) [] /\
         exists l, stock a' Public l /\ (length l < ALLOC_NUM)%nat).
Proof.
  intros Hn Hp Hs Hnd Hc.
  destruct (mempool_create_inv _ _ _ _ _ _ _ _ _ _ Hn Hp Hs Hnd Hc) as (loc & Hinv & Hu & Hm & Hsz).
  exists (dom loc). rewrite size_dom. split; [done|]. intros os Hos. rewrite <- Hm in Hos.
  destruct (serve_all_run os [] a loc Hinv) as (held & a' & loc' & Hrun & Hinv' & [Hnd' Hh] & Hm' & Hd); [|done|].
  { split; [constructor|]. intros x. rewrite Hu. set_solver. }
  exists held, a', loc'. split_and!; [done | by apply pool_inv_accounted | done | done | |].
  - intros x Hx%Hh%elem_of_in_use. rewrite <- Hd. apply elem_of_dom. eauto.
  - intros c Hc'. rewrite <- Hm, <- Hm' in Hc'.
    destruct (alloc_run _ _ c Hinv' Hc') as (r & a2 & loc2 & Hr & _ & _ & Hcase).
    exists r, a2. split; [done|]. intros ->. destruct Hcase as [(_ & _ & He)|(x & Heq & Hpos & _)].
    + by eapply exhausted_stock.
    + unfold NULL, sizeof_chunk_head in *. lia.
Qed.

End Contract.

(** The size of a chunk: the head and the payload fit, up to the 64 KiB the
    16-bit parameter of the pool creation can hold. *)
Lemma chunk_size_fits csize :
  0 <= csize <= 65472 - sizeof_chunk_head ->
  sizeof_chunk_head + csize <= u16 (chunk_size_of csize) < sizeof_chunk_head + csize + 64 /\
  u16 (chunk_size_of csize) `mod` 64 = 0.
Proof.
  unfold chunk_size_of, sizeof_chunk_head. intros Hc. rewrite (s32_id (48 + csize)) by lia.
  rewrite Z.rem_mod_nonneg, Z.quot_div_nonneg by lia.
  case_decide as H.
  - rewrite s32_id by (Z.div_mod_to_equations; lia). unfold u16. rewrite Z.mod_small; Z.div_mod_to_equations; lia.
  - unfold u16. rewrite Z.mod_small; Z.div_mod_to_equations; lia.
Qed.

(** ** An implementation of the pools *)
Module ListPool.
Definition pool : Type := Z * list ptr.
Record eal : Type := Eal { next_addr : Z; objects : list ptr; pools : list ptr }.

Definition create (e : eal) (n sz : Z) : option (created_pool pool * eal) :=
  let objs := (fun i => next_addr e + i * (sz + 64)) <$> seqZ 1 n in
  let addr := next_addr e in
  if decide (0 <= n /\ NoDup (objs ++ objects e) /\ Forall (Z.lt NULL) objs /\ addr <> NULL /\ addr ∉ pools e) then
    Some (CreatedPool addr (n, objs) objs, Eal (next_addr e + (n + 1) * (sz + 64)) (objs ++ objects e) (addr :: pools e))
  else None.

#[export] Instance list_pool : RteMempool pool eal := {
  rte_mempool_get p := match p.2 with [] => None | x :: l => Some (x, (p.1, l)) end;
  rte_mempool_get_bulk p n :=
    if decide (length p.2 < n)%nat then None else Some (take n p.2, (p.1, drop n p.2));
  rte_mempool_put p x := (p.1, x :: p.2);
  rte_mempool_put_bulk p l := (p.1, l ++ p.2);
  rte_mempool_size p := p.1;
  rte_mempool_create e name n sz cache numa flags := create e n sz;
  rte_pktmbuf_pool_create e name n numa := create e n 2176;
  rte_lcore_to_socket_id _ := 0;
}.

Lemma create_spec e n sz c e' :
  create e n sz = Some (c, e') ->
  cp_pool c = (n, cp_objs c) /\ Z.of_nat (length (cp_objs c)) = n /\
  objects e' = cp_objs c ++ objects e /\ (forall x, x ∈ cp_objs c -> NULL < x) /\ NoDup (objects e') /\
  pools e' = cp_addr c :: pools e /\ cp_addr c <> NULL /\ cp_addr c ∉ pools e.
Proof.
  unfold create. case_decide as H; [|done]. intros [= <- <-]. simpl.
  destruct H as (H1 & H2 & H3 & H4 & H5). rewrite Forall_forall in H3.
  split_and!; try done. rewrite length_fmap, length_seqZ. lia.
Qed.

#[export] Instance list_pool_laws : RteMempoolLaws pool eal.
Proof.
  refine {| mp_objects := snd; eal_objects := objects; eal_pools := pools |}.
  - intros [n [|y l]] x p'; simpl; [done|]. by intros [= -> <-].
  - intros [n [|y l]]; by simpl.
  - intros [n l0] k l p'; simpl. case_decide; [done|]. intros [= <- <-]. simpl.
    rewrite length_take, take_drop. split; [lia|done].
  - intros [n l0] k; simpl. by case_decide.
  - done.
  - done.
  - intros e ? n sz ? ? ? [ad po ob] e' (Hp & Hl & _)%create_spec. simpl in *. by subst po.
  - intros e ? n sz ? ? ? c e' (_ & _ & H1 & H2 & H3 & _)%create_spec. done.
  - intros e ? n sz ? ? ? c e' (_ & _ & _ & _ & _ & H1 & H2 & H3)%create_spec. done.
Defined.
End ListPool.
Import ListPool.

Definition demo_cell : Mempool_t := MempoolT 0 0 0 false [] NULL [] [] 0.
Definition demo_setup : setup eal := Setup (Eal 4096 [] []) [].
(** Two cores with two chunks each and three shared ones. *)
Abbreviation demo_created :=
  (mempool_create (P := pool) true demo_cell (ChunkHead 0 0 0 0 0 0) 1000 2 3 2 demo_setup).

Definition demo_calls : list call := [Alloc 0; Alloc 1; Alloc 1; Alloc 1; Free 1 0; Alloc 0].

Lemma mempool_hands_out_once_witness :
  exists a s' held a' loc, demo_created = Ok (Some a, s') /\ serve_all demo_calls [] a = Ok (held, a') /\
    accounted a' held loc /\ Z.of_nat (size (dom loc)) = 7.
Proof.
  assert (match demo_created with Ok (Some _, _) => true | _ => false end = true) as Hok by (vm_compute; reflexivity).
  destruct demo_created as [[[a|] s']|] eqn:Ec; try discriminate Hok.
  destruct (mempool_hands_out_once true demo_cell (ChunkHead 0 0 0 0 0 0) 1000 2 3 2 demo_setup a s')
    as (chunks & Hsz & Hall); [lia | lia | lia | constructor | exact Ec |].
  destruct (Hall demo_calls) as (held & a' & loc & Hrun & Hacc & Hdom & _).
  { unfold demo_calls. repeat constructor; simpl; lia. }
  exists a, s', held, a', loc. split; [reflexivity|]. split; [exact Hrun|]. split; [exact Hacc|]. rewrite Hdom. exact Hsz.
Defined.
