(* ===== verification/Qepoll.v ===== *)
(** The event layer ([qepoll.h], [qepoll.c]): event queues, the channels
    between stack threads and servers, registration of sockets, creation and
    distribution of events, and the waiting functions of the servers.

    The module-level variables of [qepoll.c] are one record.  Times read from
    the clock and the content of the socket table are inputs; the tracing
    counters and the debugging time stamp of an event are left out.  The sizes
    that macros fix are the class [Sizes]. *)
From S2P Require Import Prelude.
#[local] Open Scope Z_scope.

Module Qepoll.

Class Sizes : Type := {
  QEPOLL_SIZE : Z;        (* events a server or a stack thread may have in flight *)
  MAX_FLOW_NUM : Z;
  MAX_SERVER_NUM : Z;
  stack_thread : Z;       (* CONFIG.stack_thread *)
  app_thread : Z;
  max_concurrency : Z;
}.

Definition NUM_PRI : Z := 2.
Definition WHEEL_SIZE : Z := 1.

Definition Q_EPOLLNONE : Z := 0.
Definition Q_EPOLLIN : Z := 1.
Definition Q_EPOLLOUT : Z := 4.
Definition Q_EPOLLERR : Z := 8.
Definition Q_EPOLLHUP : Z := 16.
Definition STACK_TO_QE : Z := 1.
Definition APP_TO_QE : Z := 2.
Definition Q_ACCEPT : Z := 16.
Definition EINVAL : Z := 22.
Definition EBADF : Z := 9.
Definition SOCK_STREAM : Z := 1.

Inductive qepoll_op : Type := Q_EPOLL_CTL_ADD | Q_EPOLL_CTL_DEL | Q_EPOLL_CTL_MOD.

(** * Data *)

Record qepoll_event : Type := Qevent {
  pri : Z; dire : Z; nature : Z; core : Z; apid : Z;
  events : Z; sockid : Z; timeout : Z; data : Z; flow_st : Z;
}.
#[export] Instance qepoll_event_rebuild : Rebuild qepoll_event := fun e =>
  Qevent (pri e) (dire e) (nature e) (core e) (apid e) (events e) (sockid e) (timeout e)
    (data e) (flow_st e).
Definition zero_event : qepoll_event := Qevent 0 0 0 0 0 0 0 0 0 0.

Record qevent_que : Type := EventQue {
  start : Z; eend : Z; size : Z; qevent : list qepoll_event;
}.
#[export] Instance qevent_que_rebuild : Rebuild qevent_que := fun q =>
  EventQue (start q) (eend q) (size q) (qevent q).

(** [qEvque p] is the array of event queues of priority [p]. *)
Record qtimer : Type := Qtimer {
  qEvque : list (list qevent_que);
  qItemSize : list Z;
  llStartIdx : list Z;
  iItemSize : Z;
  ullStart : Z;
}.
#[export] Instance qtimer_rebuild : Rebuild qtimer := fun t =>
  Qtimer (qEvque t) (qItemSize t) (llStartIdx t) (iItemSize t) (ullStart t).

Record chan : Type := Chan { id : Z; src : Z; dst : Z; qTimeout : qtimer }.
#[export] Instance chan_rebuild : Rebuild chan := fun c =>
  Chan (id c) (src c) (dst c) (qTimeout c).

(** A channel pointer is an index in the array of all channels; [None] is the
    null pointer of a handle that was not created yet. *)
Record qepoll : Type := QepollH {
  qfd : Z; qsize : Z; sq_chan : option Z; qs_chan : option Z;
}.
#[export] Instance qepoll_rebuild : Rebuild qepoll := fun q =>
  QepollH (qfd q) (qsize q) (sq_chan q) (qs_chan q).

Record qepoll_manager : Type := Manager { qe : qepoll; m_sq_chan : Z; m_qs_chan : Z }.
#[export] Instance qepoll_manager_rebuild : Rebuild qepoll_manager := fun m =>
  Manager (qe m) (m_sq_chan m) (m_qs_chan m).

Record socket_map : Type := SocketMap {
  sm_id : Z; socktype : Z; opts : Z;
  reg_events : Z;      (* the field qepoll: registered events *)
  qevents : Z;         (* available events *)
  ep_data : Z;
}.
#[export] Instance socket_map_rebuild : Rebuild socket_map := fun s =>
  SocketMap (sm_id s) (socktype s) (opts s) (reg_events s) (qevents s) (ep_data s).

Record qevent_reg : Type := Reg { pr_core : Z; proc : bool }.
#[export] Instance qevent_reg_rebuild : Rebuild qevent_reg := fun r => Reg (pr_core r) (proc r).

(** The buffers of one thread: [app_buff] and [aTimeItems_buff] are offsets in
    the arrays [qevent_buff] and [qTimeItems_buff]; an item is its expiry. *)
Record qarg : Type := Qarg {
  qev_count : Z; app_count : Z;
  qevent_buff : list qepoll_event; app_buff : Z;
  qTimeItems_buff : list Z; aTimeItems_buff : Z;
}.
#[export] Instance qarg_rebuild : Rebuild qarg := fun a =>
  Qarg (qev_count a) (app_count a) (qevent_buff a) (app_buff a) (qTimeItems_buff a)
    (aTimeItems_buff a).

(** The variables of the layer.  [sock_stream i] is what [AddTimeEvent] reads
    of the socket table: whether socket [i] is a listener or has a stream.
    [sock_qe] is the handle the socket is bound to, [pending] the list of
    pending events of a socket's stream and whether its state [pdev_st] is
    [pdev_st_WRITEN]; [ticks] are the
    coming results of [GetTickMS]; [sleeps] counts the yields of a server that
    found no event. *)
Record layer : Type := Layer {
  num_stack : Z; num_server : Z; num_app : Z; efd : Z;
  g_smap : list socket_map;
  reg : list qevent_reg;
  chans : list chan;
  g_qepoll : list qepoll_manager;
  g_qarg : list qarg;
  g_sarg : list qarg;
  sock_stream : Z -> bool;
  sock_qe : gmap Z Z;
  pending : gmap Z (bool * list qepoll_event);
  ticks : list Z;
  sleeps : nat;
}.
#[export] Instance layer_rebuild : Rebuild layer := fun l =>
  Layer (num_stack l) (num_server l) (num_app l) (efd l) (g_smap l) (reg l) (chans l)
    (g_qepoll l) (g_qarg l) (g_sarg l) (sock_stream l) (sock_qe l) (pending l) (ticks l)
    (sleeps l).

Abbreviation EM := (M layer).

(** ** Access *)

Definition smap_at (i : Z) : EM socket_map := l ← get; lift (read_at (g_smap l) i).
Definition set_smap (i : Z) (f : socket_map -> socket_map) : EM unit :=
  l ← get;
  s ← lift (read_at (g_smap l) i);
  ss ← lift (write_at (g_smap l) i (f s));
  modify (fun l => l <| g_smap := ss |>).
Definition reg_at (i : Z) : EM qevent_reg := l ← get; lift (read_at (reg l) i).
Definition set_reg (i : Z) (f : qevent_reg -> qevent_reg) : EM unit :=
  l ← get;
  r ← lift (read_at (reg l) i);
  rs ← lift (write_at (reg l) i (f r));
  modify (fun l => l <| reg := rs |>).
Definition chan_at (c : Z) : EM chan := l ← get; lift (read_at (chans l) c).
Definition set_chan (c : Z) (f : chan -> chan) : EM unit :=
  l ← get;
  x ← lift (read_at (chans l) c);
  xs ← lift (write_at (chans l) c (f x));
  modify (fun l => l <| chans := xs |>).
Definition set_timer (c : Z) (f : qtimer -> qtimer) : EM unit :=
  set_chan c (fun x => x <| qTimeout ::= f |>).
Definition manager_at (i : Z) : EM qepoll_manager := l ← get; lift (read_at (g_qepoll l) i).
Definition qarg_at (i : Z) : EM qarg := l ← get; lift (read_at (g_qarg l) i).
Definition set_qarg (i : Z) (a : qarg) : EM unit :=
  l ← get;
  qs ← lift (write_at (g_qarg l) i a);
  modify (fun l => l <| g_qarg := qs |>).
Definition sarg_at (i : Z) : EM qarg := l ← get; lift (read_at (g_sarg l) i).
Definition set_sarg (i : Z) (a : qarg) : EM unit :=
  l ← get;
  qs ← lift (write_at (g_sarg l) i a);
  modify (fun l => l <| g_sarg := qs |>).

(** Queue [idx] of priority [p] of channel [c]. *)
Definition que_at (c p idx : Z) : EM qevent_que :=
  x ← chan_at c;
  qs ← lift (read_at (qEvque (qTimeout x)) p);
  lift (read_at qs idx).
Definition set_que (c p idx : Z) (q : qevent_que) : EM unit :=
  x ← chan_at c;
  qs ← lift (read_at (qEvque (qTimeout x)) p);
  qs' ← lift (write_at qs idx q);
  qe' ← lift (write_at (qEvque (qTimeout x)) p qs');
  set_timer c (fun t => t <| qEvque := qe' |>).

Definition GetTickMS : EM Z :=
  l ← get;
  match ticks l with
  | [] => mret 0
  | t :: ts => modify (fun l => l <| ticks := ts |>);; mret t
  end.

(** * Event queues *)

Definition EventQueueUsed (q : qevent_que) : bool := bool_decide (eend q <> start q).
Definition EventQueueFull (q : qevent_que) : res bool :=
  if decide (size q = 0) then Fault DivByZero
  else Ok (bool_decide (Z.rem (eend q + 1) (size q) = start q)).

Definition q_create_eque (isize qsize : Z) : list qevent_que :=
  replicate (Z.to_nat qsize) (EventQue 0 0 isize (replicate (Z.to_nat isize) zero_event)).

Definition q_alloc_epres (n : Z) : list qepoll_event := replicate (Z.to_nat n) zero_event.

Definition q_alloc_timeout (iSize qSize : Z) : qtimer := {|
  qEvque := replicate (Z.to_nat NUM_PRI) (q_create_eque iSize qSize);
  qItemSize := replicate (Z.to_nat NUM_PRI) qSize;
  llStartIdx := replicate (Z.to_nat NUM_PRI) 0;
  iItemSize := qSize;
  ullStart := 0;
|}.

(** * Initialisation *)

Definition AllocateSocket (s : socket_map) (st : Z) : socket_map :=
  s <| socktype := st |> <| opts := 0 |> <| reg_events := 0 |> <| qevents := 0 |>
    <| ep_data := 0 |>.

Definition q_free_map (fd : Z) : EM unit :=
  set_smap fd (fun s => s <| reg_events := 0 |> <| socktype := 1 |> <| opts := 0 |>
    <| qevents := 0 |>).

Definition q_alloc_achan (s a isize : Z) : list chan :=
  (fun i =>
    if decide (i < s * a)
    then Chan i (i `mod` s) (i / s) (q_alloc_timeout (isize / s) WHEEL_SIZE)
    else let j := i - s * a in
         Chan i (j / s) (j `mod` s) (q_alloc_timeout (isize / s) WHEEL_SIZE))
  <$> seqZ 0 (2 * s * a).

Section WithSizes.
Context `{!Sizes}.

Definition new_sarg (ns : Z) : qarg :=
  Qarg 0 0 (replicate (Z.to_nat (QEPOLL_SIZE / ns)) zero_event) (QEPOLL_SIZE / (2 * ns)) [] 0.
Definition new_qarg (nv : Z) : qarg :=
  Qarg 0 0 (replicate (Z.to_nat (QEPOLL_SIZE / nv)) zero_event) (QEPOLL_SIZE / (2 * nv))
    (replicate (Z.to_nat (MAX_FLOW_NUM / nv)) 0) (MAX_FLOW_NUM / (2 * nv)).

(** [q_init_manager] with [qconf_init(stack, server, 1)]. *)
Definition q_init_manager (ns nv : Z) (streams : Z -> bool) (clock : list Z) : layer := {|
  num_stack := ns; num_server := nv; num_app := 1; efd := -1;
  g_smap := (fun j => AllocateSocket (SocketMap j 0 0 0 0 0) 1) <$> seqZ 0 MAX_FLOW_NUM;
  reg := replicate (Z.to_nat MAX_FLOW_NUM) (Reg (-1) false);
  chans := q_alloc_achan ns nv (QEPOLL_SIZE / nv);
  g_qepoll := (fun i => Manager (QepollH i 0 None None) (ns * i) (ns * (nv + i))) <$> seqZ 0 nv;
  g_qarg := replicate (Z.to_nat nv) (new_qarg nv);
  g_sarg := replicate (Z.to_nat ns) (new_sarg ns);
  sock_stream := streams; sock_qe := ∅; pending := ∅; ticks := clock; sleeps := 0;
|}.

Definition qepoll_create (sz : Z) : EM Z :=
  if decide (sz <= 0) then mret (-1)
  else
    modify (fun l => l <| efd := efd l + 1 |>);;
    l ← get;
    let qid := efd l in
    m ← manager_at qid;
    if decide (app_thread = 0) then throw DivByZero else
    ms ← lift (write_at (g_qepoll l) qid (m <| qe ::= fun q =>
           q <| qsize := max_concurrency / app_thread |>
             <| sq_chan := Some (m_sq_chan m) |> <| qs_chan := Some (m_qs_chan m) |> |>));
    modify (fun l => l <| g_qepoll := ms |>);;
    mret qid.

Definition qepoll_get_thread_chan (stk_id srv_id : Z) : EM Z :=
  m ← manager_at srv_id; mret (m_sq_chan m + srv_id).

(** * Creating events *)

(** The buffer and the index of a created event. *)
Inductive event_ref : Type := SBuff (core i : Z) | QBuff (qid i : Z).

Definition CreateQevent (p c fd d type : Z) : EM event_ref :=
  l ← get;
  let fill dir := fun e => e <| dire := dir |> <| pri := p |> <| apid := d |> <| core := c |>
    <| nature := type |> <| sockid := u32 fd |> <| timeout := -1 |> in
  if decide (num_stack l <= c) then
    let qid := c - num_stack l in
    a ← qarg_at qid;
    if decide (num_app l = 0) then throw DivByZero else
    let n := if decide (QEPOLL_SIZE / num_app l <= app_count a) then 0 else app_count a in
    let i := app_buff a + n in
    e ← lift (read_at (qevent_buff a) i);
    b ← lift (write_at (qevent_buff a) i (fill APP_TO_QE e));
    set_qarg qid (a <| qevent_buff := b |> <| app_count := n + 1 |>);;
    mret (QBuff qid i)
  else
    a ← sarg_at c;
    let n := if decide (QEPOLL_SIZE / num_stack l <= qev_count a) then 0 else qev_count a in
    e ← lift (read_at (qevent_buff a) n);
    b ← lift (write_at (qevent_buff a) n (fill STACK_TO_QE e));
    set_sarg c (a <| qevent_buff := b |> <| qev_count := n + 1 |>);;
    mret (SBuff c n).

(** [*qevent] *)
Definition read_event (r : event_ref) : EM qepoll_event :=
  match r with
  | SBuff c i => a ← sarg_at c; lift (read_at (qevent_buff a) i)
  | QBuff q i => a ← qarg_at q; lift (read_at (qevent_buff a) i)
  end.

(** * Adding events *)

Definition q_distribute_event (ev : qepoll_event) (pr : bool) : EM Z :=
  l ← get;
  if decide (nature ev <> Q_ACCEPT /\ pr = true) then
    r ← reg_at (sockid ev);
    if decide (-1 < pr_core r) then mret (pr_core r) else throw Exit
  else
    let d := apid ev in
    if decide (num_app l = 0) then throw DivByZero else
    let d := if decide (d < 0) then sockid ev `mod` num_app l else d in
    set_reg (sockid ev) (fun r => r <| proc := true |> <| pr_core := d |>);;
    mret d.

(** The server and the channel an event goes to; [inl] is an error return. *)
Definition select_chan (ev : qepoll_event) : EM (Z + Z * Z) :=
  l ← get;
  if decide (dire ev = STACK_TO_QE) then
    r ← reg_at (sockid ev);
    qid ← q_distribute_event ev (proc r);
    m ← manager_at qid;
    base ← lift (deref NullDeref (sq_chan (qe m)));
    let chan_id := core ev in
    ch ← chan_at (base + chan_id);
    if decide (src ch = core ev /\ dst ch = qid /\ id ch = chan_id + qid * num_stack l)
    then mret (inr (qid, base + chan_id)) else throw Exit
  else
    let qid := apid ev in
    m ← manager_at qid;
    base ← lift (deref NullDeref (qs_chan (qe m)));
    if decide (num_stack l = 0) then throw DivByZero else
    let chan_id := Z.rem (s32 (sockid ev)) (num_stack l) in
    if decide (chan_id < 0) then mret (inl 1116)
    else mret (inr (qid, base + chan_id)).

(** The queue of the channel's wheel for an event with a timeout. *)
Definition select_slot (ev : qepoll_event) (allNow qid c : Z) : EM Z :=
  if decide (0 < timeout ev) then
    l ← get;
    a ← qarg_at qid;
    if decide (num_app l = 0) then throw DivByZero else
    let n := if decide (QEPOLL_SIZE / num_app l <= app_count a) then 0 else app_count a in
    let item := aTimeItems_buff a + n in
    set_qarg qid (a <| app_count := n + 1 |>);;
    ch ← chan_at c;
    (if decide (ullStart (qTimeout ch) = 0) then
       is' ← lift (write_at (llStartIdx (qTimeout ch)) (pri ev) 0);
       set_timer c (fun t => t <| ullStart := allNow |> <| llStartIdx := is' |>)
     else mret tt);;
    ch ← chan_at c;
    let t := qTimeout ch in
    diff ← (if decide (allNow < ullStart t) then mret 0
            else
              let ullExpireTime := u64 (allNow + timeout ev) in
              a ← qarg_at qid;
              items ← lift (write_at (qTimeItems_buff a) item ullExpireTime);
              set_qarg qid (a <| qTimeItems_buff := items |>);;
              let diff := u64 (ullExpireTime - ullStart t) in
              mret (if decide (ullStart t > ullExpireTime) then 0
                    else if decide (iItemSize t <= diff) then iItemSize t - 1 else diff));
    si ← lift (read_at (llStartIdx t) (pri ev));
    qs ← lift (read_at (qItemSize t) (pri ev));
    if decide (qs = 0) then throw DivByZero else mret (Z.rem (si + diff) qs)
  else mret 0.

(** The stores into the queue's slot at [end], before the test for room. *)
Definition AddTimeEvent (event allNow : Z) (ev : qepoll_event) : EM Z :=
  l ← get;
  if sock_stream l (sockid ev) then
    sel ← select_chan ev;
    match sel with
    | inl err => mret err
    | inr (qid, c) =>
        idx ← select_slot ev allNow qid c;
        q ← que_at c (pri ev) idx;
        set_smap (sockid ev) (fun s =>
          s <| reg_events := event |> <| qevents ::= fun x => Z.lor x event |>);;
        s ← smap_at (sockid ev);
        old ← lift (read_at (qevent q) (eend q));
        slots ← lift (write_at (qevent q) (eend q)
          (old <| pri := pri ev |> <| sockid := sockid ev |> <| events := event |>
               <| data := ep_data s |> <| dire := dire ev |> <| apid := apid ev |>
               <| core := core ev |> <| flow_st := flow_st ev |>));
        let q := q <| qevent := slots |> in
        set_que c (pri ev) idx q;;
        isfull ← lift (EventQueueFull q);
        if (isfull : bool) then mret (-1)
        else
          set_que c (pri ev) idx (q <| eend := Z.rem (eend q + 1) (size q) |>);;
          mret 0
    end
  else throw NullDeref.

(** * Registration *)

(** [get_pending_event] of [socket.c]: one event, when the list was written. *)
Definition get_pending_event (fd : Z) : EM (option qepoll_event) :=
  l ← get;
  match pending l !! fd with
  | Some (true, es) =>
      modify (fun l => l <| pending := <[fd := (false, tail es)]> (pending l) |>);;
      mret (head es)
  | _ => mret None
  end.

(** [event] is the caller's object: it is returned as the call left it. *)
Definition qepoll_ctl (ep : Z) (op : qepoll_op) (fd : Z) (event : option qepoll_event)
    (allNow : Z) : EM (Z * option qepoll_event) :=
  m ← manager_at ep;
  if decide (fd < 0) then mret (-1, event)
  else
    match op, event with
    | Q_EPOLL_CTL_ADD, Some ev =>
        let ev := ev <| sockid := fd |> <| apid := ep |> in
        let evs := Z.lor (events ev) (Z.lor Q_EPOLLERR Q_EPOLLHUP) in
        set_smap fd (fun s => s <| ep_data := data ev |> <| reg_events := evs |>);;
        s ← smap_at fd;
        (if decide (1 < socktype s /\ 0 < fd) then
           when (bool_decide (Z.land (reg_events s) Q_EPOLLIN <> 0))
             (AddTimeEvent Q_EPOLLIN allNow ev;; mret tt);;
           s ← smap_at fd;
           when (bool_decide (Z.land (reg_events s) Q_EPOLLOUT <> 0))
             (AddTimeEvent Q_EPOLLOUT allNow ev;; mret tt)
         else
           modify (fun l => l <| sock_qe := <[fd := ep]> (sock_qe l) |>);;
           pend_ev ← get_pending_event fd;
           match pend_ev with
           | Some pe =>
               AddTimeEvent Q_EPOLLIN allNow (pe <| dire := APP_TO_QE |> <| apid := ep |>);; mret tt
           | None => mret tt
           end;;
           set_smap fd (fun s => s <| socktype := 2 |>));;
        mret (0, Some ev)
    | Q_EPOLL_CTL_MOD, Some ev =>
        let evs := Z.lor (events ev) (Z.lor Q_EPOLLERR Q_EPOLLHUP) in
        set_smap fd (fun s => s <| ep_data := data ev |> <| reg_events := evs |>);;
        s ← smap_at fd;
        (if decide (socktype s = SOCK_STREAM) then
           when (bool_decide (Z.land (reg_events s) Q_EPOLLIN <> 0))
             (AddTimeEvent Q_EPOLLIN allNow ev;; mret tt);;
           s ← smap_at fd;
           when (bool_decide (Z.land (reg_events s) Q_EPOLLOUT <> 0))
             (AddTimeEvent Q_EPOLLOUT allNow ev;; mret tt)
         else mret tt);;
        mret (0, event)
    | Q_EPOLL_CTL_DEL, _ =>
        s ← smap_at fd;
        if decide (reg_events s = 0) then mret (-1, event)
        else set_smap fd (fun s => s <| reg_events := Q_EPOLLNONE |>);; mret (0, event)
    | _, None => mret (-1, event)
    end.

Definition qepoll_reset (app_id fd : Z) : EM Z := q_free_map fd;; mret 0.

(** * Waiting *)

(** Is the event one the socket is registered for. *)
Definition event_valid (l : layer) (ev : qepoll_event) : Prop :=
  match read_at (g_smap l) (sockid ev) with
  | Ok s => Z.land (reg_events s) (events ev) <> 0 /\ events ev <> 0
  | Fault _ => False
  end.
#[export] Instance event_valid_dec l ev : Decision (event_valid l ev).
Proof. unfold event_valid. destruct (read_at (g_smap l) (sockid ev)); apply _. Defined.

(** Take the first event of a queue; it is appended to the result unless it is
    not valid. *)
Definition qepoll_qevent (c p idx : Z) (evs : list qepoll_event)
    : EM (bool * list qepoll_event) :=
  l ← get;
  q ← que_at c p idx;
  ev ← lift (read_at (qevent q) (start q));
  _ ← smap_at (sockid ev);
  let validity := bool_decide (event_valid l ev) in
  when validity (set_reg (sockid ev) (fun r => r <| proc := false |>));;
  if decide (size q = 0) then throw DivByZero else
  set_que c p idx (q <| start := Z.rem (start q + 1) (size q) |>);;
  mret (validity, if validity then evs ++ [ev] else evs).

(** [while (end != start && ev_cnt < maxevents)]; a queue of [size] slots is
    empty after fewer than [size] rounds. *)
Fixpoint drain_loop (fuel : nat) (c p idx maxevents : Z) (evs : list qepoll_event)
    : EM (list qepoll_event) :=
  match fuel with
  | O => throw NoReturn
  | S fuel' =>
      q ← que_at c p idx;
      if decide (eend q <> start q /\ Z.of_nat (length evs) < maxevents) then
        '(_, evs') ← qepoll_qevent c p idx evs;
        drain_loop fuel' c p idx maxevents evs'
      else mret evs
  end.
Definition drain (c p idx maxevents : Z) (evs : list qepoll_event) : EM (list qepoll_event) :=
  q ← que_at c p idx;
  drain_loop (S (Z.to_nat (size q))) c p idx maxevents evs.

(** The loop over the low-priority queue, which drains the high-priority
    queues [highs] after each event. *)
Fixpoint low_loop (fuel : nat) (c idx maxevents : Z)
    (high : list qepoll_event -> EM (list qepoll_event)) (evs : list qepoll_event)
    : EM (list qepoll_event) :=
  match fuel with
  | O => throw NoReturn
  | S fuel' =>
      q ← que_at c 0 idx;
      if decide (eend q <> start q /\ Z.of_nat (length evs) < maxevents) then
        '(_, evs') ← qepoll_qevent c 0 idx evs;
        evs'' ← high evs';
        low_loop fuel' c idx maxevents high evs''
      else mret evs
  end.
Definition drain_low (c idx maxevents : Z) (high : list qepoll_event -> EM (list qepoll_event))
    (evs : list qepoll_event) : EM (list qepoll_event) :=
  q ← que_at c 0 idx;
  low_loop (S (Z.to_nat (size q))) c idx maxevents high evs.

(** [for (i = 0; i < cnt; i++)] over the queues of the wheel of priority [p]. *)
Fixpoint wheel_loop (n : nat) (i c p : Z)
    (body : Z -> list qepoll_event -> EM (list qepoll_event)) (evs : list qepoll_event)
    : EM (list qepoll_event) :=
  match n with
  | O => mret evs
  | S n' =>
      ch ← chan_at c;
      si ← lift (read_at (llStartIdx (qTimeout ch)) p);
      qs ← lift (read_at (qItemSize (qTimeout ch)) p);
      if decide (qs = 0) then throw DivByZero else
      evs' ← body (Z.rem (si + i) qs) evs;
      wheel_loop n' (i + 1) c p body evs'
  end.

Definition add_start_idx (c p d : Z) : EM unit :=
  ch ← chan_at c;
  si ← lift (read_at (llStartIdx (qTimeout ch)) p);
  is' ← lift (write_at (llStartIdx (qTimeout ch)) p (si + d));
  set_timer c (fun t => t <| llStartIdx := is' |>).

(** One channel with a timeout; [None] is the early [return 0]. *)
Definition wait_timeout (c maxevents : Z) (evs : list qepoll_event)
    : EM (option (list qepoll_event)) :=
  t1 ← GetTickMS;
  ch ← chan_at c;
  if decide (t1 < ullStart (qTimeout ch)) then mret None
  else
    (if decide (ullStart (qTimeout ch) = 0) then
       t2 ← GetTickMS;
       set_timer c (fun t => t <| ullStart := t2 |> <| llStartIdx := [0; 0] |>)
     else mret tt);;
    t3 ← GetTickMS;
    ch ← chan_at c;
    let cnt := s32 (t3 - ullStart (qTimeout ch) + 1) in
    s1 ← lift (read_at (qItemSize (qTimeout ch)) 1);
    s0 ← lift (read_at (qItemSize (qTimeout ch)) 0);
    let cnt := if decide (s1 < cnt) then s1 else cnt in
    if decide (cnt < 0) then mret None
    else
      evs ← wheel_loop (Z.to_nat cnt) 0 c 1 (fun idx evs => drain c 1 idx maxevents evs) evs;
      add_start_idx c 1 (cnt - 1);;
      let cnt := if decide (s0 < cnt) then s0 else cnt in
      evs ← wheel_loop (Z.to_nat cnt) 0 c 0 (fun idx evs =>
        drain_low c idx maxevents (fun evs =>
          evs ← wheel_loop (Z.to_nat cnt) 0 c 1 (fun idx evs => drain c 1 idx maxevents evs) evs;
          add_start_idx c 1 (cnt - 1);; mret evs) evs) evs;
      t4 ← GetTickMS;
      set_timer c (fun t => t <| ullStart := t4 |>);;
      add_start_idx c 0 (cnt - 1);;
      mret (Some evs).

(** One channel without a timeout. *)
Definition wait_now (c maxevents : Z) (evs : list qepoll_event) : EM (list qepoll_event) :=
  evs ← drain c 1 0 maxevents evs;
  drain_low c 0 maxevents (fun evs => drain c 1 0 maxevents evs) evs.

Definition wait_chan (c maxevents tmo : Z) (evs : list qepoll_event)
    : EM (option (list qepoll_event)) :=
  if decide (0 < tmo) then wait_timeout c maxevents evs
  else evs ← wait_now c maxevents evs; mret (Some evs).

(** The channels of stack threads [ns], [ns+1], ...: first from the stack,
    then from the applications. *)
Fixpoint stacks_loop (n : nat) (ns ep maxevents tmo : Z) (evs : list qepoll_event)
    : EM (option (list qepoll_event)) :=
  match n with
  | O => mret (Some evs)
  | S n' =>
      m ← manager_at ep;
      sq ← lift (deref NullDeref (sq_chan (qe m)));
      r ← wait_chan (sq + ns) maxevents tmo evs;
      match r with
      | None => mret None
      | Some evs =>
          qs ← lift (deref NullDeref (qs_chan (qe m)));
          r ← wait_chan (qs + ns) maxevents tmo evs;
          match r with
          | None => mret None
          | Some evs => stacks_loop n' (ns + 1) ep maxevents tmo evs
          end
      end
  end.

(** The returned count and the events stored.  [shared] tells whether the
    server shares its core with a stack thread, to which it then yields. *)
Definition qepoll_wait (ep maxevents tmo : Z) (shared : bool) : EM (Z * list qepoll_event) :=
  _ ← manager_at ep;
  if decide (ep < 0 \/ MAX_SERVER_NUM <= ep) then mret (- EBADF, [])
  else if decide (0 < stack_thread /\ maxevents <= 0) then mret (- EINVAL, [])
  else
    r ← stacks_loop (Z.to_nat stack_thread) 0 ep maxevents tmo [];
    match r with
    | None => mret (0, [])
    | Some evs =>
        when (bool_decide (evs = [] /\ shared = true))
          (modify (fun l => l <| sleeps := S (sleeps l) |>));;
        mret (Z.of_nat (length evs), evs)
    end.

(** ** Waiting with two result arrays

    The loops are those of [qepoll_wait] with the high-priority events stored
    in [h] and the others in [lo]; [maxevents] bounds their sum. *)
Definition room (maxevents : Z) (other : list qepoll_event) : Z :=
  maxevents - Z.of_nat (length other).

Fixpoint low_pri_loop (fuel : nat) (c idx maxevents : Z)
    (high : list qepoll_event -> list qepoll_event -> EM (list qepoll_event))
    (h lo : list qepoll_event) : EM (list qepoll_event * list qepoll_event) :=
  match fuel with
  | O => throw NoReturn
  | S fuel' =>
      q ← que_at c 0 idx;
      if decide (eend q <> start q /\ Z.of_nat (length lo) < room maxevents h) then
        '(_, lo) ← qepoll_qevent c 0 idx lo;
        h ← high h lo;
        low_pri_loop fuel' c idx maxevents high h lo
      else mret (h, lo)
  end.

Fixpoint wheel_pri_loop (n : nat) (i c maxevents : Z)
    (high : list qepoll_event -> list qepoll_event -> EM (list qepoll_event))
    (h lo : list qepoll_event) : EM (list qepoll_event * list qepoll_event) :=
  match n with
  | O => mret (h, lo)
  | S n' =>
      ch ← chan_at c;
      si ← lift (read_at (llStartIdx (qTimeout ch)) 0);
      qs ← lift (read_at (qItemSize (qTimeout ch)) 0);
      if decide (qs = 0) then throw DivByZero else
      let idx := Z.rem (si + i) qs in
      q ← que_at c 0 idx;
      '(h, lo) ← low_pri_loop (S (Z.to_nat (size q))) c idx maxevents high h lo;
      wheel_pri_loop n' (i + 1) c maxevents high h lo
  end.

Definition wait_timeout_pri (c maxevents : Z) (h lo : list qepoll_event)
    : EM (option (list qepoll_event * list qepoll_event)) :=
  t1 ← GetTickMS;
  ch ← chan_at c;
  if decide (t1 < ullStart (qTimeout ch)) then mret None
  else
    (if decide (ullStart (qTimeout ch) = 0) then
       t2 ← GetTickMS;
       set_timer c (fun t => t <| ullStart := t2 |> <| llStartIdx := [0; 0] |>)
     else mret tt);;
    t3 ← GetTickMS;
    ch ← chan_at c;
    let cnt := s32 (t3 - ullStart (qTimeout ch) + 1) in
    s1 ← lift (read_at (qItemSize (qTimeout ch)) 1);
    s0 ← lift (read_at (qItemSize (qTimeout ch)) 0);
    let cnt := if decide (s1 < cnt) then s1 else cnt in
    if decide (cnt < 0) then mret None
    else
      let high (n : Z) (h lo : list qepoll_event) :=
        h ← wheel_loop (Z.to_nat n) 0 c 1
              (fun idx h => drain c 1 idx (room maxevents lo) h) h;
        add_start_idx c 1 (n - 1);; mret h in
      h ← high cnt h lo;
      let cnt := if decide (s0 < cnt) then s0 else cnt in
      '(h, lo) ← wheel_pri_loop (Z.to_nat cnt) 0 c maxevents (high cnt) h lo;
      t4 ← GetTickMS;
      set_timer c (fun t => t <| ullStart := t4 |>);;
      add_start_idx c 0 (cnt - 1);;
      mret (Some (h, lo)).

Definition wait_now_pri (c maxevents : Z) (h lo : list qepoll_event)
    : EM (list qepoll_event * list qepoll_event) :=
  h ← drain c 1 0 (room maxevents lo) h;
  q ← que_at c 0 0;
  low_pri_loop (S (Z.to_nat (size q))) c 0 maxevents
    (fun h lo => drain c 1 0 (room maxevents lo) h) h lo.

Definition wait_chan_pri (c maxevents tmo : Z) (h lo : list qepoll_event)
    : EM (option (list qepoll_event * list qepoll_event)) :=
  if decide (0 < tmo) then wait_timeout_pri c maxevents h lo
  else r ← wait_now_pri c maxevents h lo; mret (Some r).

(** The loop runs over the servers and takes channel [ep] of each; [inl] is an
    early return. *)
Fixpoint servers_loop (n : nat) (ns ep maxevents tmo : Z) (h lo : list qepoll_event)
    : EM (Z + list qepoll_event * list qepoll_event) :=
  match n with
  | O => mret (inr (h, lo))
  | S n' =>
      m ← manager_at ns;
      if decide (ep < 0 \/ MAX_FLOW_NUM <= ep) then mret (inl (- EBADF))
      else if decide (maxevents <= 0) then mret (inl (- EINVAL))
      else
        sq ← lift (deref NullDeref (sq_chan (qe m)));
        r ← wait_chan_pri (sq + ep) maxevents tmo h lo;
        match r with
        | None => mret (inl 0)
        | Some (h, lo) =>
            qs ← lift (deref NullDeref (qs_chan (qe m)));
            r ← wait_chan_pri (qs + ep) maxevents tmo h lo;
            match r with
            | None => mret (inl 0)
            | Some (h, lo) => servers_loop n' (ns + 1) ep maxevents tmo h lo
            end
        end
  end.

(** [*high_num] and [*low_num] are not written. *)
Definition qepoll_wait_pri (ep maxevents tmo : Z)
    : EM (Z * list qepoll_event * list qepoll_event) :=
  l ← get;
  r ← servers_loop (Z.to_nat (num_server l)) 0 ep maxevents tmo [] [];
  match r with
  | inl err => mret (err, [], [])
  | inr (h, lo) => mret (Z.of_nat (length h) + Z.of_nat (length lo), h, lo)
  end.

(** ** Waiting for one priority *)

Fixpoint mgt_loop (n : nat) (ns ep maxevents p : Z) (evs : list qepoll_event)
    : EM (list qepoll_event) :=
  match n with
  | O => mret evs
  | S n' =>
      m ← manager_at ep;
      sq ← lift (deref NullDeref (sq_chan (qe m)));
      evs ← drain (sq + ns) p 0 maxevents evs;
      mgt_loop n' (ns + 1) ep maxevents p evs
  end.

Definition qepoll_mgt_wait (ep maxevents p : Z) : EM (Z * list qepoll_event) :=
  l ← get;
  _ ← manager_at ep;
  if decide (maxevents <= 0) then mret (- EINVAL, [])
  else if decide (ep < 0 \/ MAX_SERVER_NUM <= ep) then mret (- EBADF, [])
  else
    evs ← mgt_loop (Z.to_nat (num_stack l)) 0 ep maxevents p [];
    mret (Z.of_nat (length evs), evs).

(** The buffer of fetched events of one priority. *)
Record evmgt_queue : Type := EvmgtQ { ev_buf : list qepoll_event; num : Z; p : Z }.
#[export] Instance evmgt_queue_rebuild : Rebuild evmgt_queue := fun q =>
  EvmgtQ (ev_buf q) (num q) (p q).
Record event_mgt : Type := EventMgt {
  m_size : Z; lb : Z; events_h : evmgt_queue; events_l : evmgt_queue;
}.
#[export] Instance event_mgt_rebuild : Rebuild event_mgt := fun m =>
  EventMgt (m_size m) (lb m) (events_h m) (events_l m).

Definition evmgtq_init (size : Z) : evmgt_queue := EvmgtQ (q_alloc_epres size) 0 0.
Definition eventmgt_init (maxsize lb : Z) : event_mgt :=
  EventMgt maxsize lb (evmgtq_init maxsize) (evmgtq_init lb).

Definition evmgtq_get (q : evmgt_queue) : res (option qepoll_event * evmgt_queue) :=
  if decide (num q <> 0 /\ p q < num q) then
    e ← read_at (ev_buf q) (p q); Ok (Some e, q <| p := p q + 1 |>)
  else Ok (None, q).

Definition evmgtq_fetch_events (q : evmgt_queue) (ep maxevents pr : Z) : EM evmgt_queue :=
  '(n, evs) ← qepoll_mgt_wait ep maxevents pr;
  mret (EvmgtQ (evs ++ drop (length evs) (ev_buf q)) n 0).

Definition eventmgt_get (ep : Z) (shared : bool) (mgt : event_mgt)
    : EM (option qepoll_event * event_mgt) :=
  '(r, h) ← lift (evmgtq_get (events_h mgt));
  match r with
  | Some e => mret (Some e, mgt <| events_h := h |>)
  | None =>
      h ← evmgtq_fetch_events (events_h mgt) ep (m_size mgt) 1;
      '(r, h) ← lift (evmgtq_get h);
      let mgt := mgt <| events_h := h |> in
      match r with
      | Some e => mret (Some e, mgt)
      | None =>
          '(r, l) ← lift (evmgtq_get (events_l mgt));
          match r with
          | Some e => mret (Some e, mgt <| events_l := l |>)
          | None =>
              l ← evmgtq_fetch_events (events_l mgt) ep (lb mgt) 0;
              '(r, l) ← lift (evmgtq_get l);
              when (bool_decide (r = None /\ shared = true))
                (modify (fun y => y <| sleeps := S (sleeps y) |>));;
              mret (r, mgt <| events_l := l |>)
          end
      end
  end.
End WithSizes.
End Qepoll.
