(* ===== verification/Mbuf.v ===== *)
(** Packet buffers ([mbuf.h]), their linked lists ([mbuf_list_*]) and the
    direct-mode queues of them ([mbuf_queue.h]).

    The [struct rte_mbuf] objects live in a store indexed by their address;
    only the fields the stack reads or writes are kept.  [mbuf_free] hands the
    buffer to the driver ([io_free_mbuf]); the store remembers every release,
    in order, so that a double release is visible. *)
From S2P Require Import Prelude Fifo CircularQueue.
#[local] Open Scope Z_scope.

Definition ETHERNET_HEADER_LEN : Z := 14.
Definition IP_HEADER_LEN : Z := 20.
Definition TCP_HEADER_LEN : Z := 20.

Definition MBUF_STATE_FREE : Z := 0.
Definition MBUF_STATE_RCVED : Z := 1.
Definition MBUF_STATE_RBUFFED : Z := 2.
Definition MBUF_STATE_RREAD : Z := 3.
Definition MBUF_STATE_TALLOC : Z := 5.
Definition MBUF_STATE_TBUFFED : Z := 6.
Definition MBUF_STATE_SENT : Z := 8.
Definition MBUF_STATE_LOSS : Z := 9.
Definition MBUF_STATE_RETRANS : Z := 10.

Record mbuf : Type := Mbuf {
  buf_addr : Z;
  data_off : Z;
  pkt_len : Z;
  data_len : Z;
  l2_len : Z;              (* bit fields of the tx_offload word *)
  l3_len : Z;
  l4_len : Z;
  tso_segsz : Z;
  mbuf_state : Z;
  priority : Z;
  holding : Z;
  payload_len : Z;
  tcp_seq : Z;
  buf_next : ptr;
}.

#[export] Instance mbuf_rebuild : Rebuild mbuf := fun m =>
  Mbuf (buf_addr m) (data_off m) (pkt_len m) (data_len m) (l2_len m) (l3_len m) (l4_len m) (tso_segsz m)
    (mbuf_state m) (priority m) (holding m) (payload_len m) (tcp_seq m) (buf_next m).

Record mheap : Type := MHeap {
  mbufs : gmap ptr mbuf;
  released : list ptr;      (* io_free_mbuf calls, oldest first *)
}.

#[export] Instance mheap_rebuild : Rebuild mheap := fun h => MHeap (mbufs h) (released h).

(** [*p] and [p->f = v]. *)
Definition load (p : ptr) : M mheap mbuf := fun h =>
  (fun m => (m, h)) <$> deref NullDeref (mbufs h !! p).
Definition store (p : ptr) (g : mbuf -> mbuf) : M mheap unit := fun h =>
  m ← deref NullDeref (mbufs h !! p);
  Ok (tt, h <| mbufs := <[p := g m]> (mbufs h) |>).

(** ** Header positions *)

(** The word [tx_offload] is a union with the bit fields [l2_len:7],
    [l3_len:9], [l4_len:8], [tso_segsz:16]; the outer lengths behind them are
    never read. *)
Definition mbuf_set_tx_offload (m : mbuf) (l2 l3 l4 tso outer_l3 outer_l2 : Z) : mbuf :=
  let tx_offload := u64 (Z.shiftl outer_l2 49 + Z.shiftl outer_l3 40 + Z.shiftl tso 24 +
                         Z.shiftl l4 16 + Z.shiftl l3 7 + l2) in
  m <| l2_len := tx_offload `mod` 2 ^ 7 |>
    <| l3_len := Z.shiftr tx_offload 7 `mod` 2 ^ 9 |>
    <| l4_len := Z.shiftr tx_offload 16 `mod` 2 ^ 8 |>
    <| tso_segsz := Z.shiftr tx_offload 24 `mod` 2 ^ 16 |>.

Definition mbuf_get_tcp_payload_len (m : mbuf) : Z :=
  s32 (pkt_len m - ETHERNET_HEADER_LEN - IP_HEADER_LEN - l4_len m).

Definition MBUF_GET_BUFF (m : mbuf) : ptr := buf_addr m + data_off m.

Definition mbuf_get_buff_ptr (p : ptr) : M mheap ptr :=
  if decide (p = NULL) then mret NULL else m ← load p; mret (MBUF_GET_BUFF m).
Definition mbuf_get_ip_ptr (p : ptr) : M mheap ptr :=
  if decide (p = NULL) then mret NULL else
  m ← load p; mret (MBUF_GET_BUFF m + ETHERNET_HEADER_LEN).
Definition mbuf_get_tcp_ptr (p : ptr) : M mheap ptr :=
  if decide (p = NULL) then mret NULL else
  m ← load p; mret (MBUF_GET_BUFF m + ETHERNET_HEADER_LEN + IP_HEADER_LEN).
Definition mbuf_get_payload_ptr (p : ptr) : M mheap ptr :=
  if decide (p = NULL) then mret NULL else
  m ← load p;
  if decide (l4_len m = 0) then mret NULL
  else mret (MBUF_GET_BUFF m + ETHERNET_HEADER_LEN + IP_HEADER_LEN + l4_len m).

(** ** Release *)
Definition mbuf_free (p : ptr) : M mheap unit :=
  if decide (p = NULL) then throw Exit else
  store p (fun m => m <| mbuf_state := MBUF_STATE_FREE |>);;
  modify (fun h => h <| released := released h ++ [p] |>).

(** ** Linked lists *)
Record mbuf_list : Type := MbufList { ml_head : ptr; ml_tail : ptr }.

Definition mbuf_list_init : mbuf_list := MbufList NULL NULL.

Definition mbuf_list_pop (list : mbuf_list) : M mheap (ptr * mbuf_list) :=
  let ret := ml_head list in
  if decide (ret = NULL) then mret (ret, list) else
  m ← load ret;
  let head := buf_next m in
  store ret (fun m => m <| buf_next := NULL |>);;
  mret (ret, MbufList head (if decide (head = NULL) then NULL else ml_tail list)).

Definition mbuf_list_append (list : mbuf_list) (p : ptr) : M mheap mbuf_list :=
  if decide (ml_tail list = NULL) then
    store p (fun m => m <| buf_next := NULL |>);;
    mret (MbufList p p)
  else
    store (ml_tail list) (fun m => m <| buf_next := p |>);;
    store p (fun m => m <| buf_next := NULL |>);;
    mret (MbufList (ml_head list) p).

Definition mbuf_list_insert (list : mbuf_list) (b1 b2 : ptr) : M mheap mbuf_list :=
  m1 ← load b1;
  store b2 (fun m => m <| buf_next := buf_next m1 |>);;
  store b1 (fun m => m <| buf_next := b2 |>);;
  m2 ← load b2;
  mret (if decide (buf_next m2 = NULL) then MbufList (ml_head list) b2 else list).

Definition mbuf_list_add_head (list : mbuf_list) (p : ptr) : M mheap mbuf_list :=
  store p (fun m => m <| buf_next := ml_head list |>);;
  m ← load p;
  mret (MbufList p (if decide (buf_next m = NULL) then p else ml_tail list)).

(** Returns the new values of [l1] and [l2]. *)
Definition mbuf_list_merge (l1 l2 : mbuf_list) : M mheap (mbuf_list * mbuf_list) :=
  l1' ← (if decide (ml_tail l1 = NULL) then mret (MbufList (ml_head l2) (ml_tail l2))
         else if decide (ml_head l2 = NULL) then mret l1
         else store (ml_tail l1) (fun m => m <| buf_next := ml_head l2 |>);;
              mret (MbufList (ml_head l1) (ml_tail l2)));
  mret (l1', MbufList NULL NULL).

(** The [while (iter)] loop, with fuel. *)
Fixpoint free_loop (fuel : nat) (iter : ptr) : M mheap unit :=
  match fuel with
  | O => throw NoReturn
  | S fuel' =>
      if decide (iter = NULL) then mret tt else
      m ← load iter;
      let next := buf_next m in
      mbuf_free iter;;
      free_loop fuel' next
  end.

(** As many iterations as there are buffers, and one to see the end. *)
Definition list_fuel (h : mheap) : nat := S (S (size (mbufs h))).

Definition mbuf_list_free (list : mbuf_list) : M mheap mbuf_list :=
  h ← get;
  free_loop (list_fuel h) (ml_head list);;
  mret (MbufList NULL NULL).

(** ** Queues of buffers (direct mode) *)
Definition mbufq_init (q : circular_queue) : Z * circular_queue := dir_cirq_init q.
Definition mbufq_enqueue : circular_queue -> ptr -> res (Z * circular_queue) := dir_cirq_add.
Definition mbufq_dequeue : circular_queue -> res (ptr * circular_queue) := dir_cirq_get.
Definition mbufq_empty : circular_queue -> bool := cirq_empty.

(** [while (mbuf = mbufq_dequeue(q)) mbuf_free(mbuf)]. *)
Fixpoint clear_loop (fuel : nat) (q : circular_queue) : M mheap circular_queue :=
  match fuel with
  | O => throw NoReturn
  | S fuel' =>
      '(p, q') ← lift (mbufq_dequeue q);
      if decide (p = NULL) then mret q' else
      mbuf_free p;; clear_loop fuel' q'
  end.

Definition mbufq_clear (q : circular_queue) : M mheap circular_queue :=
  clear_loop (S (Z.to_nat (q_size q))) q.

(** * Lists of buffers represent sequences *)

(** [seg m p l q]: following [buf_next] from [p] visits [l] and reaches [q]. *)
Fixpoint seg (m : gmap ptr mbuf) (p : ptr) (l : list ptr) (q : ptr) : Prop :=
  match l with
  | [] => p = q
  | x :: l' => p = x /\ x <> NULL /\ exists b, m !! x = Some b /\ seg m (buf_next b) l' q
  end.

Record is_list (h : mheap) (L : mbuf_list) (l : list ptr) : Prop := {
  il_seg : seg (mbufs h) (ml_head L) l NULL;
  il_tail : ml_tail L = default NULL (last l);
  il_nodup : NoDup l;
}.

(** The content of the buffers, links aside. *)
Definition unlinked (m : mbuf) : mbuf := m <| buf_next := NULL |>.
Definition payloads (h : mheap) : gmap ptr mbuf := unlinked <$> mbufs h.

Lemma seg_app m p l1 l2 q :
  seg m p (l1 ++ l2) q <-> exists r, seg m p l1 r /\ seg m r l2 q.
Proof.
  revert p. induction l1 as [|x l1 IH]; intros p; simpl; [naive_solver|].
  setoid_rewrite IH. naive_solver.
Qed.

Lemma seg_frame m p l q x b :
  x ∉ l -> seg m p l q -> seg (<[x := b]> m) p l q.
Proof.
  revert p. induction l as [|y l IH]; intros p Hx; simpl; [done|].
  intros (-> & Hy & c & Hc & Hs). rewrite not_elem_of_cons in Hx. destruct Hx as [Hxy Hx].
  split_and!; [done..|]. exists c. rewrite lookup_insert_ne by done. eauto.
Qed.

Lemma seg_ext m m' p l q :
  (forall x, x ∈ l -> m' !! x = m !! x) -> seg m p l q -> seg m' p l q.
Proof.
  revert p. induction l as [|y l IH]; intros p Hx; simpl; [done|].
  intros (-> & Hy & c & Hc & Hs). split_and!; [done..|]. exists c.
  rewrite Hx by set_solver. split; [done|]. apply IH; [set_solver | done].
Qed.

Lemma seg_in_dom m p l q x : seg m p l q -> x ∈ l -> x <> NULL /\ is_Some (m !! x).
Proof.
  revert p. induction l as [|y l IH]; intros p; simpl; [set_solver|].
  intros (-> & Hy & c & Hc & Hs) [->|Hx]%elem_of_cons; eauto.
Qed.

Lemma seg_redirect m p l t b q n :
  t ∉ l -> m !! t = Some b -> seg m p (l ++ [t]) q ->
  seg (<[t := b <| buf_next := n |>]> m) p (l ++ [t]) n.
Proof.
  intros Ht Hb Hs. apply seg_app in Hs as (r & Hl & (-> & Hn & _)).
  apply seg_app. exists t. split; [by apply seg_frame|].
  split_and!; [done..|]. exists (b <| buf_next := n |>). by rewrite lookup_insert_eq.
Qed.

Lemma seg_bound m p l q : NoDup l -> seg m p l q -> (length l <= size m)%nat.
Proof.
  intros Hnd Hs. assert (list_to_set l ⊆@{gset ptr} dom m) as Hsub.
  { intros x Hx%elem_of_list_to_set. apply elem_of_dom. by eapply seg_in_dom. }
  apply subseteq_size in Hsub. rewrite size_list_to_set, size_dom in Hsub by done. done.
Qed.

Lemma load_ok p h b : mbufs h !! p = Some b -> load p h = Ok (b, h).
Proof. unfold load. by intros ->. Qed.

Lemma store_ok p g h b :
  mbufs h !! p = Some b -> store p g h = Ok (tt, MHeap (<[p := g b]> (mbufs h)) (released h)).
Proof. unfold store. by intros ->. Qed.

Lemma unlinked_insert (m : gmap ptr mbuf) x b g :
  m !! x = Some b -> unlinked (g b) = unlinked b ->
  unlinked <$> <[x := g b]> m = unlinked <$> m.
Proof.
  intros Hb Hg. rewrite fmap_insert, Hg. apply insert_id. by rewrite lookup_fmap, Hb.
Qed.

(** Writing a link keeps the payloads. *)
Lemma link_payloads h x b n r :
  mbufs h !! x = Some b ->
  payloads (MHeap (<[x := b <| buf_next := n |>]> (mbufs h)) r) = payloads h.
Proof. intros Hb. by apply (unlinked_insert _ _ b (fun b => b <| buf_next := n |>)). Qed.

Lemma link2_payloads h x b n y c n' r :
  mbufs h !! x = Some b -> mbufs h !! y = Some c -> y <> x ->
  payloads (MHeap (<[y := c <| buf_next := n' |>]> (<[x := b <| buf_next := n |>]> (mbufs h))) r)
    = payloads h.
Proof.
  intros Hb Hc Hne. trans (payloads (MHeap (<[x := b <| buf_next := n |>]> (mbufs h)) r)).
  - pose proof (link_payloads (MHeap (<[x := b <| buf_next := n |>]> (mbufs h)) r) y c n' r) as H.
    cbn [mbufs] in H. apply H. by rewrite lookup_insert_ne by done.
  - by apply link_payloads.
Qed.

Lemma is_list_empty h : is_list h mbuf_list_init [].
Proof. by split; [| |constructor]. Qed.

Lemma is_list_tail h L l t : is_list h L (l ++ [t]) -> ml_tail L = t.
Proof. intros [_ Ht _]. by rewrite last_snoc in Ht. Qed.

Lemma mbuf_list_pop_nil h L : is_list h L [] -> mbuf_list_pop L h = Ok ((NULL, L), h).
Proof. intros [Hs _ _]. simpl in Hs. unfold mbuf_list_pop. by rewrite Hs. Qed.

Lemma mbuf_list_pop_cons h L x l :
  is_list h L (x :: l) ->
  exists L' h', mbuf_list_pop L h = Ok ((x, L'), h') /\ is_list h' L' l /\
    payloads h' = payloads h /\ released h' = released h /\
    (exists b, mbufs h !! x = Some b /\ mbufs h' = <[x := b <| buf_next := NULL |>]> (mbufs h)).
Proof.
  intros [(Hh & Hx & b & Hb & Hs) Ht Hnd]. unfold mbuf_list_pop. rewrite Hh.
  rewrite decide_False by done. erewrite bind_ok by by apply load_ok.
  erewrite bind_ok by by apply store_ok.
  eexists _, _. split; [done|]. inversion_clear Hnd as [|? ? Hxl Hnd'].
  split_and!; [split| | | eexists; split; [done|done]]; simpl.
  - by apply seg_frame.
  - case_decide as Hn.
    + destruct l as [|y l]; [done|]. simpl in Hs. naive_solver.
    + destruct l as [|y l]; [by simpl in Hs|]. by rewrite Ht.
  - done.
  - by apply link_payloads.
  - done.
Qed.

Lemma mbuf_list_append_spec h L l p :
  is_list h L l -> p ∉ l -> p <> NULL -> is_Some (mbufs h !! p) ->
  exists L' h', mbuf_list_append L p h = Ok (L', h') /\ is_list h' L' (l ++ [p]) /\
    payloads h' = payloads h /\ released h' = released h.
Proof.
  intros [Hs Ht Hnd] Hpl Hp [b Hb]. unfold mbuf_list_append.
  assert (NoDup (l ++ [p])) as Hnd'.
  { apply NoDup_app. split_and!; [done | set_solver | apply NoDup_singleton]. }
  destruct (decide (l = [])) as [->|Hne].
  - rewrite Ht. simpl. erewrite bind_ok by by apply store_ok.
    eexists _, _. split; [done|]. split_and!; [split; simpl; try done| by apply link_payloads|done].
    split_and!; [done..|]. eexists. by rewrite lookup_insert_eq.
  - destruct (exists_last Hne) as (l0 & t & ->). rewrite last_snoc in Ht. simpl in Ht.
    apply NoDup_app in Hnd as (Hnd0 & Htl & _).
    destruct (seg_in_dom _ _ _ _ t Hs) as (Htn & bt & Hbt); [set_solver|].
    rewrite Ht, decide_False by done. erewrite bind_ok by by apply store_ok.
    assert (p <> t) by set_solver.
    erewrite bind_ok by (apply store_ok; simpl; by rewrite lookup_insert_ne by done).
    eexists _, _. split; [done|]. simpl. split_and!.
    + split; simpl; [| by rewrite last_snoc | done].
      apply seg_app. exists p. split.
      * apply seg_frame; [done|]. eapply seg_redirect; [set_solver | done | done].
      * split_and!; [done..|]. eexists. by rewrite lookup_insert_eq.
    + by apply link2_payloads.
    + done.
Qed.

Lemma mbuf_list_add_head_spec h L l p :
  is_list h L l -> p ∉ l -> p <> NULL -> is_Some (mbufs h !! p) ->
  exists L' h', mbuf_list_add_head L p h = Ok (L', h') /\ is_list h' L' (p :: l) /\
    payloads h' = payloads h /\ released h' = released h.
Proof.
  intros [Hs Ht Hnd] Hpl Hp [b Hb]. unfold mbuf_list_add_head.
  erewrite bind_ok by by apply store_ok.
  erewrite bind_ok by (apply load_ok; simpl; by rewrite lookup_insert_eq).
  eexists _, _. split; [done|]. split_and!; [split; simpl| by apply link_payloads | done].
  - split_and!; [done..|]. eexists. rewrite lookup_insert_eq. split; [done|]. by apply seg_frame.
  - destruct l as [|y l].
    + simpl in Hs. rewrite Hs. done.
    + destruct Hs as (Hh & Hy & _). rewrite decide_False by congruence. by rewrite Ht.
  - by constructor.
Qed.

Lemma mbuf_list_insert_spec h L l1 b1 l2 p :
  is_list h L (l1 ++ b1 :: l2) -> p ∉ l1 ++ b1 :: l2 -> p <> NULL -> is_Some (mbufs h !! p) ->
  exists L' h', mbuf_list_insert L b1 p h = Ok (L', h') /\
    is_list h' L' (l1 ++ b1 :: p :: l2) /\
    payloads h' = payloads h /\ released h' = released h.
Proof.
  intros [Hs Ht Hnd] Hpl Hp [b Hb]. unfold mbuf_list_insert.
  rewrite cons_middle in Hs. rewrite app_assoc in Hs. apply seg_app in Hs as (r & Hs1 & Hs2).
  destruct (seg_in_dom _ _ _ _ b1 Hs1) as (Hb1n & c & Hc); [set_solver|].
  assert (buf_next c = r) as Hr.
  { apply seg_app in Hs1 as (? & _ & -> & _ & d & Hd & Hd'). simpl in Hd'. congruence. }
  assert (p <> b1 /\ p ∉ l1 /\ p ∉ l2) as (Hpb & Hp1 & Hp2) by set_solver.
  pose proof Hnd as (Hnd1 & Hdis & Hnd2)%NoDup_app. apply NoDup_cons in Hnd2 as [Hbl2 Hnd2].
  assert (b1 ∉ l1) by set_solver.
  erewrite bind_ok by by apply load_ok. erewrite bind_ok by by apply store_ok.
  erewrite bind_ok by (apply store_ok; simpl; by rewrite lookup_insert_ne by done).
  erewrite bind_ok by (apply load_ok; simpl; rewrite lookup_insert_ne, lookup_insert_eq; done).
  eexists _, _. split; [done|]. split_and!; [split; simpl| |done].
  - case_decide; rewrite cons_middle, app_assoc; apply seg_app; exists p;
      (split; [eapply seg_redirect; [done | by rewrite lookup_insert_ne by done |
                 apply seg_frame; [set_solver | done]] |]);
      (split_and!; [done..|]; eexists; rewrite lookup_insert_ne, lookup_insert_eq by done;
       split; [done|]; simpl; rewrite Hr; apply seg_frame; [done|]; by apply seg_frame).
  - unfold update. simpl. rewrite Hr. destruct l2 as [|y l2].
    + simpl in Hs2. subst r. rewrite decide_True by done.
      by rewrite cons_middle, app_assoc, last_snoc.
    + destruct Hs2 as (-> & Hy & _). rewrite decide_False by done. rewrite Ht.
      by rewrite !last_app, !last_cons_cons.
  - change (l1 ++ b1 :: p :: l2) with (l1 ++ [b1; p] ++ l2) in *.
    apply NoDup_app. split_and!; [done | set_solver |].
    repeat (apply NoDup_cons; split); [set_solver | set_solver | done].
  - by apply link2_payloads.
Qed.

(** Two lists of distinct buffers are joined in order; the second is emptied. *)
Lemma mbuf_list_merge_spec h L1 L2 l1 l2 :
  is_list h L1 l1 -> is_list h L2 l2 -> l1 ## l2 ->
  exists L' h', mbuf_list_merge L1 L2 h = Ok ((L', mbuf_list_init), h') /\
    is_list h' L' (l1 ++ l2) /\ payloads h' = payloads h /\ released h' = released h.
Proof.
  intros [Hs1 Ht1 Hnd1] [Hs2 Ht2 Hnd2] Hdis. unfold mbuf_list_merge.
  destruct (decide (l1 = [])) as [->|Hne].
  { rewrite Ht1. simpl. exists (MbufList (ml_head L2) (ml_tail L2)), h. by split_and!. }
  destruct (exists_last Hne) as (l0 & t & ->). rewrite last_snoc in Ht1. simpl in Ht1.
  destruct (seg_in_dom _ _ _ _ t Hs1) as (Htn & b & Hb); [set_solver|].
  rewrite Ht1, (decide_False (P := t = NULL)) by done.
  destruct l2 as [|x l2].
  { simpl in Hs2. rewrite Hs2, decide_True by done. exists L1, h.
    rewrite app_nil_r. split_and!; try done. split; [done| by rewrite last_snoc |done]. }
  destruct (decide (ml_head L2 = NULL)) as [Hh|Hh].
  { simpl in Hs2. destruct Hs2 as (? & ? & _). congruence. }
  apply NoDup_app in Hnd1 as (Hnd0 & Htl & _).
  erewrite bind_ok by (erewrite bind_ok by (by apply store_ok); reflexivity).
  eexists _, _. split; [done|]. split_and!; [split; simpl | by apply link_payloads | done].
  - apply seg_app. eexists. split; [eapply seg_redirect; [set_solver | done..]|].
    apply seg_frame; [set_solver | done].
  - by rewrite Ht2, last_app_cons.
  - apply NoDup_app. split_and!; [| set_solver | done].
    apply NoDup_app. split_and!; [done | set_solver | apply NoDup_singleton].
Qed.

(** ** Releases *)

Definition set_free (b : mbuf) : mbuf := b <| mbuf_state := MBUF_STATE_FREE |>.

Lemma mbuf_free_ok p h b :
  p <> NULL -> mbufs h !! p = Some b ->
  mbuf_free p h = Ok (tt, MHeap (<[p := set_free b]> (mbufs h)) (released h ++ [p])).
Proof.
  intros Hp Hb. unfold mbuf_free. rewrite decide_False by done.
  by erewrite bind_ok by by apply store_ok.
Qed.

(** A write that keeps the link of a buffer keeps every list. *)
Lemma seg_keep_link m p l q x b b' :
  m !! x = Some b -> buf_next b' = buf_next b -> seg m p l q -> seg (<[x := b']> m) p l q.
Proof.
  intros Hx Hn. revert p. induction l as [|y l IH]; intros p; simpl; [done|].
  intros (-> & Hy & c & Hc & Hs). split_and!; [done..|].
  destruct (decide (x = y)) as [->|Hne].
  - exists b'. rewrite lookup_insert_eq. split; [done|]. rewrite Hn.
    apply IH. by simplify_map_eq.
  - exists c. rewrite lookup_insert_ne by done. eauto.
Qed.

(** The heap after the buffers of [l] were handed back, one after the other. *)
Definition releases (h h' : mheap) (l : list ptr) : Prop :=
  released h' = released h ++ l /\
  forall x : ptr, mbufs h' !! x = (if decide (x ∈ l) then set_free else id) <$> mbufs h !! x.

Lemma releases_cons h h' x b l :
  mbufs h !! x = Some b ->
  releases (MHeap (<[x := set_free b]> (mbufs h)) (released h ++ [x])) h' l ->
  releases h h' (x :: l).
Proof.
  intros Hb [Hr Hm]. simpl in *. split; [by rewrite Hr, <- app_assoc|].
  intros y. rewrite Hm. destruct (decide (x = y)) as [->|Hne].
  - rewrite lookup_insert_eq, Hb. rewrite (decide_True (P := y ∈ y :: l)) by set_solver.
    simpl. by case_decide.
  - rewrite lookup_insert_ne by done. do 2 case_decide; set_solver.
Qed.

Lemma releases_nil h : releases h h [].
Proof.
  split; [by rewrite app_nil_r|]. intros x. rewrite decide_False by set_solver.
  by destruct (mbufs h !! x).
Qed.

Lemma free_loop_spec fuel p l h :
  seg (mbufs h) p l NULL -> (length l < fuel)%nat ->
  exists h', free_loop fuel p h = Ok (tt, h') /\ releases h h' l.
Proof.
  revert fuel p h. induction l as [|x l IH]; intros [|fuel] p h Hs Hf; simpl in Hf; try lia.
  - simpl in Hs. subst p. exists h. split; [done|]. apply releases_nil.
  - destruct Hs as (-> & Hx & b & Hb & Hs). simpl. rewrite decide_False by done.
    erewrite bind_ok by by apply load_ok. erewrite bind_ok by by apply mbuf_free_ok.
    edestruct (IH fuel (buf_next b)) as (h' & -> & Hrel).
    + simpl. by eapply (seg_keep_link _ _ _ _ x b).
    + lia.
    + exists h'. split; [done|]. by eapply releases_cons.
Qed.

(** * A buffer list is a sequence

    The operations that queue and take buffers, against the sequence they
    represent; adding a buffer that is already linked, or that is no buffer,
    is outside the contract. *)
Inductive list_op : Type := LAppend (p : ptr) | LAddHead (p : ptr) | LPop.

Definition list_step (L : mbuf_list) (o : list_op) : M mheap (ptr * mbuf_list) :=
  match o with
  | LAppend p => L' ← mbuf_list_append L p; mret (NULL, L')
  | LAddHead p => L' ← mbuf_list_add_head L p; mret (NULL, L')
  | LPop => mbuf_list_pop L
  end.

Fixpoint list_run (L : mbuf_list) (os : list list_op) : M mheap (list ptr * mbuf_list) :=
  match os with
  | [] => mret ([], L)
  | o :: os' =>
      '(r, L1) ← list_step L o;
      '(rs, L2) ← list_run L1 os';
      mret (r :: rs, L2)
  end.

Definition seq_step (dom : gset ptr) (l : list ptr) (o : list_op) : option (ptr * list ptr) :=
  match o with
  | LAppend p => guard (p ∈ dom /\ p ∉ l /\ p <> NULL);; Some (NULL, l ++ [p])
  | LAddHead p => guard (p ∈ dom /\ p ∉ l /\ p <> NULL);; Some (NULL, p :: l)
  | LPop => Some (match l with [] => (NULL, []) | x :: l' => (x, l') end)
  end.

Fixpoint seq_run (dom : gset ptr) (l : list ptr) (os : list list_op)
    : option (list ptr * list ptr) :=
  match os with
  | [] => Some ([], l)
  | o :: os' =>
      '(r, l1) ← seq_step dom l o;
      '(rs, l2) ← seq_run dom l1 os';
      Some (r :: rs, l2)
  end.

Lemma payloads_dom h h' : payloads h' = payloads h -> dom (mbufs h') = dom (mbufs h).
Proof. intros H. apply (f_equal dom) in H. unfold payloads in H. by rewrite !dom_fmap_L in H. Qed.

Lemma list_step_spec h L l o r l' :
  is_list h L l -> seq_step (dom (mbufs h)) l o = Some (r, l') ->
  exists L' h', list_step L o h = Ok ((r, L'), h') /\ is_list h' L' l' /\
    payloads h' = payloads h /\ released h' = released h.
Proof.
  intros Hl Hstep. destruct o as [p|p|]; simpl in Hstep |- *.
  - case_guard as Hg; [|done]. injection Hstep as <- <-.
    destruct Hg as (Hd & ? & ?). rewrite elem_of_dom in Hd.
    destruct (mbuf_list_append_spec h L l p) as (L' & h' & Hr & ? & ? & ?); [done..|].
    exists L', h'. split_and!; [by erewrite bind_ok | done..].
  - case_guard as Hg; [|done]. injection Hstep as <- <-.
    destruct Hg as (Hd & ? & ?). rewrite elem_of_dom in Hd.
    destruct (mbuf_list_add_head_spec h L l p) as (L' & h' & Hr & ? & ? & ?); [done..|].
    exists L', h'. split_and!; [by erewrite bind_ok | done..].
  - destruct l as [|x l]; simplify_eq.
    + exists L, h. split_and!; [by apply mbuf_list_pop_nil | done..].
    + destruct (mbuf_list_pop_cons h L r l' Hl) as (L' & h' & ? & ? & ? & ? & _). eauto 8.
Qed.

(** Any run of appends, head insertions and pops on an mbuf list returns
    the buffers the abstract sequence returns and leaves the list
    representing that sequence; no payload is touched and nothing is
    released. *)
Theorem mbuf_list_refines_seq h L l os rs l' :
  is_list h L l -> seq_run (dom (mbufs h)) l os = Some (rs, l') ->
  exists L' h', list_run L os h = Ok ((rs, L'), h') /\ is_list h' L' l' /\
    payloads h' = payloads h /\ released h' = released h.
Proof.
  revert h L l rs l'. induction os as [|o os IH]; intros h L l rs l' Hl Hrun; simpl in *.
  { simplify_eq. eexists _, _. by split_and!. }
  destruct (seq_step _ l o) as [[r l1]|] eqn:Hstep; [|done]. simpl in Hrun.
  destruct (seq_run _ l1 os) as [[rs2 l2]|] eqn:Hrest; [|done].
  simpl in Hrun. simplify_eq.
  destruct (list_step_spec _ _ _ _ _ _ Hl Hstep) as (L1 & h1 & Hr & Hl1 & Hp & Hrel).
  rewrite <- (payloads_dom _ _ Hp) in Hrest.
  destruct (IH _ _ _ _ _ Hl1 Hrest) as (L2 & h2 & Hr2 & ? & Hp2 & Hrel2).
  exists L2, h2. split_and!; [|done|congruence..].
  erewrite bind_ok by exact Hr. simpl. by erewrite bind_ok by exact Hr2.
Qed.

Definition mbuf0 : mbuf := Mbuf 0 128 0 0 0 0 0 0 0 0 0 0 0 NULL.
Definition three : mheap := MHeap (<[1 := mbuf0]> (<[2 := mbuf0]> {[3 := mbuf0]})) [].

Lemma mbuf_list_refines_seq_witness :
  let os := [LAppend 1; LAppend 2; LAddHead 3; LPop; LPop; LPop; LPop] in
  seq_run (dom (mbufs three)) [] os = Some ([0; 0; 0; 3; 1; 2; 0], []) /\
  exists L' h', list_run mbuf_list_init os three = Ok (([0; 0; 0; 3; 1; 2; 0], L'), h') /\
    is_list h' L' [] /\ payloads h' = payloads three /\ released h' = released three.
Proof.
  split; [vm_compute; reflexivity|].
  apply (mbuf_list_refines_seq three mbuf_list_init []); [apply is_list_empty|].
  vm_compute. reflexivity.
Defined.

(** Freeing an mbuf list terminates, hands every buffer of the list back
    exactly once and in order, marks exactly those buffers free, and empties
    the list. *)
Theorem mbuf_list_free_releases h L l :
  is_list h L l ->
  exists h', mbuf_list_free L h = Ok (mbuf_list_init, h') /\ releases h h' l /\ NoDup l.
Proof.
  intros [Hs _ Hnd]. unfold mbuf_list_free, get.
  destruct (free_loop_spec (list_fuel h) (ml_head L) l h) as (h' & Hr & Hrel); [done| |].
  { pose proof (seg_bound _ _ _ _ Hnd Hs). unfold list_fuel. lia. }
  exists h'. split_and!; [|done..]. unfold mbind, M_bind. by rewrite Hr.
Qed.

Definition three_linked : mheap :=
  MHeap (<[1 := mbuf0 <| buf_next := 2 |>]> (<[2 := mbuf0 <| buf_next := 3 |>]> {[3 := mbuf0]})) [].

Lemma three_linked_list : is_list three_linked (MbufList 1 3) [1; 2; 3].
Proof.
  split; [| done | repeat (apply NoDup_cons; split); [set_solver..|constructor]].
  vm_compute. naive_solver.
Qed.

Lemma mbuf_list_free_releases_witness :
  exists h', mbuf_list_free (MbufList 1 3) three_linked = Ok (mbuf_list_init, h') /\
    releases three_linked h' [1; 2; 3] /\ NoDup [1; 2; 3].
Proof.
  apply (mbuf_list_free_releases three_linked (MbufList 1 3) [1; 2; 3]).
  apply three_linked_list.
Defined.

(** ** Draining a queue of buffers *)

Lemma clear_loop_spec fuel q h :
  direct_wf q -> (length (cirq_contents q) < fuel)%nat ->
  Forall (fun p => p <> NULL /\ is_Some (mbufs h !! p)) (cirq_contents q) ->
  exists q' h', clear_loop fuel q h = Ok (q', h') /\ direct_wf q' /\ cirq_contents q' = [] /\
    cirq_cap q' = cirq_cap q /\ releases h h' (cirq_contents q).
Proof.
  revert q h. induction fuel as [|fuel IH]; intros q h Hwf Hf Hall; [lia|]. simpl.
  destruct (cirq_contents q) as [|x l] eqn:E.
  - erewrite bind_ok by (unfold lift, mbufq_dequeue; by rewrite (fifo_deq_empty q)).
    exists q, h. split_and!; try done. apply releases_nil.
  - destruct (fifo_deq_head q x l Hwf E) as (q1 & Hd & Hwf1 & Hc1 & Hcap).
    apply Forall_cons in Hall as [(Hx & b & Hb) Hall]. simpl in Hf.
    erewrite bind_ok by (unfold lift, mbufq_dequeue; by rewrite Hd).
    simpl. rewrite decide_False by done. erewrite bind_ok by by apply mbuf_free_ok.
    edestruct (IH q1) as (q' & h' & -> & ? & ? & ? & Hrel); [done | rewrite Hc1; lia | | ].
    + rewrite Hc1. eapply Forall_impl; [done|]. intros y [? ?]. split; [done|].
      simpl. rewrite lookup_insert_is_Some'. by right.
    + exists q', h'. rewrite Hc1 in Hrel. split_and!; [done..| congruence |].
      by eapply releases_cons.
Qed.

Lemma mbufq_clear_spec q h :
  direct_wf q -> Forall (fun p => p <> NULL /\ is_Some (mbufs h !! p)) (cirq_contents q) ->
  exists q' h', mbufq_clear q h = Ok (q', h') /\ direct_wf q' /\ cirq_contents q' = [] /\
    cirq_cap q' = cirq_cap q /\ releases h h' (cirq_contents q).
Proof.
  intros Hwf. apply clear_loop_spec; [done|].
  pose proof (fifo_bound q Hwf) as Hb. unfold cirq_cap in Hb. lia.
Qed.
