(* ===== verification/RecvBuff.v ===== *)
(** The TCP receive buffer: [tcp_recv_buff.c] and [tcp_recv_buff.h], compiled
    with [PRIORITY_RECV_BUFF] and [DIRECT_CIRCULAR_QUEUE].

    In-order segments wait in [merged_q]; segments that arrive early wait in
    [ooo_list]; high-priority segments are also put in [high_q], from which
    the application reads first. *)
From S2P Require Import Prelude Protocol Fifo CircularQueue Mbuf.
#[local] Open Scope Z_scope.

Record tcp_recv_buffer : Type := RecvBuf {
  merged_q : circular_queue;
  ooo_list : mbuf_list;
  high_q : circular_queue;
  rb_size : Z;
  rb_init_seq : Z;
  head_seq : Z;
  merged_next : Z;
}.

#[export] Instance tcp_recv_buffer_rebuild : Rebuild tcp_recv_buffer := fun b =>
  RecvBuf (merged_q b) (ooo_list b) (high_q b) (rb_size b) (rb_init_seq b) (head_seq b)
    (merged_next b).

(** [mbuf->tcp_seq + mbuf->payload_len]. *)
Definition seg_end (m : mbuf) : Z := u32 (tcp_seq m + payload_len m).

(** The [while (next = p->buf_next)] search; the new list and the [uint8_t]
    result. *)
Fixpoint ooo_search (fuel : nat) (list : mbuf_list) (p mbuf : ptr) : M mheap (Z * mbuf_list) :=
  match fuel with
  | O => throw NoReturn
  | S fuel' =>
      mp ← load p;
      let next := buf_next mp in
      if decide (next = NULL) then mret (u8 FAILED, list) else
      mb ← load mbuf;
      mn ← load next;
      if TCP_SEQ_LEQ (seg_end mp) (tcp_seq mb) && TCP_SEQ_LEQ (seg_end mb) (tcp_seq mn) then
        list' ← mbuf_list_insert list p mbuf; mret (SUCCESS, list')
      else ooo_search fuel' list next mbuf
  end.

(** The head insertion calls [mbuf_list_add_head(mbuf, list)] with the two
    arguments exchanged: it treats the list as a buffer and the buffer as a
    list. *)
Definition ooo_insert (buff : tcp_recv_buffer) (mbuf : ptr) : M mheap (Z * tcp_recv_buffer) :=
  let list := ooo_list buff in
  '(ret, list') ←
    (if decide (ml_head list = NULL) then mret (SUCCESS, MbufList mbuf mbuf) else
     mt ← load (ml_tail list);
     mb ← load mbuf;
     if TCP_SEQ_LEQ (seg_end mt) (tcp_seq mb) then
       l ← mbuf_list_append list mbuf; mret (SUCCESS, l)
     else
       mh ← load (ml_head list);
       if TCP_SEQ_LEQ (seg_end mb) (tcp_seq mh) then throw WildAccess
       else h ← get; ooo_search (list_fuel h) list (ml_head list) mbuf);
  mret (ret, buff <| ooo_list := list' |>).

(** [merged_q] is a direct-mode queue, but the loop adds to it with
    [cirq_add].  The result is a count in a [uint32_t]. *)
Fixpoint try_merge_loop (fuel : nat) (buff : tcp_recv_buffer) (ret : Z)
    : M mheap (Z * tcp_recv_buffer) :=
  match fuel with
  | O => throw NoReturn
  | S fuel' =>
      let list := ooo_list buff in
      if decide (ml_head list = NULL) then mret (ret, buff) else
      mh ← load (ml_head list);
      if negb (TCP_SEQ_LEQ (tcp_seq mh) (merged_next buff)) then mret (ret, buff) else
      '(mbuf, list') ← mbuf_list_pop list;
      let buff := buff <| ooo_list := list' |> in
      mb ← load mbuf;
      if decide (tcp_seq mb <> merged_next buff) then
        mbuf_free mbuf;; try_merge_loop fuel' buff ret
      else
        '(r, q') ← lift (cirq_add (merged_q buff) mbuf);
        let buff := buff <| merged_q := q' |> in
        if decide (r <> 0) then
          let ret := if decide (priority mb = 0) then u32 (ret + 1) else ret in
          try_merge_loop fuel'
            (buff <| merged_next := u32 (merged_next buff + payload_len mb) |>) ret
        else mbuf_free mbuf;; mret (ret, buff)
  end.

Definition try_merge_ooo (buff : tcp_recv_buffer) : M mheap (Z * tcp_recv_buffer) :=
  h ← get; try_merge_loop (list_fuel h) buff 0.

(** [rcvbuf_size] is [CONFIG.rcvbuf_size]; [buff] is not NULL. *)
Definition rb_init (rcvbuf_size : Z) (buff : tcp_recv_buffer) (init_seq : Z)
    : tcp_recv_buffer :=
  let buff := buff <| rb_init_seq := init_seq |> in
  let buff := buff <| merged_q ::= fun q => (mbufq_init q).2 |> in
  let buff := buff <| rb_size := u32 (1400 * rcvbuf_size) |> in
  let buff := buff <| head_seq := init_seq |> <| merged_next := init_seq |> in
  buff <| ooo_list := mbuf_list_init |> <| high_q ::= fun q => (mbufq_init q).2 |>.

Definition rb_free (buff : tcp_recv_buffer) : M mheap Z := throw Exit.

Definition rb_put (buff : tcp_recv_buffer) (mbuf : ptr) : M mheap (Z * tcp_recv_buffer) :=
  mb ← load mbuf;
  let buf_seq_next := u32 (tcp_seq mb + payload_len mb) in
  if TCP_SEQ_GT buf_seq_next (u32 (head_seq buff + rb_size buff)) then mret (FAILED, buff) else
  store mbuf (fun m => m <| holding := 0 |>);;
  buff ← (if decide (priority mb <> 0) then
            '(r, hq) ← lift (mbufq_enqueue (high_q buff) mbuf);
            when (bool_decide (r = SUCCESS)) (store mbuf (fun m =>
              m <| holding := 1 |> <| mbuf_state := MBUF_STATE_RBUFFED |>));;
            mret (buff <| high_q := hq |>)
          else mret buff);
  '(failed, ret, buff) ←
    (if decide (tcp_seq mb = merged_next buff) then
       '(r, q') ← lift (mbufq_enqueue (merged_q buff) mbuf);
       let buff := buff <| merged_q := q' |> in
       if decide (r <> 0) then
         '(n, buff) ← try_merge_ooo (buff <| merged_next := buf_seq_next |>);
         mret (false, s32 (1 + n), buff)
       else mret (true, 0, buff)
     else
       '(r, buff) ← ooo_insert buff mbuf;
       mret (bool_decide (r <> SUCCESS), 0, buff));
  if (failed : bool) then mret (FAILED, buff) else
  mb ← load mbuf;
  when (bool_decide (priority mb = 0)) (store mbuf (fun m =>
    m <| mbuf_state := MBUF_STATE_RBUFFED |>));;
  mret (ret, buff).

Fixpoint try_get_high_loop (fuel : nat) (buff : tcp_recv_buffer)
    : M mheap (ptr * tcp_recv_buffer) :=
  match fuel with
  | O => throw NoReturn
  | S fuel' =>
      '(mbuf, hq) ← lift (mbufq_dequeue (high_q buff));
      let buff := buff <| high_q := hq |> in
      if decide (mbuf = NULL) then mret (mbuf, buff) else
      mb ← load mbuf;
      if decide (mbuf_state mb = MBUF_STATE_RBUFFED) then
        if decide (tcp_seq mb = head_seq buff) then
          '(m, mq) ← lift (mbufq_dequeue (merged_q buff));
          let buff := buff <| merged_q := mq |> in
          if decide (m <> NULL) then
            let buff := buff <| head_seq := u32 (head_seq buff + payload_len mb) |> in
            store mbuf (fun m => m <| holding := 0 |>);;
            mret (mbuf, buff)
          else mret (mbuf, buff)
        else mret (mbuf, buff)
      else mbuf_free mbuf;; try_get_high_loop fuel' buff
  end.

Definition try_get_high_mbuf (buff : tcp_recv_buffer) : M mheap (ptr * tcp_recv_buffer) :=
  try_get_high_loop (S (Z.to_nat (q_size (high_q buff)))) buff.

Fixpoint try_get_merged_loop (fuel : nat) (buff : tcp_recv_buffer)
    : M mheap (ptr * tcp_recv_buffer) :=
  match fuel with
  | O => throw NoReturn
  | S fuel' =>
      '(mbuf, mq) ← lift (mbufq_dequeue (merged_q buff));
      let buff := buff <| merged_q := mq |> in
      if decide (mbuf = NULL) then mret (mbuf, buff) else
      mb ← load mbuf;
      let buff := buff <| head_seq := u32 (head_seq buff + payload_len mb) |> in
      if decide (mbuf_state mb = MBUF_STATE_RBUFFED) then mret (mbuf, buff)
      else mbuf_free mbuf;; try_get_merged_loop fuel' buff
  end.

Definition try_get_merged_mbuf (buff : tcp_recv_buffer) : M mheap (ptr * tcp_recv_buffer) :=
  try_get_merged_loop (S (Z.to_nat (q_size (merged_q buff)))) buff.

Definition rb_get (buff : tcp_recv_buffer) : M mheap (ptr * tcp_recv_buffer) :=
  '(mbuf, buff) ← try_get_high_mbuf buff;
  '(mbuf, buff) ← (if decide (mbuf = NULL) then try_get_merged_mbuf buff else mret (mbuf, buff));
  if decide (mbuf <> NULL) then
    p ← mbuf_get_payload_ptr mbuf;
    if decide (p = NULL) then throw Exit else mret (mbuf, buff)
  else mret (mbuf, buff).

Definition rb_clear (buff : tcp_recv_buffer) : M mheap tcp_recv_buffer :=
  q ← mbufq_clear (merged_q buff);
  l ← mbuf_list_free (ooo_list buff);
  hq ← mbufq_clear (high_q buff);
  mret (buff <| merged_q := q |> <| ooo_list := l |> <| high_q := hq |>).

Definition rb_merged_len (buff : tcp_recv_buffer) : Z :=
  u32 (merged_next buff - head_seq buff).

Definition rb_update_seq (buff : tcp_recv_buffer) (init_seq : Z) : tcp_recv_buffer :=
  buff <| rb_init_seq := init_seq |> <| head_seq := init_seq |> <| merged_next := init_seq |>.

(** * In-order delivery *)

(** [chain m s l e]: the segments of [l] cover the sequence numbers from [s]
    up to [e] without gap or overlap. *)
Fixpoint chain (m : gmap ptr mbuf) (s : Z) (l : list ptr) (e : Z) : Prop :=
  match l with
  | [] => s = e
  | x :: l' => exists b, m !! x = Some b /\ tcp_seq b = s /\ chain m (seg_end b) l' e
  end.

(** A buffered segment that [rb_get] can hand to the application. *)
Definition has_payload (b : mbuf) : Prop :=
  l4_len b <> 0 /\ MBUF_GET_BUFF b + ETHERNET_HEADER_LEN + IP_HEADER_LEN + l4_len b <> NULL.

Definition ready (m : gmap ptr mbuf) (x : ptr) : Prop :=
  x <> NULL /\ exists b, m !! x = Some b /\ mbuf_state b = MBUF_STATE_RBUFFED /\ has_payload b.

Record rb_inv (h : mheap) (b : tcp_recv_buffer) : Prop := {
  ri_q : direct_wf (merged_q b);
  ri_high : direct_wf (high_q b) /\ cirq_contents (high_q b) = [];
  ri_ooo : ml_head (ooo_list b) = NULL;
  ri_chain : chain (mbufs h) (head_seq b) (cirq_contents (merged_q b)) (merged_next b);
  ri_ready : Forall (ready (mbufs h)) (cirq_contents (merged_q b));
}.

(** What the receive buffer never changes of a segment. *)
Definition header (m : mbuf) : mbuf := m <| mbuf_state := 0 |> <| holding := 0 |>.
Definition headers (h : mheap) : gmap ptr mbuf := header <$> mbufs h.

Lemma header_eq m m' :
  header m' = header m ->
  tcp_seq m' = tcp_seq m /\ payload_len m' = payload_len m /\ priority m' = priority m /\
  (has_payload m' <-> has_payload m).
Proof.
  unfold header, update, has_payload, MBUF_GET_BUFF. simpl. intros H. injection H as -> -> ? ? ? ? -> ? -> -> -> ?.
  done.
Qed.

Lemma chain_ext m m' s l e :
  (forall x, x ∈ l -> header <$> m' !! x = header <$> m !! x) -> chain m s l e -> chain m' s l e.
Proof.
  revert s. induction l as [|x l IH]; intros s Hx; simpl; [done|].
  intros (b & Hb & Hs & Hc). assert (header <$> m' !! x = Some (header b)) as Hxx.
  { rewrite Hx by set_solver. by rewrite Hb. }
  apply fmap_Some in Hxx as (b' & Hb' & (Hseq & Hlen & _)%eq_sym%header_eq).
  exists b'. split_and!; [done | congruence |].
  unfold seg_end in *. rewrite Hseq, Hlen. apply IH; [set_solver | done].
Qed.

Lemma chain_snoc m s l e x b :
  chain m s l e -> m !! x = Some b -> tcp_seq b = e -> chain m s (l ++ [x]) (seg_end b).
Proof.
  revert s. induction l as [|y l IH]; intros s; simpl; [naive_solver|].
  intros (c & ? & ? & ?) ??. eauto.
Qed.

Lemma chain_snoc_ext m s l e x b e' :
  chain m s l e -> m !! x = Some b -> tcp_seq b = e -> e' = seg_end b -> chain m s (l ++ [x]) e'.
Proof. intros ???->. by eapply chain_snoc. Qed.

(** The bytes between the two ends are the bytes of the segments. *)
Definition seg_bytes (m : gmap ptr mbuf) (l : list ptr) : Z :=
  foldr Z.add 0 ((fun x => from_option payload_len 0 (m !! x)) <$> l).

Lemma chain_length m s l e :
  is_u32 s -> chain m s l e -> is_u32 e /\ u32 (e - s) = u32 (seg_bytes m l).
Proof.
  revert s. induction l as [|x l IH]; intros s Hs; simpl.
  - intros <-. split; [done|]. by rewrite Z.sub_diag.
  - intros (b & Hb & <- & Hc). destruct (IH (seg_end b)) as [He Heq]; [apply u32_range | done |].
    split; [done|]. change (seg_bytes m (x :: l)) with
      (from_option payload_len 0 (m !! x) + seg_bytes m l). rewrite Hb. simpl.
    rewrite <- (u32_add_r (payload_len b)), <- Heq. unfold seg_end.
    rewrite u32_sub_r, u32_add_r. f_equal. lia.
Qed.

(** Queued, low priority, next in sequence, inside the window. *)
Inductive rb_op : Type := RPut (p : ptr) | RGet.

Definition rb_step (b : tcp_recv_buffer) (o : rb_op) : M mheap (Z * tcp_recv_buffer) :=
  match o with RPut p => rb_put b p | RGet => rb_get b end.

Fixpoint rb_run (b : tcp_recv_buffer) (os : list rb_op) : M mheap (list Z * tcp_recv_buffer) :=
  match os with
  | [] => mret ([], b)
  | o :: os' =>
      '(r, b1) ← rb_step b o;
      '(rs, b2) ← rb_run b1 os';
      mret (r :: rs, b2)
  end.

(** The reference behaviour: the segments buffered, the sequence number the
    application reads next and the one expected from the network. *)
Record stream_spec : Type := StreamSpec { ss_segs : list ptr; ss_head : Z; ss_next : Z }.

#[export] Instance has_payload_dec m : Decision (has_payload m).
Proof. unfold has_payload. apply _. Defined.

Definition acceptable (m : mbuf) (size : Z) (cap : nat) (p : ptr) (s : stream_spec) : Prop :=
  p <> NULL /\ p ∉ ss_segs s /\ priority m = 0 /\ has_payload m /\ tcp_seq m = ss_next s /\
  TCP_SEQ_GT (seg_end m) (u32 (ss_head s + size)) = false /\ (length (ss_segs s) < cap)%nat.
#[export] Instance acceptable_dec m size cap p s : Decision (acceptable m size cap p s).
Proof. unfold acceptable. apply _. Defined.

Definition ss_step (hd : gmap ptr mbuf) (size : Z) (cap : nat) (s : stream_spec) (o : rb_op)
    : option (Z * stream_spec) :=
  match o with
  | RPut p =>
      m ← hd !! p;
      if decide (acceptable m size cap p s)
      then Some (1, StreamSpec (ss_segs s ++ [p]) (ss_head s) (seg_end m)) else None
  | RGet =>
      match ss_segs s with
      | [] => Some (NULL, s)
      | x :: l =>
          m ← hd !! x;
          Some (x, StreamSpec l (u32 (ss_head s + payload_len m)) (ss_next s))
      end
  end.

Fixpoint ss_run (hd : gmap ptr mbuf) (size : Z) (cap : nat) (s : stream_spec) (os : list rb_op)
    : option (list Z * stream_spec) :=
  match os with
  | [] => Some ([], s)
  | o :: os' =>
      '(r, s1) ← ss_step hd size cap s o;
      '(rs, s2) ← ss_run hd size cap s1 os';
      Some (r :: rs, s2)
  end.

Definition rb_abs (b : tcp_recv_buffer) : stream_spec :=
  StreamSpec (cirq_contents (merged_q b)) (head_seq b) (merged_next b).

Lemma ready_insert m l p b :
  p ∉ l -> Forall (ready m) l -> Forall (ready (<[p := b]> m)) l.
Proof.
  intros Hp Hall. apply Forall_forall. intros x Hx. rewrite Forall_forall in Hall.
  destruct (Hall x Hx) as (? & c & ? & ?). split; [done|]. exists c.
  rewrite lookup_insert_ne by set_solver. done.
Qed.

Lemma chain_insert m s l e p b : p ∉ l -> chain m s l e -> chain (<[p := b]> m) s l e.
Proof.
  intros Hp. apply chain_ext. intros x Hx. by rewrite lookup_insert_ne by set_solver.
Qed.

Lemma header_insert (m : gmap ptr mbuf) x b b' :
  m !! x = Some b -> header b' = header b -> header <$> <[x := b']> m = header <$> m.
Proof.
  intros Hb Hg. rewrite fmap_insert, Hg. apply insert_id. by rewrite lookup_fmap, Hb.
Qed.

Section InOrder.
  Context (h : mheap) (b : tcp_recv_buffer) (Hinv : rb_inv h b).
Let l : list ptr := cirq_contents (merged_q b).

  (** An acceptable segment is queued and acknowledged as one new message. *)
Lemma rb_put_in_order p m :
    mbufs h !! p = Some m -> acceptable m (rb_size b) (cirq_cap (merged_q b)) p (rb_abs b) ->
    exists b' h', rb_put b p h = Ok ((1, b'), h') /\ rb_inv h' b' /\
      rb_abs b' = StreamSpec (l ++ [p]) (head_seq b) (seg_end m) /\
      rb_size b' = rb_size b /\ cirq_cap (merged_q b') = cirq_cap (merged_q b) /\
      headers h' = headers h /\ released h' = released h.
  Proof.
    destruct Hinv as [Hq [Hhq Hhc] Hooo Hch Hrd].
    intros Hm (Hp & Hpl & Hpri & Hpay & Hseq & Hwin & Hroom). simpl in *.
    destruct (fifo_enq_room (merged_q b) p Hq Hroom) as (q' & Henq & Hq' & Hc' & Hcap').
    unfold rb_put. step by (by apply load_ok). fold (seg_end m). rewrite Hwin.
    step by (by apply store_ok). rewrite (decide_False (P := priority m <> 0)) by lia.
    step by reflexivity. rewrite decide_True by done.
    step by (by apply lift_ok). rewrite decide_True by done.
    step by (unfold try_merge_ooo; step by reflexivity; simpl; rewrite decide_True by done; reflexivity).
    step by reflexivity.
    step by (apply load_ok; apply lookup_insert_eq).
    rewrite (bool_decide_true (priority _ = 0)) by done.
    step by (apply store_ok; apply lookup_insert_eq).
    eexists _, _. split; [reflexivity|]. cbn [mbufs released]. rewrite insert_insert_eq.
    split_and!.
    - split; simpl; [done | done | done | |].
      + rewrite Hc'. eapply chain_snoc_ext; [by apply chain_insert | apply lookup_insert_eq | done..].
      + rewrite Hc'. apply Forall_app. split; [by apply ready_insert|].
        apply Forall_singleton. split; [done|]. eexists.
        split; [apply lookup_insert_eq|]. by split.
    - unfold rb_abs. simpl. by rewrite Hc'.
    - done.
    - done.
    - unfold headers. simpl. by eapply header_insert.
    - done.
  Qed.
Lemma high_empty :
    try_get_high_mbuf b h = Ok ((NULL, b <| high_q := high_q b |>), h).
  Proof.
    destruct Hinv as [_ [Hhq Hhc] _ _ _]. unfold try_get_high_mbuf. simpl.
    step by (by apply lift_ok, (fifo_deq_empty (high_q b))). reflexivity.
  Qed.

Lemma rb_get_empty :
    l = [] ->
    exists b', rb_get b h = Ok ((NULL, b'), h) /\ rb_inv h b' /\ rb_abs b' = rb_abs b /\
      rb_size b' = rb_size b /\ cirq_cap (merged_q b') = cirq_cap (merged_q b).
  Proof.
    intros Hl. pose proof Hinv as [Hq Hh Hooo Hch Hrd]. fold l in Hch, Hrd.
    unfold rb_get. step by apply high_empty. rewrite decide_True by done.
    unfold try_get_merged_mbuf. simpl.
    step by (by apply lift_ok, (fifo_deq_empty (merged_q b))). simpl.
    eexists. split; [reflexivity|]. split_and!; [split; simpl | ..]; try done.
  Qed.

  (** The next segment in sequence goes to the application. *)
Lemma rb_get_in_order x l' m :
    l = x :: l' -> mbufs h !! x = Some m ->
    tcp_seq m = head_seq b /\
    exists b', rb_get b h = Ok ((x, b'), h) /\ rb_inv h b' /\
      rb_abs b' = StreamSpec l' (u32 (head_seq b + payload_len m)) (merged_next b) /\
      rb_size b' = rb_size b /\ cirq_cap (merged_q b') = cirq_cap (merged_q b).
  Proof.
    intros Hl Hm. pose proof Hinv as [Hq Hh Hooo Hch Hrd]. fold l in Hch, Hrd.
    rewrite Hl in Hch, Hrd. apply Forall_cons in Hrd as [(Hx & m' & Hm' & Hst & Hpay) Hrd].
    destruct Hch as (m'' & Hm'' & Hseq & Hch). simplify_eq. split; [done|].
    destruct (fifo_deq_head (merged_q b) x l' Hq Hl) as (q' & Hd & Hq' & Hc' & Hcap').
    unfold rb_get. step by apply high_empty. rewrite decide_True by done.
    unfold try_get_merged_mbuf. simpl. step by (by apply lift_ok).
    rewrite (decide_False (P := x = NULL)) by done. step by (by apply load_ok).
    rewrite decide_True by done. step by reflexivity.
    rewrite decide_True by done. destruct Hpay as [Hl4 Hp].
    step by (unfold mbuf_get_payload_ptr; rewrite (decide_False (P := x = NULL)) by done;
      step by (by apply load_ok); rewrite (decide_False (P := l4_len _ = 0)) by done;
      reflexivity).
    rewrite decide_False by done. eexists. split; [reflexivity|].
    split_and!; [split; simpl | ..]; try done.
    - rewrite Hc'. by rewrite <- Hseq.
    - by rewrite Hc'.
    - unfold rb_abs. simpl. by rewrite Hc'.
  Qed.
End InOrder.

Lemma headers_lookup h p m : headers h !! p = Some m ->
  exists m0, mbufs h !! p = Some m0 /\ m = header m0.
Proof. unfold headers. rewrite lookup_fmap. intros (m0 & ? & ?)%fmap_Some. eauto. Qed.

Lemma acceptable_header m size cap p s :
  acceptable (header m) size cap p s <-> acceptable m size cap p s.
Proof. done. Qed.

Lemma rb_step_spec h b o r s' :
  rb_inv h b ->
  ss_step (headers h) (rb_size b) (cirq_cap (merged_q b)) (rb_abs b) o = Some (r, s') ->
  exists b' h', rb_step b o h = Ok ((r, b'), h') /\ rb_inv h' b' /\ rb_abs b' = s' /\
    rb_size b' = rb_size b /\ cirq_cap (merged_q b') = cirq_cap (merged_q b) /\
    headers h' = headers h /\ released h' = released h.
Proof.
  intros Hinv. destruct o as [p|]; simpl.
  - intros (m & (m0 & Hm & ->)%headers_lookup & H)%bind_Some. case_decide as Hacc; [|done].
    injection H as <- <-. destruct (rb_put_in_order h b Hinv p m0 Hm Hacc)
      as (b' & h' & ? & ? & ? & ?). eauto 10.
  - destruct (cirq_contents (merged_q b)) as [|x l] eqn:E.
    + intros [= <- <-]. destruct (rb_get_empty h b Hinv E) as (b' & ? & ? & ? & ? & ?).
      exists b', h. by split_and!.
    + intros (m & (m0 & Hm & ->)%headers_lookup & H)%bind_Some. injection H as <- <-.
      destruct (rb_get_in_order h b Hinv x l m0 E Hm) as (_ & b' & ? & ? & ? & ? & ?).
      exists b', h. by split_and!.
Qed.

(** C1. In-order delivery.  From a buffer without out-of-order and without
    high-priority segments, on every run of receive-buffer calls in which the
    segments have priority 0 and arrive in sequence, inside the window and
    while the merged queue has room, each put reports one new message and each get returns exactly
    the next segment in sequence order; the buffered segments always cover
    [head_seq, merged_next) without gap, nothing is released and no segment
    header changes. *)
Theorem rb_in_order_delivery h b os rs s' :
  rb_inv h b ->
  ss_run (headers h) (rb_size b) (cirq_cap (merged_q b)) (rb_abs b) os = Some (rs, s') ->
  exists b' h', rb_run b os h = Ok ((rs, b'), h') /\ rb_inv h' b' /\ rb_abs b' = s' /\
    headers h' = headers h /\ released h' = released h.
Proof.
  revert h b rs s'. induction os as [|o os IH]; intros h b rs s' Hinv Hrun; simpl in *.
  { simplify_eq. exists b, h. by split_and!. }
  apply bind_Some in Hrun as ([r s1] & Hst & Hrun). simpl in Hrun.
  apply bind_Some in Hrun as ([rs2 s2] & Hrest & [= <- <-]).
  destruct (rb_step_spec _ _ _ _ _ Hinv Hst) as (b1 & h1 & Hr & Hinv1 & <- & Hsz & Hcap & Hhd & Hrel).
  rewrite <- Hsz, <- Hcap, <- Hhd in Hrest.
  destruct (IH _ _ _ _ Hinv1 Hrest) as (b2 & h2 & Hr2 & ? & ? & Hhd2 & Hrel2).
  exists b2, h2. split_and!; [| done | done | congruence | congruence].
  step by exact Hr. by step by exact Hr2.
Qed.

Definition dq0 : circular_queue := Cirq 0 (Direct (replicate 8 NULL)) 8 0.
Definition rb0 : tcp_recv_buffer := rb_init 64 (RecvBuf dq0 mbuf_list_init dq0 0 0 0 0) 4294967290.
Definition segm (seq len pri : Z) : mbuf :=
  Mbuf 4096 128 (54 + len) (54 + len) 14 20 20 0 1 pri 0 len seq NULL.
Definition rheap : mheap :=
  MHeap (<[1 := segm 4294967290 10 0]> (<[2 := segm 4 100 0]> {[3 := segm 104 1 0]})) [].

Lemma dq0_wf : direct_wf dq0.
Proof. split; [|done]. split; done. Qed.

Lemma rb0_inv h : rb_inv h rb0.
Proof. split; [apply dq0_wf | split; [apply dq0_wf | done] | done | done | constructor]. Qed.

Lemma rb_in_order_delivery_witness :
  let os := [RPut 1; RPut 2; RGet; RPut 3; RGet; RGet; RGet] in
  exists b' h', rb_run rb0 os rheap = Ok (([1; 1; 1; 1; 2; 3; 0], b'), h') /\ rb_inv h' b' /\
    rb_abs b' = StreamSpec [] 105 105 /\
    headers h' = headers rheap /\ released h' = released rheap.
Proof.
  apply (rb_in_order_delivery rheap rb0); [apply rb0_inv|]. vm_compute. reflexivity.
Defined.

(** * The out-of-order list *)

(** Segment [x] ends at or before the start of [y]. *)
Definition before (m : gmap ptr mbuf) (x y : ptr) : bool :=
  match m !! x, m !! y with
  | Some bx, Some by_ => TCP_SEQ_LEQ (seg_end bx) (tcp_seq by_)
  | _, _ => false
  end.

Fixpoint in_seq_order (m : gmap ptr mbuf) (l : list ptr) : bool :=
  match l with
  | x :: l' => match l' with y :: _ => before m x y | [] => true end && in_seq_order m l'
  | [] => true
  end.

(** The list with [p] in the first gap between neighbours that takes it. *)
Fixpoint ooo_gap (m : gmap ptr mbuf) (l : list ptr) (p : ptr) : option (list ptr) :=
  match l with
  | x :: l' =>
      match l' with
      | y :: _ => if before m x p && before m p y then Some (x :: p :: l')
                  else cons x <$> ooo_gap m l' p
      | [] => None
      end
  | [] => None
  end.

Lemma ooo_gap_some m l p r :
  ooo_gap m l p = Some r ->
  exists l1 x y l2, l = l1 ++ x :: y :: l2 /\ r = l1 ++ x :: p :: y :: l2 /\
    before m x p = true /\ before m p y = true.
Proof.
  revert r. induction l as [|x l IH]; intros r; simpl; [done|].
  destruct l as [|y l]; [done|]. destruct (before m x p && before m p y) eqn:E.
  - intros [= <-]. apply andb_true_iff in E as [? ?]. exists [], x, y, l. done.
  - intros (r' & Hr & ->)%fmap_Some. destruct (IH r' Hr) as (l1 & a & c & l2 & -> & -> & ? & ?).
    by exists (x :: l1), a, c, l2.
Qed.

Lemma in_seq_order_app m l1 x l2 :
  in_seq_order m (l1 ++ x :: l2) = in_seq_order m (l1 ++ [x]) && in_seq_order m (x :: l2).
Proof.
  induction l1 as [|y l1 IH]; [done|].
  destruct l1 as [|z l1]; simpl in *; [by rewrite andb_true_r | by rewrite IH, andb_assoc].
Qed.

Lemma ooo_gap_sorted m l p r :
  in_seq_order m l = true -> ooo_gap m l p = Some r -> in_seq_order m r = true.
Proof.
  intros Hs (l1 & x & y & l2 & -> & -> & Hx & Hy)%ooo_gap_some.
  rewrite in_seq_order_app in *. apply andb_true_iff in Hs as [-> Hs]. simpl in *.
  apply andb_true_iff in Hs as [_ ->]. by rewrite Hx, Hy.
Qed.

(** No inner gap takes [p] when [ooo_gap] finds none. *)
Lemma ooo_gap_none m l p l1 x y l2 :
  ooo_gap m l p = None -> l = l1 ++ x :: y :: l2 -> before m x p && before m p y = false.
Proof.
  revert l1. induction l as [|z l IH]; intros l1 Hn Hl; [by destruct l1|].
  destruct l1 as [|z' l1]; simplify_eq/=.
  - by destruct (before m x p && before m p y).
  - destruct (l1 ++ x :: y :: l2) as [|a l] eqn:E; [by destruct l1|].
    destruct (before m z' p && before m p a); [done|]. apply fmap_None in Hn. by eapply IH.
Qed.

Lemma before_eq m x y bx by_ :
  m !! x = Some bx -> m !! y = Some by_ -> before m x y = TCP_SEQ_LEQ (seg_end bx) (tcp_seq by_).
Proof. unfold before. by intros -> ->. Qed.

Lemma ooo_search_spec fuel h L l1 x l2 p :
  is_list h L (l1 ++ x :: l2) -> (length l2 < fuel)%nat ->
  p ∉ l1 ++ x :: l2 -> p <> NULL -> is_Some (mbufs h !! p) ->
  match ooo_gap (mbufs h) (x :: l2) p with
  | Some r => exists L' h', ooo_search fuel L x p h = Ok ((SUCCESS, L'), h') /\
      is_list h' L' (l1 ++ r) /\ payloads h' = payloads h /\ released h' = released h
  | None => ooo_search fuel L x p h = Ok ((u8 FAILED, L), h)
  end.
Proof.
  intros Hl Hf Hpl Hp [b Hb]. revert fuel l1 x Hl Hf Hpl.
  induction l2 as [|y l2 IH]; intros [|fuel] l1 x Hl Hf Hpl; simpl in Hf; try lia.
  - pose proof Hl as [Hs _ _]. apply seg_app in Hs as (r & _ & -> & Hx & bx & Hbx & Hn).
    simpl in Hn |- *. step by (by apply load_ok). by rewrite decide_True.
  - pose proof Hl as [Hs _ _].
    apply seg_app in Hs as (r & _ & -> & Hx & bx & Hbx & Hny & Hy & by_ & Hby & _).
    cbn [ooo_search]. step by (by apply load_ok). rewrite Hny.
    rewrite (decide_False (P := y = NULL)) by done.
    step by (by apply load_ok). step by (by apply load_ok).
    cbn [ooo_gap]. rewrite (before_eq _ _ _ bx b), (before_eq _ _ _ b by_) by done.
    destruct (TCP_SEQ_LEQ (seg_end bx) (tcp_seq b) && TCP_SEQ_LEQ (seg_end b) (tcp_seq by_)) eqn:E.
    + destruct (mbuf_list_insert_spec h L l1 x (y :: l2) p) as (L' & h' & Hi & ?); [done..|by eexists|].
      exists L', h'. split; [by step by exact Hi | done].
    + specialize (IH fuel (l1 ++ [x]) y). rewrite <- app_assoc in IH. simpl in IH.
      specialize (IH Hl ltac:(lia) Hpl). cbn [ooo_gap] in IH.
      destruct (match l2 with [] => None | _ => _ end) as [r|] eqn:E'; simpl; [|done].
      destruct IH as (L' & h' & ? & ? & ?). exists L', h'. by rewrite <- app_assoc in *.
Qed.

Lemma singleton_is_list h p m :
  p <> NULL -> mbufs h !! p = Some m -> buf_next m = NULL -> is_list h (MbufList p p) [p].
Proof. intros ???. split; [|done|apply NoDup_singleton]. simpl. eauto 6. Qed.

Lemma ooo_gap_perm m l p r : ooo_gap m l p = Some r -> r ≡ₚ p :: l.
Proof. intros (l1 & x & y & l2 & -> & -> & _)%ooo_gap_some. solve_Permutation. Qed.

(** Where neither end nor an inner gap takes [p], no place does. *)
Lemma no_place m x l0 lf t p l1 l2 :
  x :: l0 = lf ++ [t] -> before m t p = false -> before m p x = false ->
  ooo_gap m (x :: l0) p = None -> x :: l0 = l1 ++ l2 -> in_seq_order m (l1 ++ p :: l2) = false.
Proof.
  intros Hlast Ht Hx Hgap Heq. destruct l1 as [|a l1 _] using rev_ind.
  { simpl in Heq |- *. subst l2. by rewrite Hx. }
  rewrite <- app_assoc in *. simpl in Heq |- *. rewrite in_seq_order_app.
  destruct l2 as [|y l2]; simpl.
  - rewrite Heq in Hlast. apply app_inj_tail in Hlast as [_ ->]. by rewrite Ht, andb_false_r.
  - pose proof (ooo_gap_none _ _ _ _ _ _ _ Hgap Heq) as H.
    destruct (before m a p), (before m p y); simpl in *; by rewrite ?andb_false_r.
Qed.

(** The segment ends before the first of the list and does not follow the last. *)
Definition before_first (m : gmap ptr mbuf) (l : list ptr) (p : ptr) : bool :=
  match head l, last l with
  | Some x, Some t => negb (before m t p) && before m p x
  | _, _ => false
  end.

(** C30. Keeping early segments.  On a list of early segments in sequence
    order, [ooo_insert] either links the new segment at a place where it
    overlaps neither neighbour and keeps the list in sequence order; or
    reports failure and changes nothing, in which case no place of the list
    takes the segment; or writes through a pointer of the wrong type, and it
    does so if and only if the segment ends before the first one begins and
    does not follow the last one. *)
Theorem ooo_insert_ordered h buff l p m :
  is_list h (ooo_list buff) l -> in_seq_order (mbufs h) l = true -> p ∉ l -> p <> NULL ->
  mbufs h !! p = Some m -> buf_next m = NULL ->
  match ooo_insert buff p h with
  | Ok ((r, buff'), h') =>
      before_first (mbufs h) l p = false /\
      ((r = SUCCESS /\ payloads h' = payloads h /\ released h' = released h /\
        exists l', is_list h' (ooo_list buff') l' /\ l' ≡ₚ p :: l /\
          in_seq_order (mbufs h) l' = true) \/
       (r = u8 FAILED /\ buff' = buff /\ h' = h /\
        forall l1 l2, l = l1 ++ l2 -> in_seq_order (mbufs h) (l1 ++ p :: l2) = false))
  | Fault f => f = WildAccess /\ before_first (mbufs h) l p = true /\
      in_seq_order (mbufs h) (p :: l) = true
  end.
Proof.
  intros Hl Hs Hpl Hp Hm Hn. pose proof Hl as [Hseg Htl Hnd]. unfold ooo_insert.
  destruct l as [|x l0].
  { simpl in Hseg. rewrite Hseg. split; [done|]. left. split_and!; [done..|]. exists [p].
    split_and!; [by eapply singleton_is_list | done | done]. }
  destruct (exists_last (l := x :: l0)) as (lf & t & Hlast); [done|].
  assert (ml_tail (ooo_list buff) = t) as Ht by (rewrite Hlast, last_snoc in Htl; done).
  destruct (seg_in_dom _ _ _ _ t Hseg) as (Htn & mt & Hmt); [rewrite Hlast; set_solver|].
  assert (before_first (mbufs h) (x :: l0) p =
    negb (before (mbufs h) t p) && before (mbufs h) p x) as Hbf.
  { unfold before_first. cbn [head]. by rewrite Hlast, last_snoc. }
  rewrite Hbf. destruct Hseg as (Hh & Hx & mx & Hmx & _). rewrite Hh, Ht.
  rewrite (decide_False (P := x = NULL)) by done.
  step by (by apply load_ok). step by (by apply load_ok).
  rewrite <- (before_eq (mbufs h) t p mt m) by done. destruct (before (mbufs h) t p) eqn:Htp.
  { destruct (mbuf_list_append_spec h (ooo_list buff) (x :: l0) p) as (L' & h' & Ha & ? & ? & ?);
      [done..|].
    step by exact Ha. step by reflexivity. split; [done|]. left. split_and!; [done..|].
    exists (x :: l0 ++ [p]). split_and!; [done | |].
    - change (x :: l0 ++ [p]) with ((x :: l0) ++ [p]). by rewrite Permutation_app_comm.
    - change (x :: l0 ++ [p]) with ((x :: l0) ++ [p]). rewrite Hlast in Hs |- *.
      rewrite <- app_assoc. simpl. rewrite in_seq_order_app, Hs. simpl. by rewrite Htp. }
  step by (by apply load_ok).
  rewrite <- (before_eq (mbufs h) p x m mx) by done. destruct (before (mbufs h) p x) eqn:Hpx.
  { split_and!; [done..|]. cbn [in_seq_order] in *. by rewrite Hpx. }
  step by reflexivity.
  assert (length l0 < list_fuel h)%nat as Hfuel.
  { pose proof (seg_bound _ _ _ _ Hnd (il_seg _ _ _ Hl)) as Hb. unfold list_fuel. simpl in Hb. lia. }
  pose proof (ooo_search_spec _ h (ooo_list buff) [] x l0 p Hl Hfuel Hpl Hp (mk_is_Some _ _ Hm))
    as Hsearch.
  destruct (ooo_gap (mbufs h) (x :: l0) p) as [r|] eqn:Hgap.
  - destruct Hsearch as (L' & h' & Hr & ? & ? & ?). step by exact Hr. split; [done|]. left.
    split_and!; [done..|]. exists r. split_and!; [done | by eapply ooo_gap_perm | by eapply ooo_gap_sorted].
  - step by exact Hsearch. split; [done|]. right. split_and!; [done | by destruct buff | done |].
    intros l1 l2 Heq. by eapply no_place.
Qed.

Definition oheap : mheap :=
  MHeap (<[1 := segm 100 10 0]> (<[2 := segm 200 10 0 <| buf_next := 3 |>]>
         (<[3 := segm 300 10 0]> {[4 := segm 205 10 0]}))) [].

Lemma oheap_list : is_list oheap (MbufList 2 3) [2; 3].
Proof.
  split; [|done|repeat (apply NoDup_cons; split); [set_solver..|constructor]].
  vm_compute. naive_solver.
Qed.

(** The gap is too small for segment 4. *)
Lemma ooo_insert_ordered_witness :
  exists r buff' h', ooo_insert (rb0 <| ooo_list := MbufList 2 3 |>) 4 oheap = Ok ((r, buff'), h') /\
    r = 254 /\ in_seq_order (mbufs oheap) [2; 4; 3] = false.
Proof.
  pose proof (ooo_insert_ordered oheap (rb0 <| ooo_list := MbufList 2 3 |>) [2; 3] 4
    (segm 205 10 0) oheap_list eq_refl ltac:(set_solver) ltac:(done) eq_refl eq_refl) as H.
  destruct (ooo_insert _ _ _) as [[[r b'] h']|f] eqn:E; vm_compute in E; [|discriminate].
  exists r, b', h'. split; [done|]. destruct H as (_ & [(-> & _)|(-> & _ & _ & Hno)]).
  - discriminate.
  - split; [done|]. apply (Hno [2] [3]). done.
Defined.

(** * Where the receive buffer departs from its contract *)

(** When the merged queue is full, an in-sequence low-priority segment is
    reported as received (result 1) and [merged_next] moves past it, but the
    queue does not hold it: [FAILED] is -2, which the test
    [if (mbufq_enqueue(...))] takes for success.  [rb_put] promises [FAILED]
    in that case. *)
Theorem rb_put_full_loses_segment h b p m :
  rb_inv h b -> length (cirq_contents (merged_q b)) = cirq_cap (merged_q b) ->
  mbufs h !! p = Some m -> priority m = 0 -> tcp_seq m = merged_next b ->
  TCP_SEQ_GT (seg_end m) (u32 (head_seq b + rb_size b)) = false ->
  exists b' h', rb_put b p h = Ok ((1, b'), h') /\ merged_q b' = merged_q b /\
    merged_next b' = seg_end m /\ released h' = released h.
Proof.
  intros [Hq [Hhq Hhc] Hooo Hch Hrd] Hfull Hm Hpri Hseq Hwin.
  unfold rb_put. step by (by apply load_ok). fold (seg_end m). rewrite Hwin.
  step by (by apply store_ok). rewrite (decide_False (P := priority m <> 0)) by lia.
  step by reflexivity. rewrite decide_True by done.
  step by (by apply lift_ok, (fifo_enq_full (merged_q b))). rewrite decide_True by done.
  step by (unfold try_merge_ooo; step by reflexivity; simpl; rewrite decide_True by done; reflexivity).
  step by reflexivity.
  step by (apply load_ok; apply lookup_insert_eq).
  rewrite (bool_decide_true (priority _ = 0)) by done.
  step by (apply store_ok; apply lookup_insert_eq).
  eexists _, _. split; [reflexivity|]. done.
Qed.

Definition full_dq : circular_queue := Cirq 7 (Direct [1; 2; 3; 4; 5; 6; 7; NULL]) 8 0.
Definition full_rb : tcp_recv_buffer := RecvBuf full_dq mbuf_list_init dq0 100000 0 0 7.
Definition full_heap : mheap :=
  MHeap (list_to_map ((fun i => (Z.of_nat i, segm (Z.of_nat i - 1) 1 0 <| mbuf_state := 2 |>))
           <$> seq 1 8)) [].

Lemma full_rb_inv : rb_inv full_heap full_rb.
Proof.
  split; [split; [split; done | done] | split; [apply dq0_wf | done] | done | |].
  - change (chain (mbufs full_heap) 0 [1; 2; 3; 4; 5; 6; 7] 7). cbn [chain].
    repeat (eexists; split; [vm_compute; reflexivity|]; split; [vm_compute; reflexivity|]).
    vm_compute. reflexivity.
  - repeat constructor; try done; eexists; (split; [vm_compute; reflexivity|]); by split.
Qed.

Lemma rb_put_full_loses_segment_witness :
  exists b' h', rb_put full_rb 8 full_heap = Ok ((1, b'), h') /\ merged_q b' = merged_q full_rb /\
    merged_next b' = seg_end (segm 7 1 0 <| mbuf_state := 2 |>) /\
    released h' = released full_heap.
Proof.
  apply (rb_put_full_loses_segment full_heap full_rb 8 (segm 7 1 0 <| mbuf_state := 2 |>));
    [apply full_rb_inv | vm_compute; reflexivity..].
Defined.

Lemma try_merge_loop_wild fuel h b n x l mx :
  is_list h (ooo_list b) (x :: l) -> mbufs h !! x = Some mx -> tcp_seq mx = merged_next b ->
  direct_wf (merged_q b) -> (length (cirq_contents (merged_q b)) < cirq_cap (merged_q b))%nat ->
  try_merge_loop (S fuel) b n h = Fault WildAccess.
Proof.
  intros Hl Hmx Hnext Hq Hroom.
  destruct (mbuf_list_pop_cons _ _ _ _ Hl) as (L' & h2 & Hpop & _ & _ & _ & b2 & Hb2 & Hm2).
  destruct (il_seg _ _ _ Hl) as (Hhd & Hx & _). assert (b2 = mx) as -> by congruence.
  cbn [try_merge_loop]. rewrite Hhd, decide_False by done. step by (by apply load_ok).
  replace (TCP_SEQ_LEQ (tcp_seq mx) (merged_next b)) with true
    by (unfold TCP_SEQ_LEQ; rewrite Hnext, Z.sub_diag; done). cbn [negb].
  step by exact Hpop. step by (apply load_ok; rewrite Hm2; apply lookup_insert_eq).
  rewrite decide_False by (simpl; intros Hne; by apply Hne).
  apply bind_fault. simpl. unfold lift. by rewrite direct_cirq_add_wild.
Qed.

(** C40. Filling a gap never succeeds: when the segment that closes the gap in
    front of the first early segment arrives and the merged queue has room for
    both, the merge goes through [cirq_add] on a direct-mode queue and stores
    through a pointer of the wrong type. *)
Theorem rb_gap_fill_faults h b p m x l mx :
  rb_inv h (b <| ooo_list := mbuf_list_init |>) ->
  is_list h (ooo_list b) (x :: l) -> p ∉ x :: l ->
  (S (length (cirq_contents (merged_q b))) < cirq_cap (merged_q b))%nat ->
  mbufs h !! p = Some m -> priority m = 0 -> tcp_seq m = merged_next b ->
  TCP_SEQ_GT (seg_end m) (u32 (head_seq b + rb_size b)) = false ->
  mbufs h !! x = Some mx -> tcp_seq mx = seg_end m ->
  rb_put b p h = Fault WildAccess.
Proof.
  intros [Hq _ _ _ _] Hl Hpl Hroom Hm Hpri Hseq Hwin Hmx Hnext. simpl in *.
  destruct (fifo_enq_room (merged_q b) p Hq) as (q' & Henq & Hq' & Hc' & Hcap'); [lia|].
  unfold rb_put. step by (by apply load_ok). fold (seg_end m). rewrite Hwin.
  step by (by apply store_ok). rewrite (decide_False (P := priority m <> 0)) by lia.
  step by reflexivity. rewrite decide_True by done.
  step by (by apply lift_ok). rewrite decide_True by done.
  rewrite ?bind_bind. apply bind_fault. unfold try_merge_ooo. step by reflexivity.
  assert (mbufs h !! x <> None /\ x <> p) as [_ Hxp] by set_solver.
  eapply try_merge_loop_wild; simpl; [| by rewrite lookup_insert_ne | done | done |].
  - destruct Hl as [Hs ? ?]. split; [|done..]. by apply seg_frame.
  - rewrite Hc', length_app. simpl. lia.
Qed.

Definition gap_heap : mheap :=
  MHeap (<[1 := segm 100 10 0]> {[2 := segm 110 10 0]}) [].
Definition gap_rb : tcp_recv_buffer :=
  RecvBuf dq0 (MbufList 2 2) dq0 100000 100 100 100.

(** Segment 2 arrived early and waits; segment 1 closes the gap. *)
Lemma rb_gap_fill_faults_witness : rb_put gap_rb 1 gap_heap = Fault WildAccess.
Proof.
  apply (rb_gap_fill_faults gap_heap gap_rb 1 (segm 100 10 0) 2 [] (segm 110 10 0));
    try (vm_compute; reflexivity); try set_solver.
  - split; [apply dq0_wf | split; [apply dq0_wf | done] | done | done | constructor].
  - by eapply singleton_is_list.
  - vm_compute. lia.
Defined.

(** * Priority *)

Lemma payload_ptr_ok h x m :
  x <> NULL -> mbufs h !! x = Some m -> has_payload m ->
  exists p, mbuf_get_payload_ptr x h = Ok (p, h) /\ p <> NULL.
Proof.
  intros Hx Hm [Hl4 Hp]. unfold mbuf_get_payload_ptr. rewrite decide_False by done.
  eexists. split; [|exact Hp]. step by (by apply load_ok). by rewrite decide_False.
Qed.

(** Priority reads.  A high-priority segment waiting in [high_q] is
    returned before anything in the merged queue.  If it is not the next
    segment in sequence, the merged queue and [head_seq] stay as they are; if
    it is, it also leaves the merged queue and [head_seq] moves past it, so
    that it is not delivered a second time. *)
Theorem rb_get_high_first h b x hs m :
  direct_wf (high_q b) -> cirq_contents (high_q b) = x :: hs ->
  direct_wf (merged_q b) -> x <> NULL -> mbufs h !! x = Some m ->
  mbuf_state m = MBUF_STATE_RBUFFED -> has_payload m ->
  (tcp_seq m = head_seq b -> exists l, cirq_contents (merged_q b) = x :: l) ->
  exists b' h', rb_get b h = Ok ((x, b'), h') /\ cirq_contents (high_q b') = hs /\
    headers h' = headers h /\ released h' = released h /\ ooo_list b' = ooo_list b /\
    merged_next b' = merged_next b /\
    (if decide (tcp_seq m = head_seq b)
     then cirq_contents (merged_q b) = x :: cirq_contents (merged_q b') /\
          head_seq b' = u32 (head_seq b + payload_len m) /\
          holding <$> mbufs h' !! x = Some 0
     else merged_q b' = merged_q b /\ head_seq b' = head_seq b /\ h' = h).
Proof.
  intros Hhq Hhc Hq Hx Hm Hst Hpay Hhead.
  destruct (fifo_deq_head (high_q b) x hs Hhq Hhc) as (hq & Hd & _ & Hhc' & _).
  unfold rb_get, try_get_high_mbuf. cbn [try_get_high_loop].
  step by (by apply lift_ok). rewrite (decide_False (P := x = NULL)) by done.
  step by (by apply load_ok). rewrite (decide_True _ _ Hst). simpl (head_seq _).
  destruct (decide (tcp_seq m = head_seq b)) as [Hseq|Hseq].
  - destruct (Hhead Hseq) as (l & Hl).
    destruct (fifo_deq_head (merged_q b) x l Hq Hl) as (mq & Hdm & _ & Hmc & _).
    simpl (merged_q _). step by (by apply lift_ok). rewrite decide_True by done.
    step by (by apply store_ok). step by reflexivity.
    rewrite (decide_False (P := x = NULL)) by done. step by reflexivity.
    rewrite decide_True by done.
    set (h1 := MHeap _ _). destruct (payload_ptr_ok h1 x (m <| holding := 0 |>)) as (p & Hp & Hpn);
      [done | by apply lookup_insert_eq | done |].
    step by exact Hp. rewrite decide_False by done. eexists _, _. split; [reflexivity|].
    split_and!; try done; simpl.
    + unfold headers. simpl. by eapply header_insert.
    + by rewrite Hmc.
    + by rewrite lookup_insert_eq.
  - step by reflexivity. rewrite (decide_False (P := x = NULL)) by done. step by reflexivity.
    rewrite decide_True by done.
    destruct (payload_ptr_ok h x m) as (p & Hp & Hpn); [done..|].
    step by exact Hp. rewrite decide_False by done. eexists _, _. by split.
Qed.

Definition pri_rb : tcp_recv_buffer :=
  RecvBuf (Cirq 2 (Direct [1; 2; 0; 0; 0; 0; 0; 0]) 8 0) mbuf_list_init
    (Cirq 1 (Direct [2; 0; 0; 0; 0; 0; 0; 0]) 8 0) 100000 100 100 120.
Definition pri_heap : mheap :=
  MHeap (<[1 := segm 100 10 0 <| mbuf_state := 2 |>]>
         {[2 := segm 110 10 1 <| mbuf_state := 2 |> <| holding := 1 |>]}) [].

(** Segment 2 overtakes segment 1. *)
Lemma rb_get_high_first_witness :
  exists b' h', rb_get pri_rb pri_heap = Ok ((2, b'), h') /\
    cirq_contents (merged_q b') = [1; 2] /\ head_seq b' = 100.
Proof.
  destruct (rb_get_high_first pri_heap pri_rb 2 [] (segm 110 10 1 <| mbuf_state := 2 |> <| holding := 1 |>))
    as (b' & h' & Hr & _ & _ & _ & _ & _ & Hb); try done.
  exists b', h'. split; [exact Hr|]. rewrite decide_False in Hb by done.
  destruct Hb as (-> & -> & _). done.
Defined.

(** * Teardown *)

Lemma releases_dom h h' l x : releases h h' l -> is_Some (mbufs h !! x) -> is_Some (mbufs h' !! x).
Proof. intros [_ Hm] [b Hb]. rewrite Hm, Hb. by eexists. Qed.

Lemma releases_seg h h' l p l' q : releases h h' l -> seg (mbufs h) p l' q -> seg (mbufs h') p l' q.
Proof.
  intros [_ Hm]. revert p. induction l' as [|y l' IH]; intros p; simpl; [done|].
  intros (-> & Hy & b & Hb & Hs). split_and!; [done..|].
  exists ((if decide (y ∈ l) then set_free else id) b). rewrite Hm, Hb. split; [done|].
  case_decide; by apply IH.
Qed.

(** Tearing a receive buffer down hands back the merged queue, then the
    early segments, then the high-priority queue, in that order.  Since a
    waiting high-priority segment is also in one of the first two, it is
    handed back twice. *)
Theorem rb_clear_releases h b l :
  direct_wf (merged_q b) -> direct_wf (high_q b) -> is_list h (ooo_list b) l ->
  Forall (fun p => p <> NULL /\ is_Some (mbufs h !! p)) (cirq_contents (merged_q b)) ->
  Forall (fun p => p <> NULL /\ is_Some (mbufs h !! p)) (cirq_contents (high_q b)) ->
  exists b' h', rb_clear b h = Ok (b', h') /\
    released h' = released h ++ cirq_contents (merged_q b) ++ l ++ cirq_contents (high_q b) /\
    cirq_contents (merged_q b') = [] /\ ooo_list b' = mbuf_list_init /\
    cirq_contents (high_q b') = [].
Proof.
  intros Hq Hhq Hl Hall Hhall. unfold rb_clear.
  destruct (mbufq_clear_spec _ h Hq Hall) as (q' & h1 & Hr1 & _ & Hc1 & _ & Hrel1).
  step by exact Hr1.
  destruct (free_loop_spec (list_fuel h1) (ml_head (ooo_list b)) l h1) as (h2 & Hr2 & Hrel2).
  { by eapply releases_seg, il_seg. }
  { pose proof (seg_bound _ _ _ _ (il_nodup _ _ _ Hl)
      (releases_seg _ _ _ _ _ _ Hrel1 (il_seg _ _ _ Hl))). unfold list_fuel. lia. }
  step by (unfold mbuf_list_free; step by reflexivity; step by exact Hr2; reflexivity).
  destruct (mbufq_clear_spec _ h2 Hhq) as (hq' & h3 & Hr3 & _ & Hc3 & _ & Hrel3).
  { eapply Forall_impl; [exact Hhall|]. intros x [? ?].
    split; [done|]. by eapply releases_dom, releases_dom. }
  step by exact Hr3. eexists _, _. split; [reflexivity|]. split_and!; try done.
  rewrite (proj1 Hrel3), (proj1 Hrel2), (proj1 Hrel1). by rewrite <- !app_assoc.
Qed.

Lemma rb_clear_releases_witness :
  exists b' h', rb_clear pri_rb pri_heap = Ok (b', h') /\ released h' = [1; 2; 2].
Proof.
  destruct (rb_clear_releases pri_heap pri_rb []) as (b' & h' & Hr & Hrel & _).
  - split; [|done]. by split.
  - split; [|done]. by split.
  - apply is_list_empty.
  - repeat constructor; try done; by eexists.
  - repeat constructor; try done; by eexists.
  - exists b', h'. split; [exact Hr|]. rewrite Hrel. reflexivity.
Defined.
