(* ===== verification/SendBuff.v ===== *)
(** The TCP send buffer: [tcp_send_buff.c] and [tcp_send_buff.h].

    Segments written by the application wait in [usnd_q] (or [husnd_q] when
    they have high priority); segments on the wire wait in [uack_list] for
    their acknowledgement, or in [retrans_list] to be sent again. *)
From S2P Require Import Prelude Protocol Fifo CircularQueue Mbuf RecvBuff.
#[local] Open Scope Z_scope.

Record tcp_send_buffer : Type := SendBuf {
  usnd_q : circular_queue;
  husnd_q : circular_queue;
  uack_list : mbuf_list;
  retrans_list : mbuf_list;
  sb_size : Z;
  sb_head_seq : Z;
  sb_next_seq : Z;
}.

#[export] Instance tcp_send_buffer_rebuild : Rebuild tcp_send_buffer := fun b =>
  SendBuf (usnd_q b) (husnd_q b) (uack_list b) (retrans_list b) (sb_size b) (sb_head_seq b)
    (sb_next_seq b).

Definition sb_len (buff : tcp_send_buffer) : Z := u32 (sb_next_seq buff - sb_head_seq buff).

(** [sndbuf_size] is [CONFIG.sndbuf_size]. *)
Definition sb_init (sndbuf_size : Z) (buff : tcp_send_buffer) (init_seq : Z) : tcp_send_buffer :=
  let buff := buff <| uack_list := mbuf_list_init |> <| retrans_list := mbuf_list_init |> in
  let buff := buff <| usnd_q ::= fun q => (mbufq_init q).2 |>
                   <| husnd_q ::= fun q => (mbufq_init q).2 |> in
  buff <| sb_size := u32 (1400 * sndbuf_size) |> <| sb_head_seq := init_seq |>
       <| sb_next_seq := init_seq |>.

Definition sb_free (buff : tcp_send_buffer) : M mheap (Z * tcp_send_buffer) :=
  q ← mbufq_clear (usnd_q buff);
  l ← mbuf_list_free (uack_list buff);
  r ← mbuf_list_free (retrans_list buff);
  mret (SUCCESS, buff <| usnd_q := q |> <| uack_list := l |> <| retrans_list := r |>).

Definition sb_put (buff : tcp_send_buffer) (mbuf : ptr) : M mheap (Z * tcp_send_buffer) :=
  mb ← load mbuf;
  let len := payload_len mb in
  let to_put := Z.min len (u32 (sb_size buff - sb_len buff)) in
  if decide (to_put <= 0) then mret (FAILED, buff) else
  store mbuf (fun m => m <| payload_len := u16 to_put |> <| tcp_seq := sb_next_seq buff |>);;
  let buff := buff <| sb_next_seq := u32 (sb_next_seq buff + to_put) |> in
  store mbuf (fun m => m <| mbuf_state := MBUF_STATE_TBUFFED |>);;
  '(ret, buff) ←
    (if decide (priority mb = 0) then
       '(r, q) ← lift (mbufq_enqueue (usnd_q buff) mbuf); mret (r, buff <| usnd_q := q |>)
     else
       '(r, q) ← lift (mbufq_enqueue (husnd_q buff) mbuf); mret (r, buff <| husnd_q := q |>));
  if decide (ret <> SUCCESS) then mret (FAILED, buff) else mret (to_put, buff).

Fixpoint mark_loss_loop (fuel : nat) (mbuf : ptr) : M mheap unit :=
  match fuel with
  | O => throw NoReturn
  | S fuel' =>
      if decide (mbuf = NULL) then mret tt else
      store mbuf (fun m => m <| mbuf_state := MBUF_STATE_LOSS |>);;
      m ← load mbuf;
      mark_loss_loop fuel' (buf_next m)
  end.

(** [None]: the function ends without a return statement and its value is
    indeterminate. *)
Definition sb_reset_retrans (buff : tcp_send_buffer) : M mheap (option Z * tcp_send_buffer) :=
  if decide (ml_head (uack_list buff) = NULL) then mret (Some FAILED, buff) else
  if decide (ml_head (retrans_list buff) <> NULL) then mret (Some ERROR, buff) else
  let buff := buff <| retrans_list := uack_list buff |> <| uack_list := MbufList NULL NULL |> in
  h ← get;
  mark_loss_loop (list_fuel h) (ml_head (retrans_list buff));;
  mret (None, buff).

(** One of the two [while] loops: the list and [head_seq] after it. *)
Fixpoint remove_acked_loop (fuel : nat) (list : mbuf_list) (head : Z) (ack_seq : Z)
    : M mheap (mbuf_list * Z) :=
  match fuel with
  | O => throw NoReturn
  | S fuel' =>
      let mbuf := ml_head list in
      if decide (mbuf = NULL) then mret (list, head) else
      mb ← load mbuf;
      if negb (TCP_SEQ_LEQ (seg_end mb) ack_seq) then mret (list, head) else
      '(_, list) ← mbuf_list_pop list;
      mb ← load mbuf;
      let head := u32 (head + payload_len mb) in
      mbuf_free mbuf;;
      remove_acked_loop fuel' list head ack_seq
  end.

Definition sb_remove_acked (buff : tcp_send_buffer) (ack_seq : Z)
    : M mheap (Z * tcp_send_buffer) :=
  h ← get;
  '(l, hs) ← remove_acked_loop (list_fuel h) (uack_list buff) (sb_head_seq buff) ack_seq;
  let buff := buff <| uack_list := l |> <| sb_head_seq := hs |> in
  '(l, hs) ← remove_acked_loop (list_fuel h) (retrans_list buff) (sb_head_seq buff) ack_seq;
  mret (SUCCESS, buff <| retrans_list := l |> <| sb_head_seq := hs |>).

(** * Cumulative acknowledgement *)

Definition is_acked (m : gmap ptr mbuf) (ack : Z) (x : ptr) : bool :=
  match m !! x with Some b => TCP_SEQ_LEQ (seg_end b) ack | None => false end.

(** The acknowledged prefix and the rest. *)
Fixpoint acked (m : gmap ptr mbuf) (ack : Z) (l : list ptr) : list ptr * list ptr :=
  match l with
  | [] => ([], [])
  | x :: l' => if is_acked m ack x then (x :: (acked m ack l').1, (acked m ack l').2) else ([], l)
  end.

Lemma acked_app m ack l : (acked m ack l).1 ++ (acked m ack l).2 = l.
Proof. induction l as [|x l IH]; simpl; [done|]. case_match; simpl; [by rewrite IH | done]. Qed.

Lemma elem_of_acked m ack l x : x ∈ (acked m ack l).1 -> x ∈ l.
Proof. rewrite <- (acked_app m ack l) at 2. set_solver. Qed.

Lemma acked_ext m m' ack l :
  (forall x, x ∈ l -> m' !! x = m !! x) -> acked m' ack l = acked m ack l.
Proof.
  induction l as [|x l IH]; intros Hx; simpl; [done|].
  unfold is_acked. rewrite Hx, IH by set_solver. done.
Qed.

Lemma seg_bytes_ext m m' l :
  (forall x, x ∈ l -> m' !! x = m !! x) -> seg_bytes m' l = seg_bytes m l.
Proof.
  intros Hx. unfold seg_bytes. f_equal. apply list_fmap_ext. intros i x Hi. simpl.
  by rewrite Hx by by eapply list_elem_of_lookup_2.
Qed.

Lemma seg_bytes_cons m x l b : m !! x = Some b -> seg_bytes m (x :: l) = payload_len b + seg_bytes m l.
Proof. intros Hb. unfold seg_bytes. simpl. by rewrite Hb. Qed.

Lemma seg_bytes_nonneg m l :
  Forall (fun x => 0 <= from_option payload_len 0 (m !! x)) l -> 0 <= seg_bytes m l.
Proof.
  induction 1 as [|x l Hx _ IH]; [done|].
  change (0 <= from_option payload_len 0 (m !! x) + seg_bytes m l). lia.
Qed.

Lemma remove_acked_loop_spec fuel h L l head ack :
  is_list h L l -> (length l < fuel)%nat -> is_u32 head ->
  exists L' h', remove_acked_loop fuel L head ack h =
      Ok ((L', u32 (head + seg_bytes (mbufs h) (acked (mbufs h) ack l).1)), h') /\
    is_list h' L' (acked (mbufs h) ack l).2 /\
    released h' = released h ++ (acked (mbufs h) ack l).1 /\
    (forall x, x ∉ (acked (mbufs h) ack l).1 -> mbufs h' !! x = mbufs h !! x).
Proof.
  revert fuel h L head. induction l as [|x l IH]; intros [|fuel] h L head Hl Hf Hh;
    simpl in Hf; try lia; cbn [remove_acked_loop].
  - pose proof (il_seg _ _ _ Hl) as Hs. simpl in Hs. rewrite Hs, decide_True by done.
    exists L, h. simpl. unfold seg_bytes. simpl. rewrite Z.add_0_r, u32_id, app_nil_r by done.
    by split_and!.
  - destruct (il_seg _ _ _ Hl) as (Hhd & Hx & b & Hb & _). rewrite Hhd, decide_False by done.
    step by (by apply load_ok). cbn [acked]. unfold is_acked. rewrite Hb.
    destruct (TCP_SEQ_LEQ (seg_end b) ack) eqn:Ha; cbn [negb fst snd].
    + destruct (mbuf_list_pop_cons _ _ _ _ Hl) as (L1 & h1 & Hpop & Hl1 & _ & Hrel & b' & Hb' & Hm1).
      assert (b' = b) as -> by congruence. step by exact Hpop.
      step by (apply load_ok; rewrite Hm1; apply lookup_insert_eq).
      step by (apply mbuf_free_ok; [done | rewrite Hm1; apply lookup_insert_eq]).
      set (h2 := MHeap _ _). assert (x ∉ l) as Hxl by (by eapply NoDup_cons_1_1, il_nodup).
      assert (is_list h2 L1 l) as Hl2 by (destruct Hl1; split; [by apply seg_frame | done..]).
      assert (forall y, y <> x -> mbufs h2 !! y = mbufs h !! y) as Hsame.
      { intros y Hy. unfold h2. simpl. by rewrite Hm1, !lookup_insert_ne by done. }
      destruct (IH fuel h2 L1 (u32 (head + payload_len b))) as (L' & h' & Hr & Hl' & Hrel' & Hfr);
        [done | lia | apply u32_range |].
      rewrite (acked_ext (mbufs h) (mbufs h2)) in * by (intros y Hy; apply Hsame; set_solver).
      rewrite (seg_bytes_ext (mbufs h) (mbufs h2)) in Hr
        by (intros y Hy; apply Hsame; intros ->; by eapply Hxl, elem_of_acked).
      exists L', h'. rewrite (seg_bytes_cons _ _ _ b) by done.
      rewrite u32_add_l, <- Z.add_assoc in Hr. split_and!; [exact Hr | done | |].
      * rewrite Hrel'. unfold h2. simpl. by rewrite Hrel, <- app_assoc.
      * intros y Hy. rewrite not_elem_of_cons in Hy. destruct Hy as [Hyx Hy].
        rewrite Hfr by done. by apply Hsame.
    + exists L, h. unfold seg_bytes. simpl. rewrite Z.add_0_r, u32_id, app_nil_r by done.
      by split_and!.
Qed.

Lemma sb_remove_acked_spec h b lu lr ack :
  is_list h (uack_list b) lu -> is_list h (retrans_list b) lr -> lu ## lr -> is_u32 (sb_head_seq b) ->
  let m := mbufs h in
  exists b' h', sb_remove_acked b ack h = Ok ((SUCCESS, b'), h') /\
    is_list h' (uack_list b') (acked m ack lu).2 /\ is_list h' (retrans_list b') (acked m ack lr).2 /\
    released h' = released h ++ (acked m ack lu).1 ++ (acked m ack lr).1 /\
    sb_head_seq b' = u32 (sb_head_seq b + seg_bytes m (acked m ack lu).1 + seg_bytes m (acked m ack lr).1) /\
    sb_next_seq b' = sb_next_seq b /\
    (forall x, x ∉ (acked m ack lu).1 ++ (acked m ack lr).1 -> mbufs h' !! x = m !! x).
Proof.
  intros Hlu Hlr Hdis Hh m. unfold sb_remove_acked. step by reflexivity.
  pose proof (seg_bound _ _ _ _ (il_nodup _ _ _ Hlu) (il_seg _ _ _ Hlu)) as Hbu.
  pose proof (seg_bound _ _ _ _ (il_nodup _ _ _ Hlr) (il_seg _ _ _ Hlr)) as Hbr.
  destruct (remove_acked_loop_spec (list_fuel h) h _ lu (sb_head_seq b) ack Hlu)
    as (L1 & h1 & Hr1 & Hl1 & Hrel1 & Hfr1); [unfold list_fuel; lia | done |].
  step by exact Hr1. fold m in Hl1, Hrel1, Hfr1 |- *.
  assert (forall x, x ∈ lr -> mbufs h1 !! x = m !! x) as Hsame.
  { intros x Hx. apply Hfr1. intros Hx1%elem_of_acked. by eapply Hdis. }
  assert (is_list h1 (retrans_list b) lr) as Hlr1.
  { destruct Hlr as [Hs ? ?]. split; [|done..]. eapply seg_ext; [|exact Hs]. done. }
  destruct (remove_acked_loop_spec (list_fuel h) h1 (retrans_list b) lr
    (u32 (sb_head_seq b + seg_bytes m (acked m ack lu).1)) ack Hlr1)
    as (L2 & h2 & Hr2 & Hl2 & Hrel2 & Hfr2); [unfold list_fuel; lia | apply u32_range |].
  rewrite (acked_ext m (mbufs h1)) in * by done.
  rewrite (seg_bytes_ext m (mbufs h1)), u32_add_l in Hr2
    by (intros x Hx%elem_of_acked; by apply Hsame).
  step by exact Hr2. eexists _, _. split; [reflexivity|]. simpl.
  split_and!; try done.
  - destruct Hl1 as [Hs ? ?]. split; [|done..]. eapply seg_ext; [|exact Hs].
    intros x Hx. apply Hfr2. intros Hx2%elem_of_acked. apply (Hdis x); [|done].
    rewrite <- (acked_app m ack lu). set_solver.
  - by rewrite Hrel2, Hrel1, <- app_assoc.
  - intros x [Hx1 Hx2]%not_elem_of_app. rewrite Hfr2 by done. by apply Hfr1.
Qed.

(** Offsets of a contiguous run of segments from [base]. *)
Lemma acked_chain m base o l e k :
  0 <= o -> o <= k < 2 ^ 31 -> o + seg_bytes m l < 2 ^ 31 ->
  Forall (fun x => 0 <= from_option payload_len 0 (m !! x)) l ->
  chain m (u32 (base + o)) l e ->
  let a := (acked m (u32 (base + k)) l).1 in
  let r := (acked m (u32 (base + k)) l).2 in
  o + seg_bytes m a <= k /\ chain m (u32 (base + o + seg_bytes m a)) r e /\
  forall x r', r = x :: r' -> k < o + seg_bytes m (a ++ [x]).
Proof.
  revert o. induction l as [|x l IH]; intros o Ho Hk Hb Hall Hch; simpl.
  - unfold seg_bytes. simpl. rewrite !Z.add_0_r. split_and!; [lia | done | done].
  - apply Forall_cons in Hall as [Hx Hall]. destruct Hch as (b & Hm & Hseq & Hch).
    rewrite (seg_bytes_cons _ _ _ b Hm) in Hb. rewrite Hm in Hx. simpl in Hx.
    pose proof (seg_bytes_nonneg _ _ Hall) as Hnn.
    assert (seg_end b = u32 (base + (o + payload_len b))) as Hend.
    { unfold seg_end. rewrite Hseq, u32_add_l. f_equal. lia. }
    unfold is_acked. rewrite Hm, Hend.
    destruct (seq_cmp_window base (o + payload_len b) k) as (_ & -> & _); [lia..|].
    case_bool_decide as Hc; simpl.
    + destruct (IH (o + payload_len b)) as (H1 & H2 & H3); [lia..| done | by rewrite <- Hend |].
      rewrite (seg_bytes_cons _ _ _ b Hm). split_and!.
      * lia.
      * by rewrite !Z.add_assoc in *.
      * intros y r' Hr. specialize (H3 y r' Hr). rewrite (seg_bytes_cons _ _ _ b Hm). lia.
    + change (seg_bytes m []) with 0. rewrite !Z.add_0_r. split_and!; [lia | by exists b |].
      intros y r' [= <- <-]. rewrite (seg_bytes_cons _ _ _ b Hm). unfold seg_bytes. simpl. lia.
Qed.

(** C7. Cumulative acknowledgement.  Let the unacknowledged list hold
    contiguous segments from [head_seq], and let the peer acknowledge [k] bytes
    beyond it.  [sb_remove_acked] releases, once each and in order, exactly the
    segments that end inside those [k] bytes; the first segment it keeps ends
    beyond them; and [head_seq] moves to the start of what is kept, which stays
    contiguous.  The sequence space may wrap around 2^32. *)
Theorem sb_ack_exact h b l e k :
  is_list h (uack_list b) l -> is_list h (retrans_list b) [] -> is_u32 (sb_head_seq b) ->
  chain (mbufs h) (sb_head_seq b) l e -> seg_bytes (mbufs h) l < 2 ^ 31 ->
  Forall (fun x => 0 <= from_option payload_len 0 (mbufs h !! x)) l -> 0 <= k < 2 ^ 31 ->
  exists l1 l2 b' h', l = l1 ++ l2 /\
    sb_remove_acked b (u32 (sb_head_seq b + k)) h = Ok ((SUCCESS, b'), h') /\
    is_list h' (uack_list b') l2 /\ is_list h' (retrans_list b') [] /\
    released h' = released h ++ l1 /\
    sb_head_seq b' = u32 (sb_head_seq b + seg_bytes (mbufs h) l1) /\
    seg_bytes (mbufs h) l1 <= k /\
    (forall x l', l2 = x :: l' -> k < seg_bytes (mbufs h) (l1 ++ [x])) /\
    chain (mbufs h') (sb_head_seq b') l2 e.
Proof.
  intros Hl Hr Hh Hch Hlen Hall Hk.
  destruct (sb_remove_acked_spec h b l [] (u32 (sb_head_seq b + k)) Hl Hr)
    as (b' & h' & Hrun & Hl' & Hr' & Hrel & Hhd & _ & Hfr); [set_solver | done |].
  pose proof (acked_chain (mbufs h) (sb_head_seq b) 0 l e k) as Hac.
  rewrite Z.add_0_r, u32_id in Hac by done. destruct Hac as (H1 & H2 & H3); [lia..| done | done |].
  simpl in Hr', Hrel, Hhd, Hfr. change (seg_bytes (mbufs h) []) with 0 in Hhd.
  rewrite app_nil_r in *. rewrite Z.add_0_r in *.
  eexists _, _, b', h'. split; [by rewrite acked_app|].
  split_and!; [exact Hrun | done.. | lia | intros; eapply H3; eauto |].
  rewrite Hhd. eapply chain_ext; [|exact H2]. intros x Hx. rewrite Hfr; [done|].
  pose proof (il_nodup _ _ _ Hl) as Hnd. rewrite <- (acked_app (mbufs h) (u32 (sb_head_seq b + k)) l) in Hnd.
  apply NoDup_app in Hnd as (_ & Hd & _). intros Hx1. by eapply Hd.
Qed.

Definition sheap : mheap :=
  MHeap (<[1 := segm 4294967200 50 0 <| buf_next := 2 |>]>
        (<[2 := segm 4294967250 50 0 <| buf_next := 3 |>]> {[3 := segm 4 50 0]})) [].
Definition sb0 : tcp_send_buffer :=
  SendBuf dq0 dq0 (MbufList 1 3) mbuf_list_init 100000 4294967200 54.

(** 120 bytes are acknowledged: the first two segments go, across the wrap. *)
Lemma sb_ack_exact_witness :
  exists l1 l2 b' h', [1; 2; 3] = l1 ++ l2 /\
    sb_remove_acked sb0 (u32 (sb_head_seq sb0 + 120)) sheap = Ok ((SUCCESS, b'), h') /\
    released h' = l1 /\ seg_bytes (mbufs sheap) l1 <= 120.
Proof.
  destruct (sb_ack_exact sheap sb0 [1; 2; 3] 54 120)
    as (l1 & l2 & b' & h' & Hl & Hrun & _ & _ & Hrel & _ & Hle & _).
  - split; [| done | repeat (apply NoDup_cons; split); [set_solver..|constructor]].
    vm_compute. naive_solver.
  - apply is_list_empty.
  - done.
  - cbn [chain]. repeat (eexists; split; [vm_compute; reflexivity|]; split; [vm_compute; reflexivity|]).
    vm_compute. reflexivity.
  - vm_compute. reflexivity.
  - repeat constructor; vm_compute; discriminate.
  - lia.
  - exists l1, l2, b', h'. split_and!; done.
Defined.

(** * Writing into the send buffer *)

Record sb_bounds (b : tcp_send_buffer) : Prop := {
  sbb_head : is_u32 (sb_head_seq b);
  sbb_next : is_u32 (sb_next_seq b);
  sbb_size : is_u32 (sb_size b);
  sbb_len : sb_len b <= sb_size b;
}.

(** The queue the segment goes to. *)
Definition snd_q (b : tcp_send_buffer) (m : mbuf) : circular_queue :=
  if decide (priority m = 0) then usnd_q b else husnd_q b.

Definition put_len (b : tcp_send_buffer) (m : mbuf) : Z :=
  Z.min (payload_len m) (sb_size b - sb_len b).

Lemma sb_space b : sb_bounds b -> u32 (sb_size b - sb_len b) = sb_size b - sb_len b.
Proof.
  intros [? ? ? ?]. apply u32_id. pose proof (u32_range (sb_next_seq b - sb_head_seq b)).
  unfold sb_len, is_u32 in *. lia.
Qed.

(** The common part of [sb_put] up to the enqueue. *)
Lemma sb_put_run h b p m r q :
  sb_bounds b -> mbufs h !! p = Some m -> is_u16 (payload_len m) -> 0 < put_len b m ->
  dir_cirq_add (snd_q b m) p = Ok (r, q) ->
  let m' := m <| payload_len := put_len b m |> <| tcp_seq := sb_next_seq b |>
              <| mbuf_state := MBUF_STATE_TBUFFED |> in
  let b' := b <| sb_next_seq := u32 (sb_next_seq b + put_len b m) |> in
  sb_put b p h = Ok ((if decide (r <> SUCCESS) then FAILED else put_len b m,
                      if decide (priority m = 0) then b' <| usnd_q := q |> else b' <| husnd_q := q |>),
                     MHeap (<[p := m']> (mbufs h)) (released h)).
Proof.
  intros Hb Hm Hlen Hpos Henq m' b'. unfold sb_put. step by (by apply load_ok).
  rewrite sb_space by done. fold (put_len b m).
  rewrite (decide_False (P := put_len b m <= 0)) by lia.
  assert (u16 (put_len b m) = put_len b m) as ->.
  { apply Z.mod_small. unfold put_len, is_u16 in *. lia. }
  step by (by apply store_ok). step by (apply store_ok; apply lookup_insert_eq).
  cbn [mbufs released]. rewrite insert_insert_eq. unfold snd_q in Henq.
  destruct (decide (priority m = 0)).
  - step by (by apply lift_ok). step by reflexivity. by case_decide.
  - step by (by apply lift_ok). step by reflexivity. by case_decide.
Qed.

(** C27. Writing to the send buffer.  While the queue has room, [sb_put] takes
    as many bytes of the segment as the buffer's size allows and returns that
    number: it stamps the segment with the next sequence number and the length
    taken, queues it by priority, and keeps the amount of unacknowledged data
    within the buffer's size.  With no space left it fails and changes
    nothing. *)
Theorem sb_put_bounded h b p m :
  sb_bounds b -> direct_wf (snd_q b m) -> mbufs h !! p = Some m -> is_u16 (payload_len m) ->
  (length (cirq_contents (snd_q b m)) < cirq_cap (snd_q b m))%nat ->
  if decide (put_len b m = 0) then sb_put b p h = Ok ((FAILED, b), h) else
  exists b' m', sb_put b p h = Ok ((put_len b m, b'), MHeap (<[p := m']> (mbufs h)) (released h)) /\
    tcp_seq m' = sb_next_seq b /\ payload_len m' = put_len b m /\ priority m' = priority m /\
    sb_bounds b' /\ sb_len b' = sb_len b + put_len b m /\
    cirq_contents (snd_q b' m) = cirq_contents (snd_q b m) ++ [p] /\
    sb_next_seq b' = seg_end m' /\ uack_list b' = uack_list b /\ retrans_list b' = retrans_list b.
Proof.
  intros Hb Hq Hm Hlen Hroom. pose proof Hb as [Hhd Hnx Hsz Hle].
  pose proof (u32_range (sb_next_seq b - sb_head_seq b)) as Hr. fold (sb_len b) in Hr.
  case_decide as Hz.
  - unfold sb_put. step by (by apply load_ok). rewrite sb_space by done.
    fold (put_len b m). by rewrite decide_True by lia.
  - assert (0 < put_len b m) as Hpos by (unfold put_len, is_u16 in *; lia).
    destruct (fifo_enq_room (snd_q b m) p Hq Hroom) as (q & Henq & Hq' & Hc' & _).
    rewrite (sb_put_run h b p m SUCCESS q) by done. rewrite decide_False by naive_solver.
    eexists _, _. split; [reflexivity|].
    assert (u32 (u32 (sb_next_seq b + put_len b m) - sb_head_seq b) = sb_len b + put_len b m) as Hl'.
    { rewrite u32_sub_l. replace (sb_next_seq b + put_len b m - sb_head_seq b)
        with (put_len b m + (sb_next_seq b - sb_head_seq b)) by lia.
      rewrite <- u32_add_r. fold (sb_len b). rewrite u32_id; [lia|].
      unfold put_len, is_u16, is_u32 in *. lia. }
    assert (sb_len b + put_len b m <= sb_size b) by (unfold put_len; lia).
    unfold snd_q in *. destruct (decide (priority m = 0)); split_and!; try done;
      (split; [done | apply u32_range | done | unfold sb_len; simpl; lia]).
Qed.

Definition sb1 : tcp_send_buffer := SendBuf dq0 dq0 mbuf_list_init mbuf_list_init 1400 4294967000 4.

Lemma sb1_bounds : sb_bounds sb1.
Proof. split; vm_compute; try split; discriminate || reflexivity. Qed.

(** 300 bytes are unacknowledged; 1100 of the 1460 written ones fit. *)
Lemma sb_put_bounded_witness :
  put_len sb1 (segm 0 1460 0) = 1100 /\
  exists b' m', sb_put sb1 7 (MHeap {[7 := segm 0 1460 0]} []) =
      Ok ((put_len sb1 (segm 0 1460 0), b'), MHeap (<[7 := m']> {[7 := segm 0 1460 0]}) []) /\
    tcp_seq m' = 4 /\ sb_len b' = sb_len sb1 + put_len sb1 (segm 0 1460 0).
Proof.
  split; [vm_compute; reflexivity|].
  pose proof (sb_put_bounded (MHeap {[7 := segm 0 1460 0]} []) sb1 7 (segm 0 1460 0)) as H.
  rewrite decide_False in H by (vm_compute; discriminate).
  destruct H as (b' & m' & Hr & Hs & _ & _ & _ & Hl & _).
  - apply sb1_bounds.
  - apply dq0_wf.
  - done.
  - done.
  - vm_compute. lia.
  - exists b', m'. by split_and!.
Defined.

(** When the queue of unsent segments is full, [sb_put] reports [FAILED]
    although it has already given the segment its sequence numbers and moved
    [next_seq] past it: the caller's data is not queued, but the bytes are
    counted as buffered and the next segment starts after a hole. *)
Theorem sb_put_full_leaves_hole h b p m :
  sb_bounds b -> direct_wf (snd_q b m) -> mbufs h !! p = Some m -> is_u16 (payload_len m) ->
  length (cirq_contents (snd_q b m)) = cirq_cap (snd_q b m) -> 0 < put_len b m ->
  exists b' h', sb_put b p h = Ok ((FAILED, b'), h') /\ snd_q b' m = snd_q b m /\
    sb_next_seq b' = u32 (sb_next_seq b + put_len b m) /\ sb_head_seq b' = sb_head_seq b.
Proof.
  intros Hb Hq Hm Hlen Hfull Hpos.
  rewrite (sb_put_run h b p m FAILED (snd_q b m)); [|done..|by apply fifo_enq_full].
  rewrite decide_True by done. eexists _, _. split; [reflexivity|].
  unfold snd_q. by destruct (decide (priority m = 0)).
Qed.

Lemma sb_put_full_leaves_hole_witness :
  let b := SendBuf full_dq dq0 mbuf_list_init mbuf_list_init 100000 0 7 in
  exists b' h', sb_put b 8 full_heap = Ok ((FAILED, b'), h') /\
    sb_next_seq b' = 8 /\ sb_head_seq b' = 0.
Proof.
  intros b.
  destruct (sb_put_full_leaves_hole full_heap b 8 (segm 7 1 0 <| mbuf_state := 2 |>))
    as (b' & h' & Hr & _ & Hn & Hh).
  - split; vm_compute; try split; discriminate || reflexivity.
  - split; [split; done | done].
  - vm_compute. reflexivity.
  - vm_compute. split; discriminate || reflexivity.
  - vm_compute. reflexivity.
  - vm_compute. reflexivity.
  - exists b', h'. split_and!; [exact Hr | rewrite Hn; vm_compute; reflexivity | exact Hh].
Defined.

(** * Retransmission *)

Definition set_loss (b : mbuf) : mbuf := b <| mbuf_state := MBUF_STATE_LOSS |>.

Lemma mark_loss_loop_spec fuel h p l :
  seg (mbufs h) p l NULL -> (length l < fuel)%nat ->
  exists h', mark_loss_loop fuel p h = Ok (tt, h') /\ released h' = released h /\
    forall x : ptr, mbufs h' !! x = (if decide (x ∈ l) then set_loss else id) <$> mbufs h !! x.
Proof.
  revert fuel h p. induction l as [|x l IH]; intros [|fuel] h p Hs Hf; simpl in Hf; try lia.
  - simpl in Hs. cbn [mark_loss_loop]. rewrite decide_True by done. exists h.
    split_and!; [done..|]. intros x. rewrite decide_False by set_solver. by destruct (mbufs h !! x).
  - destruct Hs as (-> & Hx & b & Hb & Hs). simpl. rewrite decide_False by done.
    step by (by apply store_ok). step by (apply load_ok; apply lookup_insert_eq).
    set (h1 := MHeap _ _). destruct (IH fuel h1 (buf_next b)) as (h' & Hrun & Hrel & Hm).
    + unfold h1. simpl. by eapply (seg_keep_link _ _ _ _ x b).
    + lia.
    + exists h'. split_and!; [exact Hrun | done |]. intros y. rewrite Hm. unfold h1. simpl.
      destruct (decide (y = x)) as [->|Hne].
      * rewrite lookup_insert_eq, Hb, (decide_True (P := x ∈ x :: l)) by set_solver.
        by case_decide.
      * rewrite lookup_insert_ne by done. by do 2 case_decide; set_solver.
Qed.

(** Retransmission keeps the data.  On a timeout with unacknowledged
    segments and no retransmission pending, every unacknowledged segment moves
    to the retransmission list, in order and with nothing else changed but its
    mark; the sequence numbers of the buffer stay. *)
Theorem sb_reset_retrans_moves h b l :
  is_list h (uack_list b) l -> l <> [] -> ml_head (retrans_list b) = NULL ->
  exists b' h', sb_reset_retrans b h = Ok ((None, b'), h') /\
    is_list h' (uack_list b') [] /\ is_list h' (retrans_list b') l /\
    released h' = released h /\ sb_head_seq b' = sb_head_seq b /\ sb_next_seq b' = sb_next_seq b /\
    forall x : ptr, mbufs h' !! x = (if decide (x ∈ l) then set_loss else id) <$> mbufs h !! x.
Proof.
  intros Hl Hne Hr. pose proof Hl as [Hs Ht Hnd]. unfold sb_reset_retrans.
  rewrite decide_False by (destruct l; [done|]; destruct Hs as (-> & ? & _); done).
  rewrite decide_False by (intros H; by apply H). step by reflexivity.
  destruct (mark_loss_loop_spec (list_fuel h) h (ml_head (uack_list b)) l)
    as (h' & Hrun & Hrel & Hm); [done| |].
  { pose proof (seg_bound _ _ _ _ Hnd Hs). unfold list_fuel. lia. }
  simpl (ml_head _). step by exact Hrun. eexists _, _. split; [reflexivity|].
  split_and!; try done.
  - apply is_list_empty.
  - split; [|done..]. simpl. revert Hs. generalize (ml_head (uack_list b)). clear -Hm.
    assert (forall x, x ∈ l -> mbufs h' !! x = set_loss <$> mbufs h !! x) as Hm'.
    { intros x Hx. by rewrite Hm, decide_True. }
    clear Hm. induction l as [|y l IH]; intros p; simpl; [done|].
    intros (-> & Hy & c & Hc & Hs). split_and!; [done..|]. exists (set_loss c).
    rewrite Hm' by set_solver. rewrite Hc. split; [done|]. apply IH; [set_solver | done].
Qed.

Lemma sb_reset_retrans_moves_witness :
  exists b' h', sb_reset_retrans sb0 sheap = Ok ((None, b'), h') /\
    is_list h' (retrans_list b') [1; 2; 3] /\ sb_next_seq b' = 54.
Proof.
  destruct (sb_reset_retrans_moves sheap sb0 [1; 2; 3]) as (b' & h' & Hr & _ & Hl & _ & _ & Hn & _).
  - split; [| done | repeat (apply NoDup_cons; split); [set_solver..|constructor]].
    vm_compute. naive_solver.
  - done.
  - done.
  - exists b', h'. by split_and!.
Defined.
