(* ===== verification/Stack.v ===== *)
(** The state of one stack thread: TCP streams ([tcp_stream.h]), sockets and
    listeners ([socket.h]), the sender queues and timer lists of
    [struct qstack_context] ([qstack.h]), and the wrappers of the flow table
    ([hashtable.c]).

    Streams live in a store indexed by their address; reading a stream that
    was never allocated, or was freed, is a fault.  The results of the coming
    calls into code outside the repository (the chunk allocator, the driver's
    buffer allocator, [rand]) are inputs of a run: the world lists them in the
    order the calls will return them.  What the stack hands to the driver and
    to the event layer is recorded in order. *)
From S2P Require Import Prelude Protocol StaticArp Fifo CircularQueue N21Queue Mbuf RecvBuff SendBuff.
#[local] Open Scope Z_scope.

(** * Packets *)

Record iphdr : Type := IpHdr {
  ihl : Z; ip_saddr : Z; ip_daddr : Z; ip_id_ : Z; tot_len : Z;
}.

(** Fields as they lie in memory: ports, sequence numbers and the window are in
    network order.  [tcpopt] are the option bytes behind the fixed header. *)
Record tcphdr : Type := TcpHdr {
  th_source : Z; th_dest : Z; th_seq : Z; th_ack_seq : Z; th_doff : Z;
  th_fin : bool; th_syn : bool; th_rst : bool; th_psh : bool; th_ack : bool;
  th_window : Z; tcpopt : list Z;
}.

(** A packet handed to the driver. *)
Record packet : Type := Packet { pk_mbuf : ptr; pk_ip : iphdr; pk_tcp : tcphdr; pk_payload : Z }.

(** * Streams *)

Record tcp_recv_vars : Type := RecvVars {
  rcvbuf : tcp_recv_buffer;
  rcv_wnd : Z; irs : Z; snd_wl1 : Z; snd_wl2 : Z;
  dup_acks : Z; last_ack_seq : Z;
  ts_recent : Z; ts_last_ts_upd : Z;
}.

#[export] Instance tcp_recv_vars_rebuild : Rebuild tcp_recv_vars := fun v =>
  RecvVars (rcvbuf v) (rcv_wnd v) (irs v) (snd_wl1 v) (snd_wl2 v) (dup_acks v)
    (last_ack_seq v) (ts_recent v) (ts_last_ts_upd v).

Record tcp_send_vars : Type := SendVars {
  sndbuf : tcp_send_buffer;
  snd_una : Z; snd_wnd : Z;
  is_wack : bool; is_fin_sent : bool; ack_cnt : Z;
  on_control_queue : bool; on_send_queue : bool; on_ack_queue : bool;
  on_closeq : bool; on_resetq : bool;
  ip_id : Z; mss : Z; eff_mss : Z; wscale_mine : Z; wscale_peer : Z;
  peer_wnd : Z; iss : Z; fss : Z; nif_out : Z;
  nrtx : Z; rto : Z; cwnd : Z; ssthresh : Z; ts_lastack_sent : Z;
}.

#[export] Instance tcp_send_vars_rebuild : Rebuild tcp_send_vars := fun v =>
  SendVars (sndbuf v) (snd_una v) (snd_wnd v) (is_wack v) (is_fin_sent v) (ack_cnt v)
    (on_control_queue v) (on_send_queue v) (on_ack_queue v) (on_closeq v) (on_resetq v)
    (ip_id v) (mss v) (eff_mss v) (wscale_mine v) (wscale_peer v)
    (peer_wnd v) (iss v) (fss v) (nif_out v) (nrtx v) (rto v) (cwnd v) (ssthresh v)
    (ts_lastack_sent v).

Inductive event_list_state : Type :=
  | pdev_st_EMPTY | pdev_st_WRITING | pdev_st_WRITEN | pdev_st_READING | pdev_st_READ.

#[export] Instance event_list_state_eq_dec : EqDecision event_list_state.
Proof. solve_decision. Defined.

(** An event for the application: the arguments of [CreateQevent] and the
    [epoll] type given to [AddTimeEvent]. *)
Record qepoll_event : Type := Qevent {
  qe_type : Z; qe_pri : Z; qe_core : Z; qe_sockid : Z; qe_dst : Z; qe_nature : Z;
}.

(** [socket] is the socket's index in the table, [listener] the listener's;
    [None] is the null pointer. *)
Record tcp_stream : Type := Stream {
  id : Z; snd_nxt : Z; rcv_nxt : Z;
  saddr : Z; daddr : Z; sport : Z; dport : Z; dhw_addr : list Z;
  state : tcp_state; close_reason : Z; pdev_st : event_list_state;
  ts_rto : Z; last_active_ts : Z; ts_tw_expire : Z;
  on_rto_idx : Z; on_timeout_list : bool; on_timewait_list : bool;
  saw_timestamp : bool; sack_permit : bool; control_list_waiting : bool;
  have_reset : bool; closed : bool; st_priority : Z;
  rcvvar : tcp_recv_vars; sndvar : tcp_send_vars;
  socket : option nat; pending_events : list qepoll_event; listener : option nat;
}.

#[export] Instance tcp_stream_rebuild : Rebuild tcp_stream := fun s =>
  Stream (id s) (snd_nxt s) (rcv_nxt s) (saddr s) (daddr s) (sport s) (dport s) (dhw_addr s)
    (state s) (close_reason s) (pdev_st s) (ts_rto s) (last_active_ts s) (ts_tw_expire s)
    (on_rto_idx s) (on_timeout_list s) (on_timewait_list s) (saw_timestamp s) (sack_permit s)
    (control_list_waiting s) (have_reset s) (closed s) (st_priority s) (rcvvar s) (sndvar s)
    (socket s) (pending_events s) (listener s).

(** [memset(stream, 0, sizeof(struct tcp_stream))]. *)
Definition zero_q : circular_queue := Cirq 0 (Direct (replicate 8 NULL)) 0 0.
Definition zero_rcvbuf : tcp_recv_buffer := RecvBuf zero_q (MbufList 0 0) zero_q 0 0 0 0.
Definition zero_sndbuf : tcp_send_buffer := SendBuf zero_q zero_q (MbufList 0 0) (MbufList 0 0) 0 0 0.
Definition zero_stream : tcp_stream :=
  Stream 0 0 0 0 0 0 0 (replicate 6 0) TCP_ST_CLOSED 0 pdev_st_EMPTY 0 0 0 0 false false
    false false false false false 0
    (RecvVars zero_rcvbuf 0 0 0 0 0 0 0 0)
    (SendVars zero_sndbuf 0 0 false false 0 false false false false false
       0 0 0 0 0 0 0 0 0 0 0 0 0 0)
    None [] None.

(** * Sockets and listeners *)

Inductive socket_type : Type := SOCK_TYPE_UNUSED | SOCK_TYPE_STREAM | SOCK_TYPE_LISTENER.

#[export] Instance socket_type_eq_dec : EqDecision socket_type.
Proof. solve_decision. Defined.

(** [sk_qe] is the event handle the socket is bound to.  [stream] and
    [listener] are a union: [sk_stream] holds the one pointer.  [sk_port] and
    [sk_addr] are [saddr], [sk_dport] and [sk_daddr] are [daddr], in network
    order. *)
Record socket_rec : Type := Socket {
  sk_id : Z; socktype : socket_type; default_app : Z; opts : Z; epoll : Z;
  sk_qe : ptr; sk_stream : ptr; sk_port : Z; sk_addr : Z; sk_dport : Z; sk_daddr : Z;
}.

#[export] Instance socket_rebuild : Rebuild socket_rec := fun s =>
  Socket (sk_id s) (socktype s) (default_app s) (opts s) (epoll s) (sk_qe s) (sk_stream s)
    (sk_port s) (sk_addr s) (sk_dport s) (sk_daddr s).

(** [l_addr] is the address of the listener itself. *)
Record tcp_listener : Type := Listener {
  l_sockid : Z; l_port : Z; l_socket : option nat; acceptq : list n21_queue;
  l_addr : ptr; backlog : Z;
}.

#[export] Instance tcp_listener_rebuild : Rebuild tcp_listener := fun l =>
  Listener (l_sockid l) (l_port l) (l_socket l) (acceptq l) (l_addr l) (backlog l).

Definition Q_EPOLLNONE : Z := 0.
Definition Q_EPOLLIN : Z := 1.
Definition Q_EPOLLOUT : Z := 4.
Definition Q_EPOLLERR : Z := 8.
Definition Q_READ : Z := 1.
Definition Q_ACCEPT : Z := 16.

(** * The flow table

    [rte_hash] is DPDK's: its operations are parameters, with the behaviour its
    documentation gives as the laws of [RteHashLaws]. *)
Record ipv4_5tuple : Type := Tuple {
  proto : Z; ip_src : Z; ip_dst : Z; port_src : Z; port_dst : Z;
}.

#[export] Instance ipv4_5tuple_eq_dec : EqDecision ipv4_5tuple.
Proof. solve_decision. Defined.
#[export] Instance ipv4_5tuple_countable : Countable ipv4_5tuple.
Proof.
  apply (inj_countable' (fun t => (proto t, ip_src t, ip_dst t, port_src t, port_dst t))
    (fun '(a, b, c, d, e) => Tuple a b c d e)). by intros [].
Defined.

Class RteHash (HT : Type) : Type := {
  rte_hash_add_key_data : HT -> ipv4_5tuple -> ptr -> Z * HT;
  rte_hash_lookup_data : HT -> ipv4_5tuple -> Z * ptr;
  rte_hash_del_key : HT -> ipv4_5tuple -> Z * HT;
}.

Class RteHashLaws (HT : Type) `{!RteHash HT} : Type := {
  rte_entries : HT -> gmap ipv4_5tuple ptr;
  rte_lookup_hit t k v : rte_entries t !! k = Some v ->
    0 <= (rte_hash_lookup_data t k).1 /\ (rte_hash_lookup_data t k).2 = v;
  rte_lookup_miss t k : rte_entries t !! k = None -> (rte_hash_lookup_data t k).1 < 0;
  rte_add t k v : let '(err, t') := rte_hash_add_key_data t k v in
    rte_entries t' = if decide (0 <= err) then <[k := v]> (rte_entries t) else rte_entries t;
  rte_del t k : let '(err, t') := rte_hash_del_key t k in
    rte_entries t' = delete k (rte_entries t) /\ (0 <= err <-> is_Some (rte_entries t !! k));
}.

(** A table that never fills up satisfies the laws. *)
#[export] Instance gmap_rte_hash : RteHash (gmap ipv4_5tuple ptr) := {|
  rte_hash_add_key_data t k v := (0, <[k := v]> t);
  rte_hash_lookup_data t k := match t !! k with Some v => (0, v) | None => (-2, NULL) end;
  rte_hash_del_key t k := (if decide (is_Some (t !! k)) then 0 else -2, delete k t);
|}.

#[export] Program Instance gmap_rte_laws : RteHashLaws (gmap ipv4_5tuple ptr) :=
  {| rte_entries t := t |}.
Next Obligation. intros t k v Hk. simpl. by rewrite Hk. Qed.
Next Obligation. intros t k Hk. simpl. by rewrite Hk. Qed.
Next Obligation. done. Qed.
Next Obligation. intros t k. simpl. split; [done|]. case_decide; naive_solver lia. Qed.

Section HashTable.
Context {HT : Type} `{!RteHash HT}.

(** The result for an error other than the two named ones is not returned. *)
Definition ht_insert (t : HT) (key : ipv4_5tuple) (value : ptr) : Z * HT :=
  rte_hash_add_key_data t key value.

Definition ht_search (t : HT) (key : ipv4_5tuple) : ptr :=
  let '(err, value) := rte_hash_lookup_data t key in
  if decide (err < 0) then NULL else value.

Definition EINVAL : Z := 22.
Definition ENOENT : Z := 2.

(** [ERROR] is 0 in [hashtable.c]. *)
Definition ht_delete (t : HT) (key : ipv4_5tuple) : Z * HT :=
  let '(err, t') := rte_hash_del_key t key in
  (if decide (err = 0) then SUCCESS else
   if decide (err = - EINVAL) then 0 else
   if decide (err = - ENOENT) then 0 else 1, t').

(** ** What the flow table promises *)
Context `{!RteHashLaws HT}.

Lemma ht_search_spec t k : ht_search t k = default NULL (rte_entries t !! k).
Proof.
  unfold ht_search. destruct (rte_entries t !! k) as [v|] eqn:E; simpl.
  - destruct (rte_lookup_hit t k v E) as [He Hv]. destruct (rte_hash_lookup_data t k); simpl in *.
    by rewrite decide_False by lia.
  - pose proof (rte_lookup_miss t k E). destruct (rte_hash_lookup_data t k); simpl in *.
    by rewrite decide_True by lia.
Qed.
End HashTable.

(** * The stack thread *)

(** The configuration values the stack reads ([CONFIG]) and the thread's id. *)
Class Config : Type := {
  cf_stack_id : Z;
  cf_stack_thread : Z;
  cf_app_thread : Z;
  cf_rcvbuf_size : Z;
  cf_sndbuf_size : Z;
  cf_max_concurrency : Z;
  cf_eths : list eth_table;
  cf_sarp : static_arp;
}.

(** [CONFIG.eths[0].ip_addr]. *)
Definition cf_eth0_ip `{!Config} : Z :=
  match cf_eths with e :: _ => ip_addr e | [] => 0 end.

Record world {HT : Type} : Type := World {
  w_heap : mheap;
  w_streams : gmap ptr tcp_stream;
  stream_ht : HT;
  sockets : list socket_rec;
  free_socket : list (list nat);       (* per core, first to be taken first *)
  free_num : list Z;
  listeners : list tcp_listener;
  flow_cnt : Z;
  rto_list : list ptr;
  timewait_list : list ptr;
  timeout_list : list ptr;
  control_queue : circular_queue;
  ack_queue : circular_queue;
  send_event_queue : n21_queue;
  send_hevent_queue : n21_queue;
  close_queue : n21_queue;
  connect_queue : n21_queue;
  w_chunks : list ptr;        (* results of the coming mempool_alloc_chunk calls *)
  w_lchunks : list ptr;       (* the same for the pool of listeners *)
  w_swmbufs : list ptr;       (* results of the coming io_get_swmbuf calls *)
  w_rands : list Z;           (* results of the coming rand calls *)
  w_sent : list packet;       (* io_send_mbuf calls, oldest first *)
  w_events : list qepoll_event;   (* AddTimeEvent calls, oldest first *)
}.
Arguments world HT : clear implicits.

#[export] Instance world_rebuild {HT} : Rebuild (world HT) := fun w =>
  World _ (w_heap w) (w_streams w) (stream_ht w) (sockets w) (free_socket w) (free_num w)
    (listeners w) (flow_cnt w) (rto_list w) (timewait_list w) (timeout_list w)
    (control_queue w) (ack_queue w) (send_event_queue w) (send_hevent_queue w) (close_queue w)
    (connect_queue w) (w_chunks w) (w_lchunks w) (w_swmbufs w) (w_rands w) (w_sent w) (w_events w).

Section Access.
Context {HT : Type}.

(** Run an operation on the packet buffers. *)
Definition heap {A} (m : M mheap A) : M (world HT) A := fun w =>
  '(a, h) ← m (w_heap w); Ok (a, w <| w_heap := h |>).

(** [*cur_stream] and assignments to its fields. *)
Definition stream (p : ptr) : M (world HT) tcp_stream := fun w =>
  (fun s => (s, w)) <$> deref NullDeref (w_streams w !! p).
Definition set_stream (p : ptr) (g : tcp_stream -> tcp_stream) : M (world HT) unit := fun w =>
  s ← deref NullDeref (w_streams w !! p);
  Ok (tt, w <| w_streams := <[p := g s]> (w_streams w) |>).
Definition set_snd (p : ptr) (g : tcp_send_vars -> tcp_send_vars) : M (world HT) unit :=
  set_stream p (fun s => s <| sndvar ::= g |>).
Definition set_rcv (p : ptr) (g : tcp_recv_vars -> tcp_recv_vars) : M (world HT) unit :=
  set_stream p (fun s => s <| rcvvar ::= g |>).

(** [&socket_table->sockets[i]]. *)
Definition sock (i : nat) : M (world HT) socket_rec := fun w =>
  (fun s => (s, w)) <$> deref NullDeref (sockets w !! i).
Definition set_sock (i : nat) (g : socket_rec -> socket_rec) : M (world HT) unit :=
  s ← sock i; modify (fun w => w <| sockets := <[i := g s]> (sockets w) |>).

(** An operation of the send buffer, or of the receive buffer, of a stream. *)
Definition on_sndbuf {A} (p : ptr) (f : tcp_send_buffer -> M mheap (A * tcp_send_buffer))
    : M (world HT) A :=
  s ← stream p;
  '(a, b) ← heap (f (sndbuf (sndvar s)));
  set_snd p (fun v => v <| sndbuf := b |>);; mret a.
Definition on_rcvbuf {A} (p : ptr) (f : tcp_recv_buffer -> M mheap (A * tcp_recv_buffer))
    : M (world HT) A :=
  s ← stream p;
  '(a, b) ← heap (f (rcvbuf (rcvvar s)));
  set_rcv p (fun v => v <| rcvbuf := b |>);; mret a.

(** [io_get_swmbuf]. *)
Definition io_get_swmbuf : M (world HT) ptr := fun w =>
  match w_swmbufs w with
  | [] => Ok (NULL, w)
  | p :: l => Ok (p, w <| w_swmbufs := l |>)
  end.
End Access.
