(* ===== verification/StreamOps.v ===== *)
(** Operations on streams the packet paths share: the queues of streams with
    something to send ([tcp_out.c], [tcp_out.h]), the timer lists of
    [timer.h] (compiled with [TCP_SIMPLE_RTO]), the socket pool ([socket.c])
    and the life cycle of a stream ([tcp_stream.c]). *)
From S2P Require Import Prelude Protocol StaticArp Fifo CircularQueue N21Queue Mbuf RecvBuff SendBuff Stack.
#[local] Open Scope Z_scope.

(** [HZ] is 1000, so a tick is a millisecond. *)
Definition TIME_TICK : Z := 1000.
Definition TCP_TIMEWAIT : Z := 5000 * 1000 / TIME_TICK.
Definition TCP_INITIAL_RTO : Z := 500 * 1000 / TIME_TICK.
Definition TCP_TIMEOUT : Z := 300000 * 1000 / TIME_TICK.
Definition RTO_STORAGE : Z := 3000.

Inductive ack_opt : Type := ACK_OPT_NOW | ACK_OPT_AGGREGATE | ACK_OPT_WACK.

#[export] Instance ack_opt_eq_dec : EqDecision ack_opt.
Proof. solve_decision. Defined.

(** [TAILQ_REMOVE] of an element that is not on the list corrupts it. *)
Fixpoint tailq_remove (l : list ptr) (p : ptr) : res (list ptr) :=
  match l with
  | [] => Fault WildAccess
  | x :: l' => if decide (x = p) then Ok l' else cons x <$> tailq_remove l' p
  end.

Section Ops.
Context {HT : Type} `{!Config}.
Notation W := (world HT).

(** ** Queues of streams *)

Definition control_queue_add (p : ptr) : M W Z :=
  s ← stream p;
  if on_control_queue (sndvar s) then mret SUCCESS else
  w ← get;
  '(ret, q) ← lift (sstreamq_enqueue (control_queue w) p);
  modify (fun w => w <| control_queue := q |>);;
  when (bool_decide (ret = SUCCESS)) (set_snd p (fun v => v <| on_control_queue := true |>));;
  mret ret.

Definition ack_queue_add (p : ptr) : M W Z :=
  s ← stream p;
  if bool_decide (ack_cnt (sndvar s) <> 0) && negb (on_ack_queue (sndvar s)) then
    w ← get;
    '(ret, q) ← lift (sstreamq_enqueue (ack_queue w) p);
    modify (fun w => w <| ack_queue := q |>);;
    when (bool_decide (ret = SUCCESS)) (set_snd p (fun v => v <| on_ack_queue := true |>));;
    mret ret
  else mret SUCCESS.

Definition enqueue_ack (p : ptr) (opt : ack_opt) : M W Z :=
  s ← stream p;
  match opt with
  | ACK_OPT_NOW =>
      when (bool_decide (ack_cnt (sndvar s) < 63))
        (set_snd p (fun v => v <| ack_cnt := ack_cnt v + 1 |>))
  | ACK_OPT_AGGREGATE =>
      when (bool_decide (ack_cnt (sndvar s) = 0)) (set_snd p (fun v => v <| ack_cnt := 1 |>))
  | ACK_OPT_WACK => set_snd p (fun v => v <| is_wack := true |>)
  end;;
  ack_queue_add p.

Definition send_event_queue_select (core_id : Z) : Z := core_id.

(** [q = &qstack->send_event_queue], or [&qstack->send_hevent_queue]. *)
Definition send_event_enqueue (high : bool) (core_id : Z) (p : ptr) : M W Z :=
  let q_id := send_event_queue_select (u8 core_id) in
  w ← get;
  if high then
    '(ret, q) ← lift (streamq_enqueue (send_hevent_queue w) q_id p);
    modify (fun w => w <| send_hevent_queue := q |>);; mret ret
  else
    '(ret, q) ← lift (streamq_enqueue (send_event_queue w) q_id p);
    modify (fun w => w <| send_event_queue := q |>);; mret ret.

Definition send_event_add (core_id : Z) (p : ptr) (pri : Z) : M W Z :=
  send_event_enqueue (bool_decide (pri <> 0)) core_id p.

(** ** Timer lists *)

Definition rto_list_add (p : ptr) (cur_ts : Z) : M W Z :=
  s ← stream p;
  if decide (on_rto_idx s = 0) then
    set_stream p (fun s => s <| ts_rto := s32 (cur_ts + rto (sndvar s)) |>);;
    if on_timewait_list s then mret 1 else
    set_stream p (fun s => s <| on_rto_idx := RTO_STORAGE |>);;
    modify (fun w => w <| rto_list := rto_list w ++ [p] |>);;
    mret 0
  else mret 1.

Definition rto_list_remove (p : ptr) : M W Z :=
  s ← stream p;
  if decide (on_rto_idx s <> 0) then
    w ← get;
    l ← lift (tailq_remove (rto_list w) p);
    modify (fun w => w <| rto_list := l |>);;
    set_stream p (fun s => s <| on_rto_idx := 0 |>);;
    set_snd p (fun v => v <| nrtx := 0 |>);;
    mret 0
  else mret 1.

Definition rto_list_update (p : ptr) (cur_ts : Z) : M W unit :=
  rto_list_remove p;; rto_list_add p cur_ts;; mret tt.

Definition timewait_list_add (p : ptr) (cur_ts : Z) : M W Z :=
  set_stream p (fun s => s <| ts_tw_expire := s32 (cur_ts + TCP_TIMEWAIT) |>);;
  s ← stream p;
  (if on_timewait_list s then
     w ← get;
     l ← lift (tailq_remove (timewait_list w) p);
     modify (fun w => w <| timewait_list := l ++ [p] |>)
   else
     when (bool_decide (0 <= on_rto_idx s)) (rto_list_remove p;; mret tt);;
     set_stream p (fun s => s <| on_timewait_list := true |>);;
     modify (fun w => w <| timewait_list := timewait_list w ++ [p] |>));;
  mret 0.

Definition timewait_list_remove (p : ptr) : M W Z :=
  s ← stream p;
  if negb (on_timewait_list s) then mret 1 else
  w ← get;
  l ← lift (tailq_remove (timewait_list w) p);
  modify (fun w => w <| timewait_list := l |>);;
  set_stream p (fun s => s <| on_timewait_list := false |>);;
  mret 0.

Definition timeout_list_add (p : ptr) (cur_ts : Z) : M W Z :=
  set_stream p (fun s => s <| last_active_ts := cur_ts |>);;
  s ← stream p;
  if negb (on_timeout_list s) then
    set_stream p (fun s => s <| on_timeout_list := true |>);;
    modify (fun w => w <| timeout_list := timeout_list w ++ [p] |>);;
    mret 0
  else mret 1.

Definition timeout_list_remove (p : ptr) : M W Z :=
  s ← stream p;
  if negb (on_timeout_list s) then mret 1 else
  w ← get;
  l ← lift (tailq_remove (timeout_list w) p);
  modify (fun w => w <| timeout_list := l |>);;
  set_stream p (fun s => s <| on_timeout_list := false |>);;
  mret 0.

Definition timeout_list_update (p : ptr) (cur_ts : Z) : M W Z :=
  set_stream p (fun s => s <| last_active_ts := cur_ts |>);;
  s ← stream p;
  when (on_timeout_list s)
    (w ← get;
     l ← lift (tailq_remove (timeout_list w) p);
     modify (fun w => w <| timeout_list := l ++ [p] |>));;
  mret 0.

(** ** Sockets

    [PUB_SOCKET_NUM] is 0: the public pool is always empty. *)
Definition socket_alloc (core_id : Z) (type : socket_type) : M W (option nat) :=
  if decide (cf_stack_thread <= core_id) then mret None else
  w ← get;
  l ← lift (read_at (free_socket w) core_id);
  match l with
  | [] => mret None
  | i :: l' =>
      fs ← lift (write_at (free_socket w) core_id l');
      n ← lift (read_at (free_num w) core_id);
      fn ← lift (write_at (free_num w) core_id (n - 1));
      modify (fun w => w <| free_socket := fs |> <| free_num := fn |>);;
      set_sock i (fun s => s <| socktype := type |> <| opts := 0 |> <| epoll := 0 |>
                             <| sk_qe := NULL |> <| sk_stream := NULL |> <| sk_port := 0 |>
                             <| sk_addr := 0 |> <| sk_dport := 0 |> <| sk_daddr := 0 |>);;
      mret (Some i)
  end.

(** [qepoll_reset] belongs to the event layer. *)
Definition socket_free (core_id : Z) (i : nat) : M W unit :=
  s ← sock i;
  if decide (socktype s = SOCK_TYPE_UNUSED) then throw Exit else
  set_sock i (fun s => s <| socktype := SOCK_TYPE_UNUSED |> <| epoll := Q_EPOLLNONE |>
                         <| sk_qe := NULL |> <| sk_stream := NULL |>);;
  w ← get;
  l ← lift (read_at (free_socket w) core_id);
  fs ← lift (write_at (free_socket w) core_id (l ++ [i]));
  n ← lift (read_at (free_num w) core_id);
  fn ← lift (write_at (free_num w) core_id (n + 1));
  modify (fun w => w <| free_socket := fs |> <| free_num := fn |>).

Definition bind_socket_with_qe (i : nat) (qe : ptr) : M W Z :=
  s ← sock i;
  if bool_decide (sk_qe s <> NULL) || bool_decide (qe = NULL) then mret FALSE else
  set_sock i (fun s => s <| sk_qe := qe |>);; mret SUCCESS.

(** ** Life of a stream *)

Definition flow_key (s : tcp_stream) : ipv4_5tuple :=
  Tuple 6 (saddr s) (daddr s) (sport s) (dport s).

Definition mempool_alloc_chunk : M W ptr := fun w =>
  match w_chunks w with
  | [] => Ok (NULL, w)
  | p :: l => Ok (p, w <| w_chunks := l |>)
  end.

Definition rand : M W Z := fun w =>
  match w_rands w with
  | [] => Ok (0, w)
  | r :: l => Ok (r, w <| w_rands := l |>)
  end.

Context `{!RteHash HT}.

Definition tcp_stream_create (sk : option nat) (sa sp da dp seq : Z) : M W ptr :=
  p ← mempool_alloc_chunk;
  if decide (p = NULL) then throw Exit else
  modify (fun w => w <| w_streams := <[p := zero_stream]> (w_streams w) |>);;
  set_stream p (fun s => s <| id := 0 |> <| saddr := sa |> <| sport := sp |> <| daddr := da |>
                           <| dport := dp |>);;
  modify (fun w => w <| stream_ht := (ht_insert (stream_ht w) (Tuple 6 sa da sp dp) p).2 |>);;
  modify (fun w => w <| flow_cnt := u32 (flow_cnt w + 1) |>);;
  match sk with
  | None => mret tt
  | Some i =>
      set_stream p (fun s => s <| socket := Some i |>);;
      set_sock i (fun k => k <| sk_stream := p |>);;
      k ← sock i;
      set_stream p (fun s => s <| id := u32 (sk_id k) |>)
  end;;
  set_stream p (fun s => s <| state := TCP_ST_LISTEN |> <| on_rto_idx := 0 |> <| st_priority := 0 |>);;
  set_rcv p (fun v => v <| irs := seq |> <| rcv_wnd := TCP_INITIAL_WINDOW |>
                        <| snd_wl1 := u32 (seq - 1) |>);;
  set_rcv p (fun v => v <| rcvbuf := rb_init cf_rcvbuf_size (rcvbuf v) (u32 (seq + 1)) |>);;
  set_snd p (fun v => v <| ip_id := 0 |> <| mss := TCP_DEFAULT_MSS |> <| eff_mss := TCP_DEFAULT_MSS |>
                        <| wscale_mine := TCP_DEFAULT_WSCALE |> <| wscale_peer := 0 |>
                        <| nif_out := 0 |>);;
  r ← rand;
  set_snd p (fun v => v <| iss := u32 r |> <| snd_una := u32 r |> <| snd_wnd := TCP_INIT_CWND |>
                        <| rto := TCP_INITIAL_RTO |>);;
  set_snd p (fun v => v <| sndbuf := sb_init cf_sndbuf_size (sndbuf v) (u32 (iss v + 1)) |>);;
  set_stream p (fun s => s <| rcv_nxt := irs (rcvvar s) |> <| snd_nxt := iss (sndvar s) |>
                           <| pending_events := [] |>);;
  mret p.

Definition tcp_stream_close (core_id : Z) (p : ptr) : M W Z :=
  s ← stream p;
  if closed s then mret 0 else
  set_stream p (fun s => s <| closed := true |>);;
  if negb (bool_decide (state s = TCP_ST_ESTABLISHED) || bool_decide (state s = TCP_ST_CLOSE_WAIT))
  then mret (-1) else
  w ← get;
  '(_, q) ← lift (streamq_enqueue (close_queue w) core_id p);
  modify (fun w => w <| close_queue := q |>);;
  set_snd p (fun v => v <| on_closeq := true |>);;
  mret 0.

Definition tcp_stream_destroy (p : ptr) : M W unit :=
  s ← stream p;
  when (on_timeout_list s) (timeout_list_remove p;; mret tt);;
  s ← stream p;
  when (on_timewait_list s) (timewait_list_remove p;; mret tt);;
  s ← stream p;
  when (bool_decide (on_rto_idx s <> 0)) (rto_list_remove p;; mret tt);;
  s ← stream p;
  modify (fun w => w <| stream_ht := (ht_delete (stream_ht w) (flow_key s)).2 |>);;
  modify (fun w => w <| flow_cnt := u32 (flow_cnt w - 1) |>);;
  on_sndbuf p sb_free;;
  on_rcvbuf p (fun b => b' ← rb_clear b; mret (tt, b'));;
  s ← stream p;
  match socket s with
  | None => mret tt
  | Some i => k ← sock i; socket_free cf_stack_id (Z.to_nat (sk_id k))
  end;;
  modify (fun w => w <| w_streams := delete p (w_streams w) |>).
End Ops.
