(* ===== verification/Timer.v ===== *)
(** Timeouts: [handle_rto] and the three list walks of [timer.h], compiled with
    [TCP_SIMPLE_RTO], [TCP_TIMER_RTO], [TCP_TIMER_TIMEWAIT] and
    [TCP_TIMER_TIMEOUT]. *)
From S2P Require Import Prelude Protocol StaticArp Fifo CircularQueue N21Queue Mbuf RecvBuff SendBuff Stack StreamOps.
#[local] Open Scope Z_scope.

Definition MAX_RTO_BATCH : Z := 5.

(** [TAILQ_FIRST] and [TAILQ_NEXT]. *)
Definition tailq_first (l : list ptr) : ptr := default NULL (head l).
Fixpoint tailq_next (l : list ptr) (p : ptr) : ptr :=
  match l with
  | [] => NULL
  | x :: l' => if decide (x = p) then tailq_first l' else tailq_next l' p
  end.

Section Timer.
Context {HT : Type} `{!Config} `{!RteHash HT}.
Notation W := (world HT).

(** Retransmit the data: [sb_reset_retrans] and a send event. *)
Definition retrans_data (p : ptr) : M W unit :=
  on_sndbuf p sb_reset_retrans;;
  send_event_enqueue false cf_stack_id p;; mret tt.

Definition handle_rto (cur_ts : Z) (p : ptr) : M W unit :=
  s ← stream p;
  if negb (bool_decide (nrtx (sndvar s) < TCP_MAX_RTX)) then
    let reason := if decide (st_val (state s) < st_val TCP_ST_ESTABLISHED)
                  then TCP_CONN_FAIL else TCP_CONN_LOST in
    set_stream p (fun s => s <| state := TCP_ST_CLOSED |> <| close_reason := reason |>);;
    tcp_stream_destroy p
  else
  set_snd p (fun v => v <| nrtx := u8 (nrtx v + 1) |>);;
  set_snd p (fun v => v <| rto := u32 (Z.shiftl TCP_INITIAL_RTO (nrtx v)) |>);;
  set_snd p (fun v => v <| ssthresh := Z.min (cwnd v) (peer_wnd v) / 2 |>);;
  set_snd p (fun v => if decide (ssthresh v < 2 * mss v) then v <| ssthresh := mss v * 2 |> else v);;
  set_snd p (fun v => v <| cwnd := mss v |>);;
  set_stream p (fun s => s <| snd_nxt := snd_una (sndvar s) |>);;
  s ← stream p;
  if decide (state s = TCP_ST_ESTABLISHED) then retrans_data p
  else if bool_decide (state s = TCP_ST_FIN_WAIT_1) || bool_decide (state s = TCP_ST_CLOSING)
       || bool_decide (state s = TCP_ST_LAST_ACK) then
    if decide (fss (sndvar s) = 0) then throw Exit else
    if TCP_SEQ_LT (snd_nxt s) (fss (sndvar s)) then retrans_data p
    else control_queue_add p;; mret tt
  else control_queue_add p;; mret tt.

(** The [for] loop from [walk]; the result is [cnt]. *)
Fixpoint rto_check_loop (fuel : nat) (cur_ts : Z) (walk : ptr) (cnt : Z) : M W Z :=
  match fuel with
  | O => throw NoReturn
  | S fuel' =>
      if negb (bool_decide (walk <> NULL) && bool_decide (cnt < MAX_RTO_BATCH)) then mret cnt else
      s ← stream walk;
      if decide (s32 (cur_ts - ts_rto s) < 0) then mret cnt else
      w ← get;
      let next := tailq_next (rto_list w) walk in
      set_stream walk (fun s => s <| on_rto_idx := 0 |>);;
      l ← lift (tailq_remove (rto_list w) walk);
      modify (fun w => w <| rto_list := l |>);;
      handle_rto cur_ts walk;;
      rto_check_loop fuel' cur_ts next (cnt + 1)
  end.

Definition rto_list_check (cur_ts : Z) : M W Z :=
  w ← get; rto_check_loop (S (Z.to_nat MAX_RTO_BATCH)) cur_ts (tailq_first (rto_list w)) 0.

Fixpoint timewait_check_loop (fuel : nat) (cur_ts : Z) (walk : ptr) (cnt : Z) : M W Z :=
  match fuel with
  | O => throw NoReturn
  | S fuel' =>
      if decide (walk = NULL) then mret cnt else
      s ← stream walk;
      w ← get;
      if on_timewait_list s then
        if decide (s32 (cur_ts - ts_tw_expire s) < 0) then mret cnt else
        let next := tailq_next (timewait_list w) walk in
        set_stream walk (fun s => s <| on_timewait_list := false |>);;
        l ← lift (tailq_remove (timewait_list w) walk);
        modify (fun w => w <| timewait_list := l |>);;
        set_stream walk (fun s => s <| state := TCP_ST_CLOSED |>
                                    <| close_reason := TCP_ACTIVE_CLOSE |>);;
        tcp_stream_destroy walk;;
        timewait_check_loop fuel' cur_ts next (cnt + 1)
      else
        let next := tailq_next (timewait_list w) walk in
        l ← lift (tailq_remove (timewait_list w) walk);
        modify (fun w => w <| timewait_list := l |>);;
        timewait_check_loop fuel' cur_ts next cnt
  end.

Definition timewait_list_check (cur_ts : Z) : M W Z :=
  w ← get;
  timewait_check_loop (S (length (timewait_list w))) cur_ts (tailq_first (timewait_list w)) 0.

(** [close_reason] is a field of 4 bits. *)
Fixpoint timeout_check_loop (fuel : nat) (cur_ts : Z) (walk : ptr) (cnt : Z) : M W Z :=
  match fuel with
  | O => throw NoReturn
  | S fuel' =>
      if decide (walk = NULL) then mret cnt else
      s ← stream walk;
      if decide (s32 (cur_ts - last_active_ts s) < TCP_TIMEOUT) then mret cnt else
      w ← get;
      let next := tailq_next (timeout_list w) walk in
      set_stream walk (fun s => s <| on_timeout_list := false |>);;
      l ← lift (tailq_remove (timeout_list w) walk);
      modify (fun w => w <| timeout_list := l |>);;
      set_stream walk (fun s => s <| state := TCP_ST_CLOSED |>
                                  <| close_reason := TCP_TIMEOUT `mod` 2 ^ 4 |>);;
      tcp_stream_destroy walk;;
      timeout_check_loop fuel' cur_ts next (cnt + 1)
  end.

Definition timeout_list_check (cur_ts : Z) : M W Z :=
  w ← get;
  timeout_check_loop (S (length (timeout_list w))) cur_ts (tailq_first (timeout_list w)) 0.

Definition timer_init : M W Z :=
  modify (fun w => w <| rto_list := [] |> <| timewait_list := [] |> <| timeout_list := [] |>);;
  mret 0.
End Timer.
