(* ===== verification/TcpOptions.v ===== *)
(** TCP options: [calculate_option_length] and [GenerateTCPOptions] of
    [tcp_out.c], [ParseTCPOptions] of [tcp_in.h], compiled without the
    timestamp and SACK options. *)
From S2P Require Import Prelude Protocol StaticArp Fifo CircularQueue N21Queue Mbuf RecvBuff SendBuff Stack.
#[local] Open Scope Z_scope.

Definition has_flag (flags f : Z) : bool := bool_decide (Z.land flags f <> 0).

(** The [assert] compares the sum with a multiple of four. *)
Definition calculate_option_length (flags : Z) : Z :=
  if has_flag flags TCP_FLAG_SYN then TCP_OPT_MSS_LEN + (TCP_OPT_WSCALE_LEN + 1) else 0.

(** The bytes written at [tcpopt]. *)
Definition GenerateTCPOptions (s : tcp_stream) (flags : Z) : list Z :=
  if has_flag flags TCP_FLAG_SYN then
    let m := mss (sndvar s) in
    [TCP_OPT_MSS; TCP_OPT_MSS_LEN; u8 (Z.shiftr m 8); m `mod` 256;
     TCP_OPT_NOP; TCP_OPT_WSCALE; TCP_OPT_WSCALE_LEN; wscale_mine (sndvar s)]
  else [].

(** [ntohl( *(uint32_t * )(tcpopt + i))]. *)
Definition read_be32 (mem : list Z) (i : Z) : res Z :=
  b0 ← read_at mem i; b1 ← read_at mem (i + 1);
  b2 ← read_at mem (i + 2); b3 ← read_at mem (i + 3);
  Ok (ntohl (b0 + b1 * 2 ^ 8 + b2 * 2 ^ 16 + b3 * 2 ^ 24)).

(** The [for] loop from index [i]; [mem] is the memory at [tcpopt], which the
    code may read past [len].  [optlen] is unsigned: the sum and the step are
    computed modulo 2^32 and the step is converted back to [int]. *)
Fixpoint parse_loop (fuel : nat) (mem : list Z) (len cur_ts i : Z) (s : tcp_stream)
    : res tcp_stream :=
  match fuel with
  | O => Fault NoReturn
  | S fuel' =>
      if decide (len <= i) then Ok s else
      opt ← read_at mem i;
      let i := i + 1 in
      if decide (opt = TCP_OPT_END) then Ok s else
      if decide (opt = TCP_OPT_NOP) then parse_loop fuel' mem len cur_ts i s else
      optlen ← read_at mem i;
      let i := i + 1 in
      if decide (u32 len < u32 (i + optlen - 2)) then Ok s else
      if decide (opt = TCP_OPT_MSS) then
        hi ← read_at mem i; lo ← read_at mem (i + 1);
        let m := u16 (u16 (Z.shiftl hi 8) + lo) in
        parse_loop fuel' mem len cur_ts (i + 2)
          (s <| sndvar ::= fun v => v <| mss := m |> <| eff_mss := m |> |>)
      else if decide (opt = TCP_OPT_WSCALE) then
        ws ← read_at mem i;
        parse_loop fuel' mem len cur_ts (i + 1) (s <| sndvar ::= fun v => v <| wscale_peer := ws |> |>)
      else if decide (opt = TCP_OPT_SACK_PERMIT) then
        parse_loop fuel' mem len cur_ts i (s <| sack_permit := true |>)
      else if decide (opt = TCP_OPT_TIMESTAMP) then
        ts ← read_be32 mem i;
        parse_loop fuel' mem len cur_ts (i + 8)
          (s <| saw_timestamp := true |>
             <| rcvvar ::= fun v => v <| ts_recent := ts |> <| ts_last_ts_upd := cur_ts |> |>)
      else parse_loop fuel' mem len cur_ts (s32 (i + optlen - 2)) s
  end.

(** An iteration that does not move forward never ends, so [len + 1] iterations
    are enough for every run that ends. *)
Definition ParseTCPOptions (s : tcp_stream) (cur_ts : Z) (mem : list Z) (len : Z)
    : res tcp_stream :=
  parse_loop (S (Z.to_nat len)) mem len cur_ts 0 s.

(** * Properties *)

Lemma calculate_option_length_exact s flags :
  calculate_option_length flags = Z.of_nat (length (GenerateTCPOptions s flags)) /\
  calculate_option_length flags `mod` 4 = 0.
Proof. unfold calculate_option_length, GenerateTCPOptions. by destruct (has_flag flags TCP_FLAG_SYN). Qed.

Section Steps.
Context (fuel : nat) (mem : list Z) (len cur_ts i : Z) (s : tcp_stream).

Lemma parse_done : len <= i -> parse_loop (S fuel) mem len cur_ts i s = Ok s.
Proof. intros H. simpl. by rewrite decide_True. Qed.

Lemma parse_nop :
  i < len -> read_at mem i = Ok TCP_OPT_NOP ->
  parse_loop (S fuel) mem len cur_ts i s = parse_loop fuel mem len cur_ts (i + 1) s.
Proof. intros H Hr. cbn [parse_loop]. rewrite decide_False by lia. by rewrite Hr. Qed.

Lemma parse_mss optlen hi lo :
  i < len -> read_at mem i = Ok TCP_OPT_MSS -> read_at mem (i + 1) = Ok optlen ->
  u32 (i + 1 + 1 + optlen - 2) <= u32 len ->
  read_at mem (i + 1 + 1) = Ok hi -> read_at mem (i + 1 + 1 + 1) = Ok lo ->
  let m := u16 (u16 (Z.shiftl hi 8) + lo) in
  parse_loop (S fuel) mem len cur_ts i s = parse_loop fuel mem len cur_ts (i + 1 + 1 + 2)
    (s <| sndvar ::= fun v => v <| mss := m |> <| eff_mss := m |> |>).
Proof.
  intros H Hr Hl Hb Hhi Hlo m. cbn [parse_loop]. rewrite decide_False by lia.
  rewrite Hr. cbn [mbind res_bind]. rewrite (decide_False (P := TCP_OPT_MSS = TCP_OPT_END)),
    (decide_False (P := TCP_OPT_MSS = TCP_OPT_NOP)) by done.
  rewrite Hl. cbn [mbind res_bind]. rewrite decide_False by lia. rewrite decide_True by done.
  rewrite Hhi. cbn [mbind res_bind]. by rewrite Hlo.
Qed.

Lemma parse_wscale optlen ws :
  i < len -> read_at mem i = Ok TCP_OPT_WSCALE -> read_at mem (i + 1) = Ok optlen ->
  u32 (i + 1 + 1 + optlen - 2) <= u32 len -> read_at mem (i + 1 + 1) = Ok ws ->
  parse_loop (S fuel) mem len cur_ts i s = parse_loop fuel mem len cur_ts (i + 1 + 1 + 1)
    (s <| sndvar ::= fun v => v <| wscale_peer := ws |> |>).
Proof.
  intros H Hr Hl Hb Hws. cbn [parse_loop]. rewrite decide_False by lia.
  rewrite Hr. cbn [mbind res_bind]. rewrite (decide_False (P := TCP_OPT_WSCALE = TCP_OPT_END)),
    (decide_False (P := TCP_OPT_WSCALE = TCP_OPT_NOP)) by done.
  rewrite Hl. cbn [mbind res_bind]. rewrite decide_False by lia.
  rewrite (decide_False (P := TCP_OPT_WSCALE = TCP_OPT_MSS)), decide_True by done.
  by rewrite Hws.
Qed.
End Steps.

(** C31. Option round trip.  A peer that parses the options this stack puts in
    its SYN learns the sender's maximum segment size and window scale, and
    nothing else of its stream changes; what lies behind the options is not
    read. *)
Theorem options_roundtrip s s' flags cur_ts mem :
  has_flag flags TCP_FLAG_SYN = true -> is_u16 (mss (sndvar s)) ->
  ParseTCPOptions s' cur_ts (GenerateTCPOptions s flags ++ mem) (calculate_option_length flags) =
    Ok (s' <| sndvar ::= fun v => v <| mss := mss (sndvar s) |> <| eff_mss := mss (sndvar s) |>
                                   <| wscale_peer := wscale_mine (sndvar s) |> |>).
Proof.
  intros Hf Hm. unfold ParseTCPOptions, calculate_option_length, GenerateTCPOptions. rewrite Hf.
  assert (u16 (u16 (Z.shiftl (u8 (Z.shiftr (mss (sndvar s)) 8)) 8) + mss (sndvar s) `mod` 256)
    = mss (sndvar s)) as Hmss.
  { rewrite Z.shiftl_mul_pow2, Z.shiftr_div_pow2 by lia. mlia. }
  change (S (Z.to_nat _)) with 9%nat.
  erewrite parse_mss by (reflexivity || (vm_compute; discriminate)). rewrite Hmss.
  erewrite parse_nop by reflexivity.
  erewrite parse_wscale by (reflexivity || (vm_compute; discriminate)).
  by rewrite parse_done.
Qed.

Definition mss_536 : tcp_stream :=
  zero_stream <| sndvar ::= fun v => v <| mss := 536 |> <| wscale_mine := 3 |> |>.

Lemma options_roundtrip_witness :
  exists s', ParseTCPOptions zero_stream 9 (GenerateTCPOptions mss_536 TCP_FLAG_SYN ++ [77]) 8 = Ok s' /\
    mss (sndvar s') = 536 /\ wscale_peer (sndvar s') = 3.
Proof.
  eexists. split.
  - apply (options_roundtrip mss_536 zero_stream TCP_FLAG_SYN 9 [77]); [reflexivity | by split].
  - split; reflexivity.
Defined.

(** An option of a kind the parser does not handle, announcing length zero. *)
Definition zero_option (mem : list Z) (len i : Z) : Prop :=
  0 <= i < len /\ read_at mem (i + 1) = Ok 0 /\
  exists k, read_at mem i = Ok k /\ k ∉ [TCP_OPT_END; TCP_OPT_NOP; TCP_OPT_MSS; TCP_OPT_WSCALE;
                                        TCP_OPT_SACK_PERMIT; TCP_OPT_TIMESTAMP].

Lemma read_byte (mem : list Z) i :
  Forall is_u8 mem -> 0 <= i < Z.of_nat (length mem) -> exists b, read_at mem i = Ok b /\ is_u8 b.
Proof.
  intros Hall Hi. destruct (lookup_lt_is_Some_2 mem (Z.to_nat i)) as [b Hb]; [lia|].
  exists b. split.
  - rewrite <- (Z2Nat.id i) by lia. by apply read_at_nat.
  - by eapply (Forall_lookup_1 is_u8).
Qed.

Lemma parse_loop_total fuel mem len cur_ts i s :
  Forall is_u8 mem -> 0 <= len < 2 ^ 30 -> len + 10 <= Z.of_nat (length mem) ->
  0 <= i -> (Z.to_nat (len - i) < fuel)%nat ->
  (exists s', parse_loop fuel mem len cur_ts i s = Ok s') \/ exists j, zero_option mem len j.
Proof.
  intros Hall Hlen Hmem. revert i s. induction fuel as [|fuel IH]; intros i s Hi Hf; [lia|].
  cbn [parse_loop]. case_decide as Hd; [by left; eexists|].
  assert (forall k, 0 <= k < 10 -> exists b, read_at mem (i + k) = Ok b /\ is_u8 b) as Hread.
  { intros k Hk. apply read_byte; [done | lia]. }
  destruct (Hread 0) as (opt & Hopt & _); [lia|]. rewrite Z.add_0_r in Hopt. rewrite Hopt. simpl.
  case_decide as H0; [by left; eexists|]. case_decide as H1; [apply IH; lia|].
  destruct (Hread 1) as (optlen & Hol & Hob); [lia|]. rewrite Hol. simpl.
  replace (i + 1 + 1) with (i + 2) by lia.
  case_decide as Hb; [by left; eexists|].
  destruct (Hread 2) as (b2 & H2 & _), (Hread 3) as (b3 & H3 & _), (Hread 4) as (b4 & H4 & _),
    (Hread 5) as (b5 & H5 & _); [lia..|].
  case_decide as Hk1.
  { rewrite H2. simpl. replace (i + 2 + 1) with (i + 3) by lia. rewrite H3. simpl. apply IH; lia. }
  case_decide as Hk2; [rewrite H2; apply IH; lia|].
  case_decide as Hk3; [apply IH; lia|].
  case_decide as Hk4.
  { unfold read_be32. rewrite H2. simpl. replace (i + 2 + 1) with (i + 3) by lia.
    replace (i + 2 + 2) with (i + 4) by lia. replace (i + 2 + 3) with (i + 5) by lia.
    rewrite H3. simpl. rewrite H4. simpl. rewrite H5. simpl. apply IH; lia. }
  unfold is_u8 in Hob. destruct (decide (optlen = 0)) as [->|Hz].
  - right. exists i. split; [lia|]. split; [done|]. exists opt. split; [done|]. set_solver.
  - rewrite s32_id by lia. apply IH; lia.
Qed.

(** C32. Option parsing ends.  On any option bytes whose memory (and ten bytes
    behind it) can be read, [ParseTCPOptions] returns, unless an option of a
    kind it does not handle announces length zero. *)
Theorem parse_options_return mem len cur_ts s :
  Forall is_u8 mem -> 0 <= len < 2 ^ 30 -> len + 10 <= Z.of_nat (length mem) ->
  (exists s', ParseTCPOptions s cur_ts mem len = Ok s') \/ exists i, zero_option mem len i.
Proof. intros. apply parse_loop_total; try done; lia. Qed.

Lemma parse_options_return_witness :
  (exists s', ParseTCPOptions zero_stream 0 (replicate 12 1) 2 = Ok s') \/
  exists i, zero_option (replicate 12 1) 2 i.
Proof. apply parse_options_return; [repeat constructor; lia | lia | vm_compute; discriminate]. Defined.

(** C39. A remote peer can stop the stack: when the options of a packet start
    with an unknown kind of announced length zero, the parsing loop never
    ends, however long it runs. *)
Theorem zero_option_never_returns fuel mem len cur_ts s :
  zero_option mem len 0 -> len < 2 ^ 30 ->
  parse_loop fuel mem len cur_ts 0 s = Fault NoReturn.
Proof.
  intros (Hlen & Hz & k & Hk & Hnot) Hmax. change (0 + 1) with 1 in Hz. induction fuel as [|fuel IH]; [done|].
  assert (u32 len = len) as Hl by (apply u32_id; split; lia).
  cbn [parse_loop]. rewrite decide_False by lia. rewrite Hk. cbn [mbind res_bind].
  repeat (rewrite not_elem_of_cons in Hnot; destruct Hnot as [? Hnot]).
  rewrite !decide_False by done. change (0 + 1) with 1. rewrite Hz. cbn [mbind res_bind].
  rewrite Hl. change (u32 (1 + 1 + 0 - 2)) with 0. rewrite !decide_False by (done || lia).
  exact IH.
Qed.

Lemma zero_option_never_returns_witness :
  parse_loop 1000 [254; 0] 2 0 0 zero_stream = Fault NoReturn.
Proof.
  apply zero_option_never_returns; [|lia]. split; [lia|]. split; [reflexivity|].
  exists 254. split; [reflexivity|]. set_solver.
Defined.
