(* ===== verification/TcpOut.v ===== *)
(** Sending: [tcp_out.c], [generate_ip_packet] of [ip_out.c],
    [eth_hdr_generate] of [eth_out.c] and [q_free_mbuf] of [api_inner.c],
    compiled with [IF_TX_CHECK] (the card computes the checksums) and without
    drop emulation. *)
From S2P Require Import Prelude Protocol StaticArp Fifo CircularQueue N21Queue Mbuf RecvBuff SendBuff Stack StreamOps Timer TcpOptions.
#[local] Open Scope Z_scope.

Definition SEND_WINDOW_MIN : Z := 1500.
Definition MAX_CTRL_PKT_BATCH : Z := 32.
Definition MAX_DATA_PKT_BATCH : Z := 32.
Definition MAX_ACK_PKT_BATCH : Z := 32.
Definition QFLAG_SEND_HIGHPRI : Z := 1.

(** [TS_TO_MSEC(t)], in [uint32_t]. *)
Definition TS_TO_MSEC (t : Z) : Z := u32 (t * TIME_TICK) / 1000.

Section Out.
Context {HT : Type} `{!Config}.
Notation W := (world HT).

Definition eth_hdr_generate (mbuf : ptr) : M W Z :=
  if decide (mbuf = NULL) then mret FAILED else
  heap (store mbuf (fun m => m <| l2_len := ETHERNET_HEADER_LEN |>));; mret SUCCESS.

(** The IP header written into the buffer.  [nif_out] is unsigned, so the
    route lookup is never taken. *)
Definition generate_ip_packet (p mbuf : ptr) (tcplen : Z) : M W (Z * iphdr) :=
  if decide (mbuf = NULL) then throw DivByZero else
  ret ← eth_hdr_generate mbuf;
  s ← stream p;
  let iph := IpHdr 5 (saddr s) (daddr s) (htons (ip_id (sndvar s)))
               (htons (u16 (IP_HEADER_LEN + tcplen))) in
  if decide (ret = 0) then mret (ret, iph) else
  set_snd p (fun v => v <| ip_id := u16 (ip_id v + 1) |>);;
  mret (SUCCESS, iph).

(** [pkt] is the content of buffer [mbuf]; [dpdk_tx_send] takes it. *)
Definition io_send_mbuf (mbuf : ptr) (len : Z) (pkt : packet) : M W unit :=
  if decide (mbuf = NULL) then throw Exit else
  heap (store mbuf (fun m => if decide (data_len m = 0) then m <| data_len := u16 len |> else m));;
  heap (store mbuf (fun m => if decide (pkt_len m = 0) then m <| pkt_len := u32 len |> else m));;
  modify (fun w => w <| w_sent := w_sent w ++ [pkt] |>).

(** [mbuf->mbuf_state = MBUF_STATE_TBUFFED] in the last conditions is an
    assignment, so the first branch is always taken. *)
Definition send_tcp_packet (p : ptr) (cur_ts flags : Z) (mbuf : ptr) (payloadlen : Z) : M W Z :=
  let optlen := calculate_option_length flags in
  let syn := has_flag flags TCP_FLAG_SYN in
  let wack := has_flag flags TCP_FLAG_WACK in
  let fin := negb wack && has_flag flags TCP_FLAG_FIN in
  let ack := has_flag flags TCP_FLAG_ACK in
  s ← stream p;
  if decide (u32 (mss (sndvar s) - optlen) < payloadlen) then mret ERROR else
  mbuf ← (if decide (mbuf = NULL) then io_get_swmbuf else mret mbuf);
  if decide (mbuf = NULL) then mret FAILED else
  heap (store mbuf (fun m => mbuf_set_tx_offload m ETHERNET_HEADER_LEN IP_HEADER_LEN
                               (TCP_HEADER_LEN + optlen) (payload_len m) 0 0));;
  '(ret, iph) ← generate_ip_packet p mbuf (u16 (TCP_HEADER_LEN + optlen + payloadlen));
  if decide (ret <> SUCCESS) then mret ret else
  heap (store mbuf (fun m => m <| payload_len := u16 payloadlen |>));;
  when fin (set_snd p (fun v => v <| is_fin_sent := true |>));;
  let seq := if wack then u32 (snd_nxt s - 1) else if fin then fss (sndvar s) else snd_nxt s in
  heap (store mbuf (fun m => m <| tcp_seq := seq |>));;
  when ack (set_snd p (fun v => v <| ts_lastack_sent := cur_ts |>);;
            timeout_list_update p cur_ts;; mret tt);;
  let wscale := if syn then 0 else wscale_mine (sndvar s) in
  if decide (32 <= wscale) then throw BadShift else
  let window32 := Z.shiftr (rcv_wnd (rcvvar s)) wscale in
  let tcph := TcpHdr (sport s) (dport s) (htonl seq) (if ack then htonl (rcv_nxt s) else 0)
                (Z.shiftr (TCP_HEADER_LEN + optlen) 2) fin syn (has_flag flags TCP_FLAG_RST)
                (has_flag flags TCP_FLAG_PSH) ack (htons (u16 (Z.min window32 TCP_MAX_WINDOW)))
                (GenerateTCPOptions s flags) in
  heap (store mbuf (fun m =>
    let len := ETHERNET_HEADER_LEN + IP_HEADER_LEN + TCP_HEADER_LEN + optlen + payload_len m in
    m <| pkt_len := u32 len |> <| data_len := u16 len |>));;
  set_stream p (fun s => s <| snd_nxt := u32 (snd_nxt s + payloadlen) |>);;
  when (syn || fin) (set_stream p (fun s => s <| snd_nxt := u32 (snd_nxt s + 1) |>));;
  let payloadlen' := if syn || fin then u32 (payloadlen + 1) else payloadlen in
  heap (store mbuf (fun m => m <| mbuf_state := MBUF_STATE_SENT |>));;
  when (bool_decide (payloadlen' <> 0)) (rto_list_add p cur_ts;; mret tt);;
  mb ← heap (load mbuf);
  io_send_mbuf mbuf (data_len mb) (Packet mbuf iph tcph payloadlen);;
  mret ret.

Definition send_tcp_control_packet (p : ptr) (cur_ts : Z) : M W Z :=
  let send flags := send_tcp_packet p cur_ts flags NULL 0 in
  s ← stream p;
  match state s with
  | TCP_ST_SYN_SENT => send TCP_FLAG_SYN
  | TCP_ST_SYN_RCVD =>
      set_stream p (fun s => s <| snd_nxt := iss (sndvar s) |>);;
      send (Z.lor TCP_FLAG_SYN TCP_FLAG_ACK)
  | TCP_ST_ESTABLISHED => send TCP_FLAG_ACK
  | TCP_ST_CLOSE_WAIT => send TCP_FLAG_ACK
  | TCP_ST_LAST_ACK => send (Z.lor TCP_FLAG_FIN TCP_FLAG_ACK)
  | TCP_ST_FIN_WAIT_1 => send (Z.lor TCP_FLAG_FIN TCP_FLAG_ACK)
  | TCP_ST_FIN_WAIT_2 => send TCP_FLAG_ACK
  | TCP_ST_CLOSING =>
      if is_fin_sent (sndvar s) then
        if decide (snd_nxt s = fss (sndvar s)) then send (Z.lor TCP_FLAG_FIN TCP_FLAG_ACK)
        else send TCP_FLAG_ACK
      else send (Z.lor TCP_FLAG_FIN TCP_FLAG_ACK)
  | TCP_ST_TIME_WAIT => send TCP_FLAG_ACK
  | TCP_ST_CLOSED => mret FAILED
  | TCP_ST_LISTEN => mret FAILED
  end.

(** The segment to send next: a retransmission, then a high-priority one, then
    the next of the others. *)
Definition next_segment (buff : tcp_send_buffer) : M mheap (ptr * tcp_send_buffer) :=
  '(mbuf, l) ← mbuf_list_pop (retrans_list buff);
  let buff := buff <| retrans_list := l |> in
  if decide (mbuf <> NULL) then mret (mbuf, buff) else
  '(mbuf, q) ← lift (mbufq_dequeue (husnd_q buff));
  let buff := buff <| husnd_q := q |> in
  if decide (mbuf <> NULL) then mret (mbuf, buff) else
  '(mbuf, q) ← lift (mbufq_dequeue (usnd_q buff));
  mret (mbuf, buff <| usnd_q := q |>).

(** The [while (1)] loop; [packets] were sent so far. *)
Fixpoint flush_loop (fuel : nat) (p : ptr) (cur_ts window packets : Z) : M W Z :=
  match fuel with
  | O => throw NoReturn
  | S fuel' =>
      s ← stream p;
      let seq := snd_nxt s in
      if TCP_SEQ_LT seq (sb_head_seq (sndbuf (sndvar s))) then mret packets else
      mbuf ← on_sndbuf p next_segment;
      if decide (mbuf = NULL) then mret packets else
      mb ← heap (load mbuf);
      let len := payload_len mb in
      if decide (len = 0) then
        heap (mbuf_free mbuf);; flush_loop fuel' p cur_ts window packets
      else
      s ← stream p;
      if TCP_SEQ_GT (u32 (seq + len)) (u32 (snd_una (sndvar s) + window)) then
        when (bool_decide (peer_wnd (sndvar s) < u32 (seq - snd_una (sndvar s) + len)) &&
              bool_decide (500 < TS_TO_MSEC (u32 (cur_ts - ts_lastack_sent (sndvar s)))))
          (enqueue_ack p ACK_OPT_WACK;; mret tt);;
        send_event_add cf_stack_id p (priority mb);;
        mret packets
      else
      ret ← send_tcp_packet p cur_ts TCP_FLAG_ACK mbuf len;
      if decide (ret < 0) then throw Exit else
      on_sndbuf p (fun b => l ← mbuf_list_append (uack_list b) mbuf;
                            mret (tt, b <| uack_list := l |>));;
      flush_loop fuel' p cur_ts window (packets + 1)
  end.

(** As many iterations as there can be buffered segments, and one to see that
    none is left. *)
Definition flush_fuel (h : mheap) (b : tcp_send_buffer) : nat :=
  list_fuel h + Z.to_nat (q_size (husnd_q b)) + Z.to_nat (q_size (usnd_q b)).

Definition flush_tcp_sending_buffer (p : ptr) (cur_ts : Z) : M W Z :=
  s ← stream p;
  let v := sndvar s in
  if is_fin_sent v then mret 0 else
  if decide (sb_len (sndbuf v) = 0) then mret 0 else
  let window := Z.max (Z.min (cwnd v) (peer_wnd v)) SEND_WINDOW_MIN in
  w ← get;
  flush_loop (flush_fuel (w_heap w) (sndbuf v)) p cur_ts window 0.

Definition get_from_send_queue : M W ptr :=
  w ← get;
  '(ret, q) ← lift (streamq_dequeue (send_hevent_queue w));
  modify (fun w => w <| send_hevent_queue := q |>);;
  if decide (ret <> NULL) then mret ret else
  '(ret, q) ← lift (streamq_dequeue (send_event_queue w));
  modify (fun w => w <| send_event_queue := q |>);;
  mret ret.

Definition send_from_user (p mbuf : ptr) : M W Z :=
  s ← stream p;
  mb ← heap (load mbuf);
  let sndlen := Z.min (s32 (snd_wnd (sndvar s))) (payload_len mb) in
  if decide (sndlen <= 0) then mret FAILED else
  ret ← on_sndbuf p (fun b => sb_put b mbuf);
  set_snd p (fun v => v <| snd_wnd := u32 (sb_size (sndbuf v) - sb_len (sndbuf v)) |>);;
  if decide (ret <= 0) then mret FAILED else mret ret.

(** [app] is the application context; a value that is no context is
    dereferenced for its core id. *)
Definition q_free_mbuf (app : option Z) (mbuf : ptr) : M mheap unit :=
  if decide (mbuf = NULL) then lift (deref WildAccess app);; mret tt else
  mb ← load mbuf;
  if bool_decide (priority mb <> 0) && bool_decide (holding mb <> 0) then
    store mbuf (fun m => m <| holding := 0 |>)
  else
    core_id ← lift (deref WildAccess app);
    mbuf_free mbuf.

(** On failure the core id is passed to [q_free_mbuf] for the application
    context. *)
Definition _q_tcp_send (core_id sockid : Z) (mbuf : ptr) (len flags : Z) : M W Z :=
  if bool_decide (sockid < 0) || bool_decide (cf_max_concurrency <= sockid) then mret (-1) else
  k ← sock (Z.to_nat sockid);
  let p := sk_stream k in
  if decide (p = NULL) then mret (-1) else
  if decide (mbuf = NULL) then mret (-1) else
  mb ← heap (load mbuf);
  if decide (mbuf_state mb <> MBUF_STATE_TALLOC) then throw Exit else
  let pri := if has_flag flags QFLAG_SEND_HIGHPRI then 1 else 0 in
  heap (store mbuf (fun m => m <| payload_len := u16 len |> <| buf_next := NULL |>
                               <| priority := pri |>));;
  s ← stream p;
  if negb (bool_decide (state s = TCP_ST_ESTABLISHED) || bool_decide (state s = TCP_ST_CLOSE_WAIT))
  then mret ERROR else
  if decide (len <= 0) then mret (-1) else
  ret ← send_from_user p mbuf;
  (if decide (0 < ret) then send_event_add core_id p pri;; mret tt
   else heap (q_free_mbuf None mbuf));;
  mret ret.

(** ** Draining the queues of streams *)

Fixpoint control_loop (fuel : nat) (cur_ts cnt : Z) : M W Z :=
  match fuel with
  | O => throw NoReturn
  | S fuel' =>
      if negb (bool_decide (cnt < MAX_CTRL_PKT_BATCH)) then mret cnt else
      w ← get;
      '(p, q) ← lift (sstreamq_dequeue (control_queue w));
      modify (fun w => w <| control_queue := q |>);;
      if decide (p = NULL) then mret cnt else
      s ← stream p;
      if on_control_queue (sndvar s) then
        set_snd p (fun v => v <| on_control_queue := false |>);;
        ret ← send_tcp_control_packet p cur_ts;
        control_loop fuel' cur_ts (if decide (ret = SUCCESS) then cnt + 1 else cnt)
      else control_loop fuel' cur_ts cnt
  end.

(** Each iteration takes a stream off the queue and nothing puts one on it. *)
Definition write_tcp_control_queue (cur_ts : Z) : M W Z :=
  w ← get; control_loop (S (Z.to_nat (q_size (control_queue w)))) cur_ts 0.

(** After a flush that sent [ret] packets: piggybacked acknowledgements and a
    control packet that was waiting. *)
Definition after_flush (p : ptr) (ret : Z) : M W unit :=
  set_snd p (fun v => v <| on_send_queue := false |>);;
  set_snd p (fun v => if decide (0 < ack_cnt v) then
                        if decide (ret < ack_cnt v) then v <| ack_cnt := ack_cnt v - ret |>
                        else v <| ack_cnt := 0 |>
                      else v);;
  s ← stream p;
  when (control_list_waiting s && negb (on_ack_queue (sndvar s)))
    (set_stream p (fun s => s <| control_list_waiting := false |>);; control_queue_add p;; mret tt).

Fixpoint send_loop (fuel : nat) (cur_ts cnt : Z) : M W Z :=
  match fuel with
  | O => throw NoReturn
  | S fuel' =>
      if negb (bool_decide (cnt < MAX_DATA_PKT_BATCH)) then mret cnt else
      p ← get_from_send_queue;
      if decide (p = NULL) then mret cnt else
      s ← stream p;
      ret ← (if bool_decide (state s = TCP_ST_ESTABLISHED) || bool_decide (state s = TCP_ST_CLOSE_WAIT)
                || bool_decide (state s = TCP_ST_FIN_WAIT_1) || bool_decide (state s = TCP_ST_LAST_ACK)
             then flush_tcp_sending_buffer p cur_ts else mret FAILED);
      if decide (ret <= 0) then control_queue_add p;; mret cnt
      else after_flush p ret;; send_loop fuel' cur_ts (cnt + ret)
  end.

(** Each iteration but the last sends a packet. *)
Definition write_tcp_send_queue (cur_ts : Z) : M W Z :=
  send_loop (S (Z.to_nat MAX_DATA_PKT_BATCH)) cur_ts 0.

(** [while (cur_stream->sndvar.ack_cnt > 0)]; [ack_cnt] has 6 bits. *)
Fixpoint ack_send_loop (fuel : nat) (p : ptr) (cur_ts cnt : Z) : M W Z :=
  match fuel with
  | O => throw NoReturn
  | S fuel' =>
      s ← stream p;
      if negb (bool_decide (0 < ack_cnt (sndvar s))) then mret cnt else
      ret ← send_tcp_packet p cur_ts TCP_FLAG_ACK NULL 0;
      if decide (ret <> SUCCESS) then mret cnt else
      set_snd p (fun v => v <| ack_cnt := ack_cnt v - 1 |>);;
      ack_send_loop fuel' p cur_ts (cnt + 1)
  end.

Definition wack_send (p : ptr) (cur_ts cnt : Z) : M W Z :=
  s ← stream p;
  if negb (is_wack (sndvar s)) then mret cnt else
  set_snd p (fun v => v <| is_wack := false |>);;
  ret ← send_tcp_packet p cur_ts (Z.lor TCP_FLAG_ACK TCP_FLAG_WACK) NULL 0;
  if decide (ret <> SUCCESS) then set_snd p (fun v => v <| is_wack := true |>);; mret cnt
  else mret (cnt + 1).

Definition may_ack (st : tcp_state) : bool :=
  bool_decide (st ∈ [TCP_ST_ESTABLISHED; TCP_ST_CLOSE_WAIT; TCP_ST_FIN_WAIT_1; TCP_ST_FIN_WAIT_2;
                     TCP_ST_TIME_WAIT]).

Fixpoint ack_loop (fuel : nat) (cur_ts cnt : Z) : M W Z :=
  match fuel with
  | O => throw NoReturn
  | S fuel' =>
      if negb (bool_decide (cnt < MAX_ACK_PKT_BATCH)) then mret cnt else
      w ← get;
      '(p, q) ← lift (sstreamq_dequeue (ack_queue w));
      modify (fun w => w <| ack_queue := q |>);;
      if decide (p = NULL) then mret cnt else
      s ← stream p;
      if negb (on_ack_queue (sndvar s)) then ack_loop fuel' cur_ts cnt else
      set_snd p (fun v => v <| on_ack_queue := false |>);;
      cnt ← (if may_ack (state s) then
               cnt ← ack_send_loop 64 p cur_ts cnt; wack_send p cur_ts cnt
             else
               set_snd p (fun v => v <| on_ack_queue := false |> <| ack_cnt := 0 |>
                                     <| is_wack := false |>);; mret cnt);
      s ← stream p;
      when (control_list_waiting s && negb (on_send_queue (sndvar s)))
        (set_stream p (fun s => s <| control_list_waiting := false |>);; control_queue_add p;; mret tt);;
      ack_loop fuel' cur_ts cnt
  end.

Definition write_tcp_ack_queue (cur_ts : Z) : M W Z :=
  w ← get; ack_loop (S (Z.to_nat (q_size (ack_queue w)))) cur_ts 0.

(** [send_tcp_packet_standalone] starts with [TRACE_EXIT]. *)
Definition send_tcp_packet_standalone : M W Z := throw Exit.
End Out.
