(* ===== verification/TcpIn.v ===== *)
(** Receiving: [tcp_in.c], compiled with [PRIORITY_RECV],
    [RECOVERY_AFTER_LOSS] and [SELECTIVE_WRITE_EVENT_NOTIFY], and without the
    virtual server and user-defined priorities.

    A packet is given by the headers at its buffer: [iph], [tcph] (with the
    memory from the options on) and the sender's hardware address. *)
From S2P Require Import Prelude Protocol StaticArp Fifo CircularQueue N21Queue Mbuf RecvBuff SendBuff Stack StreamOps Timer TcpOptions TcpOut.
#[local] Open Scope Z_scope.

Section In.
Context {HT : Type} `{!Config} `{!RteHash HT}.
Notation W := (world HT).

(** ** Events *)

(** Without another thread between its steps: [pdev_st] is still
    [pdev_st_WRITEN] when it is read back. *)
Definition add_pending_event (p : ptr) (event : qepoll_event) : M W Z :=
  set_stream p (fun s => s <| pdev_st := pdev_st_WRITING |>);;
  set_stream p (fun s => s <| pending_events := pending_events s ++ [event] |>);;
  set_stream p (fun s => s <| pdev_st := pdev_st_WRITEN |>);;
  s ← stream p;
  i ← lift (deref NullDeref (socket s));
  k ← sock i;
  if decide (sk_qe k <> NULL) then
    if decide (pdev_st s <> pdev_st_WRITEN) then mret SUCCESS else
    set_stream p (fun s => s <| pending_events := tail (pending_events s) |>);; mret FALSE
  else mret SUCCESS.

Definition check_stream_event_validation (p : ptr) (event : qepoll_event) : M W Z :=
  s ← stream p;
  qe ← match socket s with None => mret NULL | Some i => k ← sock i; mret (sk_qe k) end;
  if decide (qe <> NULL) then mret 1 else
  ret ← add_pending_event p event;
  mret (if decide (ret = SUCCESS) then 0 else 1).

(** [default_app] is a [uint8_t]; -1 stands for "not chosen yet". *)
Definition event_dest (p : ptr) : M W Z :=
  s ← stream p;
  i ← lift (deref NullDeref (socket s));
  k ← sock i;
  if decide (default_app k <> 255) then mret (default_app k) else
  ret ← (if decide (cf_stack_thread = cf_app_thread) then mret (u8 cf_stack_id)
         else if decide (cf_app_thread = 0) then throw DivByZero
         else mret (u8 (id s `mod` u32 cf_app_thread)));
  set_sock i (fun k => k <| default_app := ret |>);;
  mret ret.

(** The call of [AddTimeEvent] hands the event to the event layer. *)
Definition add_epoll_event (event_type pri sockid dst : Z) (p : ptr) : M W unit :=
  let event := if decide (pri <> -1) then Qevent event_type (u8 pri) (u8 cf_stack_id) sockid dst Q_READ
               else Qevent event_type 1 (u8 cf_stack_id) sockid dst Q_ACCEPT in
  go ← (if decide (pri <> -1) then check_stream_event_validation p event else mret 1);
  if decide (go = 0) then mret tt else
  modify (fun w => w <| w_events := w_events w ++ [event] |>).

Definition _raise_read_event (p : ptr) (pri : Z) : M W unit :=
  s ← stream p;
  match socket s with
  | None => mret tt
  | Some _ => dst ← event_dest p; add_epoll_event Q_EPOLLIN pri (s32 (id s)) dst p
  end.

Definition raise_write_event (p : ptr) : M W unit :=
  s ← stream p;
  match socket s with
  | None => mret tt
  | Some _ => dst ← event_dest p; add_epoll_event Q_EPOLLOUT 0 (s32 (id s)) dst p
  end.

Definition raise_error_event (p : ptr) : M W unit :=
  s ← stream p;
  match socket s with
  | None => mret tt
  | Some _ => dst ← event_dest p; add_epoll_event Q_EPOLLERR 0 (s32 (id s)) dst p
  end.

Definition raise_close_event (p : ptr) : M W unit := _raise_read_event p 1.

Definition _raise_accept_event (p : ptr) : M W unit :=
  s ← stream p;
  li ← lift (deref NullDeref (listener s));
  w ← get;
  l ← lift (deref NullDeref (listeners w !! li));
  accepter ← event_dest p;
  q ← lift (read_at (acceptq l) accepter);
  '(ret, q') ← lift (streamq_enqueue q cf_stack_id p);
  qs ← lift (write_at (acceptq l) accepter q');
  modify (fun w => w <| listeners := <[li := l <| acceptq := qs |>]> (listeners w) |>);;
  when (bool_decide (ret < 0)) (set_stream p (fun s =>
    s <| close_reason := TCP_NOT_ACCEPTED |> <| state := TCP_ST_CLOSED |>));;
  match l_socket l with
  | None => mret tt
  | Some i =>
      k ← sock i;
      if decide (Z.land (epoll k) Q_EPOLLIN <> 0)
      then add_epoll_event Q_EPOLLIN (-1) (l_sockid l) accepter p
      else mret tt
  end.

(** ** Opening *)

(** The wrong-port trace message reads [ret->port] after [ret = NULL]. *)
Definition syn_packet_filter (ip port : Z) : M W (option nat) :=
  w ← get;
  match listeners w with
  | [] => mret None
  | l :: _ =>
      if decide (ip <> cf_eth0_ip) then mret None else
      if decide (ntohs port <> l_port l) then throw NullDeref else mret (Some 0%nat)
  end.

Definition option_len (tcph : tcphdr) : Z := Z.shiftl (th_doff tcph) 2 - TCP_HEADER_LEN.

Definition parse_options (p : ptr) (cur_ts : Z) (tcph : tcphdr) : M W unit :=
  s ← stream p;
  s' ← lift (ParseTCPOptions s cur_ts (tcpopt tcph) (option_len tcph));
  set_stream p (fun _ => s').

Definition handle_passive_open (cur_ts : Z) (iph : iphdr) (tcph : tcphdr) (seq window : Z) : M W ptr :=
  sk ← socket_alloc cf_stack_id SOCK_TYPE_STREAM;
  i ← lift (deref NullDeref sk);
  set_sock i (fun k => k <| default_app := 255 |>);;
  p ← tcp_stream_create (Some i) (ip_daddr iph) (th_dest tcph) (ip_saddr iph) (th_source tcph) seq;
  timeout_list_add p cur_ts;;
  set_snd p (fun v => v <| peer_wnd := window |> <| cwnd := 10 |>);;
  parse_options p cur_ts tcph;;
  mret p.

Definition handle_active_open (p : ptr) (cur_ts : Z) (tcph : tcphdr) (seq ack_seq window : Z) : M W unit :=
  set_rcv p (fun v => v <| irs := seq |>);;
  set_stream p (fun s => s <| snd_nxt := ack_seq |>);;
  set_snd p (fun v => v <| peer_wnd := window |>);;
  set_rcv p (fun v => v <| snd_wl1 := u32 (irs v - 1) |>);;
  set_stream p (fun s => s <| rcv_nxt := u32 (irs (rcvvar s) + 1) |>);;
  s ← stream p;
  set_rcv p (fun v => v <| rcvbuf ::= fun b => rb_update_seq b (rcv_nxt s) |>
                        <| last_ack_seq := ack_seq |>);;
  parse_options p cur_ts tcph;;
  set_snd p (fun v => v <| cwnd := if decide (cwnd v = 1) then mss v * 2 else mss v |>);;
  set_snd p (fun v => v <| ssthresh := mss v * 10 |> <| nrtx := 0 |>);;
  rto_list_remove p;;
  set_stream p (fun s => s <| state := TCP_ST_ESTABLISHED |>).

Definition CreateNewFlowHTEntry (cur_ts : Z) (iph : iphdr) (tcph : tcphdr) (seq window : Z) : M W ptr :=
  if th_syn tcph && negb (th_ack tcph) then
    l ← syn_packet_filter (ip_daddr iph) (th_dest tcph);
    match l with
    | None => send_tcp_packet_standalone;; mret NULL
    | Some li =>
        p ← handle_passive_open cur_ts iph tcph seq window;
        if decide (p = NULL) then send_tcp_packet_standalone;; mret NULL else
        set_stream p (fun s => s <| listener := Some li |>);;
        mret p
    end
  else if th_rst tcph then mret NULL
  else send_tcp_packet_standalone;; mret NULL.

(** ** Acknowledgements *)

(** The window is updated and the duplicate count kept; the rest of
    [process_tcp_ack] follows in [ack_retransmit] and [ack_new_data]. *)
Definition ack_window (p : ptr) (seq ack_seq cwindow : Z) : M W unit :=
  s ← stream p;
  let v := sndvar s in
  let r := rcvvar s in
  when (TCP_SEQ_LT (snd_wl1 r) seq
        || (bool_decide (snd_wl1 r = seq) && TCP_SEQ_LT (snd_wl2 r) ack_seq)
        || (bool_decide (snd_wl2 r = ack_seq) && bool_decide (peer_wnd v < cwindow)))
    (set_snd p (fun v => v <| peer_wnd := cwindow |>);;
     set_rcv p (fun r => r <| snd_wl1 := seq |> <| snd_wl2 := ack_seq |>)).

(** [dup_acks] is a [uint8_t]; the guard against its overflow is computed in
    [int] and always holds. *)
Definition ack_dup (p : ptr) (ack_seq payloadlen right_wnd_edge : Z) : M W bool :=
  s ← stream p;
  let r := rcvvar s in
  let dup := TCP_SEQ_LT ack_seq (snd_nxt s)
             && bool_decide (ack_seq = last_ack_seq r) && bool_decide (payloadlen = 0)
             && bool_decide (u32 (snd_wl2 r + peer_wnd (sndvar s)) = right_wnd_edge) in
  (if dup then set_rcv p (fun r => r <| dup_acks := u8 (dup_acks r + 1) |>)
   else set_rcv p (fun r => r <| dup_acks := 0 |> <| last_ack_seq := ack_seq |>));;
  mret dup.

Definition ack_retransmit (p : ptr) (ack_seq : Z) (dup : bool) : M W unit :=
  s ← stream p;
  if dup && bool_decide (dup_acks (rcvvar s) = 3) then
    when (TCP_SEQ_LT ack_seq (snd_nxt s))
      (set_stream p (fun s => s <| snd_nxt := ack_seq |>);;
       on_sndbuf p sb_reset_retrans;; mret tt);;
    set_snd p (fun v => v <| ssthresh := Z.min (cwnd v) (peer_wnd v) / 2 |>);;
    set_snd p (fun v => if decide (ssthresh v < 2 * mss v) then v <| ssthresh := 2 * mss v |> else v);;
    set_snd p (fun v => v <| cwnd := u32 (ssthresh v + 3 * mss v) |>);;
    set_snd p (fun v => if decide (nrtx v < TCP_MAX_RTX) then v <| nrtx := u8 (nrtx v + 1) |> else v);;
    send_event_enqueue false cf_stack_id p;; mret tt
  else
    when (bool_decide (3 < dup_acks (rcvvar s)))
      (set_snd p (fun v => if decide (cwnd v < u32 (cwnd v + mss v))
                           then v <| cwnd := u32 (cwnd v + mss v) |> else v)).

(** Congestion window after [packets] new segments were acknowledged.  The product is
    computed in [int]; where it overflows, which C leaves undefined, it is taken to
    wrap around like the multiplication of the machine. *)
Definition cwnd_update (v : tcp_send_vars) (packets : Z) : res Z :=
  if decide (cwnd v < ssthresh v) then
    Ok (if decide (cwnd v < u32 (cwnd v + mss v)) then u32 (cwnd v + mss v * packets) else cwnd v)
  else if decide (cwnd v = 0) then Fault DivByZero else
    let new_cwnd := u32 (cwnd v + u32 (packets * mss v * mss v) / cwnd v) in
    Ok (if decide (cwnd v < new_cwnd) then new_cwnd else cwnd v).

(** The packet count is never rounded up: a quotient times its divisor does not
    exceed the dividend. *)
Definition ack_new_data (p : ptr) (cur_ts ack_seq : Z) : M W unit :=
  s ← stream p;
  let rmlen := u32 (ack_seq - sb_head_seq (sndbuf (sndvar s))) in
  if decide (rmlen <= 0) then mret tt else
  if decide (eff_mss (sndvar s) = 0) then throw DivByZero else
  let packets := u16 (rmlen / eff_mss (sndvar s)) in
  let packets := if decide (rmlen < rmlen / eff_mss (sndvar s) * eff_mss (sndvar s))
                 then u16 (packets + 1) else packets in
  when (bool_decide (st_val TCP_ST_ESTABLISHED <= st_val (state s)))
    (c ← lift (cwnd_update (sndvar s) packets); set_snd p (fun v => v <| cwnd := c |>));;
  on_sndbuf p (fun b => sb_remove_acked b ack_seq);;
  set_snd p (fun v => v <| snd_una := ack_seq |>);;
  set_snd p (fun v => v <| snd_wnd := u32 (sb_size (sndbuf v) - sb_len (sndbuf v)) |>);;
  s ← stream p;
  if decide (snd_nxt s = ack_seq) then rto_list_remove p;; mret tt
  else rto_list_update p cur_ts.

Definition process_tcp_ack (p : ptr) (cur_ts : Z) (tcph : tcphdr)
    (seq ack_seq window payloadlen : Z) : M W unit :=
  s ← stream p;
  let v := sndvar s in
  if negb (th_syn tcph) && bool_decide (32 <= wscale_peer v) then throw BadShift else
  let cwindow := if th_syn tcph then window else u32 (Z.shiftl window (wscale_peer v)) in
  let right_wnd_edge := u32 (peer_wnd v + snd_wl2 (rcvvar s)) in
  let ack_seq :=
    if bool_decide (state s ∈ [TCP_ST_FIN_WAIT_1; TCP_ST_FIN_WAIT_2; TCP_ST_CLOSING;
                               TCP_ST_CLOSE_WAIT; TCP_ST_LAST_ACK])
       && is_fin_sent v && bool_decide (ack_seq = u32 (fss v + 1))
    then u32 (ack_seq - 1) else ack_seq in
  if TCP_SEQ_GT ack_seq (u32 (sb_head_seq (sndbuf v) + sb_len (sndbuf v))) then mret tt else
  ack_window p seq ack_seq cwindow;;
  dup ← ack_dup p ack_seq payloadlen right_wnd_edge;
  ack_retransmit p ack_seq dup;;
  set_stream p (fun s => if TCP_SEQ_GT ack_seq (snd_nxt s) then s <| snd_nxt := ack_seq |> else s);;
  s ← stream p;
  if TCP_SEQ_GEQ (sb_head_seq (sndbuf (sndvar s))) ack_seq then mret tt else
  ack_new_data p cur_ts ack_seq.

(** ** Payload *)

Definition process_tcp_payload (p mbuf : ptr) (seq payloadlen : Z) : M W Z :=
  s ← stream p;
  if TCP_SEQ_LEQ (u32 (seq + payloadlen)) (rcv_nxt s) then mret FAILED else
  if TCP_SEQ_GT (u32 (seq + payloadlen)) (u32 (rcv_nxt s + rcv_wnd (rcvvar s))) then mret FAILED else
  let prev_rcv_nxt := rcv_nxt s in
  ret ← on_rcvbuf p (fun b => rb_put b mbuf);
  when (bool_decide (state s = TCP_ST_FIN_WAIT_1) || bool_decide (state s = TCP_ST_FIN_WAIT_2))
    (on_rcvbuf p (fun b => b' ← rb_clear b; mret (tt, b')));;
  set_stream p (fun s => s <| rcv_nxt := merged_next (rcvbuf (rcvvar s)) |>);;
  set_rcv p (fun r => r <| rcv_wnd := u32 (rb_size (rcvbuf r) - rb_merged_len (rcvbuf r)) |>);;
  s ← stream p;
  mb ← heap (load mbuf);
  if TCP_SEQ_LEQ (rcv_nxt s) prev_rcv_nxt && bool_decide (priority mb = 0) then mret FALSE else
  when (bool_decide (state s = TCP_ST_ESTABLISHED))
    (when (bool_decide (priority mb <> 0)) (_raise_read_event p 1);;
     let event_num := if decide (priority mb <> 0) then ret - 1 else ret in
     when (bool_decide (0 < event_num)) (_raise_read_event p 0));;
  mret ret.

(** ** Validation and reset *)

Definition check_sequence_validation (p : ptr) (cur_ts : Z) (tcph : tcphdr) (seq payloadlen : Z) : M W Z :=
  s ← stream p;
  if TCP_SEQ_BETWEEN (u32 (seq + payloadlen)) (rcv_nxt s) (u32 (rcv_nxt s + rcv_wnd (rcvvar s)))
  then mret TRUE else
  if th_rst tcph then mret FAILED else
  (if decide (state s = TCP_ST_ESTABLISHED) then
     if decide (u32 (seq + 1) = rcv_nxt s) then enqueue_ack p ACK_OPT_AGGREGATE
     else if TCP_SEQ_LEQ seq (rcv_nxt s) then enqueue_ack p ACK_OPT_AGGREGATE
     else enqueue_ack p ACK_OPT_NOW
   else
     when (bool_decide (state s = TCP_ST_TIME_WAIT)) (timewait_list_add p cur_ts;; mret tt);;
     control_queue_add p);;
  mret FAILED.

Definition handle_rst (p : ptr) (ack_seq : Z) : M W Z :=
  s ← stream p;
  if decide (st_val (state s) <= st_val TCP_ST_SYN_SENT) then mret FALSE else
  if decide (state s = TCP_ST_SYN_RCVD) then
    when (bool_decide (ack_seq = snd_nxt s))
      (set_stream p (fun s => s <| state := TCP_ST_CLOSED |> <| close_reason := TCP_RESET |>);;
       tcp_stream_destroy p);;
    mret TRUE
  else if bool_decide (state s ∈ [TCP_ST_FIN_WAIT_1; TCP_ST_FIN_WAIT_2; TCP_ST_LAST_ACK;
                                  TCP_ST_CLOSING; TCP_ST_TIME_WAIT]) then
    set_stream p (fun s => s <| state := TCP_ST_CLOSED |> <| close_reason := TCP_ACTIVE_CLOSE |>);;
    tcp_stream_destroy p;;
    mret TRUE
  else
    when (negb (on_closeq (sndvar s) || on_resetq (sndvar s)))
      (set_stream p (fun s => s <| state := TCP_ST_CLOSE_WAIT |> <| close_reason := TCP_RESET |>);;
       raise_close_event p);;
    mret TRUE.

(** ** One handler per state *)

Definition Handle_TCP_ST_LISTEN (p : ptr) (tcph : tcphdr) : M W unit :=
  if th_syn tcph then
    s ← stream p;
    when (bool_decide (state s = TCP_ST_LISTEN))
      (set_stream p (fun s => s <| rcv_nxt := u32 (rcv_nxt s + 1) |>));;
    set_stream p (fun s => s <| state := TCP_ST_SYN_RCVD |>);;
    control_queue_add p;; mret tt
  else mret tt.

Definition Handle_TCP_ST_SYN_SENT (p : ptr) (cur_ts : Z) (tcph : tcphdr)
    (seq ack_seq window : Z) : M W unit :=
  s ← stream p;
  if th_ack tcph && (TCP_SEQ_LEQ ack_seq (iss (sndvar s)) || TCP_SEQ_GT ack_seq (snd_nxt s)) then
    when (negb (th_rst tcph)) (send_tcp_packet_standalone;; mret tt)
  else
  when (th_ack tcph) (set_snd p (fun v => v <| snd_una := u32 (snd_una v + 1) |>));;
  if th_rst tcph then
    if th_ack tcph then
      set_stream p (fun s => s <| state := TCP_ST_CLOSE_WAIT |> <| close_reason := TCP_RESET |>);;
      match socket s with None => tcp_stream_destroy p | Some _ => raise_error_event p end
    else mret tt
  else if th_syn tcph then
    if th_ack tcph then
      handle_active_open p cur_ts tcph seq ack_seq window;;
      match socket s with
      | None =>
          send_tcp_packet_standalone;;
          set_stream p (fun s => s <| close_reason := TCP_ACTIVE_CLOSE |>);;
          tcp_stream_destroy p
      | Some _ =>
          raise_write_event p;;
          control_queue_add p;;
          timeout_list_add p cur_ts;; mret tt
      end
    else
      set_stream p (fun s => s <| state := TCP_ST_SYN_RCVD |>);;
      set_stream p (fun s => s <| snd_nxt := iss (sndvar s) |>);;
      control_queue_add p;; mret tt
  else mret tt.

Definition Handle_TCP_ST_SYN_RCVD (p : ptr) (tcph : tcphdr) (ack_seq : Z) : M W unit :=
  s ← stream p;
  if th_ack tcph then
    if decide (ack_seq <> u32 (iss (sndvar s) + 1)) then mret tt else
    set_snd p (fun v => v <| snd_una := u32 (snd_una v + 1) |>);;
    set_stream p (fun s => s <| snd_nxt := ack_seq |>);;
    set_snd p (fun v => v <| cwnd := if decide (cwnd v = 1) then mss v * 2 else mss v |>);;
    set_snd p (fun v => v <| nrtx := 0 |>);;
    set_stream p (fun s => s <| rcv_nxt := u32 (irs (rcvvar s) + 1) |>);;
    rto_list_remove p;;
    set_stream p (fun s => s <| state := TCP_ST_ESTABLISHED |>);;
    _raise_accept_event p
  else
    set_stream p (fun s => s <| snd_nxt := iss (sndvar s) |>);;
    control_queue_add p;; mret tt.

Definition Handle_TCP_ST_CLOSE_WAIT (p : ptr) (cur_ts : Z) (tcph : tcphdr)
    (seq ack_seq payloadlen window : Z) : M W unit :=
  s ← stream p;
  if TCP_SEQ_LT seq (rcv_nxt s) then control_queue_add p;; mret tt
  else process_tcp_ack p cur_ts tcph seq ack_seq window payloadlen.

Definition Handle_TCP_ST_LAST_ACK (p : ptr) (cur_ts : Z) (tcph : tcphdr)
    (seq ack_seq payloadlen window : Z) : M W unit :=
  s ← stream p;
  if TCP_SEQ_LT seq (rcv_nxt s) then mret tt else
  if th_ack tcph then
    process_tcp_ack p cur_ts tcph seq ack_seq window payloadlen;;
    s ← stream p;
    if negb (is_fin_sent (sndvar s)) then mret tt else
    if decide (ack_seq = u32 (fss (sndvar s) + 1)) then
      set_snd p (fun v => v <| snd_una := u32 (snd_una v + 1) |>);;
      set_stream p (fun s => s <| state := TCP_ST_CLOSED |> <| close_reason := TCP_PASSIVE_CLOSE |>);;
      tcp_stream_destroy p
    else control_queue_add p;; mret tt
  else control_queue_add p;; mret tt.

(** Payload that arrives while closing: any non-zero result, also a failure,
    counts as success. *)
Definition closing_payload (p mbuf : ptr) (seq payloadlen : Z) : M W unit :=
  if decide (0 < payloadlen) then
    r ← process_tcp_payload p mbuf seq payloadlen;
    enqueue_ack p (if decide (r <> 0) then ACK_OPT_AGGREGATE else ACK_OPT_NOW);; mret tt
  else mret tt.

Definition Handle_TCP_ST_FIN_WAIT_1 (p : ptr) (cur_ts : Z) (tcph : tcphdr)
    (seq ack_seq : Z) (mbuf : ptr) (payloadlen window : Z) : M W unit :=
  s ← stream p;
  if TCP_SEQ_LT seq (rcv_nxt s) then control_queue_add p;; mret tt else
  if negb (th_ack tcph) then mret tt else
  process_tcp_ack p cur_ts tcph seq ack_seq window payloadlen;;
  s ← stream p;
  when (is_fin_sent (sndvar s) && bool_decide (ack_seq = u32 (fss (sndvar s) + 1)))
    (set_snd p (fun v => v <| snd_una := ack_seq |>);;
     set_stream p (fun s => if TCP_SEQ_GT ack_seq (snd_nxt s) then s <| snd_nxt := ack_seq |> else s);;
     set_snd p (fun v => v <| nrtx := 0 |>);;
     rto_list_remove p;;
     set_stream p (fun s => s <| state := TCP_ST_FIN_WAIT_2 |>));;
  closing_payload p mbuf seq payloadlen;;
  s ← stream p;
  if th_fin tcph && bool_decide (u32 (seq + payloadlen) = rcv_nxt s) then
    set_stream p (fun s => s <| rcv_nxt := u32 (rcv_nxt s + 1) |>);;
    match state s with
    | TCP_ST_FIN_WAIT_1 => set_stream p (fun s => s <| state := TCP_ST_CLOSING |>)
    | TCP_ST_FIN_WAIT_2 =>
        set_stream p (fun s => s <| state := TCP_ST_TIME_WAIT |>);;
        timewait_list_add p cur_ts;; mret tt
    | _ => mret tt
    end;;
    control_queue_add p;; mret tt
  else mret tt.

Definition Handle_TCP_ST_FIN_WAIT_2 (p : ptr) (cur_ts : Z) (tcph : tcphdr)
    (seq ack_seq : Z) (mbuf : ptr) (payloadlen window : Z) : M W unit :=
  if negb (th_ack tcph) then mret tt else
  process_tcp_ack p cur_ts tcph seq ack_seq window payloadlen;;
  closing_payload p mbuf seq payloadlen;;
  s ← stream p;
  if th_fin tcph && bool_decide (u32 (seq + payloadlen) = rcv_nxt s) then
    set_stream p (fun s => s <| state := TCP_ST_TIME_WAIT |> <| rcv_nxt := u32 (rcv_nxt s + 1) |>);;
    timewait_list_add p cur_ts;;
    control_queue_add p;; mret tt
  else mret tt.

Definition Handle_TCP_ST_CLOSING (p : ptr) (cur_ts : Z) (tcph : tcphdr)
    (seq ack_seq payloadlen window : Z) : M W unit :=
  if negb (th_ack tcph) then mret tt else
  process_tcp_ack p cur_ts tcph seq ack_seq window payloadlen;;
  s ← stream p;
  if negb (is_fin_sent (sndvar s)) then mret tt else
  if decide (ack_seq <> u32 (fss (sndvar s) + 1)) then mret tt else
  set_snd p (fun v => v <| snd_una := ack_seq |>);;
  set_stream p (fun s => s <| snd_nxt := ack_seq |>);;
  set_stream p (fun s => s <| state := TCP_ST_TIME_WAIT |>);;
  timewait_list_add p cur_ts;; mret tt.

Definition Handle_TCP_ST_ESTABLISHED (p : ptr) (cur_ts : Z) (tcph : tcphdr)
    (seq ack_seq : Z) (mbuf : ptr) (payloadlen window : Z) : M W unit :=
  if th_syn tcph then control_queue_add p;; mret tt else
  (if decide (0 < payloadlen) then
     r ← process_tcp_payload p mbuf seq payloadlen;
     enqueue_ack p (if decide (0 < r) then ACK_OPT_AGGREGATE else ACK_OPT_NOW);; mret tt
   else mret tt);;
  when (th_ack tcph) (process_tcp_ack p cur_ts tcph seq ack_seq window payloadlen);;
  if th_fin tcph then
    s ← stream p;
    if decide (u32 (seq + payloadlen) = rcv_nxt s) then
      _raise_read_event p 0;;
      set_stream p (fun s => s <| state := TCP_ST_CLOSE_WAIT |>);;
      set_stream p (fun s => s <| rcv_nxt := u32 (rcv_nxt s + 1) |>);;
      control_queue_add p;; mret tt
    else enqueue_ack p ACK_OPT_NOW;; mret tt
  else mret tt.

(** ** A packet *)

(** The stream of the packet, created for a first SYN; NULL when the packet is
    dropped. *)
Definition packet_stream (cur_ts : Z) (haddr : list Z) (iph : iphdr) (tcph : tcphdr)
    (seq window : Z) : M W ptr :=
  w ← get;
  let key := Tuple 6 (ip_daddr iph) (ip_saddr iph) (th_dest tcph) (th_source tcph) in
  let p := ht_search (stream_ht w) key in
  if decide (p = NULL) then
    if negb (th_syn tcph) then mret NULL else
    p ← CreateNewFlowHTEntry cur_ts iph tcph seq window;
    if decide (p = NULL) then mret NULL else
    set_stream p (fun s => s <| dhw_addr := haddr |>);; mret p
  else
    s ← stream p;
    when (th_syn tcph && bool_decide (state s <> TCP_ST_SYN_SENT)) (parse_options p cur_ts tcph);;
    mret p.

Definition tcp_dispatch (p : ptr) (cur_ts : Z) (tcph : tcphdr)
    (seq ack_seq : Z) (mbuf : ptr) (payloadlen window : Z) : M W unit :=
  s ← stream p;
  match state s with
  | TCP_ST_LISTEN => Handle_TCP_ST_LISTEN p tcph
  | TCP_ST_SYN_SENT => Handle_TCP_ST_SYN_SENT p cur_ts tcph seq ack_seq window
  | TCP_ST_SYN_RCVD =>
      if th_syn tcph && bool_decide (seq = irs (rcvvar s)) then Handle_TCP_ST_LISTEN p tcph
      else
        Handle_TCP_ST_SYN_RCVD p tcph ack_seq;;
        s ← stream p;
        when (bool_decide (0 < payloadlen) && bool_decide (state s = TCP_ST_ESTABLISHED))
          (Handle_TCP_ST_ESTABLISHED p cur_ts tcph seq ack_seq mbuf payloadlen window)
  | TCP_ST_ESTABLISHED =>
      Handle_TCP_ST_ESTABLISHED p cur_ts tcph seq ack_seq mbuf payloadlen window
  | TCP_ST_CLOSE_WAIT => Handle_TCP_ST_CLOSE_WAIT p cur_ts tcph seq ack_seq payloadlen window
  | TCP_ST_LAST_ACK => Handle_TCP_ST_LAST_ACK p cur_ts tcph seq ack_seq payloadlen window
  | TCP_ST_FIN_WAIT_1 => Handle_TCP_ST_FIN_WAIT_1 p cur_ts tcph seq ack_seq mbuf payloadlen window
  | TCP_ST_FIN_WAIT_2 => Handle_TCP_ST_FIN_WAIT_2 p cur_ts tcph seq ack_seq mbuf payloadlen window
  | TCP_ST_CLOSING => Handle_TCP_ST_CLOSING p cur_ts tcph seq ack_seq payloadlen window
  | TCP_ST_TIME_WAIT =>
      when (on_timewait_list s) (timewait_list_remove p;; timewait_list_add p cur_ts;; mret tt);;
      control_queue_add p;; mret tt
  | TCP_ST_CLOSED => mret tt
  end.

Definition process_tcp_packet (cur_ts : Z) (mbuf : ptr) (haddr : list Z) (iph : iphdr)
    (tcph : tcphdr) (ip_len : Z) : M W Z :=
  let hlen := Z.shiftl (th_doff tcph) 2 in
  let payloadlen := ip_len - IP_HEADER_LEN - hlen in
  let seq := ntohl (th_seq tcph) in
  let ack_seq := ntohl (th_ack_seq tcph) in
  let window := ntohs (th_window tcph) in
  heap (store mbuf (fun m => m <| tcp_seq := seq |> <| payload_len := u16 payloadlen |>
                               <| l4_len := u8 hlen |>));;
  if bool_decide (th_doff tcph = 0) || bool_decide (ip_len < Z.shiftl (ihl iph + th_doff tcph) 2)
  then mret ERROR else
  p ← packet_stream cur_ts haddr iph tcph seq window;
  if decide (p = NULL) then mret FAILED else
  set_stream p (fun s => s <| last_active_ts := cur_ts |>);;
  s ← stream p;
  valid ← (if decide (st_val TCP_ST_SYN_RCVD < st_val (state s))
           then check_sequence_validation p cur_ts tcph seq payloadlen else mret TRUE);
  if decide (valid <> TRUE) then mret FAILED else
  s ← stream p;
  if negb (th_syn tcph) && bool_decide (32 <= wscale_peer (sndvar s)) then throw BadShift else
  set_snd p (fun v => v <| peer_wnd := if th_syn tcph then window
                                       else u32 (Z.shiftl window (wscale_peer v)) |>);;
  timeout_list_update p cur_ts;;
  reset ← (if th_rst tcph then
             set_stream p (fun s => s <| have_reset := true |>);;
             s ← stream p;
             if decide (st_val TCP_ST_SYN_SENT < st_val (state s)) then handle_rst p ack_seq
             else mret FALSE
           else mret FALSE);
  if decide (reset <> FALSE) then mret TRUE else
  tcp_dispatch p cur_ts tcph seq ack_seq mbuf payloadlen window;;
  mret TRUE.
End In.
