(* ===== verification/Api.v ===== *)
(** The socket interface of the application: [api.c] and [q_send] of
    [api_inner.c], with the listener table of [socket.c].

    A call is atomic here; the buffers it moves data through are those of the
    stream.  Every call returns its result together with the [errno] it sets
    (0 when it sets none).  DPDK's [rte_softrss], which tells the thread a flow
    belongs to, is a parameter. *)
From S2P Require Import Prelude Protocol StaticArp Fifo CircularQueue N21Queue Mbuf RecvBuff SendBuff Stack StreamOps Timer TcpOptions TcpOut.
#[local] Open Scope Z_scope.

Definition EBADF : Z := 9.
Definition EAGAIN : Z := 11.
Definition EFAULT : Z := 14.
Definition ENFILE : Z := 23.
Definition ENOTSOCK : Z := 88.
Definition EAFNOSUPPORT : Z := 97.
Definition EADDRINUSE : Z := 98.
Definition EISCONN : Z := 106.
Definition ENOTCONN : Z := 107.
Definition EALREADY : Z := 114.
Definition EINPROGRESS : Z := 115.

Definition AF_INET : Z := 2.
Definition SOCKADDR_IN_LEN : Z := 16.
Definition SOCK_OPT_ADDR_BIND : Z := 0x02.
Definition INPORT_ANY : Z := 0.
Definition INADDR_ANY : Z := 0.
Definition FIONREAD : Z := 0x541B.
Definition MAX_SOCKET_NUM : Z := 14000000.

(** The application thread: [struct qapp_context]. *)
Record qapp : Type := Qapp { app_id : Z; app_core : Z }.

Record sockaddr_in : Type := SockAddr { sin_family : Z; sin_port : Z; sin_addr : Z }.

(** The flow's hash, from source and destination address and port in host
    order. *)
Class Rss : Type := rte_softrss : Z -> Z -> Z -> Z -> Z.

(** [&table->sockets[i]] as a queue element: distinct and not null. *)
Definition socket_ptr (i : nat) : ptr := Z.of_nat i + 1.
Definition ptr_socket (p : ptr) : nat := Z.to_nat (p - 1).

Section Api.
Context {HT : Type} `{!Config}.
Notation W := (world HT).

(** [sockid < 0 || sockid >= CONFIG.max_concurrency]. *)
Definition out_of_range (sockid : Z) : bool :=
  bool_decide (sockid < 0) || bool_decide (cf_max_concurrency <= sockid).

(** ** Opening *)

(** [SOCK_ALLOC_STACK_ONLY]. *)
Definition get_sock_pool_map (app : qapp) : Z := 0.

(** [type] is compared with [SOCK_TYPE_STREAM], which is 1. *)
Definition q_socket (app : qapp) (domain type : Z) : M W (Z * Z) :=
  if decide (domain <> AF_INET) then mret (u32 (-1), EAFNOSUPPORT) else
  if decide (type <> 1) then mret (u32 (-1), EINVAL) else
  sk ← socket_alloc (get_sock_pool_map app) SOCK_TYPE_STREAM;
  match sk with
  | None => mret (u32 (-1), ENFILE)
  | Some i =>
      set_sock i (fun k => k <| default_app := u8 (app_id app) |>);;
      k ← sock i; mret (u32 (sk_id k), 0)
  end.

Definition q_bind (sockid : Z) (addr : option sockaddr_in) (addrlen : Z) : M W (Z * Z) :=
  if out_of_range sockid then mret (-1, EBADF) else
  let i := Z.to_nat sockid in
  k ← sock i;
  if decide (socktype k = SOCK_TYPE_UNUSED) then mret (-1, EBADF) else
  if bool_decide (socktype k <> SOCK_TYPE_STREAM) && bool_decide (socktype k <> SOCK_TYPE_LISTENER)
  then mret (-1, ENOTSOCK) else
  match addr with
  | None => mret (-1, EINVAL)
  | Some a =>
      if decide (Z.land (opts k) SOCK_OPT_ADDR_BIND <> 0) then mret (-1, EINVAL) else
      if bool_decide (sin_family a <> AF_INET) || bool_decide (addrlen < SOCKADDR_IN_LEN)
      then mret (-1, EINVAL) else
      set_sock i (fun k => k <| sk_port := sin_port a |> <| sk_addr := sin_addr a |>
                             <| opts := Z.lor (opts k) SOCK_OPT_ADDR_BIND |>);;
      mret (0, 0)
  end.

(** The loop over the first [num] slots of the table. *)
Fixpoint listeners_search (l : list tcp_listener) (port : Z) : M W (option ptr) :=
  match l with
  | [] => mret None
  | x :: l' =>
      i ← lift (deref NullDeref (l_socket x));
      k ← sock i;
      if decide (sk_port k = port) then mret (Some (l_addr x)) else listeners_search l' port
  end.

Definition listeners_insert (l : tcp_listener) : M W Z :=
  w ← get;
  if decide (Z.of_nat (length (listeners w)) < MAX_SOCKET_NUM) then
    modify (fun w => w <| listeners := listeners w ++ [l] |>);; mret SUCCESS
  else mret FAILED.

(** [mempool_alloc_chunk] of the pool of listeners. *)
Definition alloc_listener : M W ptr := fun w =>
  match w_lchunks w with
  | [] => Ok (NULL, w)
  | p :: l => Ok (p, w <| w_lchunks := l |>)
  end.

Definition q_listen (app : option qapp) (sockid blog : Z) : M W (Z * Z) :=
  if out_of_range sockid then mret (-1, EBADF) else
  let i := Z.to_nat sockid in
  k ← sock i;
  if decide (socktype k = SOCK_TYPE_UNUSED) then mret (-1, EBADF) else
  when (bool_decide (socktype k = SOCK_TYPE_STREAM))
    (set_sock i (fun k => k <| socktype := SOCK_TYPE_LISTENER |>));;
  k ← sock i;
  if decide (socktype k <> SOCK_TYPE_LISTENER) then mret (-1, ENOTSOCK) else
  if bool_decide (blog <= 0) || bool_decide (cf_max_concurrency < blog) then mret (-1, EINVAL) else
  w ← get;
  found ← listeners_search (listeners w) (sk_port k);
  if found is Some _ then mret (-1, EADDRINUSE) else
  p ← alloc_listener;
  if decide (p = NULL) then mret (-1, 0) else
  set_sock i (fun k => k <| epoll := Z.lor (epoll k) Q_EPOLLIN |>);;
  set_sock i (fun k => k <| sk_stream := p |>);;
  ret ← listeners_insert
    (Listener sockid (ntohs (sk_port k)) (Some i)
       (replicate (Z.to_nat cf_app_thread) (streamq_init cf_stack_thread blog)) p blog);
  if decide (ret <> SUCCESS) then lift (deref NullDeref app);; mret (-1, 0) else mret (0, 0).

(** The listener at an address. *)
Definition listener_at (l : list tcp_listener) (p : ptr) : option nat :=
  fst <$> list_find (fun x => l_addr x = p) l.

(** The address of the peer, which the call stores at [addr]. *)
Definition q_accept (app : qapp) (sockid : Z) : M W (Z * Z * option sockaddr_in) :=
  if decide (cf_app_thread <= app_id app) then mret (-1, EBADF, None) else
  if out_of_range sockid then mret (-1, EBADF, None) else
  k ← sock (Z.to_nat sockid);
  if decide (socktype k <> SOCK_TYPE_LISTENER) then mret (-1, EINVAL, None) else
  w ← get;
  li ← lift (deref NullDeref (listener_at (listeners w) (sk_stream k)));
  l ← lift (deref NullDeref (listeners w !! li));
  q ← lift (read_at (acceptq l) (app_id app));
  '(accepted, q') ← lift (streamq_dequeue q);
  qs ← lift (write_at (acceptq l) (app_id app) q');
  modify (fun w => w <| listeners := <[li := l <| acceptq := qs |>]> (listeners w) |>);;
  if decide (accepted = NULL) then mret (-1, EAGAIN, None) else
  s ← stream accepted;
  match socket s with
  | None => mret (-1, ENFILE, None)
  | Some i =>
      set_sock i (fun k => k <| sk_stream := accepted |>);;
      k ← sock i;
      set_stream accepted (fun s => s <| id := u32 (sk_id k) |>);;
      set_sock i (fun k => k <| sk_port := dport s |> <| sk_addr := daddr s |>);;
      mret (sk_id k, 0, Some (SockAddr AF_INET (dport s) (daddr s)))
  end.

Context `{!Rss}.

Definition get_rss_core (k : socket_rec) : M W Z :=
  if decide (cf_stack_thread = 0) then throw DivByZero else
  mret (u32 (rte_softrss (ntohl (sk_daddr k)) (ntohl (sk_addr k)) (ntohs (sk_dport k)) (ntohs (sk_port k)))
        `mod` cf_stack_thread).

(** When the flow belongs to another stack thread its connect queue is not part
    of this world: [other] is the answer of that queue. *)
Definition q_connect (app : qapp) (sockid : Z) (addr : option sockaddr_in) (addrlen other : Z)
    : M W (Z * Z) :=
  if out_of_range sockid then mret (ERROR, EBADF) else
  let i := Z.to_nat sockid in
  k ← sock i;
  if decide (socktype k = SOCK_TYPE_UNUSED) then mret (FAILED, EBADF) else
  if decide (socktype k <> SOCK_TYPE_STREAM) then mret (FAILED, ENOTSOCK) else
  match addr with
  | None => mret (ERROR, EFAULT)
  | Some a =>
      if bool_decide (sin_family a <> AF_INET) || bool_decide (addrlen < SOCKADDR_IN_LEN)
      then mret (FAILED, EAFNOSUPPORT) else
      if decide (sk_stream k <> NULL) then
        s ← stream (sk_stream k);
        mret (FAILED, if decide (st_val TCP_ST_ESTABLISHED <= st_val (state s)) then EISCONN else EALREADY)
      else
      set_sock i (fun k => k <| sk_dport := sin_port a |> <| sk_daddr := sin_addr a |>);;
      k ← sock i;
      if negb (bool_decide (Z.land (opts k) SOCK_OPT_ADDR_BIND <> 0)
               && bool_decide (sk_port k <> INPORT_ANY) && bool_decide (sk_addr k <> INADDR_ANY))
      then throw Exit else
      rss_core ← get_rss_core k;
      ret ← (if decide (rss_core = cf_stack_id) then
               w ← get;
               '(ret, q) ← lift (streamq_enqueue (connect_queue w) (app_core app) (socket_ptr i));
               modify (fun w => w <| connect_queue := q |>);; mret ret
             else mret other);
      if decide (ret < 0) then mret (FAILED, EAGAIN) else mret (SUCCESS, EINPROGRESS)
  end.

(** ** Data *)

(** The buffer, its length and [errno]. *)
Definition q_recv (sockid : Z) : M W (ptr * Z * Z) :=
  if out_of_range sockid then mret (NULL, -1, EBADF) else
  k ← sock (Z.to_nat sockid);
  let p := sk_stream k in
  if decide (p = NULL) then mret (NULL, -1, ENOTCONN) else
  s ← stream p;
  if negb (bool_decide (st_val TCP_ST_ESTABLISHED <= st_val (state s))
           && bool_decide (st_val (state s) <= st_val TCP_ST_CLOSE_WAIT))
  then mret (NULL, -1, ENOTCONN) else
  if bool_decide (state s = TCP_ST_CLOSE_WAIT) && bool_decide (rb_merged_len (rcvbuf (rcvvar s)) = 0)
  then mret (NULL, 0, 0) else
  mb ← on_rcvbuf p rb_get;
  '(len, err) ← (if decide (mb <> NULL) then
                   heap (store mb (fun m => m <| mbuf_state := MBUF_STATE_RREAD |>));;
                   m ← heap (load mb); mret (payload_len m, 0)
                 else mret (-1, EAGAIN));
  set_rcv p (fun v => v <| rcv_wnd := u32 (rb_size (rcvbuf v) - rb_merged_len (rcvbuf v)) |>);;
  mret (mb, len, err).

Definition q_send (app : qapp) (sockid : Z) (mbuf : ptr) (len flags : Z) : M W Z :=
  if out_of_range sockid then mret (-1) else
  k ← sock (Z.to_nat sockid);
  if decide (sk_stream k = NULL) then mret (-1) else
  heap (store mbuf (fun m => m <| priority := if has_flag flags QFLAG_SEND_HIGHPRI then 1 else 0 |>));;
  _q_tcp_send (app_core app) sockid mbuf len flags.

(** ** Closing *)

Definition close_stream_socket (app : qapp) (sockid : Z) : M W (Z * Z) :=
  k ← sock (Z.to_nat sockid);
  let p := sk_stream k in
  if decide (p = NULL) then mret (-1, ENOTCONN) else
  s ← stream p;
  if closed s then mret (0, 0) else
  set_stream p (fun s => s <| closed := true |>);;
  if bool_decide (state s <> TCP_ST_ESTABLISHED) && bool_decide (state s <> TCP_ST_CLOSE_WAIT)
  then mret (-1, EBADF) else
  w ← get;
  '(_, q) ← lift (streamq_enqueue (close_queue w) (app_core app) p);
  modify (fun w => w <| close_queue := q |>);;
  set_snd p (fun v => v <| on_closeq := true |>);;
  mret (0, 0).

(** The state of the stream is read before the stream is known to exist. *)
Definition q_close (app : qapp) (sockid : Z) : M W (Z * Z) :=
  if out_of_range sockid then mret (-1, EBADF) else
  k ← sock (Z.to_nat sockid);
  if decide (socktype k <> SOCK_TYPE_STREAM) then mret (-1, EBADF) else
  stream (sk_stream k);;
  close_stream_socket app sockid.

(** The value stored at [argp], if any ([argp] is null when [arg] is false). *)
Definition q_socket_ioctl (sockid request : Z) (arg : bool) : M W (Z * Z * option Z) :=
  if out_of_range sockid then mret (-1, EBADF, None) else
  k ← sock (Z.to_nat sockid);
  if bool_decide (socktype k <> SOCK_TYPE_STREAM) && bool_decide (socktype k <> SOCK_TYPE_LISTENER)
  then mret (-1, EBADF, None) else
  if negb arg then mret (-1, EFAULT, None) else
  if decide (request <> FIONREAD) then mret (-1, EINVAL, None) else
  if decide (sk_stream k = NULL) then mret (-1, EBADF, None) else
  s ← stream (sk_stream k);
  let b := rcvbuf (rcvvar s) in
  mret (0, 0, Some (s32 (merged_next b - head_seq b))).
End Api.
