(* ===== verification/AppCalls.v ===== *)
(** Calls of the application, on the side of the stack thread:
    [handle_close_call], [handle_connect_call] and [handle_app_call] of
    [core.c]. *)
From S2P Require Import Prelude Protocol StaticArp Fifo CircularQueue N21Queue Mbuf RecvBuff SendBuff Stack StreamOps Timer TcpOptions TcpOut TcpIn Api.
#[local] Open Scope Z_scope.

Definition MAX_CLOSE_BATCH : Z := 5.
Definition MAX_CONNECT_BATCH : Z := 5.

Section AppCalls.
Context {HT : Type} `{!Config} `{!RteHash HT}.
Notation W := (world HT).

(** [fss] is the sequence number of the FIN.  A stream that is closed already,
    without having been reset, ends the process ([TRACE_ERR]). *)
Definition handle_close_call (p : ptr) : M W unit :=
  set_snd p (fun v => v <| fss := sb_next_seq (sndbuf v) |>);;
  s ← stream p;
  if have_reset s then
    if decide (state s <> TCP_ST_CLOSED) then
      set_stream p (fun s => s <| close_reason := TCP_RESET |> <| state := TCP_ST_CLOSED |>);;
      tcp_stream_destroy p
    else mret tt
  else if decide (state s <> TCP_ST_CLOSED) then
    (if decide (state s = TCP_ST_ESTABLISHED) then
       set_stream p (fun s => s <| state := TCP_ST_FIN_WAIT_1 |>)
     else when (bool_decide (state s = TCP_ST_CLOSE_WAIT))
            (set_stream p (fun s => s <| state := TCP_ST_LAST_ACK |>)));;
    control_queue_add p;; mret tt
  else throw Exit.

(** [i] is the socket the application connects.  Connecting without a bound
    address is not implemented ([TRACE_TODO]). *)
Definition handle_connect_call (i : nat) : M W unit :=
  k ← sock i;
  if bool_decide (sk_port k = INPORT_ANY) || bool_decide (sk_addr k = INADDR_ANY) then throw Exit else
  p ← tcp_stream_create (Some i) (sk_addr k) (sk_port k) (sk_daddr k) (sk_dport k) 0;
  set_snd p (fun v => v <| cwnd := 1 |>);;
  set_snd p (fun v => v <| ssthresh := mss v * 10 |>);;
  ha ← lift (get_dst_hwaddr cf_sarp (sk_daddr k));
  set_stream p (fun s => s <| dhw_addr := ha |>);;
  set_stream p (fun s => s <| state := TCP_ST_SYN_SENT |>);;
  control_queue_add p;; mret tt.

(** One round of each loop: whether a call was dequeued. *)
Definition close_one : M W bool :=
  w ← get;
  '(p, q) ← lift (streamq_dequeue (close_queue w));
  modify (fun w => w <| close_queue := q |>);;
  if decide (p = NULL) then mret false else handle_close_call p;; mret true.

Definition connect_one : M W bool :=
  w ← get;
  '(p, q) ← lift (streamq_dequeue (connect_queue w));
  modify (fun w => w <| connect_queue := q |>);;
  if decide (p = NULL) then mret false else handle_connect_call (ptr_socket p);; mret true.

(** [while (cnt < batch && (... = streamq_dequeue(...)) != NULL)]; [n] is
    [batch - cnt]. *)
Fixpoint while_one (n : nat) (m : M W bool) : M W unit :=
  match n with
  | O => mret tt
  | S n' => go ← m; if (go : bool) then while_one n' m else mret tt
  end.

Definition handle_app_call : M W unit :=
  while_one (Z.to_nat MAX_CLOSE_BATCH) close_one;;
  while_one (Z.to_nat MAX_CONNECT_BATCH) connect_one.
End AppCalls.
