(* ===== verification/RedisClient.v ===== *)
(** The database client of the IoT server ([apps/redis/connect.c], [redis.c]): it
    keeps several numbered databases in one key space by putting the number before
    the key, and copies keys and values through arrays of fixed size.

    The redis server is a parameter, [RedisServer], with the documented behaviour of
    GET and SET as its laws, [RedisLaws].  Strings are lists of characters without
    the zero at the end; arrays are lists of characters. *)
From S2P Require Import Prelude Configuration ConfigurationCorrect.
#[local] Open Scope Z_scope.

Module Redis.

(** What [redisCommand] returns: nothing ([NULL]) when the connection is broken, or
    a reply by its [type]. *)
Inductive reply : Type := RString (s : list Z) | RNil | RStatus (s : list Z) | RError (s : list Z) | ROther.
Class RedisServer (DB : Type) : Type := {
  command_get : list Z -> DB -> option reply * DB;
  command_set : list Z -> list Z -> DB -> option reply * DB;
}.

(** ** C strings in arrays *)
Fixpoint c_string (a : list Z) : res (list Z) :=
  match a with
  | [] => Fault OutOfBounds
  | c :: a' => if decide (c = 0) then Ok [] else s ← c_string a'; Ok (c :: s)
  end.
Definition strcpy (dst src : list Z) : res (list Z) :=
  if decide (length src < length dst)%nat then Ok (src ++ 0 :: drop (S (length src)) dst) else Fault OutOfBounds.
Definition nil_string : list Z := [110; 105; 108].
Definition redirection : list Z := [114; 101; 100; 105; 114; 101; 99; 116; 105; 111; 110].
Definition MOVED : list Z := [77; 79; 86; 69; 68].

(** What follows the first [c] in a string: [strchr] and an increment. *)
Fixpoint after_char (c : Z) (s : list Z) : option (list Z) :=
  match s with [] => None | x :: s' => if decide (x = c) then Some s' else after_char c s' end.

(** The parts of a redirection are only looked at; the port is copied into an array
    of [sizeof(char * ) + 1] characters. *)
Definition __set_redirect (str : list Z) : res unit :=
  slot ← deref NullDeref (after_char 32 str);
  ip ← deref NullDeref (after_char 32 slot);
  port ← deref NullDeref (after_char 58 ip);
  strcpy (replicate 9 0) port;;
  Ok tt.

(** [sprintf] with %d. *)
Definition print_int (n : Z) : list Z := if decide (n < 0) then 45 :: decimal (- n) else decimal n.

(** [sprintf(localKey, "%d\b%s", dbnum, key)] on an array of 35 characters. *)
Definition local_key (dbnum : Z) (key : list Z) : res (list Z) :=
  let s := print_int dbnum ++ 8 :: key in
  if decide (length s < 35)%nat then Ok s else Fault OutOfBounds.

Section Client.
Context {DB : Type} `{!RedisServer DB}.

Definition redisCommand_get (key : list Z) : M DB reply := fun d =>
  let '(r, d) := command_get key d in (fun r => (r, d)) <$> deref NullDeref r.
Definition redisCommand_set (key value : list Z) : M DB reply := fun d =>
  let '(r, d) := command_set key value d in (fun r => (r, d)) <$> deref NullDeref r.

Definition __set_nodb (key value : list Z) : M DB Z :=
  r ← redisCommand_set key value;
  match r with
  | RString _ | RStatus _ => mret 0
  | RError s => when (bool_decide (take 5 s = MOVED)) (lift (__set_redirect s));; mret (-1)
  | RNil | ROther => mret (-1)
  end.
Definition __set_withdb (key value : list Z) (dbnum : Z) : M DB Z :=
  k ← lift (local_key dbnum key); __set_nodb k value.

(** The array [get_in_value] is an argument and a result. *)
Definition __get_nodb (key get_in_value : list Z) : M DB (Z * list Z) :=
  r ← redisCommand_get key;
  match r with
  | RString s => a ← lift (strcpy get_in_value s); mret (0, a)
  | RNil => a ← lift (strcpy get_in_value nil_string); mret (0, a)
  | RError s => if decide (take 5 s = MOVED) then a ← lift (strcpy get_in_value redirection); mret (-1, a)
                else mret (-1, get_in_value)
  | RStatus _ | ROther => mret (-1, get_in_value)
  end.
Definition __get_withdb (key get_in_value : list Z) (dbnum : Z) : M DB (Z * list Z) :=
  k ← lift (local_key dbnum key); __get_nodb k get_in_value.
End Client.

(** ** The documented behaviour of the server

    A reachable server that holds strings and evicts nothing: a finite map. *)
Class RedisLaws (DB : Type) `{!RedisServer DB} : Type := {
  stored : DB -> gmap (list Z) (list Z);
  command_get_law k d : command_get k d = (Some (match stored d !! k with Some v => RString v | None => RNil end), d);
  command_set_law k v d : exists s d', command_set k v d = (Some (RStatus s), d') /\ stored d' = <[k := v]> (stored d);
}.
End Redis.
Import Redis.

(** ** Strings in arrays *)

(** A string has no zero in it. *)
Definition is_string (s : list Z) : Prop := 0 ∉ s.

Lemma string_check s : bool_decide (0 ∉ s) = true -> is_string s.
Proof. apply bool_decide_eq_true_1. Qed.
Lemma c_string_app s a : is_string s -> c_string (s ++ 0 :: a) = Ok s.
Proof.
  unfold is_string. induction s as [|c s IH]; intros Hs; [done|]. cbn [app c_string].
  rewrite decide_False by set_solver. rewrite IH by set_solver. done.
Qed.
Lemma strcpy_string dst src : is_string src -> (length src < length dst)%nat ->
  exists a, strcpy dst src = Ok a /\ c_string a = Ok src /\ length a = length dst.
Proof.
  intros Hs Hl. unfold strcpy. rewrite decide_True by done. eexists. split; [done|]. split; [by apply c_string_app|].
  rewrite length_app. cbn [length]. rewrite length_drop. lia.
Qed.

(** ** The keys of different databases are different *)
Lemma digit_not_bs ds : forallb Configuration.isdigit ds = true -> 8 ∉ ds.
Proof. induction ds as [|c ds IH]; cbn [forallb]; [set_solver|]. intros [Hc Hd]%andb_true_iff. apply not_elem_of_cons. split; [|by apply IH]. by intros <-. Qed.

Lemma app_cons_inj (x : Z) l1 l2 k1 k2 : x ∉ l1 -> x ∉ l2 -> l1 ++ x :: k1 = l2 ++ x :: k2 -> l1 = l2 /\ k1 = k2.
Proof.
  revert l2. induction l1 as [|a l1 IH]; intros l2 H1 H2 E; destruct l2 as [|b l2]; cbn [app] in E.
  - split; [done | congruence].
  - injection E as -> _. by destruct H2; left.
  - injection E as -> _. by destruct H1; left.
  - injection E as -> E. apply not_elem_of_cons in H1 as [_ H1], H2 as [_ H2]. by destruct (IH l2 H1 H2 E) as [-> ->].
Qed.

Lemma print_nat n : 0 <= n -> print_int n = decimal n.
Proof. intros Hn. unfold print_int. by rewrite decide_False by lia. Qed.
Lemma local_key_eq n k s : local_key n k = Ok s -> s = print_int n ++ 8 :: k.
Proof. unfold local_key. case_decide; [by intros [= <-] | done]. Qed.
Lemma local_key_inj n k n' k' s : 0 <= n < 2 ^ 31 -> 0 <= n' < 2 ^ 31 ->
  local_key n k = Ok s -> local_key n' k' = Ok s -> n = n' /\ k = k'.
Proof.
  intros Hn Hn' H H'. apply local_key_eq in H, H'. subst s. rewrite !print_nat in H' by lia.
  destruct (decimal_ok n ltac:(lia)) as (Hv & Hd & _). destruct (decimal_ok n' ltac:(lia)) as (Hv' & Hd' & _).
  destruct (app_cons_inj 8 (decimal n) (decimal n') k k') as [E ->]; [by apply digit_not_bs.. | done|].
  split; [|done]. by rewrite <- Hv, <- Hv', E.
Qed.

(** The keys of sockets fit the array. *)
Lemma local_key_fits n i : 0 <= n < 2 ^ 31 -> 0 <= i < 2 ^ 31 -> exists s, local_key n (print_int i) = Ok s.
Proof.
  intros Hn Hi. destruct (decimal_ok n ltac:(lia)) as (_ & _ & _ & Hl). destruct (decimal_ok i ltac:(lia)) as (_ & _ & _ & Hl').
  unfold local_key. rewrite !print_nat, decide_True by (lia || (rewrite length_app; cbn [length]; lia)). by eexists.
Qed.

Section Laws.
Context {DB : Type} `{!RedisServer DB, !RedisLaws DB}.

(** The value of a key in a database, as the client shows it. *)
Definition shown (k : list Z) (d : DB) : list Z := default nil_string (stored d !! k).

Lemma get_run k arr d : is_string (shown k d) -> (length (shown k d) < length arr)%nat ->
  exists a, __get_nodb k arr d = Ok ((0, a), d) /\ c_string a = Ok (shown k d) /\ length a = length arr.
Proof.
  unfold shown, __get_nodb, redisCommand_get. intros Hs Hl. destruct (strcpy_string arr _ Hs Hl) as (a & Ha & Hc & Hla). exists a.
  split; [|done]. unfold mbind at 1, M_bind. rewrite command_get_law. cbn. destruct (stored d !! k); cbn in Ha; by rewrite Ha.
Qed.
Lemma set_run k v d : exists d', __set_nodb k v d = Ok (0, d') /\ stored d' = <[k := v]> (stored d).
Proof.
  destruct (command_set_law k v d) as (s & d' & He & Hs). exists d'. split; [|done].
  unfold __set_nodb, redisCommand_set, mbind, M_bind. by rewrite He.
Qed.

(** A lookup that goes through the array of the local key. *)
Lemma get_withdb_run n k s arr d : local_key n k = Ok s -> is_string (shown s d) -> (length (shown s d) < length arr)%nat ->
  exists a, __get_withdb k arr n d = Ok ((0, a), d) /\ c_string a = Ok (shown s d) /\ length a = length arr.
Proof. intros Hk Hs Hl. unfold __get_withdb. erewrite bind_ok by (by apply lift_ok). by apply get_run. Qed.
Lemma set_withdb_run n k s v d : local_key n k = Ok s ->
  exists d', __set_withdb k v n d = Ok (0, d') /\ stored d' = <[s := v]> (stored d).
Proof. intros Hk. unfold __set_withdb. erewrite bind_ok by (by apply lift_ok). apply set_run. Qed.
End Laws.

(** The numbered databases are separate.  Storing a value under a key of a
    database succeeds, and afterwards a look-up of any key in any database succeeds
    and gives this value for this key in this database, and for every other key, or
    the same key in another database, what it gave before: as long as keys fit the
    35 characters of the local array and values the array of the caller. *)
Theorem databases_separate {DB} `{!RedisServer DB, !RedisLaws DB} n k v s d n' k' s' arr :
  0 <= n < 2 ^ 31 -> 0 <= n' < 2 ^ 31 -> local_key n k = Ok s -> local_key n' k' = Ok s' ->
  is_string v -> (length v < length arr)%nat ->
  is_string (shown s' d) -> (length (shown s' d) < length arr)%nat ->
  exists d' a, __set_withdb k v n d = Ok (0, d') /\ __get_withdb k' arr n' d' = Ok ((0, a), d') /\
    c_string a = Ok (if decide ((n, k) = (n', k')) then v else shown s' d).
Proof.
  intros Hn Hn' Hk Hk' Hv Hlv Hs Hls. destruct (set_withdb_run n k s v d Hk) as (d' & Hset & Hd').
  assert (shown s' d' = if decide ((n, k) = (n', k')) then v else shown s' d) as Hsh.
  { unfold shown. rewrite Hd'. case_decide as E.
    - injection E as <- <-. rewrite Hk in Hk'. injection Hk' as <-. by rewrite lookup_insert_eq.
    - rewrite lookup_insert_ne; [done|]. intros <-. apply E. by destruct (local_key_inj n k n' k' s Hn Hn' Hk Hk') as [-> ->]. }
  destruct (get_withdb_run n' k' s' arr d' Hk') as (a & Ha & Hc & _); [by rewrite Hsh; case_decide.. |].
  exists d', a. by rewrite <- Hsh.
Qed.

(** *** A server that is a finite map *)
#[export] Instance map_server : RedisServer (gmap (list Z) (list Z)) := {|
  command_get k d := (Some (match d !! k with Some v => RString v | None => RNil end), d);
  command_set k v d := (Some (RStatus [79; 75]), <[k := v]> d);
|}.
#[export] Instance map_server_laws : RedisLaws (gmap (list Z) (list Z)).
Proof. refine {| stored d := d |}; [done|]. intros k v d. by eexists _, _. Defined.

Lemma databases_separate_witness :
  exists d' a, __set_withdb [55] [65; 66] 1 (∅ : gmap (list Z) (list Z)) = Ok (0, d') /\
    __get_withdb [55] (replicate 80 7) 2 d' = Ok ((0, a), d') /\ c_string a = Ok nil_string.
Proof.
  refine (databases_separate 1 [55] [65; 66] [49; 8; 55] (∅ : gmap (list Z) (list Z)) 2 [55] [50; 8; 55] (replicate 80 7) _ _ _ _ _ _ _ _);
    [lia | lia | reflexivity | reflexivity | by apply string_check | vm_compute; lia | by apply string_check | vm_compute; lia].
Defined.
