(* ===== verification/IotServer.v ===== *)
(** The IoT server ([apps/iotepserver.c]): server threads receive requests on their
    connections and forward them to worker threads through ring buffers, one for
    queries (requests of high priority) and one for updates per worker; a worker
    serves its queries first.

    The worker's database is that of [RedisClient]; the bytes of a received segment
    are arguments, since the packet buffers of [Mbuf] do not hold them.  The calls
    of [qepoll_ctl] a server makes are recorded. *)
From S2P Require Import Prelude Protocol StaticArp Fifo CircularQueue N21Queue Mbuf RecvBuff SendBuff Stack StreamOps Timer TcpOptions TcpOut TcpIn Api RedisClient.
Import Redis.
#[local] Open Scope Z_scope.

Module Iot.

Definition CAP_REDIS_BUFFER : Z := 1024 * 100.

Record ForwardPkt : Type := Pkt { sock_id : Z; core_id : Z; fp_mbuf : ptr; payload : list Z }.
#[export] Instance ForwardPkt_rebuild : Rebuild ForwardPkt := fun p => Pkt (sock_id p) (core_id p) (fp_mbuf p) (payload p).

Record ForwardPktBuffer : Type := FBuf { pktQueue : list ForwardPkt; _size : Z; _head : Z; _tail : Z }.
#[export] Instance ForwardPktBuffer_rebuild : Rebuild ForwardPktBuffer := fun b =>
  FBuf (pktQueue b) (_size b) (_head b) (_tail b).

(** ** The ring buffers *)
Definition initForwardBuffer (b : ForwardPktBuffer) : ForwardPktBuffer :=
  b <| pktQueue ::= fmap (fun p => p <| sock_id := 0 |> <| core_id := 0 |>) |>
    <| _head := 0 |> <| _tail := 0 |> <| _size := 0 |>.

(** The index of the first packet, and of the first free slot. *)
Definition head_slot (b : ForwardPktBuffer) : Z := Z.rem (_head b) CAP_REDIS_BUFFER.
Definition headNext (b : ForwardPktBuffer) : ForwardPktBuffer :=
  b <| _head := Z.rem (_head b + 1) CAP_REDIS_BUFFER |>.
Definition tail_slot (b : ForwardPktBuffer) : Z := Z.rem (_tail b) CAP_REDIS_BUFFER.
Definition tailNext (b : ForwardPktBuffer) : ForwardPktBuffer :=
  b <| _tail := Z.rem (_tail b + 1) CAP_REDIS_BUFFER |>.

(** Without [STATISTIC_FORWARD_BUFF_LEN] this tells only whether there is one. *)
Definition forwardBufferSize (b : ForwardPktBuffer) : bool := bool_decide (_head b <> _tail b).
Definition forwardBufferFull (b : ForwardPktBuffer) : bool :=
  bool_decide (Z.rem (_tail b + 1) CAP_REDIS_BUFFER = _head b).

(** ** A server thread *)

(** [strncpy]: up to [n] characters, filled up with zeros. *)
Fixpoint strncpy (n : nat) (s : list Z) : list Z :=
  match n, s with
  | O, _ => []
  | S n', c :: s' => if decide (c = 0) then replicate n 0 else c :: strncpy n' s'
  | S n', [] => replicate n 0
  end.

(** [while (forwardBufferFull(...)) i = (i + 1) % worker_per_server], from worker
    [i] of server [id], on one state of the buffers. *)
Fixpoint find_worker (fuel : nat) (workers id i : Z) (bufs : list ForwardPktBuffer) : res Z :=
  match fuel with
  | O => Fault NoReturn
  | S fuel' =>
      b ← read_at bufs (i + id * workers);
      if forwardBufferFull b then
        if decide (workers = 0) then Fault DivByZero else find_worker fuel' workers id (Z.rem (i + 1) workers) bufs
      else Ok i
  end.

(** One branch of [HandleReadEvent]: the packet goes to the next worker with room,
    and the server remembers the worker after it. *)
Definition forward (workers id : Z) (pkt : ForwardPkt) (bufs : list ForwardPktBuffer) (pos : list Z)
    : res (list ForwardPktBuffer * list Z) :=
  i ← read_at pos id;
  let i := if bool_decide (i = 0) || bool_decide (workers <= i) then 0 else i in
  i ← find_worker (S (Z.to_nat workers)) workers id i bufs;
  let index := i + id * workers in
  b ← read_at bufs index;
  cells ← write_at (pktQueue b) (tail_slot b) pkt;
  bufs ← write_at bufs index (tailNext (b <| pktQueue := cells |>));
  let i := if decide (i + 1 = workers) then 0 else i + 1 in
  pos ← write_at pos id i;
  Ok (bufs, pos).

Inductive ctl : Type := CtlAdd (efd sockid : Z) | CtlDel (efd sockid : Z).

(** The stack as the application sees it, the forward buffers, and the calls of
    [qepoll_ctl] made so far. *)
Record iot {HT : Type} : Type := IotState {
  i_world : world HT;
  forwardQuery : list ForwardPktBuffer;
  forwardUpdate : list ForwardPktBuffer;
  pos_query : list Z;
  pos_update : list Z;
  i_ctls : list ctl;
}.
Arguments iot HT : clear implicits.
#[export] Instance iot_rebuild {HT} : Rebuild (iot HT) := fun s =>
  IotState _ (i_world s) (forwardQuery s) (forwardUpdate s) (pos_query s) (pos_update s) (i_ctls s).

Section Server.
Context {HT : Type} `{!Config}.
Context (workers : Z).          (* worker_per_server *)

Definition on_stack {A} (m : M (world HT) A) : M (iot HT) A := fun s =>
  '(a, w) ← m (i_world s); Ok (a, s <| i_world := w |>).
Definition qepoll_ctl (c : ctl) : M (iot HT) unit := modify (fun s => s <| i_ctls ::= fun l => l ++ [c] |>).

(** [buf] are the bytes of the segment; the length is an [uint32_t]. *)
Definition HandleReadEvent (app : qapp) (sockid pri core : Z) (buf : list Z) : M (iot HT) Z :=
  '(mbuf, len, _) ← on_stack (q_recv sockid);
  when (bool_decide (u32 len = 0)) (on_stack (q_close app sockid);; mret tt);;
  if decide (mbuf = NULL) then mret (s32 len) else
  s ← get;
  let pkt := Pkt sockid core mbuf (strncpy 6 buf) in
  (if decide (pri <> 0) then
     '(bufs, pos) ← lift (forward workers (app_id app) pkt (forwardQuery s) (pos_query s));
     modify (fun s => s <| forwardQuery := bufs |> <| pos_query := pos |>)
   else
     '(bufs, pos) ← lift (forward workers (app_id app) pkt (forwardUpdate s) (pos_update s));
     modify (fun s => s <| forwardUpdate := bufs |> <| pos_update := pos |>));;
  on_stack (heap (q_free_mbuf (Some (app_core app)) mbuf));;
  mret (s32 len).

Definition qstack_closeConn (app : qapp) (sockid : Z) : M (iot HT) unit := qepoll_ctl (CtlDel (app_id app) sockid).

Definition qstack_acceptConn (app : qapp) (efd listener : Z) : M (iot HT) Z :=
  '(c, _, _) ← on_stack (q_accept app listener);
  if decide (0 <= c) then
    if decide (cf_max_concurrency <= c) then throw Exit else
    qepoll_ctl (CtlAdd efd c);; mret c
  else mret c.

(** An event: its socket, its [events] mask and priority, the bytes received, and
    the [errno] of a failed read. *)
Record event : Type := Ev { e_fd : Z; e_events : Z; e_pri : Z; e_buf : list Z; e_errno : Z }.

Definition has (ev : event) (flag : Z) : bool := bool_decide (Z.land (e_events ev) flag <> 0).

(** The body of the loop of [RunServerThread]. *)
Definition serve_event (app : qapp) (efd listener : Z) (ev : event) : M (iot HT) unit :=
  let sockid := e_fd ev in
  if decide (sockid = listener) then qstack_acceptConn app efd listener;; mret tt
  else if has ev Q_EPOLLERR then mret tt
  else if has ev Q_EPOLLIN then
    ret ← HandleReadEvent app sockid (e_pri ev) (app_core app) (e_buf ev);
    if decide (ret = 0) then qstack_closeConn app sockid
    else when (bool_decide (ret < 0) && bool_decide (e_errno ev ∉ [EAGAIN; 4])) (qstack_closeConn app sockid)
  else if has ev Q_EPOLLOUT then mret tt
  else throw AssertFail.
End Server.

(** ** A worker thread *)

Section Worker.
Context {HT : Type} `{!Config} {DB : Type} `{!RedisServer DB}.

(** A worker works on its own two buffers. *)
Record worker : Type := Worker {
  w_world : world HT; w_query : ForwardPktBuffer; w_update : ForwardPktBuffer; w_db : DB; responses : Z;
}.
#[export] Instance worker_rebuild : Rebuild worker := fun s =>
  Worker (w_world s) (w_query s) (w_update s) (w_db s) (responses s).

Definition on_db {A} (m : M DB A) : M worker A := fun s =>
  '(a, d) ← m (w_db s); Ok (a, s <| w_db := d |>).

(** The local array [value] has room for [VALUE_LEN] characters, first whatever the
    stack holds, [value0]. *)
Definition VALUE_LEN : nat := 80.

Definition queryDatabase (key cmpValue : list Z) (database : Z) (value0 : list Z) : M worker Z :=
  '(error, value) ← on_db (__get_withdb key (take VALUE_LEN value0) database);
  if decide (error = 0) then
    v ← lift (c_string value);
    when (bool_decide (v = nil_string)) (on_db (__set_withdb key cmpValue database);; mret tt);;
    mret 1
  else mret 0.

(** [cmpValue] is an array that should hold a string. *)
Definition simpQuerytest (key cmpValue value0 : list Z) : M worker Z :=
  '(error, value) ← on_db (__get_withdb key (take VALUE_LEN value0) 1);
  if decide (error = 0) then
    v ← lift (c_string value);
    value ← (if decide (v = nil_string) then
               c ← lift (c_string cmpValue);
               on_db (__set_withdb key c 1);; mret value
             else
               x ← lift (read_at value 0);
               value ← lift (write_at value 0 (u8 (x + 1)));
               v ← lift (c_string value);
               on_db (__set_withdb key v 1);; mret value);
    on_db (__get_withdb key value 2);;
    mret 1
  else mret 0.

(** The loop of [redis_warkup] from [sockid] on, and the whole for server [sid];
    [max_socket] is [MAX_SOCKET_PSTACK]. *)
Fixpoint warm_loop (n : nat) (sockid : Z) (value0 : list Z) : M worker unit :=
  match n with
  | O => mret tt
  | S n' =>
      queryDatabase (print_int sockid) [50] 1 value0;;
      queryDatabase (print_int sockid) [52] 2 value0;;
      warm_loop n' (sockid + 1) value0
  end.
Definition redis_warkup (do_warmup max_socket sid : Z) (value0 : list Z) : M worker unit :=
  if decide (do_warmup = 0) then mret tt else warm_loop (Z.to_nat max_socket) (sid * max_socket) value0.

Definition on_net {A} (m : M (world HT) A) : M worker A := fun s =>
  '(a, w) ← m (w_world s); Ok (a, s <| w_world := w |>).

(** The slot stays in use after [headNext].  [wmbuf] is what [q_get_wmbuf]
    returns. *)
Definition process_requests (app : qapp) (wmbuf : ptr) (value0 : list Z) : M worker unit :=
  s ← get;
  let slot := head_slot (w_query s) in
  req ← lift (read_at (pktQueue (w_query s)) slot);
  let sockid := sock_id req in
  modify (fun s => s <| w_query ::= headNext |>);;
  s ← get;
  req ← lift (read_at (pktQueue (w_query s)) slot);
  simpQuerytest (print_int sockid) (payload req) value0;;
  if decide (wmbuf = NULL) then throw NullDeref else
  ret ← on_net (q_send app sockid wmbuf 146 0);
  when (bool_decide (ret = 146)) (modify (fun s => s <| responses ::= Z.add 1 |>)).

Definition process_updates (value0 : list Z) : M worker unit :=
  s ← get;
  let slot := head_slot (w_update s) in
  req ← lift (read_at (pktQueue (w_update s)) slot);
  let sockid := sock_id req in
  modify (fun s => s <| w_update ::= headNext |>);;
  s ← get;
  req ← lift (read_at (pktQueue (w_update s)) slot);
  simpQuerytest (print_int sockid) (payload req) value0;;
  mret tt.
End Worker.

(** *** A server and a worker on one buffer

    Both threads cut at their accesses to the shared memory.  The server fills a
    slot field by field and then publishes it; the worker initialises the buffer,
    while the server may already be at work, and then, over and over, reads the
    socket of a request, gives the slot back, and reads the payload only then. *)
Inductive server_pc : Type :=
  | PIdle
  | PFill (pkt : ForwardPkt)                (* the buffer was seen not full *)
  | PStore (slot : Z) (pkt : ForwardPkt)    (* [tail] gave the slot *)
  | PPayload (slot : Z) (pkt : ForwardPkt)  (* the socket is stored *)
  | PPublish (pkt : ForwardPkt)             (* the payload, too *)
  | PMove (pkt : ForwardPkt) (t : Z).       (* [tailNext] has read the tail *)
Inductive client_pc : Type :=
  | CZeroSock (j : Z)                 (* initForwardBuffer: the socket of slot j *)
  | CZeroCore (j : Z)                 (* the core of slot j *)
  | CSetTail                          (* _tail = 0, after _size = 0 *)
  | CSetHead                          (* _head = 0 *)
  | CIdle
  | CTake                             (* the buffer was seen not empty *)
  | CRelease (slot sockid : Z)        (* the socket was read *)
  | CUse (slot sockid : Z).           (* the slot was given back *)

Record ring : Type := Ring {
  r_buf : ForwardPktBuffer;
  r_prod : server_pc;
  r_cons : client_pc;
  forwarded : list ForwardPkt;
  served : list (Z * list Z);
}.

Inductive relay_step : ring -> ring -> Prop :=
  | SRoom b c f v pkt : forwardBufferFull b = false ->
      relay_step (Ring b PIdle c f v) (Ring b (PFill pkt) c f v)
  | STail b c f v pkt :
      relay_step (Ring b (PFill pkt) c f v) (Ring b (PStore (tail_slot b) pkt) c f v)
  | SFill b c f v slot pkt x cells : read_at (pktQueue b) slot = Ok x ->
      write_at (pktQueue b) slot (pkt <| payload := payload x |>) = Ok cells ->
      relay_step (Ring b (PStore slot pkt) c f v) (Ring (b <| pktQueue := cells |>) (PPayload slot pkt) c f v)
  | SPayload b c f v slot pkt x cells : read_at (pktQueue b) slot = Ok x ->
      write_at (pktQueue b) slot (x <| payload := payload pkt |>) = Ok cells ->
      relay_step (Ring b (PPayload slot pkt) c f v) (Ring (b <| pktQueue := cells |>) (PPublish pkt) c f v)
  | SReadTail b c f v pkt : relay_step (Ring b (PPublish pkt) c f v) (Ring b (PMove pkt (_tail b)) c f v)
  | SPublish b c f v pkt t :
      relay_step (Ring b (PMove pkt t) c f v)
        (Ring (b <| _tail := Z.rem (t + 1) CAP_REDIS_BUFFER |>) PIdle c (f ++ [pkt]) v)
  | IZeroSock b p f v j x cells : j < CAP_REDIS_BUFFER -> read_at (pktQueue b) j = Ok x ->
      write_at (pktQueue b) j (x <| sock_id := 0 |>) = Ok cells ->
      relay_step (Ring b p (CZeroSock j) f v) (Ring (b <| pktQueue := cells |>) p (CZeroCore j) f v)
  | IZeroCore b p f v j x cells : read_at (pktQueue b) j = Ok x ->
      write_at (pktQueue b) j (x <| core_id := 0 |>) = Ok cells ->
      relay_step (Ring b p (CZeroCore j) f v) (Ring (b <| pktQueue := cells |>) p (CZeroSock (j + 1)) f v)
  | ISize b p f v j : CAP_REDIS_BUFFER <= j ->
      relay_step (Ring b p (CZeroSock j) f v) (Ring (b <| _size := 0 |>) p CSetTail f v)
  | ITail b p f v : relay_step (Ring b p CSetTail f v) (Ring (b <| _tail := 0 |>) p CSetHead f v)
  | IHead b p f v : relay_step (Ring b p CSetHead f v) (Ring (b <| _head := 0 |>) p CIdle f v)
  | CSome b p f v : forwardBufferSize b = true -> relay_step (Ring b p CIdle f v) (Ring b p CTake f v)
  | CRead b p f v x : read_at (pktQueue b) (head_slot b) = Ok x ->
      relay_step (Ring b p CTake f v) (Ring b p (CRelease (head_slot b) (sock_id x)) f v)
  | CNext b p f v slot sockid : relay_step (Ring b p (CRelease slot sockid) f v) (Ring (headNext b) p (CUse slot sockid) f v)
  | CPayload b p f v slot sockid x : read_at (pktQueue b) slot = Ok x ->
      relay_step (Ring b p (CUse slot sockid) f v) (Ring b p CIdle f (v ++ [(sockid, payload x)])).

(** The server and the worker at the start; the buffer is static memory. *)
Definition boot_ring (b : ForwardPktBuffer) : ring := Ring b PIdle (CZeroSock 0) [] [].

(** *** The loop of [redis_requests]

    [WQuery] and [WUpdate] are the tests of the two outer loops, [WAgain] that of
    the inner loop after an update.  The lengths of the queues grow whenever the
    server forwards something. *)
Inductive worker_pc : Type := WQuery | WUpdate | WAgain.
Inductive label : Type := Query | Update | Arrive | Test.
Record loop_state : Type := Loop { l_pc : worker_pc; l_queries : nat; l_updates : nat }.

Inductive loop_step : loop_state -> label -> loop_state -> Prop :=
  | LQuery q u : loop_step (Loop WQuery (S q) u) Query (Loop WQuery q u)
  | LNoQuery u : loop_step (Loop WQuery 0 u) Test (Loop WUpdate 0 u)
  | LUpdate q u : loop_step (Loop WUpdate q (S u)) Update (Loop WAgain q u)
  | LNoUpdate q : loop_step (Loop WUpdate q 0) Test (Loop WQuery q 0)
  | LAgain q u : loop_step (Loop WAgain (S q) u) Query (Loop WAgain q u)
  | LAgainNone u : loop_step (Loop WAgain 0 u) Test (Loop WUpdate 0 u)
  | LNewQuery pc q u : loop_step (Loop pc q u) Arrive (Loop pc (S q) u)
  | LNewUpdate pc q u : loop_step (Loop pc q u) Arrive (Loop pc q (S u)).
End Iot.
