(* ===== verification/IotServerCorrect.v ===== *)
(** Correctness of the IoT server: requests forwarded since the worker initialised
    its buffer reach it intact and in order, however the two interleave; a request goes to the first worker with
    room and to no other; a query waits for one update at most. *)
From S2P Require Import Prelude Protocol StaticArp Fifo CircularQueue N21Queue Mbuf RecvBuff SendBuff Stack StreamOps Timer TcpOptions TcpOut TcpIn Api RedisClient IotServer.
Import Iot Redis.
#[local] Open Scope Z_scope.

Section Ring.

(** The size of the buffers as a natural number. *)
Context (cap : nat) (cap_eq : CAP_REDIS_BUFFER = Z.of_nat cap) (cap_pos : (1 < cap)%nat).
#[local] Opaque CAP_REDIS_BUFFER.

(** ** Slots *)

(** The slot of the [i]-th packet. *)
Definition slot_of (i : nat) : nat := (i `mod` cap)%nat.

Lemma slot_lt i : (slot_of i < cap)%nat.
Proof. apply Nat.mod_upper_bound. lia. Qed.
Lemma slot_rem i : Z.rem (Z.of_nat i) CAP_REDIS_BUFFER = Z.of_nat (slot_of i).
Proof. rewrite cap_eq, Z.rem_mod_nonneg by lia. by rewrite <- Nat2Z.inj_mod. Qed.
Lemma slot_slot i : slot_of (slot_of i) = slot_of i.
Proof. unfold slot_of. apply Nat.Div0.mod_mod. Qed.
Lemma slot_next i : Z.rem (Z.of_nat (slot_of i) + 1) CAP_REDIS_BUFFER = Z.of_nat (slot_of (S i)).
Proof.
  replace (Z.of_nat (slot_of i) + 1) with (Z.of_nat (S (slot_of i))) by lia. rewrite slot_rem. f_equal.
  unfold slot_of. rewrite <- (Nat.add_1_r (_ `mod` _)), <- (Nat.add_1_r i). by rewrite Nat.Div0.add_mod_idemp_l.
Qed.

(** Packets less than a round apart have different slots. *)
Lemma slot_inj i j : slot_of i = slot_of j -> (i <= j < i + cap)%nat -> i = j.
Proof.
  unfold slot_of. intros Hs Hj.
  pose proof (Nat.div_mod_eq i cap). pose proof (Nat.div_mod_eq j cap).
  assert (j - i = cap * (j / cap - i / cap))%nat by nia.
  assert (j / cap - i / cap = 0)%nat by nia. nia.
Qed.

(** ** A buffer after [f] removals and [k] insertions *)
Record buf_at (f k : nat) (b : ForwardPktBuffer) : Prop := {
  ba_len : length (pktQueue b) = cap;
  ba_head : _head b = Z.of_nat (slot_of f);
  ba_tail : _tail b = Z.of_nat (slot_of k);
  ba_room : (f <= k < f + cap)%nat;
}.

Lemma full_at f k b : buf_at f k b -> forwardBufferFull b = bool_decide (S k = f + cap)%nat.
Proof.
  intros [_ Hh Ht Hr]. unfold forwardBufferFull. rewrite Hh, Ht, slot_next. apply bool_decide_ext. rewrite Nat2Z.inj_iff. split.
  - intros Hs. destruct (decide (S k = f + cap)%nat); [done|]. symmetry in Hs. apply slot_inj in Hs; lia.
  - intros ->. unfold slot_of. rewrite <- (Nat.mul_1_l cap) at 1. apply Nat.Div0.mod_add.
Qed.
Lemma size_at f k b : buf_at f k b -> forwardBufferSize b = bool_decide (f <> k).
Proof.
  intros [_ Hh Ht Hr]. unfold forwardBufferSize. rewrite Hh, Ht. apply bool_decide_ext.
  rewrite Nat2Z.inj_iff. split; [congruence|]. intros Hne Hs. by apply slot_inj in Hs.
Qed.
Lemma tail_slot_at f k b : buf_at f k b -> tail_slot b = Z.of_nat (slot_of k).
Proof. intros [_ _ Ht _]. unfold tail_slot. by rewrite Ht, slot_rem, slot_slot. Qed.
Lemma head_slot_at f k b : buf_at f k b -> head_slot b = Z.of_nat (slot_of f).
Proof. intros [_ Hh _ _]. unfold head_slot. by rewrite Hh, slot_rem, slot_slot. Qed.
Lemma set_tail_at f k b : buf_at f k b -> (S k < f + cap)%nat ->
  buf_at f (S k) (b <| _tail := Z.rem (Z.of_nat (slot_of k) + 1) CAP_REDIS_BUFFER |>).
Proof. intros [Hl Hh Ht Hr] Hk. split; [done | done | | lia]. simpl. by rewrite slot_next. Qed.
Lemma headNext_at f k b : buf_at f k b -> (f < k)%nat -> buf_at (S f) k (headNext b).
Proof. intros [Hl Hh Ht Hr] Hk. split; [done | | done | lia]. simpl. by rewrite Hh, slot_next. Qed.
Lemma store_at f k b i x : buf_at f k b -> buf_at f k (b <| pktQueue := <[i := x]> (pktQueue b) |>).
Proof. intros [Hl Hh Ht Hr]. split; [simpl; by rewrite length_insert | done..]. Qed.

(** The packets [lo] to [k] of [sent] are in their slots. *)
Definition holds (lo : nat) (cells sent : list ForwardPkt) : Prop :=
  forall i, (lo <= i < length sent)%nat -> cells !! slot_of i = sent !! i.

Lemma holds_store lo cells sent x : holds lo cells sent -> (lo <= length sent < lo + cap)%nat ->
  holds lo (<[slot_of (length sent) := x]> cells) sent.
Proof.
  intros Hh Hr i Hi. rewrite list_lookup_insert_ne; [by apply Hh|]. intros Hs%eq_sym. apply slot_inj in Hs; lia.
Qed.
Lemma holds_sent lo cells sent x : holds lo cells sent -> cells !! slot_of (length sent) = Some x -> holds lo cells (sent ++ [x]).
Proof.
  intros Hh Hx i Hi. rewrite length_app in Hi. cbn in Hi. destruct (decide (i = length sent)) as [-> | ?].
  - rewrite lookup_app_r, Nat.sub_diag by lia. done.
  - rewrite lookup_app_l by lia. apply Hh. lia.
Qed.
Lemma holds_mono lo lo' cells sent : holds lo cells sent -> (lo <= lo')%nat -> holds lo' cells sent.
Proof. intros Hh Hl i Hi. apply Hh. lia. Qed.

(** *** The invariant of the two threads *)

(** What the worker gets to see of a packet. *)
Definition request (p : ForwardPkt) : Z * list Z := (sock_id p, payload p).

(** The first packet whose slot must not change: the worker may still use the slot
    it has given back. *)
Definition first_kept (c : client_pc) (f : nat) : nat := match c with CUse _ _ => pred f | _ => f end.

Definition prod_ok (p : server_pc) (f : nat) (cells sent : list ForwardPkt) : Prop :=
  let k := length sent in
  match p with
  | PIdle => True
  | PFill _ => (S k < f + cap)%nat
  | PStore slot _ => (S k < f + cap)%nat /\ slot = Z.of_nat (slot_of k)
  | PPayload slot pkt => (S k < f + cap)%nat /\ slot = Z.of_nat (slot_of k) /\
      exists x, cells !! slot_of k = Some (pkt <| payload := x |>)
  | PPublish pkt => (S k < f + cap)%nat /\ cells !! slot_of k = Some pkt
  | PMove pkt t => (S k < f + cap)%nat /\ cells !! slot_of k = Some pkt /\ t = Z.of_nat (slot_of k)
  end.
Definition cons_ok (c : client_pc) (f : nat) (sent : list ForwardPkt) : Prop :=
  match c with
  | CZeroSock _ | CZeroCore _ | CSetTail => False
  | CSetHead => f = 0%nat
  | CIdle => True
  | CTake => (f < length sent)%nat
  | CRelease slot sockid => slot = Z.of_nat (slot_of f) /\ exists x, sent !! f = Some x /\ sock_id x = sockid
  | CUse slot sockid => exists g, f = S g /\ slot = Z.of_nat (slot_of g) /\ exists x, sent !! g = Some x /\ sock_id x = sockid
  end.

Record ring_ok (f : nat) (s : ring) : Prop := {
  ro_buf : buf_at f (length (forwarded s)) (r_buf s);
  ro_held : holds (first_kept (r_cons s) f) (pktQueue (r_buf s)) (forwarded s);
  ro_prod : prod_ok (r_prod s) f (pktQueue (r_buf s)) (forwarded s);
  ro_cons : cons_ok (r_cons s) f (forwarded s);
  ro_served : served s = request <$> take (first_kept (r_cons s) f) (forwarded s);
}.

Lemma first_kept_bound c f sent : cons_ok c f sent -> (first_kept c f <= f <= S (first_kept c f))%nat.
Proof using Type. clear. destruct c; cbn; lia. Qed.

Lemma ring_step_ok f s s' : relay_step s s' -> ring_ok f s -> exists f', ring_ok f' s'.
Proof.
  intros Hst [Hb Hh Hp Hc Hv]. pose proof (first_kept_bound _ _ _ Hc) as Hf.  destruct Hst as
    [b c fw v pkt Hfull | b c fw v pkt | b c fw v slot pkt x cells Hx Hw | b c fw v slot pkt x cells Hx Hw
    | b c fw v pkt | b c fw v pkt t | | | | | b p fw v
    | b p fw v Hs | b p fw v x Hx | b p fw v slot sockid | b p fw v slot sockid x Hx]; cbn [r_buf r_prod r_cons forwarded served] in *;
    try (by destruct Hc).
  - exists f. split; try done. cbn. rewrite (full_at _ _ _ Hb) in Hfull. apply bool_decide_eq_false in Hfull. destruct Hb. lia.
  - exists f. split; try done. cbn. by rewrite (tail_slot_at _ _ _ Hb).
  - exists f. destruct Hp as [Hroom ->]. apply write_at_inv in Hw as [Hl ->]. rewrite Nat2Z.id in *.
    split; cbn [r_buf r_prod r_cons forwarded served]; try done; [by apply store_at | apply holds_store; [done | destruct Hb; lia] |].
    split_and!; [done..|]. eexists. simpl. by rewrite list_lookup_insert_eq.
  - exists f. destruct Hp as (Hroom & -> & y & Hy). apply write_at_inv in Hw as [Hl ->]. apply read_at_inv in Hx. rewrite Nat2Z.id in *.
    split; cbn [r_buf r_prod r_cons forwarded served]; try done; [by apply store_at | apply holds_store; [done | destruct Hb; lia] |].
    split; [done|]. simpl. rewrite list_lookup_insert_eq by done. rewrite Hy in Hx. injection Hx as <-. by destruct pkt.
  - exists f. destruct Hp as [Hroom Hx]. split; try done. split_and!; [done..|]. apply Hb.
  - exists f. destruct Hp as (Hroom & Hx & ->). split; cbn [r_buf r_prod r_cons forwarded served]; try done.
    + rewrite length_app, Nat.add_1_r. by apply set_tail_at.
    + by apply holds_sent.
    + destruct c; cbn in Hc |- *; try done; [rewrite length_app; lia | |].
      * destruct Hc as (-> & x & Hx' & <-). eauto using lookup_app_l_Some.
      * destruct Hc as (g & -> & -> & x & Hx' & <-). exists g. eauto 6 using lookup_app_l_Some.
    + rewrite take_app_le by (destruct Hb; lia). done.
  - cbn in Hc. subst f. exists 0%nat. split; try done. cbn [r_buf forwarded]. destruct Hb as [? Hhd ? ?].
    split; try done. simpl. unfold slot_of. by rewrite Nat.Div0.mod_0_l.
  - exists f. split; try done. cbn. rewrite (size_at _ _ _ Hb) in Hs. apply bool_decide_eq_true in Hs. destruct Hb. lia.
  - exists f. rewrite (head_slot_at _ _ _ Hb) in *. apply read_at_inv in Hx. rewrite Nat2Z.id in Hx. cbn in Hc.
    split; try done. cbn. split; [done|]. exists x. split; [|done]. rewrite <- Hx. symmetry. apply Hh. cbn. lia.
  - destruct Hc as [-> (x & Hx & <-)]. exists (S f). apply lookup_lt_Some in Hx as Hlt.
    split; cbn [r_buf r_prod r_cons forwarded served]; try done; [by apply headNext_at | | exists f; split_and!; [done | done | by exists x]].
    destruct p; cbn in Hp |- *; [done | lia | ..]; (destruct Hp as [? ?]; split; [lia | done]).
  - destruct Hc as (g & -> & -> & y & Hy & <-). exists (S g). apply read_at_inv in Hx. rewrite Nat2Z.id in Hx. apply lookup_lt_Some in Hy as Hlt.
    split; cbn [r_buf r_prod r_cons forwarded served]; try done.
    + eapply holds_mono; [exact Hh | cbn; lia].
    + cbn in Hv |- *. rewrite (take_S_r _ _ _ Hy), fmap_app, Hv. cbn. rewrite (Hh g) in Hx by (cbn; lia). by replace y with x by congruence.
Qed.
End Ring.

(** A buffer of the right size, with its indexes inside. *)
Definition buf_ok (b : ForwardPktBuffer) : Prop :=
  Z.of_nat (length (pktQueue b)) = CAP_REDIS_BUFFER /\ 0 <= _head b < CAP_REDIS_BUFFER /\ 0 <= _tail b < CAP_REDIS_BUFFER.

(** *** The initialisation by the worker *)

(** The cells are cleared. *)
Lemma clear_steps b f v : Z.of_nat (length (pktQueue b)) = CAP_REDIS_BUFFER ->
  rtc relay_step (Ring b PIdle (CZeroSock 0) f v)
    (Ring (b <| pktQueue := pktQueue (initForwardBuffer b) |> <| _size := 0 |>) PIdle CSetTail f v).
Proof.
  intros Hl. set (z := fun p => p <| sock_id := 0 |> <| core_id := 0 |>).
  assert (forall done todo, Z.of_nat (length (done ++ todo)) = CAP_REDIS_BUFFER ->
    rtc relay_step (Ring (b <| pktQueue := (z <$> done) ++ todo |>) PIdle (CZeroSock (Z.of_nat (length done))) f v)
      (Ring (b <| pktQueue := z <$> (done ++ todo) |> <| _size := 0 |>) PIdle CSetTail f v)) as Hall.
  { intros done todo. revert done. induction todo as [|x todo IH]; intros dn Hlen.
    - rewrite !app_nil_r in *. eapply rtc_l; [apply ISize; lia|]. apply rtc_refl.
    - rewrite length_app in Hlen. cbn in Hlen. set (zs := z <$> dn).
      assert (length zs = length dn) as Hzs by apply length_fmap.
      assert (forall y, read_at (zs ++ y :: todo) (Z.of_nat (length dn)) = Ok y) as Hrd.
      { intros y. apply read_at_nat. by rewrite lookup_app_r, Hzs, Nat.sub_diag by lia. }
      assert (forall y y', write_at (zs ++ y :: todo) (Z.of_nat (length dn)) y' = Ok (zs ++ y' :: todo)) as Hwr.
      { intros y y'. rewrite write_at_nat by (rewrite length_app; cbn; lia). f_equal.
        by rewrite insert_app_r_alt, Hzs, Nat.sub_diag by lia. }
      eapply rtc_l; [eapply IZeroSock; [lia | apply Hrd | apply Hwr]|].
      eapply rtc_l; [eapply IZeroCore; [apply Hrd | apply Hwr]|].
      specialize (IH (dn ++ [x])). rewrite <- app_assoc, fmap_app, <- app_assoc in IH.
      replace (Z.of_nat (length (dn ++ [x]))) with (Z.of_nat (length dn) + 1) in IH by (rewrite length_app; cbn; lia).
      apply IH. rewrite length_app. cbn. lia. }
  specialize (Hall [] (pktQueue b) Hl). cbn in Hall. by destruct b.
Qed.

(** Uninterrupted the initialisation is [initForwardBuffer]. *)
Lemma init_steps b f v : Z.of_nat (length (pktQueue b)) = CAP_REDIS_BUFFER ->
  rtc relay_step (Ring b PIdle (CZeroSock 0) f v) (Ring (initForwardBuffer b) PIdle CIdle f v).
Proof.
  intros Hl. etrans; [by apply clear_steps|]. eapply rtc_l; [apply ITail|].
  eapply rtc_l; [apply IHead|]. apply rtc_refl.
Qed.

(** Before the worker has set the tail the head is 0, and it has served nothing. *)
Definition initialising (c : client_pc) : Prop :=
  match c with CZeroSock _ | CZeroCore _ | CSetTail => True | _ => False end.
Record booting (s : ring) : Prop := {
  bo_len : Z.of_nat (length (pktQueue (r_buf s))) = CAP_REDIS_BUFFER;
  bo_head : _head (r_buf s) = 0;
  bo_served : served s = [];
}.

Lemma write_at_length {A} (l l' : list A) i x : write_at l i x = Ok l' -> length l' = length l.
Proof. intros [_ ->]%write_at_inv. apply length_insert. Qed.

Lemma booting_step s s' : relay_step s s' -> (initialising (r_cons s) -> booting s) ->
  initialising (r_cons s') -> booting s'.
Proof.
  intros Hst Hs Hi. destruct Hst; cbn [r_cons] in Hs, Hi; try done; (destruct Hs as [Hl Hh Hv]; [done|]); cbn in Hl, Hh, Hv;
    (split; cbn; [|done|done]); try done; by erewrite write_at_length.
Qed.

(** The run of the two threads from the moment the tail is set, as a run on a
    buffer nothing was forwarded to. *)
Definition since (n : nat) (s : ring) : ring :=
  Ring (r_buf s) (r_prod s) (r_cons s) (drop n (forwarded s)) (served s).

Lemma since_step n s s' : relay_step s s' -> (n <= length (forwarded s))%nat ->
  relay_step (since n s) (since n s') /\ (n <= length (forwarded s'))%nat.
Proof.
  intros Hst Hn. destruct Hst; unfold since; cbn [r_buf r_prod r_cons forwarded served] in *;
    (split; [|rewrite ?length_app; lia]); try (by econstructor).
  rewrite drop_app_le by done. constructor.
Qed.

Lemma since_run n s s' : rtc relay_step s s' -> (n <= length (forwarded s))%nat ->
  rtc relay_step (since n s) (since n s').
Proof.
  induction 1 as [|s s1 s' Hs _ IH]; [done|]. intros Hn. destruct (since_step n _ _ Hs Hn) as [? ?].
  eapply rtc_l; eauto.
Qed.

Lemma run_ring_ok n s s' : CAP_REDIS_BUFFER = Z.of_nat n -> (1 < n)%nat -> rtc relay_step s s' ->
  (exists f, ring_ok n f s) -> exists f, ring_ok n f s'.
Proof.
  intros Hc Hn. induction 1 as [|s1 s2 s3 Hs _ IH]; [done|]. intros [f Hf]. apply IH.
  exact (ring_step_ok _ Hc Hn f _ _ Hs Hf).
Qed.

(** The tail is set while the server is outside of [HandleReadEvent]. *)
Lemma tail_set_ok n b s0 s1 :
  CAP_REDIS_BUFFER = Z.of_nat n -> (1 < n)%nat ->
  Z.of_nat (length (pktQueue b)) = CAP_REDIS_BUFFER -> _head b = 0 ->
  rtc relay_step (boot_ring b) s0 -> r_cons s0 = CSetTail -> r_prod s0 = PIdle ->
  relay_step s0 s1 -> r_cons s1 = CSetHead ->
  forwarded s1 = forwarded s0 /\ ring_ok n 0 (since (length (forwarded s0)) s1).
Proof.
  intros Hcap Hn Hl Hh Hr Hc Hp Hst Hc1.
  assert (initialising (r_cons s0) -> booting s0) as Hb.
  { assert (forall s1 s2, rtc relay_step s1 s2 -> (initialising (r_cons s1) -> booting s1) ->
      initialising (r_cons s2) -> booting s2) as Hk by (induction 1; eauto using booting_step).
    apply (Hk _ _ Hr). by split. }
  rewrite Hc in Hb. destruct (Hb I) as [Hl0 Hh0 Hv0]. clear Hb.
  destruct Hst; cbn in *; try congruence. split; [done|]. unfold since. cbn. rewrite drop_all.
  assert (slot_of n 0 = 0%nat) as H0 by (apply Nat.Div0.mod_0_l).
  subst. split; try done; [|intros i Hi; cbn in Hi; lia].
  split; cbn [r_buf forwarded length]; [apply Nat2Z.inj; by rewrite <- Hcap | by rewrite H0 | by rewrite H0 | lia].
Qed.

(** An operation that has begun can go on. *)
Lemma ring_progress n f s : CAP_REDIS_BUFFER = Z.of_nat n -> (1 < n)%nat -> ring_ok n f s ->
  (r_prod s <> PIdle -> exists s', relay_step s s' /\ r_cons s' = r_cons s) /\
  (r_cons s <> CIdle -> exists s', relay_step s s' /\ r_prod s' = r_prod s).
Proof.
  intros Hcap Hn [Hb Hh Hp Hc _]. pose proof (first_kept_bound _ _ _ _ Hc) as Hf. destruct s as [b p c fw v]. cbn [r_buf r_prod r_cons forwarded] in *.
  assert (forall i, exists x, read_at (pktQueue b) (Z.of_nat (slot_of n i)) = Ok x) as Hrd.
  { intros i. destruct (lookup_lt_is_Some_2 (pktQueue b) (slot_of n i)) as [x Hx]; [rewrite (ba_len _ _ _ _ Hb); by apply slot_lt|].
    exists x. by apply read_at_nat. }
  assert (forall i x, exists l, write_at (pktQueue b) (Z.of_nat (slot_of n i)) x = Ok l) as Hwr.
  { intros i x. eexists. apply write_at_nat. rewrite (ba_len _ _ _ _ Hb). by apply slot_lt. }
  split; intros Hne.
  - destruct p as [|pkt|slot pkt|slot pkt|pkt|pkt t]; [done | eexists; split; [constructor | done] | | |
      eexists; split; [constructor | done] | eexists; split; [constructor | done]];
      destruct (Hrd (length fw)) as [x Hx];
      [destruct Hp as [_ ->]; destruct (Hwr (length fw) (pkt <| payload := payload x |>)) as [l Hl]
      |destruct Hp as (_ & -> & _); destruct (Hwr (length fw) (x <| payload := payload pkt |>)) as [l Hl]];
      eexists; (split; [by econstructor | done]).
  - destruct c as [j|j| | | | |slot sockid|slot sockid];
      [done.. | eexists; split; [constructor | done] | done | | eexists; split; [constructor | done] |].
    + destruct (Hrd f) as [x Hx]. rewrite <- (head_slot_at _ Hcap Hn _ _ _ Hb) in Hx. eexists. split; [by econstructor | done].
    + destruct Hc as (g & _ & -> & _). destruct (Hrd g) as [x Hx]. eexists. split; [by econstructor | done].
Qed.

(** A run of the unrestricted relation from one of the restricted. *)
Lemma since_back n s t : relay_step (since n s) t ->
  exists s', relay_step s s' /\ r_cons s' = r_cons t /\ r_prod s' = r_prod t.
Proof.
  destruct s as [b p c fw v]. unfold since. cbn [r_buf r_prod r_cons forwarded served]. intros Hst.
  inversion Hst; subst; eexists; (split; [by econstructor | done]).
Qed.

(** C20. Requests forwarded since the worker initialised the buffer reach it intact
    and in order.  A server thread and a worker run interleaved on a buffer of
    [CAP_REDIS_BUFFER] slots in static memory; the worker first initialises the
    buffer, access by access, while the server may already forward.  If the server
    is outside the forwarding of a request when the worker sets the tail (from [s0]
    to [s1]), then in every later state the worker has served a prefix of the
    requests forwarded since, each with the socket and the payload of one packet,
    although it reads the payload after it gave the slot back; less than the size of
    the buffer are waiting; and an operation that has begun never leaves the array.
    The requests forwarded before are lost. *)
Theorem forwarded_requests_intact b s0 s1 s :
  Z.of_nat (length (pktQueue b)) = CAP_REDIS_BUFFER -> _head b = 0 ->
  rtc relay_step (boot_ring b) s0 -> r_cons s0 = CSetTail -> r_prod s0 = PIdle ->
  relay_step s0 s1 -> r_cons s1 = CSetHead -> rtc relay_step s1 s ->
  let later := drop (length (forwarded s0)) (forwarded s) in
  served s `prefix_of` (request <$> later) /\
  Z.of_nat (length later) <= Z.of_nat (length (served s)) + CAP_REDIS_BUFFER /\
  (r_prod s <> PIdle -> exists s', relay_step s s' /\ r_cons s' = r_cons s) /\
  (r_cons s <> CIdle -> exists s', relay_step s s' /\ r_prod s' = r_prod s).
Proof.
  intros Hl Hh Hr Hc0 Hp0 Hst Hc1 Hrun later. set (n := length (forwarded s0)) in *.
  assert (exists m, CAP_REDIS_BUFFER = Z.of_nat m /\ (1 < m)%nat) as (m & Hcap & Hpos).
  { exists (length (pktQueue b)). split; [done|]. apply Nat2Z.inj_lt. by rewrite Hl. }
  destruct (tail_set_ok m b s0 s1 Hcap Hpos Hl Hh Hr Hc0 Hp0 Hst Hc1) as [Hfw Hok1].
  destruct (run_ring_ok _ _ _ Hcap Hpos (since_run n s1 s Hrun ltac:(by rewrite Hfw))) as [f Hok]; [by exists 0%nat|].
  destruct (ring_progress _ _ _ Hcap Hpos Hok) as [Hpp Hpc].
  split; [|split; [|split]].
  1-2: destruct Hok as [Hb _ _ Hc Hv]; pose proof (first_kept_bound _ _ _ _ Hc) as Hf;
    change (served s = request <$> take (first_kept (r_cons s) f) later) in Hv;
    change (length (forwarded (since n s))) with (length later) in Hb; rewrite Hv.
  - rewrite fmap_take. apply prefix_take.
  - rewrite length_fmap, length_take. destruct Hb. simpl r_cons in Hf. lia.
  - intros [t [Ht1 Ht2]]%Hpp. change (r_cons t = r_cons s) in Ht2. destruct (since_back _ _ _ Ht1) as (s' & Hs & H1 & H2). exists s'. split; [exact Hs | congruence].
  - intros [t [Ht1 Ht2]]%Hpc. change (r_prod t = r_prod s) in Ht2. destruct (since_back _ _ _ Ht1) as (s' & Hs & H1 & H2). exists s'. split; [exact Hs | congruence].
Qed.

(** ** Choosing a worker *)

Section Choice.
Context (workers id : Z) (bufs : list ForwardPktBuffer).
Context (Hw : 0 < workers) (Hid : 0 <= id) (Hlen : (id + 1) * workers <= Z.of_nat (length bufs)).

(** Whether worker [i] of the server has room. *)
Definition buffer_of (i : Z) : option ForwardPktBuffer := bufs !! Z.to_nat (i + id * workers).
Definition full (i : Z) : Prop := exists b, buffer_of i = Some b /\ forwardBufferFull b = true.
Definition has_room (i : Z) : Prop := exists b, buffer_of i = Some b /\ forwardBufferFull b = false.

Lemma buffer_read i b : 0 <= i < workers -> buffer_of i = Some b -> read_at bufs (i + id * workers) = Ok b.
Proof using Hid Hw Hlen. intros Hi Hb. unfold read_at. rewrite decide_True by nia. unfold buffer_of in Hb. by rewrite Hb. Qed.
Lemma full_or_room i : 0 <= i < workers -> full i \/ has_room i.
Proof using Hid Hw Hlen.
  intros Hi. destruct (lookup_lt_is_Some_2 bufs (Z.to_nat (i + id * workers))) as [b Hb]; [nia|].
  destruct (forwardBufferFull b) eqn:E; [left | right]; by exists b.
Qed.

Lemma find_worker_run d : forall i fuel, 0 <= i < workers -> (d < fuel)%nat ->
  (forall n, (n < d)%nat -> full ((i + Z.of_nat n) `mod` workers)) -> has_room ((i + Z.of_nat d) `mod` workers) ->
  find_worker fuel workers id i bufs = Ok ((i + Z.of_nat d) `mod` workers).
Proof using Hid Hw Hlen.
  induction d as [|d IH]; intros i fuel Hi Hf Hfull Hroom; (destruct fuel as [|fuel]; [lia|]); cbn [find_worker].
  - rewrite Z.add_0_r, Z.mod_small in * by lia. destruct Hroom as (b & Hb & Hr). by rewrite (buffer_read i b Hi Hb); cbn; rewrite Hr.
  - pose proof (Hfull 0%nat ltac:(lia)) as (b & Hb & Hr). rewrite Z.add_0_r, Z.mod_small in Hb by lia.
    rewrite (buffer_read i b Hi Hb). cbn. rewrite Hr, decide_False, Z.rem_mod_nonneg by lia.
    assert (forall n, ((i + 1) `mod` workers + Z.of_nat n) `mod` workers = (i + Z.of_nat (S n)) `mod` workers) as Hm.
    { intros n. rewrite Zplus_mod_idemp_l. f_equal. lia. }
    rewrite IH, Hm; [done | apply Z.mod_pos_bound; lia | lia | |]; [|by rewrite Hm].
    intros n Hn. rewrite Hm. apply Hfull. lia.
Qed.

(** With all buffers full the search never ends. *)
Lemma find_worker_spins fuel : forall i, 0 <= i < workers -> (forall j, 0 <= j < workers -> full j) ->
  find_worker fuel workers id i bufs = Fault NoReturn.
Proof using Hid Hw Hlen.
  induction fuel as [|fuel IH]; intros i Hi Hf; cbn [find_worker]; [done|]. destruct (Hf i Hi) as (b & Hb & Hr).
  rewrite (buffer_read i b Hi Hb). cbn. rewrite Hr, decide_False, Z.rem_mod_nonneg by lia. apply IH; [|done]. apply Z.mod_pos_bound. lia.
Qed.

(** The first worker with room from [i] on. *)
Lemma full_until i m : 0 <= i ->
  (forall n, (n < m)%nat -> full ((i + Z.of_nat n) `mod` workers)) \/
  exists d, (d < m)%nat /\ has_room ((i + Z.of_nat d) `mod` workers) /\ forall n, (n < d)%nat -> full ((i + Z.of_nat n) `mod` workers).
Proof using Hid Hw Hlen.
  intros Hi. induction m as [|m IH]; [left; lia|]. destruct IH as [Hf | (d & Hd & Hr)]; [|right; exists d; split; [lia | done]].
  destruct (full_or_room ((i + Z.of_nat m) `mod` workers)) as [Hm | Hm]; [apply Z.mod_pos_bound; lia | left | right; exists m; split; [lia | done]].
  intros n Hn. destruct (decide (n = m)) as [-> | ?]; [done | apply Hf; lia].
Qed.
Lemma first_room i j : 0 <= i < workers -> 0 <= j < workers -> has_room j ->
  exists d, (d < Z.to_nat workers)%nat /\ has_room ((i + Z.of_nat d) `mod` workers) /\
    forall n, (n < d)%nat -> full ((i + Z.of_nat n) `mod` workers).
Proof using Hid Hw Hlen.
  intros Hi Hj (b & Hb & Hr). destruct (full_until i (Z.to_nat workers)) as [Hf|]; [lia | | done]. exfalso.
  pose proof (Z.mod_pos_bound (j - i) workers Hw). destruct (Hf (Z.to_nat ((j - i) `mod` workers))) as (b' & Hb' & Hr'); [lia|].
  rewrite Z2Nat.id, Zplus_mod_idemp_r in Hb' by lia. replace (i + (j - i)) with j in Hb' by lia. rewrite Z.mod_small in Hb' by lia.
  congruence.
Qed.

(** The worker the search starts at. *)
Definition start_at (p : Z) : Z := if decide (workers <= p) then 0 else p.
End Choice.

Lemma write_at_Z {A} (l : list A) i x : 0 <= i < Z.of_nat (length l) -> write_at l i x = Ok (<[Z.to_nat i := x]> l).
Proof. intros Hi. unfold write_at. by rewrite decide_True. Qed.

(** A request goes to one worker, the next one with room.  If one of the
    server's workers has room, forwarding returns; it stores the packet behind the
    packets of exactly one worker of this server, the first with room in cyclic
    order from the remembered position, and remembers the position after it.  No
    other buffer changes. *)
Theorem forward_to_first_with_room workers id pkt bufs pos p j :
  0 < workers -> 0 <= id -> (id + 1) * workers <= Z.of_nat (length bufs) -> Forall buf_ok bufs ->
  pos !! Z.to_nat id = Some p -> 0 <= p -> 0 <= j < workers -> has_room workers id bufs j ->
  exists d i b, i = (start_at workers p + Z.of_nat d) `mod` workers /\ buffer_of workers id bufs i = Some b /\
    forwardBufferFull b = false /\ (forall n, (n < d)%nat -> full workers id bufs ((start_at workers p + Z.of_nat n) `mod` workers)) /\
    forward workers id pkt bufs pos =
      Ok (<[Z.to_nat (i + id * workers) := tailNext (b <| pktQueue := <[Z.to_nat (_tail b) := pkt]> (pktQueue b) |>)]> bufs,
          <[Z.to_nat id := (i + 1) `mod` workers]> pos).
Proof.
  intros Hw Hid Hlen Hok Hp Hp0 Hj Hr. assert (0 <= start_at workers p < workers) as Hs by (unfold start_at; case_decide; lia).
  destruct (first_room workers id bufs Hw Hid Hlen (start_at workers p) j Hs Hj Hr) as (d & Hd & (b & Hb & Hf) & Hfull).
  set (i := (start_at workers p + Z.of_nat d) `mod` workers) in *. assert (0 <= i < workers) as Hi by (apply Z.mod_pos_bound; lia).
  assert (0 <= id * workers) by nia. exists d, i, b. split_and!; [done..|]. unfold forward. pose proof (lookup_lt_Some _ _ _ Hp) as Hpl. pose proof (lookup_lt_Some _ _ _ Hb) as Hbl.
  replace id with (Z.of_nat (Z.to_nat id)) at 1 by lia. rewrite (read_at_nat _ _ p Hp). cbn [mbind res_bind].
  replace (if bool_decide (p = 0) || bool_decide (workers <= p) then 0 else p) with (start_at workers p)
    by (unfold start_at; do 2 case_bool_decide; cbn; case_decide; lia).
  rewrite (find_worker_run workers id bufs Hw Hid Hlen d) by (done || lia || by exists b). cbn [mbind res_bind]. fold i.
  rewrite (buffer_read workers id bufs Hw Hid Hlen i b Hi Hb). cbn [mbind res_bind].
  rewrite Forall_forall in Hok. destruct (Hok b) as (Hl & _ & Ht); [by eapply list_elem_of_lookup_2|].
  unfold tail_slot. rewrite Z.rem_small by lia. do 3 (rewrite write_at_Z by lia; cbn [mbind res_bind]).
  do 3 f_equal. case_decide as Hn; [rewrite Hn; by rewrite Z_mod_same_full | by rewrite Z.mod_small by lia].
Qed.

(** ** Queries before updates *)

Inductive loop_run : loop_state -> list label -> loop_state -> Prop :=
  | run_nil s : loop_run s [] s
  | run_cons s a s' l s'' : loop_step s a s' -> loop_run s' l s'' -> loop_run s (a :: l) s''.

#[export] Instance label_eq_dec : EqDecision label.
Proof. solve_decision. Defined.

(** The steps the worker itself makes. *)
Definition own (l : list label) : list label := filter (fun a => a <> Arrive) l.

Lemma own_arrive l : own (Arrive :: l) = own l.
Proof. unfold own. by rewrite filter_cons_False by naive_solver. Qed.
Lemma own_other a l : a <> Arrive -> own (a :: l) = a :: own l.
Proof. intros Ha. unfold own. by rewrite filter_cons_True. Qed.

(** Away from the test for updates the worker can only serve a waiting query. *)
Lemma ready_serves s l s' : loop_run s l s' -> l_pc s <> WUpdate -> (0 < l_queries s)%nat ->
  own l = [] \/ exists l', own l = Query :: l'.
Proof.
  induction 1 as [|s a s1 l s2 Hs _ IH]; [by left|]. intros Hpc Hq.
  destruct Hs; cbn [l_pc l_queries] in *; try done; try lia; [by right; eexists; rewrite own_other..| |];
    rewrite own_arrive; apply IH; (done || lia).
Qed.

(** C22. A query waits for one update at most.  Whatever arrives meanwhile, once a
    query is in the worker's buffer, the worker serves a query in the second of its
    own steps at the latest: before, it makes one test, or finishes one update. *)
Theorem query_overtakes_updates s l s' :
  loop_run s l s' -> (0 < l_queries s)%nat -> (2 <= length (own l))%nat -> Query ∈ take 2 (own l).
Proof.
  induction 1 as [s|s a s1 l s2 Hs Hr IH]; intros Hq Hl; [cbn in Hl; lia|].
  destruct (decide (a = Arrive)) as [-> | Ha].
  - rewrite own_arrive in *. apply IH; [|done]. inversion Hs; subst; cbn in *; lia.
  - rewrite own_other in * by done. cbn [length take] in *.
    destruct (decide (a = Query)) as [-> | Hnq]; [left|]. right.
    assert (l_pc s1 <> WUpdate /\ (0 < l_queries s1)%nat) as [Hpc Hq1] by (inversion Hs; subst; cbn in *; split; (done || lia)).
    destruct (ready_serves _ _ _ Hr Hpc Hq1) as [E | [l' E]]; rewrite E in *; [cbn in Hl; lia | left].
Qed.

(** ** The value a request leaves in the database *)


Section Database.
Context {HT : Type} {DB : Type} `{!RedisServer DB, !RedisLaws DB}.


End Database.


(** ** Concrete runs *)

Lemma query_overtakes_updates_witness :
  let l := [Test; Update; Arrive; Query] in
  loop_run (Loop WQuery 0 2) l (Loop WAgain 0 1) /\ Query ∈ take 2 (own [Update; Query]).
Proof.
  split.
  - repeat (eapply run_cons; [constructor|]). constructor.
  - apply (query_overtakes_updates (Loop WUpdate 1 2) [Update; Query] (Loop WAgain 0 1)); [|cbn; lia | vm_compute; lia].
    repeat (eapply run_cons; [constructor|]). constructor.
Defined.

(** The server forwards one packet. *)
Lemma forward_steps b c f v pkt : Z.of_nat (length (pktQueue b)) = CAP_REDIS_BUFFER ->
  _head b = 0 -> _tail b = 0 ->
  exists cells, length cells = length (pktQueue b) /\ cells !! 0%nat = Some pkt /\
    rtc relay_step (Ring b PIdle c f v) (Ring (b <| pktQueue := cells |> <| _tail := 1 |>) PIdle c (f ++ [pkt]) v).
Proof.
  intros Hl Hh Ht. destruct b as [[|x cells] sz h t]; [by vm_compute in Hl|]. cbn in Hh, Ht. subst.
  exists (pkt :: cells). split_and!; [done..|].
  eapply rtc_l; [eapply (SRoom _ _ _ _ pkt); reflexivity|]. eapply rtc_l; [by eapply STail|].
  eapply rtc_l; [by eapply SFill|]. eapply rtc_l; [by eapply SPayload|]. eapply rtc_l; [by eapply SReadTail|].
  eapply rtc_l; [eapply SPublish|]. destruct pkt. apply rtc_refl.
Qed.

(** A request forwarded before the worker initialises its buffer is never served:
    the buffer is then empty. *)
Lemma early_request_lost b pkt : Z.of_nat (length (pktQueue b)) = CAP_REDIS_BUFFER -> _head b = 0 -> _tail b = 0 ->
  exists s, rtc relay_step (boot_ring b) s /\ forwarded s = [pkt] /\ served s = [] /\
    r_prod s = PIdle /\ r_cons s = CIdle /\ forwardBufferSize (r_buf s) = false.
Proof.
  intros Hl Hh Ht. destruct (forward_steps b (CZeroSock 0) [] [] pkt Hl Hh Ht) as (cells & Hlen & _ & Hf).
  eexists. split; [etrans; [exact Hf | apply init_steps; by etrans; [apply (f_equal Z.of_nat), Hlen|]]|]. done.
Qed.

(** One request before and one after the initialisation: only the second is served. *)
Lemma lost_and_served b p1 p2 : Z.of_nat (length (pktQueue b)) = CAP_REDIS_BUFFER -> _head b = 0 -> _tail b = 0 ->
  exists s0 s1 s, rtc relay_step (boot_ring b) s0 /\ r_cons s0 = CSetTail /\ r_prod s0 = PIdle /\
    forwarded s0 = [p1] /\ relay_step s0 s1 /\ r_cons s1 = CSetHead /\ rtc relay_step s1 s /\
    forwarded s = [p1; p2] /\ served s = [request p2].
Proof.
  intros Hl Hh Ht. destruct (forward_steps b (CZeroSock 0) [] [] p1 Hl Hh Ht) as (cells & Hlen & _ & Hf).
  set (b1 := b <| pktQueue := cells |> <| _tail := 1 |>) in *.
  assert (Z.of_nat (length (pktQueue b1)) = CAP_REDIS_BUFFER) as Hl1
    by (change (pktQueue b1) with cells; by rewrite Hlen).
  set (b2 := b1 <| pktQueue := pktQueue (initForwardBuffer b1) |> <| _size := 0 |> <| _tail := 0 |> <| _head := 0 |>).
  destruct (forward_steps b2 CIdle [p1] [] p2) as (cells2 & _ & H0 & Hf2); [|done | done |].
  { change (pktQueue b2) with ((fun p => p <| sock_id := 0 |> <| core_id := 0 |>) <$> cells). by rewrite length_fmap, Hlen. }
  do 3 eexists. split; [etrans; [exact Hf | by apply clear_steps]|]. do 3 (split; [done|]).
  split; [apply ITail|]. split; [done|]. split.
  { eapply rtc_l; [apply IHead|]. etrans; [exact Hf2|]. eapply rtc_l; [by eapply CSome|].
    pose proof (read_at_nat cells2 0 p2 H0) as Hrd.
    eapply rtc_l; [eapply CRead; exact Hrd|]. eapply rtc_l; [eapply CNext|].
    apply rtc_once. eapply CPayload. exact Hrd. }
  done.
Qed.

Definition pkt7 : ForwardPkt := Pkt 7 2 900 [1; 2; 3; 4; 5; 1].
Definition pkt8 : ForwardPkt := Pkt 8 2 901 [3; 0; 0; 0; 0; 0].
Definition empty_buffer : ForwardPktBuffer := FBuf (replicate (Z.to_nat CAP_REDIS_BUFFER) (Pkt 0 0 NULL [])) 0 0 0.
Lemma empty_buffer_length : Z.of_nat (length (pktQueue empty_buffer)) = CAP_REDIS_BUFFER.
Proof. unfold empty_buffer. cbn [pktQueue]. by rewrite length_replicate, Z2Nat.id. Qed.

Lemma forwarded_requests_intact_witness : exists s0 s1 s,
  rtc relay_step (boot_ring empty_buffer) s0 /\ forwarded s0 = [pkt7] /\ relay_step s0 s1 /\ rtc relay_step s1 s /\
  forwarded s = [pkt7; pkt8] /\ served s = [request pkt8] /\ served s `prefix_of` (request <$> [pkt8]).
Proof.
  destruct (lost_and_served empty_buffer pkt7 pkt8 empty_buffer_length eq_refl eq_refl)
    as (s0 & s1 & s & Hr & Hc & Hp & Hf & Hst & Hc1 & Hrun & Hfs & Hv).
  exists s0, s1, s. split_and!; [exact Hr | exact Hf | exact Hst | exact Hrun | exact Hfs | exact Hv |].
  pose proof (proj1 (forwarded_requests_intact empty_buffer s0 s1 s empty_buffer_length eq_refl Hr Hc Hp Hst Hc1 Hrun)) as Hpre.
  rewrite Hf, Hfs in Hpre. exact Hpre.
Defined.

(** The first of two workers of server 1 is full. *)
Definition full_buffer : ForwardPktBuffer := empty_buffer <| _tail := CAP_REDIS_BUFFER - 1 |>.
Definition four_buffers : list ForwardPktBuffer := [empty_buffer; empty_buffer; full_buffer; empty_buffer].

Lemma four_buffers_ok : Forall buf_ok four_buffers.
Proof.
  assert (buf_ok empty_buffer) as He by (split; [exact empty_buffer_length | done]).
  assert (buf_ok full_buffer) as Hf by (split; [exact empty_buffer_length | done]).
  unfold four_buffers. rewrite !Forall_cons. by split_and!.
Qed.

Lemma forward_to_first_with_room_witness : exists bufs, forward 2 1 pkt7 four_buffers [0; 0] = Ok (bufs, [0; 0]) /\
  take 3 bufs = take 3 four_buffers.
Proof.
  destruct (forward_to_first_with_room 2 1 pkt7 four_buffers [0; 0] 0 1) as (d & i & b & Hi & Hb & Hf & Hfull & Hrun);
    [done | done | done | exact four_buffers_ok | done | done | done | by exists empty_buffer |].
  destruct (decide (i = 1)) as [-> | Hne]; [eexists; split; [exact Hrun | apply take_insert_ge; apply Nat.le_refl]|].
  assert (0 <= i < 2) by (rewrite Hi; apply Z.mod_pos_bound; lia). assert (i = 0) as -> by lia.
  apply (f_equal (fmap forwardBufferFull)) in Hb. cbn [fmap option_fmap option_map] in Hb. rewrite Hf in Hb. vm_compute in Hb. discriminate Hb.
Defined.

