(* ===== verification/Frames.v ===== *)
(** Frames of the TCP layer: what an operation leaves alone.

    The [view] of a world holds its timer lists, its flow table, the supply of
    chunks and, for every
    stream, the fields that only the life cycle of the stream assigns (state,
    timer marks, socket and flow).  Most operations of the packet paths keep
    the whole view; the frames below are found by instance search, so a frame of
    a handler is the composition of the frames of what it calls. *)
From S2P Require Import Prelude Protocol StaticArp Fifo CircularQueue N21Queue Mbuf RecvBuff SendBuff Stack StreamOps Timer TcpOptions TcpOut TcpIn.
#[local] Open Scope Z_scope.

(** Frames are found by name: the search does not look into the operations. *)
#[export] Hint Opaque heap stream set_stream set_snd set_rcv sock set_sock on_sndbuf on_rcvbuf
  io_get_swmbuf control_queue_add ack_queue_add enqueue_ack send_event_enqueue send_event_add
  rto_list_add rto_list_remove rto_list_update timewait_list_add timewait_list_remove
  timeout_list_add timeout_list_remove timeout_list_update tcp_stream_create tcp_stream_destroy
  socket_alloc socket_free add_pending_event check_stream_event_validation event_dest
  add_epoll_event _raise_read_event raise_write_event raise_error_event raise_close_event
  _raise_accept_event ack_window ack_dup ack_retransmit ack_new_data process_tcp_ack
  process_tcp_payload closing_payload check_sequence_validation parse_options
  handle_active_open handle_passive_open handle_rst send_tcp_packet_standalone
  mempool_alloc_chunk rand syn_packet_filter retrans_data CreateNewFlowHTEntry packet_stream
  tcp_dispatch Handle_TCP_ST_LISTEN Handle_TCP_ST_SYN_SENT Handle_TCP_ST_SYN_RCVD
  Handle_TCP_ST_CLOSE_WAIT Handle_TCP_ST_LAST_ACK Handle_TCP_ST_FIN_WAIT_1
  Handle_TCP_ST_FIN_WAIT_2 Handle_TCP_ST_CLOSING Handle_TCP_ST_ESTABLISHED
  eth_hdr_generate generate_ip_packet io_send_mbuf send_tcp_packet send_tcp_control_packet
  next_segment flush_tcp_sending_buffer get_from_send_queue after_flush wack_send
  flush_loop control_loop send_loop ack_send_loop ack_loop handle_rto
  get gets modify lift throw mbind : typeclass_instances.

(** ** Views *)

Record core_view : Type := Core {
  c_state : tcp_state; c_rto : Z; c_timeout : bool; c_timewait : bool;
  c_socket : option nat; c_key : ipv4_5tuple;
}.

Definition core (s : tcp_stream) : core_view :=
  Core (state s) (on_rto_idx s) (on_timeout_list s) (on_timewait_list s) (socket s) (flow_key s).

Record world_view {HT : Type} : Type := View {
  v_rto : list ptr; v_timewait : list ptr; v_timeout : list ptr;
  v_core : gmap ptr core_view; v_ht : HT; v_cnt : Z; v_chunks : list ptr;
}.
Arguments world_view HT : clear implicits.

Definition view {HT} (w : world HT) : world_view HT :=
  View _ (rto_list w) (timewait_list w) (timeout_list w) (core <$> w_streams w) (stream_ht w)
    (flow_cnt w) (w_chunks w).

(** A part of stream [p], or [None] when it is not allocated. *)
Definition obs {HT X} (f : tcp_stream -> X) (p : ptr) (w : world HT) : option X :=
  f <$> w_streams w !! p.

Lemma core_insert {X} (f : tcp_stream -> X) (m : gmap ptr tcp_stream) q s s' :
  m !! q = Some s -> f s' = f s -> f <$> <[q := s']> m = f <$> m.
Proof.
  intros Hq Hf. rewrite fmap_insert, Hf. apply insert_id. by rewrite lookup_fmap, Hq.
Qed.

Lemma view_streams {HT} (w : world HT) m :
  core <$> m = core <$> w_streams w -> view (w <| w_streams := m |>) = view w.
Proof. intros Hm. transitivity (View _ (rto_list w) (timewait_list w) (timeout_list w) (core <$> m)
  (stream_ht w) (flow_cnt w) (w_chunks w)); [done|]. by rewrite Hm. Qed.

(** What is read off the view is kept by what keeps the view. *)
Lemma keeps_view {HT X A} (g : world HT -> X) (m : M (world HT) A) :
  (forall w w' : world HT, view w = view w' -> g w = g w') -> Keeps view m -> Keeps g m.
Proof. intros Hg Hm w a w' Hr. apply Hg. by apply (Hm w a w'). Qed.

Section Primitives.
Context {HT : Type}.
Notation W := (world HT).

#[export] Instance view_heap {A} (m : M mheap A) : Keeps view (heap (HT := HT) m).
Proof. intros w a w'. unfold heap. by intros ([b h] & _ & [= <- <-])%res_bind_Ok. Qed.

#[export] Instance view_stream q : Keeps view (stream (HT := HT) q).
Proof. intros w a w'. unfold stream. destruct (w_streams w !! q); simpl; [by intros [= <- <-] | done]. Qed.

#[export] Instance view_sock i : Keeps view (sock (HT := HT) i).
Proof. intros w a w'. unfold sock. destruct (sockets w !! i); simpl; [by intros [= <- <-] | done]. Qed.

#[export] Instance view_swmbuf : Keeps view (io_get_swmbuf (HT := HT)).
Proof. intros w a w'. unfold io_get_swmbuf. by destruct (w_swmbufs w); intros [= <- <-]. Qed.

#[export] Instance view_rand : Keeps view (rand (HT := HT)).
Proof. intros w a w'. unfold rand. by destruct (w_rands w); intros [= <- <-]. Qed.

Lemma view_set_stream q g :
  (forall s, core (g s) = core s) -> Keeps view (set_stream (HT := HT) q g).
Proof.
  intros Hg w a w'. unfold set_stream. intros (s & Hs%deref_Ok & [= <- <-])%res_bind_Ok.
  by apply view_streams, (core_insert core _ _ s).
Qed.
End Primitives.

(** A field update keeps the other fields, on each of its branches. *)
Ltac keeps_field := first [reflexivity | case_match; reflexivity].

#[export] Hint Extern 1 (Keeps view (modify _)) =>
  apply keeps_modify; intros; reflexivity : typeclass_instances.
#[export] Hint Extern 1 (Keeps view (set_stream _ _)) =>
  apply view_set_stream; intros ?; keeps_field : typeclass_instances.
#[export] Hint Extern 1 (Keeps view (set_snd _ _)) => unfold set_snd : typeclass_instances.
#[export] Hint Extern 1 (Keeps view (set_rcv _ _)) => unfold set_rcv : typeclass_instances.
#[export] Hint Extern 1 (Keeps _ (match ?x with _ => _ end)) => destruct x : typeclass_instances.

Ltac keeps_unfold d := unfold d; apply _.

(** ** Operations that keep the view *)

Section ViewFrames.
Context {HT : Type} `{!Config} `{!RteHash HT}.
Notation W := (world HT).
Notation V := (view (HT := HT)).

#[export] Instance view_set_sock i g : Keeps V (set_sock i g).
Proof. keeps_unfold @set_sock. Qed.
#[export] Instance view_on_sndbuf {A} q (m : tcp_send_buffer -> M mheap (A * tcp_send_buffer)) :
  Keeps V (on_sndbuf q m).
Proof. keeps_unfold @on_sndbuf. Qed.
#[export] Instance view_on_rcvbuf {A} q (m : tcp_recv_buffer -> M mheap (A * tcp_recv_buffer)) :
  Keeps V (on_rcvbuf q m).
Proof. keeps_unfold @on_rcvbuf. Qed.
#[export] Instance view_control_queue_add q : Keeps V (control_queue_add q).
Proof. keeps_unfold @control_queue_add. Qed.
#[export] Instance view_ack_queue_add q : Keeps V (ack_queue_add q).
Proof. keeps_unfold @ack_queue_add. Qed.
#[export] Instance view_enqueue_ack q o : Keeps V (enqueue_ack q o).
Proof. keeps_unfold @enqueue_ack. Qed.
#[export] Instance view_send_event h c q : Keeps V (send_event_enqueue h c q).
Proof. keeps_unfold @send_event_enqueue. Qed.
#[export] Instance view_socket_alloc c t : Keeps V (socket_alloc c t).
Proof. keeps_unfold @socket_alloc. Qed.
#[export] Instance view_socket_free c i : Keeps V (socket_free c i).
Proof. keeps_unfold @socket_free. Qed.
#[export] Instance view_retrans_data q : Keeps V (retrans_data q).
Proof. keeps_unfold @retrans_data. Qed.
#[export] Instance view_add_pending q e : Keeps V (add_pending_event q e).
Proof. keeps_unfold @add_pending_event. Qed.
#[export] Instance view_check_event q e : Keeps V (check_stream_event_validation q e).
Proof. keeps_unfold @check_stream_event_validation. Qed.
#[export] Instance view_event_dest q : Keeps V (event_dest q).
Proof. keeps_unfold @event_dest. Qed.
#[export] Instance view_add_epoll t r i d q : Keeps V (add_epoll_event t r i d q).
Proof. keeps_unfold @add_epoll_event. Qed.
#[export] Instance view_raise_read q r : Keeps V (_raise_read_event q r).
Proof. keeps_unfold @_raise_read_event. Qed.
#[export] Instance view_raise_write q : Keeps V (raise_write_event q).
Proof. keeps_unfold @raise_write_event. Qed.
#[export] Instance view_raise_error q : Keeps V (raise_error_event q).
Proof. keeps_unfold @raise_error_event. Qed.
#[export] Instance view_raise_close q : Keeps V (raise_close_event q).
Proof. keeps_unfold @raise_close_event. Qed.
#[export] Instance view_ack_window q a b c : Keeps V (ack_window q a b c).
Proof. keeps_unfold @ack_window. Qed.
#[export] Instance view_ack_dup q a b c : Keeps V (ack_dup q a b c).
Proof. keeps_unfold @ack_dup. Qed.
#[export] Instance view_ack_retransmit q a b : Keeps V (ack_retransmit q a b).
Proof. keeps_unfold @ack_retransmit. Qed.
#[export] Instance view_process_payload q m a b : Keeps V (process_tcp_payload q m a b).
Proof. keeps_unfold @process_tcp_payload. Qed.
#[export] Instance view_closing_payload q m a b : Keeps V (closing_payload q m a b).
Proof. keeps_unfold @closing_payload. Qed.
#[export] Instance view_syn_filter i q : Keeps V (syn_packet_filter i q).
Proof. keeps_unfold @syn_packet_filter. Qed.
#[export] Instance view_standalone : Keeps V send_tcp_packet_standalone.
Proof. keeps_unfold @send_tcp_packet_standalone. Qed.

Lemma parse_loop_core fuel mem len ts i s s' :
  parse_loop fuel mem len ts i s = Ok s' -> core s' = core s.
Proof.
  revert i s. induction fuel as [|fuel IH]; intros i s; [done|]. cbn [parse_loop].
  repeat match goal with
  | |- context [if decide ?P then _ else _] => destruct (decide P)
  | |- (_ ≫= _) = Ok _ -> _ =>
      let H := fresh in intros (? & _ & H)%res_bind_Ok; revert H; cbn beta zeta
  end; first [by intros [= <-] | intros Hp%IH; by rewrite Hp].
Qed.

#[export] Instance view_parse_options q t h : Keeps V (parse_options q t h).
Proof.
  unfold parse_options. intros w a w' (s & w1 & Hs & Hr)%M_bind_Ok.
  apply M_bind_Ok in Hr as (s' & w2 & Hl & Hr).
  unfold stream in Hs. destruct (w_streams w !! q) as [s0|] eqn:E; simplify_eq/=.
  unfold lift in Hl. destruct (ParseTCPOptions _ _ _ _) as [s1|] eqn:Ep; simplify_eq/=.
  apply parse_loop_core in Ep. unfold set_stream in Hr. rewrite E in Hr.
  injection Hr as <- <-. by apply view_streams, (core_insert core _ _ s).
Qed.
End ViewFrames.

(** ** Frames of a part of one stream *)

Section Obs.
Context {HT : Type} {X : Type} (f : tcp_stream -> X) (p : ptr).
Notation Obs := (obs (HT := HT) f p).

#[export] Instance keeps_heap {A} (m : M mheap A) : Keeps Obs (heap m).
Proof. intros w a w'. unfold heap. by intros ([b h] & _ & [= <- <-])%res_bind_Ok. Qed.

#[export] Instance keeps_stream q : Keeps Obs (stream q).
Proof. intros w a w'. unfold stream. destruct (w_streams w !! q); simpl; [by intros [= <- <-] | done]. Qed.

#[export] Instance keeps_sock i : Keeps Obs (sock i).
Proof. intros w a w'. unfold sock. destruct (sockets w !! i); simpl; [by intros [= <- <-] | done]. Qed.

Lemma keeps_set_stream q g : (forall s, f (g s) = f s) -> Keeps Obs (set_stream q g).
Proof.
  intros Hg w a w'. unfold set_stream. intros (s & Hs%deref_Ok & [= <- <-])%res_bind_Ok.
  change (f <$> <[q := g s]> (w_streams w) !! p = f <$> w_streams w !! p).
  by rewrite <- !lookup_fmap, (core_insert f _ _ s).
Qed.
End Obs.

#[export] Hint Extern 1 (Keeps (obs _ _) (modify _)) =>
  apply keeps_modify; intros; reflexivity : typeclass_instances.
#[export] Hint Extern 1 (Keeps (obs _ _) (set_stream _ _)) =>
  apply keeps_set_stream; intros ?; keeps_field : typeclass_instances.
#[export] Hint Extern 1 (Keeps (obs _ _) (set_snd _ _)) => unfold set_snd : typeclass_instances.
#[export] Hint Extern 1 (Keeps (obs _ _) (set_rcv _ _)) => unfold set_rcv : typeclass_instances.

(** The state of a stream is part of the view. *)
Lemma obs_state_view {HT} p (w w' : world HT) : view w = view w' -> obs state p w = obs state p w'.
Proof.
  intros [= _ _ _ Hc _ _]. unfold obs.
  assert (c_state <$> (core <$> w_streams w !! p) = c_state <$> (core <$> w_streams w' !! p)) as H
    by (by rewrite <- !lookup_fmap, Hc).
  by destruct (w_streams w !! p), (w_streams w' !! p).
Qed.

#[export] Hint Extern 5 (Keeps (obs state _) _) =>
  apply (keeps_view _ _ (obs_state_view _)) : typeclass_instances.
