(* ===== verification/Demo.v ===== *)
(** A small concrete stack thread: one listener on port 80, four sockets, two
    application threads, and the packets of a short connection.  The worlds
    below are obtained by running the model; the properties of the TCP layer
    are instantiated on them. *)
From S2P Require Import Prelude Protocol StaticArp Fifo CircularQueue N21Queue Mbuf RecvBuff SendBuff Stack StreamOps Timer TcpOptions TcpOut TcpIn Api.
#[local] Open Scope Z_scope.

Definition demo_config : Config :=
  {| cf_stack_id := 0; cf_stack_thread := 2; cf_app_thread := 2; cf_rcvbuf_size := 8192;
     cf_sndbuf_size := 8192; cf_max_concurrency := 4;
     cf_eths := [EthTable 0 (replicate 6 1) 167772161];
     cf_sarp := Sarp [ArpEntry 167772162 (2 ^ 32 - 1) (replicate 6 2) 0] 1 |}.
#[local] Existing Instance demo_config.

Definition demo_world : Type := world (gmap ipv4_5tuple ptr).

Definition demo_socket (i : Z) : socket_rec := Socket i SOCK_TYPE_UNUSED 255 0 0 NULL NULL 0 0 0 0.

(** Buffers 11 to 16 hold received packets, 21 to 24 are the driver's free
    ones. *)
Definition demo_heap : mheap :=
  MHeap (list_to_map ((fun p => (p, mbuf0)) <$> [11; 12; 13; 14; 15; 16; 21; 22; 23; 24])) [].

Definition world0 : demo_world :=
  World _ demo_heap ∅ ∅ ((demo_socket <$> [0; 1; 2]) ++
      [Socket 3 SOCK_TYPE_LISTENER 255 SOCK_OPT_ADDR_BIND Q_EPOLLIN NULL 900 (htons 80) 167772161 0 0]) [[0%nat; 1%nat]; [2%nat]] [2; 1]
    [Listener 3 80 (Some 3%nat) [n21q_init 2 8; n21q_init 2 8] 900 8] 0 [] [] []
    (sstreamq_init 8) (sstreamq_init 8) (streamq_init 2 8) (streamq_init 2 8) (streamq_init 2 8)
    (streamq_init 2 8) [1000; 1001] [901] [21; 22; 23; 24] [7000; 7001] [] [].

Definition peer_ip : iphdr := IpHdr 5 167772162 167772161 0 0.

(** A segment of the peer, with its options at [opt]. *)
Definition peer_segment (seq ack doff : Z) (fin syn rst isack : bool) (opt : list Z) : tcphdr :=
  TcpHdr (htons 4000) (htons 80) (htonl seq) (htonl ack) doff fin syn rst false isack (htons 500) opt.

(** Receive buffer [mb] at time [ts] with a segment of [len] payload bytes. *)
Definition receive (ts mb : Z) (h : tcphdr) (len : Z) (w : demo_world) : res (Z * demo_world) :=
  process_tcp_packet ts mb (replicate 6 2) peer_ip h (IP_HEADER_LEN + Z.shiftl (th_doff h) 2 + len) w.

(** The world after a run that ends. *)
Definition after {A} (r : res (A * demo_world)) (w : demo_world) : demo_world :=
  match r with Ok (_, w') => w' | Fault _ => w end.

(** Only the result of a run is evaluated to know that it ends. *)
Definition result {A W} (r : res (A * W)) : option A :=
  match r with Ok (a, _) => Some a | Fault _ => None end.

Lemma after_ok {A} (r : res (A * demo_world)) w a : result r = Some a -> r = Ok (a, after r w).
Proof. destruct r as [[]|]; simpl; [by intros [= ->] | done]. Qed.

Lemma same_chunks {HT} (w : world HT) l : w_chunks w = l -> w <| w_chunks := l |> = w.
Proof. destruct w. by intros <-. Qed.

Definition syn_segment : tcphdr := peer_segment 100 0 7 false true false false [2; 4; 5; 180; 1; 3; 3; 2].
Definition ack_segment : tcphdr := peer_segment 101 7001 5 false false false true [].

(** After the SYN; after the answer was sent; after the peer acknowledged it. *)
Definition world1 : demo_world := after (receive 10 11 syn_segment 0 world0) world0.
Definition world2 : demo_world := after (write_tcp_control_queue 11 world1) world1.
Definition world3 : demo_world := after (receive 12 12 ack_segment 0 world2) world2.

Definition demo_state (w : demo_world) : option tcp_state := state <$> w_streams w !! 1000.

Example demo_syn : demo_state world1 = Some TCP_ST_SYN_RCVD.
Proof. vm_compute. reflexivity. Qed.

(** The application sends two segments of 1000 and 900 bytes in buffers it
    allocated. *)
Definition app_send (mb len : Z) : M demo_world Z :=
  heap (store mb (fun m => m <| mbuf_state := MBUF_STATE_TALLOC |>));;
  _q_tcp_send 0 0 mb len 0.
Definition world4 : demo_world := after ((app_send 15 1000;; app_send 16 900) world3) world3.
Definition world5 : demo_world := after (flush_tcp_sending_buffer 1000 14 world4) world4.

(** Only the first fits the window. *)
Example demo_flush :
  length (w_sent world4) = 1%nat /\ pk_payload <$> w_sent world5 = [0; 1000].
Proof. vm_compute. done. Qed.

(** The peer resets the connection before the answer to its SYN was sent. *)
Definition rst_segment : tcphdr := peer_segment 101 7000 5 false false true true [].
Definition world1r : demo_world := after (receive 11 12 rst_segment 0 world1) world1.

Example demo_reset : demo_state world1r = None.
Proof. vm_compute. done. Qed.
