(* ===== verification/Icmp.v ===== *)
(** ICMP ([icmp.c], [generate_ip_packet_standalone] of [ip_out.c]): the checksum and
    the answer to an echo request.

    A message is the list of the 16-bit words behind the IP header, as they lie in
    memory, with a length in bytes.  [icmp.c] reaches the message of an outgoing
    buffer through [mbuf_get_icmphdr_ptr], which no source file defines: it is a
    parameter, which gives the words behind the IP header of a buffer. *)
From S2P Require Import Prelude Protocol StaticArp Fifo CircularQueue N21Queue Mbuf RecvBuff SendBuff Stack StreamOps Timer TcpOptions TcpOut Demo.
#[local] Open Scope Z_scope.

Module Icmp.

Definition ICMP_ECHOREPLY : Z := 0.
Definition ICMP_ECHO : Z := 8.
Definition ICMPHDR_LEN : Z := 8.

(** The loop over the words, which is that of [tcp_csum], and the two folds. *)
Definition icmp_checksum (icmph : list Z) (len : Z) : res Z :=
  if decide (len < 0) then Fault AssertFail else
  sum ← csum_words icmph len 0;
  let sum := u32 (Z.shiftr sum 16 + Z.land sum 0xFFFF) in
  let sum := u32 (sum + Z.shiftr sum 16) in
  Ok (u16 (u32 (Z.lnot sum))).

(** [memcpy] of [len] bytes between word-aligned places; of the last word of an odd
    length only the first byte is copied. *)
Fixpoint memcpy (dst src : list Z) (len : Z) : res (list Z) :=
  if decide (len <= 0) then Ok dst else
  match dst, src with
  | x :: dst', y :: src' =>
      if decide (len = 1) then Ok ((x / 2 ^ 8) * 2 ^ 8 + y `mod` 2 ^ 8 :: dst')
      else r ← memcpy dst' src' (len - 2); Ok (y :: r)
  | _, _ => Fault OutOfBounds
  end.

(** The bytes of words in memory. *)
Definition bytes (w : list Z) : list Z := w ≫= fun x => [x `mod` 2 ^ 8; x / 2 ^ 8].

(** A frame handed to the driver: the destination hardware address, addresses and
    total length of the IP header, the length of the frame, and those bytes behind
    the IP header that the frame has room for. *)
Record icmp_packet : Type := IcmpPacket {
  ic_dest : list Z; ic_saddr : Z; ic_daddr : Z; ic_tot_len : Z; ic_frame : Z; ic_bytes : list Z;
}.

Section Icmp.
Context {HT : Type} `{!Config}.
Context (mbuf_get_icmphdr_ptr : ptr -> option (list Z)).

(** [tx_room] is the number of free cells of the driver's transmit queue. *)
Record inet : Type := Inet { in_world : world HT; tx_room : nat; icmp_sent : list icmp_packet }.
#[export] Instance inet_rebuild : Rebuild inet := fun s => Inet (in_world s) (tx_room s) (icmp_sent s).

Definition on_inet {A} (m : M (world HT) A) : M inet A := fun s =>
  '(a, w) ← m (in_world s); Ok (a, s <| in_world := w |>).

(** The return code, and the destination hardware address and the total length it
    writes: the address is the characters of a string constant.  The length of the
    IP header is not set in the buffer. *)
Definition generate_ip_packet_standalone (mbuf : ptr) (payloadlen : Z) : M inet (Z * list Z * Z) :=
  let haddr := replicate 6 48 in
  let tot_len := htons (u16 (IP_HEADER_LEN + payloadlen)) in
  if decide (mbuf = NULL) then mret (ERROR, haddr, tot_len) else
  ret ← on_inet (eth_hdr_generate mbuf);
  if decide (ret = 0) then mret (0, haddr, tot_len) else mret (SUCCESS, haddr, tot_len).

(** The frame is the first [data_len] bytes of the buffer; [words] are those behind
    the two headers.  [dpdk_tx_send] ends the program when its queue is full. *)
Definition io_send_icmp (mbuf : ptr) (len : Z) (haddr : list Z) (saddr daddr tot_len : Z) (words : list Z) : M inet unit :=
  on_inet (heap (store mbuf (fun m => if decide (data_len m = 0) then m <| data_len := u16 len |> else m)));;
  on_inet (heap (store mbuf (fun m => if decide (pkt_len m = 0) then m <| pkt_len := u32 len |> else m)));;
  m ← on_inet (heap (load mbuf));
  s ← get;
  match tx_room s with
  | O => throw Exit
  | S k =>
      let rest := data_len m - ETHERNET_HEADER_LEN - IP_HEADER_LEN in
      modify (fun s => s <| tx_room := k |>
        <| icmp_sent ::= fun l => l ++ [IcmpPacket haddr saddr daddr tot_len (data_len m) (take (Z.to_nat rest) (bytes words))] |>)
  end.

Definition icmp_output (saddr daddr icmp_type icmp_code icmp_id icmp_seq : Z) (icmpd : list Z) (len : Z) : M inet Z :=
  mbuf ← on_inet io_get_swmbuf;
  '(ret, haddr, tot_len) ← generate_ip_packet_standalone mbuf (u16 (ICMPHDR_LEN + len));
  if decide (ret = 0) then mret ERROR else
  match mbuf_get_icmphdr_ptr mbuf with
  | None => mret ERROR
  | Some (_ :: _ :: _ :: _ :: area) =>
      let hdr := [icmp_type + icmp_code * 2 ^ 8; 0; htons icmp_id; htons icmp_seq] in
      area ← lift (if decide (0 < len) then memcpy area icmpd len else Ok area);
      c ← lift (icmp_checksum (hdr ++ area) (ICMPHDR_LEN + len));
      m ← on_inet (heap (load mbuf));
      io_send_icmp mbuf (l2_len m + l3_len m + ICMPHDR_LEN + len) haddr saddr daddr tot_len
        (<[1%nat := c]> (hdr ++ area));;
      mret SUCCESS
  | Some _ => throw OutOfBounds
  end.

(** [len] is the length of the IP packet. *)
Definition process_icmp_echo_request (iph : iphdr) (icmph : list Z) (len : Z) : M inet Z :=
  let n := len - Z.shiftl (ihl iph) 2 in
  c ← lift (icmp_checksum icmph n);
  if decide (c <> 0) then mret ERROR else
  id ← lift (read_at icmph 2);
  seq ← lift (read_at icmph 3);
  icmp_output (ip_daddr iph) (ip_saddr iph) ICMP_ECHOREPLY 0 (ntohs id) (ntohs seq) (drop 4 icmph) (u16 (n - ICMPHDR_LEN));;
  mret 0.

Definition request_icmp (saddr daddr icmp_id icmp_sequence : Z) (icmpd : list Z) (len : Z) : M inet unit :=
  icmp_output saddr daddr ICMP_ECHO 0 (ntohs icmp_id) (ntohs icmp_sequence) icmpd len;; mret tt.

(** [iph] and the words behind it of the received packet. *)
Definition process_icmp_packet (iph : iphdr) (icmph : list Z) (ip_len : Z) : M inet Z :=
  if existsb (fun e => bool_decide (ip_daddr iph = ip_addr e)) cf_eths then
    w ← lift (read_at icmph 0);
    when (bool_decide (w `mod` 2 ^ 8 = ICMP_ECHO)) (process_icmp_echo_request iph icmph ip_len;; mret tt);;
    mret TRUE
  else mret TRUE.
End Icmp.
End Icmp.
Import Icmp.

(** ** The checksum *)

(** The value of the two folds, also of the sum zero. *)
Definition folded (s : Z) : Z := if decide (s = 0) then 0 else ones_fold s.

Lemma icmp_checksum_value w n : Forall is_u16 w -> 0 <= n <= 2 * Z.of_nat (length w) -> n <= 65543 ->
  icmp_checksum w n = Ok (65535 - folded (segment_sum w n)).
Proof.
  intros Hw Hn Hb. pose proof (segment_sum_bound w n Hw ltac:(lia)) as Hs.
  assert (65535 * (n / 2 + 1) < 2 ^ 32) by (Z.div_mod_to_equations; lia). unfold icmp_checksum. rewrite decide_False by lia.
  rewrite csum_words_sum by (done || lia). cbn [mbind res_bind]. rewrite Z.add_0_l. f_equal. unfold folded. case_decide as E.
  - by rewrite E.
  - apply fold_complement. lia.
Qed.

Lemma icmp_checksum_verifies w n i : Forall is_u16 w -> 0 <= n <= 2 * Z.of_nat (length w) -> n <= 65543 ->
  w !! i = Some 0 -> 2 * Z.of_nat i + 2 <= n ->
  exists c, icmp_checksum w n = Ok c /\ is_u16 c /\ icmp_checksum (<[i := c]> w) n = Ok 0.
Proof.
  intros Hw Hn Hb Hi Hin. eexists. split; [by apply icmp_checksum_value|]. pose proof (segment_sum_bound w n Hw ltac:(lia)) as Hs.
  set (s := segment_sum w n) in *. assert (is_u16 (65535 - folded s)) as Hc by (unfold folded, ones_fold; case_decide; mlia).
  split; [done|]. rewrite icmp_checksum_value by (rewrite ?length_insert; (done || lia || by apply Forall_insert)).
  rewrite segment_sum_insert by done. fold s. f_equal. unfold folded, ones_fold. clear -Hs. do 2 case_decide; mlia.
Qed.

(** ** Copying *)
Lemma memcpy_spec src : forall dst len, Forall is_u16 dst -> Forall is_u16 src ->
  0 <= len <= 2 * Z.of_nat (length dst) -> len <= 2 * Z.of_nat (length src) ->
  exists r, memcpy dst src len = Ok r /\ length r = length dst /\ Forall is_u16 r /\
    take (Z.to_nat len) (bytes r) = take (Z.to_nat len) (bytes src).
Proof.
  induction src as [|y src IH]; intros [|x dst] len Hd Hs Hl Hl'; cbn [length] in *; cbn [memcpy].
  1, 2, 3: rewrite decide_True by lia; eexists; split_and!; try done; by replace (Z.to_nat len) with 0%nat by lia.
  apply Forall_cons in Hd as [Hx Hd], Hs as [Hy Hs]. case_decide as H0.
  { eexists. split_and!; [done | done | by constructor|]. by replace (Z.to_nat len) with 0%nat by lia. }
  case_decide as H1.
  - subst len. eexists. split_and!; [done | done | |]; [constructor; [clear -Hx Hy; mlia | done]|].
    assert ((x / 2 ^ 8 * 2 ^ 8 + y `mod` 2 ^ 8) `mod` 2 ^ 8 = y `mod` 2 ^ 8) as E by (rewrite Z.add_comm, Z_mod_plus_full; apply Zmod_mod).
    change (Z.to_nat 1) with 1%nat. unfold bytes. rewrite !bind_cons. cbn [app take]. by rewrite E.
  - destruct (IH dst (len - 2)) as (r & Hr & Hlr & Hfr & Ht); [done | done | lia | lia|]. rewrite Hr. cbn [mbind res_bind].
    eexists. split; [done|]. split; [by cbn; rewrite Hlr|]. split; [by constructor|].
    replace (Z.to_nat len) with (S (S (Z.to_nat (len - 2)))) by lia. unfold bytes in *. cbn. by rewrite Ht.
Qed.

(** ** The answer *)
Section Answer.
Context {HT : Type} `{!Config}.
Context (area_of : ptr -> option (list Z)).

Lemma on_inet_run {A} (m : M (world HT) A) s a w : m (in_world s) = Ok (a, w) -> on_inet m s = Ok (a, s <| in_world := w |>).
Proof. unfold on_inet. by intros ->. Qed.

(** A message as the code sends it: header, data and a checksum that verifies. *)
Definition message_ok (w : list Z) (first id seq : Z) (data : list Z) (len : Z) : Prop :=
  w !! 0%nat = Some first /\ w !! 2%nat = Some id /\ w !! 3%nat = Some seq /\
  take (Z.to_nat len) (bytes (drop 4 w)) = take (Z.to_nat len) (bytes data) /\ icmp_checksum w (ICMPHDR_LEN + len) = Ok 0.

(** The words of the message. *)
Lemma message_built first id seq area data len : is_u16 first -> is_u16 id -> is_u16 seq -> Forall is_u16 area -> Forall is_u16 data ->
  is_u16 len -> len <= 2 * Z.of_nat (length area) -> len <= 2 * Z.of_nat (length data) ->
  exists r c, (if decide (0 < len) then memcpy area data len else Ok area) = Ok r /\
    icmp_checksum ([first; 0; id; seq] ++ r) (ICMPHDR_LEN + len) = Ok c /\
    message_ok (<[1%nat := c]> ([first; 0; id; seq] ++ r)) first id seq data len.
Proof.
  intros Hf Hid Hseq Ha Hd Hlen H1 H2. unfold is_u16 in Hlen.
  destruct (memcpy_spec data area len Ha Hd ltac:(lia) H2) as (r & Hr & Hlr & Hfr & Ht).
  assert (Forall is_u16 ([first; 0; id; seq] ++ r)) as Hw by (cbn; repeat (constructor; [done || (unfold is_u16; lia)|]); done).
  assert (length ([first; 0; id; seq] ++ r) = (4 + length area)%nat) as Hlw by (rewrite length_app, Hlr; done).
  destruct (icmp_checksum_verifies _ (ICMPHDR_LEN + len) 1 Hw) as (c & Hc & Hcr & Hv); [unfold ICMPHDR_LEN; lia.. | done | unfold ICMPHDR_LEN; lia|].
  exists r, c. split; [|split; [exact Hc|]].
  - case_decide; [done|]. replace len with 0 in Hr by lia. by destruct area, data.
  - split_and!; [done | done | done | exact Ht | exact Hv].
Qed.

(** The frame takes the length given when the buffer has none. *)
Lemma io_send_icmp_run (s : @inet HT) k m b len haddr saddr daddr tot_len words :
  tx_room s = S k -> mbufs (w_heap (in_world s)) !! m = Some b ->
  let fl := if decide (data_len b = 0) then u16 len else data_len b in
  exists s', io_send_icmp m len haddr saddr daddr tot_len words s = Ok (tt, s') /\
    icmp_sent s' = icmp_sent s ++ [IcmpPacket haddr saddr daddr tot_len fl
      (take (Z.to_nat (fl - ETHERNET_HEADER_LEN - IP_HEADER_LEN)) (bytes words))].
Proof.
  intros Hk Hb fl. unfold io_send_icmp.
  step by (apply on_inet_run; unfold heap; erewrite store_ok by exact Hb; reflexivity).
  step by (apply on_inet_run; unfold heap; erewrite store_ok by apply lookup_insert_eq; reflexivity).
  step by (apply on_inet_run; unfold heap; erewrite load_ok by apply lookup_insert_eq; reflexivity).
  step by reflexivity.
  match goal with |- context [match tx_room ?x with _ => _ end] => change (tx_room x) with (tx_room s) end.
  rewrite Hk. eexists. split; [reflexivity|]. cbn [icmp_sent update].
  assert (forall c : mbuf, data_len (if decide (pkt_len c = 0) then c <| pkt_len := u32 len |> else c) = data_len c) as Hpk
    by (intros c; by case_decide).
  rewrite Hpk. replace (data_len (if decide (data_len b = 0) then b <| data_len := u16 len |> else b)) with fl
    by (unfold fl; by case_decide). reflexivity.
Qed.

(** Sending a message with a fresh buffer at hand and room in the driver's queue. *)
Lemma icmp_output_run (s : @inet HT) k m l b a0 a1 a2 a3 area saddr daddr t code id seq data len :
  tx_room s = S k -> w_swmbufs (in_world s) = m :: l -> m <> NULL -> mbufs (w_heap (in_world s)) !! m = Some b ->
  data_len b = 0 -> 0 <= ETHERNET_HEADER_LEN + l3_len b + ICMPHDR_LEN + len < 2 ^ 16 ->
  area_of m = Some (a0 :: a1 :: a2 :: a3 :: area) ->
  is_u16 (t + code * 2 ^ 8) -> Forall is_u16 area -> Forall is_u16 data ->
  is_u16 len -> len <= 2 * Z.of_nat (length area) -> len <= 2 * Z.of_nat (length data) ->
  exists s' w, icmp_output area_of saddr daddr t code id seq data len s = Ok (SUCCESS, s') /\
    icmp_sent s' = icmp_sent s ++ [IcmpPacket (replicate 6 48) saddr daddr (htons (u16 (IP_HEADER_LEN + u16 (ICMPHDR_LEN + len))))
      (ETHERNET_HEADER_LEN + l3_len b + ICMPHDR_LEN + len)
      (take (Z.to_nat (l3_len b + ICMPHDR_LEN + len - IP_HEADER_LEN)) (bytes w))] /\
    message_ok w (t + code * 2 ^ 8) (htons id) (htons seq) data len.
Proof.
  intros Hk Hsw Hm Hb Hdl Hfr Ha Ht Hfa Hfd Hlen H1 H2.
  assert (forall x, is_u16 (htons x)) as Hh by (intros x; unfold htons, ntohs; mlia).
  destruct (message_built _ (htons id) (htons seq) area data len Ht (Hh id) (Hh seq) Hfa Hfd Hlen H1 H2) as (r & c & Hr & Hc & Hmsg).
  set (s1 := s <| in_world ::= fun w => w <| w_swmbufs := l |> <| w_heap ::= fun h => h <| mbufs ::= <[m := b <| l2_len := ETHERNET_HEADER_LEN |>]> |> |> |>).
  destruct (io_send_icmp_run s1 k m (b <| l2_len := ETHERNET_HEADER_LEN |>) (ETHERNET_HEADER_LEN + l3_len b + ICMPHDR_LEN + len)
    (replicate 6 48) saddr daddr (htons (u16 (IP_HEADER_LEN + u16 (ICMPHDR_LEN + len))))
    (<[1%nat := c]> ([t + code * 2 ^ 8; 0; htons id; htons seq] ++ r))) as (s' & Hrun & Hsent); [exact Hk | apply lookup_insert_eq|].
  exists s', (<[1%nat := c]> ([t + code * 2 ^ 8; 0; htons id; htons seq] ++ r)). split; [|split; [|exact Hmsg]].
  - unfold icmp_output. step by (apply on_inet_run; unfold io_get_swmbuf; by rewrite Hsw).
    unfold generate_ip_packet_standalone. rewrite decide_False by done.
    unfold eth_hdr_generate. rewrite (decide_False (P := m = NULL)) by done.
    step by (apply on_inet_run; step by (unfold heap; by rewrite (store_ok _ _ _ _ Hb)); reflexivity).
    rewrite decide_False by done. step by reflexivity. rewrite decide_False by done. rewrite Ha.
    step by (by apply lift_ok). step by (by apply lift_ok).
    step by (apply on_inet_run; unfold heap; erewrite load_ok by apply lookup_insert_eq; reflexivity).
    step by (exact Hrun). reflexivity.
  - rewrite Hsent. change (data_len (b <| l2_len := ETHERNET_HEADER_LEN |>)) with (data_len b). rewrite decide_True by done.
    replace (u16 (ETHERNET_HEADER_LEN + l3_len b + ICMPHDR_LEN + len)) with (ETHERNET_HEADER_LEN + l3_len b + ICMPHDR_LEN + len)
      by (symmetry; by apply Z.mod_small).
    by replace (ETHERNET_HEADER_LEN + l3_len b + ICMPHDR_LEN + len - ETHERNET_HEADER_LEN - IP_HEADER_LEN)
      with (l3_len b + ICMPHDR_LEN + len - IP_HEADER_LEN) by lia.
Qed.
End Answer.

Lemma htons_ntohs z : is_u16 z -> htons (ntohs z) = z.
Proof. intros Hz. unfold htons, ntohs. mlia. Qed.

(** C25. The answer to an echo request.  For an echo request of [n] bytes to one of
    the host's addresses, with a fresh buffer ([data_len] is 0) that has room for the
    answer and room in the driver's queue: if the checksum does not verify nothing
    happens; if it verifies, one message is built in the buffer, an echo reply with
    the identifier, the sequence number and the data bytes of the request and with a
    checksum that verifies in turn, and one frame is sent, from the address the
    request was sent to back to its sender.  The frame carries the first
    [n + l3_len b - 20] bytes of the message: all of it only if the buffer has the
    length of the IP header in [l3_len], and without its last 20 bytes if [l3_len] is
    0; and its destination hardware address is six times the character 0. *)
Theorem echo_request_answered {HT} `{!Config} area_of (s : @inet HT) k m l b a0 a1 a2 a3 area iph icmph ip_len n x0 id seq :
  n = ip_len - 4 * ihl iph -> Exists (fun e => ip_addr e = ip_daddr iph) cf_eths ->
  Forall is_u16 icmph -> ICMPHDR_LEN <= n <= 2 * Z.of_nat (length icmph) -> n < 2 ^ 16 - IP_HEADER_LEN ->
  icmph !! 0%nat = Some x0 -> x0 `mod` 2 ^ 8 = ICMP_ECHO -> icmph !! 2%nat = Some id -> icmph !! 3%nat = Some seq ->
  tx_room s = S k -> w_swmbufs (in_world s) = m :: l -> m <> NULL -> mbufs (w_heap (in_world s)) !! m = Some b ->
  data_len b = 0 -> 0 <= l3_len b -> ETHERNET_HEADER_LEN + l3_len b + n < 2 ^ 16 ->
  area_of m = Some (a0 :: a1 :: a2 :: a3 :: area) -> Forall is_u16 area -> n - ICMPHDR_LEN <= 2 * Z.of_nat (length area) ->
  exists c, icmp_checksum icmph n = Ok c /\
    (c <> 0 -> process_icmp_packet area_of iph icmph ip_len s = Ok (TRUE, s)) /\
    (c = 0 -> exists s' w, process_icmp_packet area_of iph icmph ip_len s = Ok (TRUE, s') /\
      message_ok w ICMP_ECHOREPLY id seq (drop 4 icmph) (n - ICMPHDR_LEN) /\
      icmp_sent s' = icmp_sent s ++ [IcmpPacket (replicate 6 48) (ip_daddr iph) (ip_saddr iph) (htons (IP_HEADER_LEN + n))
        (ETHERNET_HEADER_LEN + l3_len b + n) (take (Z.to_nat (n + l3_len b - IP_HEADER_LEN)) (bytes w))]).
Proof.
  intros Hn Hme Hw Hlen Hmax H0 Hecho H2 H3 Hk Hsw Hm Hb Hdl Hl3 Hfr Ha Hfa Hroom. unfold ICMPHDR_LEN, IP_HEADER_LEN in *.
  eexists. split; [apply icmp_checksum_value; (done || lia)|]. set (c := 65535 - folded (segment_sum icmph n)).
  assert (icmp_checksum icmph n = Ok c) as Hc by (apply icmp_checksum_value; (done || lia)).
  assert (existsb (fun e => bool_decide (ip_daddr iph = ip_addr e)) cf_eths = true) as Hex.
  { apply existsb_exists. apply Exists_exists in Hme as (e & He & Hip). exists e. split; [by apply list_elem_of_In | by apply bool_decide_true]. }
  assert (process_icmp_packet area_of iph icmph ip_len s =
    (process_icmp_echo_request area_of iph icmph ip_len ≫= fun _ => mret TRUE) s) as ->.
  { unfold process_icmp_packet. rewrite Hex. step by (by apply lift_ok, (read_at_nat _ 0)).
    rewrite bool_decide_true by done. cbn [when]. by rewrite bind_bind. }
  unfold process_icmp_echo_request. replace (ip_len - Z.shiftl (ihl iph) 2) with n by (rewrite Z.shiftl_mul_pow2; lia).
  split; intros Hc0.
  - step by (by apply lift_ok). rewrite decide_True by done. done.
  - rewrite Hc0 in Hc. step by (by apply lift_ok). rewrite decide_False by lia.
    step by (by apply lift_ok, (read_at_nat _ 2)). step by (by apply lift_ok, (read_at_nat _ 3)).
    unfold u16 at 1. rewrite (Z.mod_small (n - ICMPHDR_LEN)) by (unfold ICMPHDR_LEN; lia).
    destruct (icmp_output_run area_of s k m l b a0 a1 a2 a3 area (ip_daddr iph) (ip_saddr iph) ICMP_ECHOREPLY 0 (ntohs id) (ntohs seq)
      (drop 4 icmph) (n - ICMPHDR_LEN)) as (s' & w & Hr & Hs' & Hmsg);
      [done | done | done | done | done | unfold ETHERNET_HEADER_LEN, ICMPHDR_LEN in *; lia | done | unfold ICMP_ECHOREPLY, is_u16; lia | done | by apply Forall_drop | unfold ICMPHDR_LEN, is_u16; lia
      | done | rewrite length_drop; unfold ICMPHDR_LEN; lia |].
    exists s', w. split; [step by exact Hr; done|]. rewrite Forall_lookup in Hw. unfold ICMP_ECHOREPLY in *. rewrite Z.add_0_l, Z.mul_0_l in Hmsg.
    rewrite !htons_ntohs in Hmsg by (by eapply Hw). split; [exact Hmsg|]. rewrite Hs'. unfold ICMPHDR_LEN, IP_HEADER_LEN, u16.
    replace (8 + (n - 8)) with n by lia. rewrite (Z.mod_small n), (Z.mod_small (20 + n)) by lia.
    replace (ETHERNET_HEADER_LEN + l3_len b + 8 + (n - 8)) with (ETHERNET_HEADER_LEN + l3_len b + n) by lia.
    by replace (l3_len b + 8 + (n - 8) - 20) with (n + l3_len b - 20) by lia.
Qed.

(** ** A ping of the demonstration host *)
#[local] Existing Instance demo_config.

(** Three bytes of data in a request with its checksum. *)
Definition ping : list Z := [8; 0x89FF; 0x1234; 0x0100; 0x6261; 0x0063].
Definition ping_area (m : ptr) : option (list Z) := Some (replicate 20 0xFFFF).

(** The message of 11 bytes does not even reach the frame of the fresh buffer. *)
Lemma echo_request_answered_witness :
  exists s', process_icmp_packet ping_area peer_ip ping 31 (Inet world0 8 []) = Ok (TRUE, s') /\
    icmp_sent s' = [IcmpPacket (replicate 6 48) (ip_daddr peer_ip) (ip_saddr peer_ip) (htons 31) 25 []].
Proof.
  destruct (echo_request_answered ping_area (Inet world0 8 []) 7 21 [22; 23; 24] mbuf0 0xFFFF 0xFFFF 0xFFFF 0xFFFF (replicate 16 0xFFFF)
    peer_ip ping 31 11 8 0x1234 0x0100) as (c & Hc & _ & Hok);
    [reflexivity | by constructor | repeat constructor; unfold is_u16; lia | vm_compute; split; congruence | vm_compute; reflexivity
    | reflexivity | reflexivity | reflexivity | reflexivity | reflexivity | reflexivity | done | reflexivity
    | reflexivity | vm_compute; congruence | vm_compute; reflexivity | reflexivity
    | repeat constructor; unfold is_u16; lia | vm_compute; congruence |].
  vm_compute in Hc. injection Hc as <-. destruct (Hok eq_refl) as (s' & w & Hr & _ & Hs). exists s'. split; [exact Hr|]. rewrite Hs. reflexivity.
Defined.
