(* ===== verification/Sendv.v ===== *)
(** Sending from several places at once: [q_sendv] of [api.c].

    The parts are lists of bytes.  The buffers [q_get_wmbuf] returns, with the room
    it reports for each, are a supply in the state; what a buffer holds when it is
    handed to [q_send] is recorded. *)
From S2P Require Import Prelude Protocol StaticArp Fifo CircularQueue N21Queue Mbuf RecvBuff SendBuff Stack StreamOps Timer TcpOptions TcpOut TcpIn Api Demo.
#[local] Open Scope Z_scope.

Module Sendv.
Section Sendv.
Context {HT : Type} `{!Config}.
Context (app : qapp) (sockid flags : Z).

Record sendv : Type := SendvState { sv_world : world HT; sv_supply : list (ptr * Z); sv_calls : list (ptr * list Z) }.
#[export] Instance sendv_rebuild : Rebuild sendv := fun s => SendvState (sv_world s) (sv_supply s) (sv_calls s).

Definition q_get_wmbuf : M sendv (ptr * Z) := fun s =>
  match sv_supply s with
  | [] => Ok ((NULL, 0), s)
  | b :: l => Ok (b, s <| sv_supply := l |>)
  end.

(** [q_send] of a buffer with these bytes at its start. *)
Definition call_send (mbuf : ptr) (data : list Z) : M sendv Z := fun s =>
  '(r, w) ← q_send app sockid mbuf (Z.of_nat (length data)) flags (sv_world s);
  Ok (r, s <| sv_world := w |> <| sv_calls ::= fun l => l ++ [(mbuf, data)] |>).

(** [data] are the bytes in the current buffer, [offset] of them. *)
Fixpoint sendv_loop (iov : list (list Z)) (mbuf : ptr) (len : Z) (data : list Z) (ret : Z) : M sendv Z :=
  match iov with
  | [] => r ← call_send mbuf data; mret (u32 (ret + r))
  | b :: iov' =>
      if decide (len < Z.of_nat (length data) + Z.of_nat (length b)) then
        r ← call_send mbuf data;
        let ret := u32 (ret + r) in
        '(mbuf, len) ← q_get_wmbuf;
        if decide (mbuf = NULL) then r ← call_send NULL data; mret (u32 (ret + r))
        else if decide (len < Z.of_nat (length b)) then throw OutOfBounds
        else sendv_loop iov' mbuf len b ret
      else sendv_loop iov' mbuf len (data ++ b) ret
  end.

Definition q_sendv (iov : list (list Z)) : M sendv Z :=
  '(mbuf, len) ← q_get_wmbuf;
  if decide (mbuf = NULL) then mret (-1) else
  ret ← sendv_loop iov mbuf len [] 0;
  mret (s32 ret).
End Sendv.
End Sendv.
Import Sendv.

(** ** Reference: one call per packet *)
Section Reference.
Context {HT : Type} `{!Config}.
Context (app : qapp) (sockid flags : Z).

Fixpoint send_packets (ps : list (list Z)) (ret : Z) : M (@sendv HT) Z :=
  match ps with
  | [] => mret (s32 ret)
  | p :: ps' => '(mbuf, _) ← q_get_wmbuf; r ← call_send app sockid flags mbuf p; send_packets ps' (u32 (ret + r))
  end.

(** Parts are put into a packet as long as they fit. *)
Fixpoint pack (len : Z) (cur : list Z) (iov : list (list Z)) : list (list Z) :=
  match iov with
  | [] => [cur]
  | b :: iov' => if decide (len < Z.of_nat (length cur) + Z.of_nat (length b)) then cur :: pack len b iov' else pack len (cur ++ b) iov'
  end.

Lemma pack_concat len iov : forall cur, concat (pack len cur iov) = cur ++ concat iov.
Proof.
  induction iov as [|b iov IH]; intros cur; cbn [pack concat]; [done|]. case_decide; [cbn [concat]; by rewrite IH | by rewrite IH, app_assoc].
Qed.
Lemma pack_fits len iov : Forall (fun b => Z.of_nat (length b) <= len) iov -> forall cur, Z.of_nat (length cur) <= len ->
  Forall (fun p => Z.of_nat (length p) <= len) (pack len cur iov).
Proof.
  induction 1 as [|b iov Hb _ IH]; intros cur Hc; cbn [pack]; [by repeat constructor|]. case_decide as E; [constructor; [done | by apply IH]|].
  apply IH. rewrite length_app. lia.
Qed.
Lemma pack_length len iov : forall cur, (1 <= length (pack len cur iov) <= S (length iov))%nat.
Proof.
  induction iov as [|b iov IH]; intros cur; cbn [pack length]; [lia|]. case_decide; cbn [length]; [specialize (IH b) | specialize (IH (cur ++ b))]; lia.
Qed.

(** The buffers at hand have the same room. *)
Definition supply_ok (len : Z) (s : @sendv HT) (n : nat) : Prop :=
  (n <= length (sv_supply s))%nat /\ Forall (fun b => b.1 <> NULL /\ b.2 = len) (sv_supply s).

(** The loop, with its current buffer still counted as the first of the supply. *)
Lemma sendv_loop_packs len iov : Forall (fun b => Z.of_nat (length b) <= len) iov -> forall mbuf data ret s,
  mbuf <> NULL -> supply_ok len s (length iov) ->
  (sendv_loop app sockid flags iov mbuf len data ret ≫= fun r => mret (s32 r)) s =
    send_packets (pack len data iov) ret (s <| sv_supply ::= cons (mbuf, len) |>).
Proof.
  intros Hiov. induction Hiov as [|b iov Hb _ IH]; intros mbuf data ret s Hm [Hn Hs]; cbn [sendv_loop pack].
  - destruct s as [w sup calls]. cbn [send_packets]. unfold mbind, M_bind, call_send, q_get_wmbuf. cbn.
    by destruct (q_send app sockid mbuf (Z.of_nat (length data)) flags w) as [[r w']|f].
  - case_decide as E; [|apply IH; [done|]; split; [cbn in Hn; lia | done]].
    destruct s as [w sup calls]. cbn [sv_supply length] in Hn, Hs.
    destruct sup as [|[m2 l2] sup]; [cbn in Hn; lia|]. apply Forall_cons in Hs as [[Hm2 Hl2] Hs]. cbn in Hm2, Hl2, Hn. subst l2.
    cbn [send_packets]. unfold mbind at 1 2 3 5 6, M_bind. unfold call_send at 1 3. cbn.
    destruct (q_send app sockid mbuf (Z.of_nat (length data)) flags w) as [[r w']|f]; [|done]. cbn.
    rewrite decide_False, decide_False by (done || lia).
    apply (IH m2 b (u32 (ret + r)) (SendvState w' sup (calls ++ [(mbuf, data)])) Hm2). split; [cbn; lia | done].
Qed.
End Reference.

(** C24. Sending from several places sends their bytes in order.  With parts no longer
    than the room of a buffer, and a buffer per part and one more at hand, [q_sendv]
    does exactly what one call of [q_send] per packet does, for packets that fit a
    buffer, at most one more than there are parts, and that hold together the bytes
    of all parts in order; it returns the sum of what the calls return, modulo 2^32
    and read as a signed number, errors (-1) added like lengths. *)
Theorem sendv_sends_in_order {HT} `{!Config} app sockid flags len iov (s : @sendv HT) :
  0 <= len -> Forall (fun b => Z.of_nat (length b) <= len) iov -> supply_ok len s (S (length iov)) ->
  exists packets, concat packets = concat iov /\ Forall (fun p => Z.of_nat (length p) <= len) packets /\
    (1 <= length packets <= S (length iov))%nat /\ q_sendv app sockid flags iov s = send_packets app sockid flags packets 0 s.
Proof.
  intros Hlen Hiov [Hn Hs]. exists (pack len [] iov). split; [apply pack_concat|]. split; [by apply pack_fits|]. split; [apply pack_length|].
  destruct s as [w [|[m l] sup] calls]; cbn [sv_supply length] in Hn, Hs; [lia|]. apply Forall_cons in Hs as [[Hm Hl] Hs]. cbn in Hm, Hl. subst l.
  unfold q_sendv. erewrite bind_ok by reflexivity. cbn beta iota. rewrite decide_False by done.
  apply (sendv_loop_packs app sockid flags len iov Hiov m [] 0 (SendvState w sup calls) Hm). split; [cbn; lia | done].
Qed.

#[local] Existing Instance demo_config.

(** Three parts in two packets on the demonstration connection. *)
Lemma sendv_sends_in_order_witness :
  let parts := [replicate 600 1; replicate 300 2; replicate 200 3] in
  let s := SendvState world3 [(15, 1000); (16, 1000); (13, 1000); (14, 1000)] [] in
  exists packets, concat packets = concat parts /\
    q_sendv (Qapp 0 0) 0 0 parts s = send_packets (Qapp 0 0) 0 0 packets 0 s.
Proof.
  intros parts s. destruct (sendv_sends_in_order (Qapp 0 0) 0 0 1000 parts s) as (ps & H1 & _ & _ & H2);
    [lia | repeat constructor; vm_compute; congruence | split; [vm_compute; lia | repeat constructor; done] |].
  exists ps. split; [exact H1 | exact H2].
Defined.

(** The sum counts errors as if they were bytes: two packets that [q_send] refuses
    with -1 make [q_sendv] return -2. *)
Lemma sendv_adds_errors : exists s',
  q_sendv (Qapp 0 0) (-1) 0 [replicate 600 1; replicate 600 2] (SendvState world3 [(15, 1000); (16, 1000)] []) = Ok (-2, s').
Proof. eexists. vm_compute. reflexivity. Qed.
