(* ===== verification/Arp.v ===== *)
(** ARP: [arp.c].

    The address resolution state is global ([CONFIG.arp_tables] and [g_arpm]);
    the packets go through the buffers of the stack thread.  [net] joins both.
    A received ARP packet is given by the header at its buffer. *)
From S2P Require Import Prelude Protocol StaticArp Fifo CircularQueue N21Queue Mbuf RecvBuff SendBuff Stack StreamOps Timer TcpOptions TcpOut TcpIn Frames Demo.
#[local] Open Scope Z_scope.

Definition ARP_TABLE_SIZE : Z := 16.
Definition FULL_ARP_TABLE_SIZE : nat := 17.
Definition ARP_PAD_LEN : nat := 18.
Definition INADDR_LOOPBACK : Z := 0x7f000001.
Definition ETH_P_IP : Z := 0x0800.
Definition ETH_P_ARP : Z := 0x0806.
Definition arp_hrd_ethernet : Z := 1.
Definition arp_op_request : Z := 1.
Definition arp_op_reply : Z := 2.

(** Fields as they lie in memory. *)
Record arphdr : Type := ArpHdr {
  ar_hrd : Z; ar_pro : Z; ar_hln : Z; ar_pln : Z; ar_op : Z;
  ar_sha : list Z; ar_sip : Z; ar_tha : list Z; ar_tip : Z; ar_pad : list Z;
}.
Definition ARPHDR_LEN : Z := 46.

Record arp_queue_entry : Type := ArpQueued { aq_ip : Z; aq_nif : Z; aq_ts : Z }.

(** A frame handed to the driver: the Ethernet header and the ARP packet. *)
Record arp_frame : Type := ArpFrame {
  fr_dest : list Z; fr_source : list Z; fr_proto : Z; fr_arp : arphdr;
}.

(** [g_arpm.list] is a [TAILQ]: before [TAILQ_INIT] its tail pointer is null. *)
Record net {HT : Type} : Type := Net {
  n_world : world HT;
  arp_tables : list (list arp_entry);
  arpm_ready : bool;
  g_arpm : list arp_queue_entry;
  n_calloc : list bool;         (* whether the coming calloc calls succeed *)
  n_frames : list arp_frame;    (* ARP frames sent, oldest first *)
}.
Arguments net HT : clear implicits.

#[export] Instance net_rebuild {HT} : Rebuild (net HT) := fun n =>
  Net _ (n_world n) (arp_tables n) (arpm_ready n) (g_arpm n) (n_calloc n) (n_frames n).

Section Arp.
Context {HT : Type} `{!Config}.
Abbreviation N := (net HT).

(** Run an operation of the stack thread. *)
Definition on_world {A} (m : M (world HT) A) : M N A := fun n =>
  '(a, w) ← m (n_world n); Ok (a, n <| n_world := w |>).

Definition calloc : M N bool := fun n =>
  match n_calloc n with
  | [] => Ok (false, n)
  | b :: l => Ok (b, n <| n_calloc := l |>)
  end.

(** [io_send_mbuf] of an ARP frame. *)
Definition io_send_arp (mbuf : ptr) (len : Z) (f : arp_frame) : M N unit :=
  on_world (heap (store mbuf (fun m =>
    if decide (data_len m = 0) then m <| data_len := u16 len |> else m)));;
  on_world (heap (store mbuf (fun m =>
    if decide (pkt_len m = 0) then m <| pkt_len := u32 len |> else m)));;
  modify (fun n => n <| n_frames := n_frames n ++ [f] |>).

Definition arp_output (opcode dst_ip : Z) (dst_haddr : list Z) : M N Z :=
  mbuf ← on_world io_get_swmbuf;
  if decide (mbuf = NULL) then mret ERROR else
  ret ← on_world (eth_hdr_generate mbuf);
  if decide (ret = 0) then mret ERROR else
  eth ← lift (read_at cf_eths 0);
  let arph := ArpHdr (htons arp_hrd_ethernet) (htons ETH_P_IP) (Z.of_nat ETH_ALEN) 4 (htons opcode)
                (eth_haddr eth) (ip_addr eth) dst_haddr dst_ip (replicate ARP_PAD_LEN 0) in
  m ← on_world (heap (load mbuf));
  io_send_arp mbuf (l2_len m + ARPHDR_LEN)
    (ArpFrame dst_haddr (eth_haddr eth) (htons ETH_P_ARP) arph);;
  mret 0.

Definition process_arp_request (arph : arphdr) : M N Z :=
  arp_output arp_op_reply (ar_sip arph) (ar_sha arph);; mret SUCCESS.

(** [TAILQ_FOREACH] up to the first entry of the address, which is removed. *)
Fixpoint remove_pending (l : list arp_queue_entry) (ip : Z) : list arp_queue_entry :=
  match l with
  | [] => []
  | e :: l' => if decide (aq_ip e = ip) then l' else e :: remove_pending l' ip
  end.

Definition process_arp_reply (arph : arphdr) : M N Z :=
  modify (fun n => n <| g_arpm := remove_pending (g_arpm n) (ar_sip arph) |>);; mret 0.

Definition arp_init : M N Z :=
  modify (fun n => n <| arp_tables := replicate FULL_ARP_TABLE_SIZE [] |>
                     <| g_arpm := [] |> <| arpm_ready := true |>);;
  mret SUCCESS.

(** ** The table of learned addresses *)

Definition HASH (ip : Z) : Z := Z.land (htonl ip) (ARP_TABLE_SIZE - 1).

(** The scan of a chain, and the update of the entry it stops at. *)
Fixpoint chain_update (l : list arp_entry) (ip : Z) (haddr : list Z) (cur_ts : Z)
    : option (list arp_entry) :=
  match l with
  | [] => None
  | e :: l' => if decide (ae_ip e = ip)
               then Some (e <| ae_haddr := haddr |> <| last_used := cur_ts |> :: l')
               else cons e <$> chain_update l' ip haddr cur_ts
  end.

Definition register_arp_entry (ip : Z) (haddr : list Z) (cur_ts : Z) : M N Z :=
  n ← get;
  l ← lift (read_at (arp_tables n) (HASH ip));
  match chain_update l ip haddr cur_ts with
  | Some l' =>
      t ← lift (write_at (arp_tables n) (HASH ip) l');
      modify (fun n => n <| arp_tables := t |>);; mret SUCCESS
  | None =>
      ok ← calloc;
      if negb ok then mret ERROR else
      t ← lift (write_at (arp_tables n) (HASH ip) (ArpEntry ip (u32 (-1)) haddr cur_ts :: l));
      modify (fun n => n <| arp_tables := t |>);; mret SUCCESS
  end.

(** The result of [calloc] is not checked. *)
Definition request_arp (ip nif cur_ts : Z) : M N unit :=
  n ← get;
  if existsb (fun e => bool_decide (aq_ip e = ip)) (g_arpm n) then mret tt else
  ok ← calloc;
  if negb ok then throw NullDeref else
  if negb (arpm_ready n) then throw NullDeref else
  modify (fun n => n <| g_arpm := g_arpm n ++ [ArpQueued ip nif cur_ts] |>);;
  arp_output arp_op_request ip (replicate ETH_ALEN 0xFF);; mret tt.

(** ** Receiving *)

Definition arp_params_ok (arph : arphdr) : bool :=
  bool_decide (ar_hrd arph = htons arp_hrd_ethernet) && bool_decide (ar_pro arph = htons ETH_P_IP)
  && bool_decide (ar_hln arph = Z.of_nat ETH_ALEN) && bool_decide (ar_pln arph = 4).

Definition arp_to_me (arph : arphdr) : bool :=
  existsb (fun e => bool_decide (ar_tip arph = ip_addr e)) cf_eths.

(** The loopback test compares the field with a constant in host order. *)
Definition process_arp_packet (ifidx cur_ts : Z) (arph : arphdr) : M N Z :=
  if negb (arp_params_ok arph) then mret ERROR else
  if decide (ar_tip arph = INADDR_LOOPBACK) then mret SUCCESS else
  (if decide (ntohs (ar_op arph) = arp_op_request) then
     when (arp_to_me arph) (lift (read_at cf_eths ifidx);; process_arp_request arph;; mret tt)
   else if decide (ntohs (ar_op arph) = arp_op_reply) then process_arp_reply arph;; mret tt
   else mret tt);;
  register_arp_entry (ar_sip arph) (ar_sha arph) cur_ts;;
  mret SUCCESS.
End Arp.

(** * Properties *)

(** A run of the address resolution: packets received and requests made. *)
Inductive arp_call : Type :=
  | Heard (ifidx cur_ts : Z) (arph : arphdr)
  | Ask (ip nif cur_ts : Z).

(** The address a chain of the table gives. *)
Fixpoint chain_find (l : list arp_entry) (ip : Z) : option (list Z) :=
  match l with
  | [] => None
  | e :: l' => if decide (ae_ip e = ip) then Some (ae_haddr e) else chain_find l' ip
  end.

Definition arp_find (t : list (list arp_entry)) (ip : Z) : option (list Z) :=
  t !! Z.to_nat (HASH ip) ≫= fun l => chain_find l ip.

(** Packets the code learns from. *)
Definition arp_valid (arph : arphdr) : bool :=
  arp_params_ok arph && bool_decide (ar_tip arph <> INADDR_LOOPBACK).

(** Reference: the last valid packet of an address tells its hardware address. *)
Definition learn (m : gmap Z (list Z)) (c : arp_call) : gmap Z (list Z) :=
  match c with
  | Heard _ _ a => if arp_valid a then <[ar_sip a := ar_sha a]> m else m
  | Ask _ _ _ => m
  end.
Definition learned (cs : list arp_call) : gmap Z (list Z) := foldl learn ∅ cs.

(** Replies from [ip] that were accepted; requests for [ip] that were sent. *)
Definition is_reply (ip : Z) (c : arp_call) : bool :=
  match c with
  | Heard _ _ a => arp_valid a && bool_decide (ntohs (ar_op a) = arp_op_reply)
                   && bool_decide (ar_sip a = ip)
  | Ask _ _ _ => false
  end.
Definition replies (ip : Z) (cs : list arp_call) : nat :=
  length (filter (fun c => is_reply ip c = true) cs).
Definition is_request (ip : Z) (f : arp_frame) : Prop :=
  ar_op (fr_arp f) = htons arp_op_request /\ ar_tip (fr_arp f) = ip.
#[export] Instance is_request_dec ip f : Decision (is_request ip f).
Proof. unfold is_request. apply _. Defined.
Definition requests (ip : Z) (fs : list arp_frame) : nat := length (filter (is_request ip) fs).

Section Run.
Context {HT : Type} `{!Config}.
Abbreviation N := (net HT).

Definition arp_step (c : arp_call) : M N unit :=
  match c with
  | Heard ifidx ts a => process_arp_packet ifidx ts a;; mret tt
  | Ask ip nif ts => request_arp ip nif ts
  end.

Fixpoint arp_run (cs : list arp_call) : M N unit :=
  match cs with
  | [] => mret tt
  | c :: cs' => arp_step c;; arp_run cs'
  end.

(** What sending leaves alone. *)
Definition arp_view (n : N) := (arp_tables n, arpm_ready n, g_arpm n, n_calloc n).

#[local] Instance av_on_world {A} (m : M (world HT) A) : Keeps arp_view (on_world m).
Proof. intros n a n'. unfold on_world. by intros ([b w] & _ & [= <- <-])%res_bind_Ok. Qed.

#[local] Instance av_output op ip ha : Keeps arp_view (arp_output op ip ha).
Proof.
  assert (forall g, Keeps arp_view (modify (fun n : N => n <| n_frames := g n |>)))
    by (intros; by apply keeps_modify).
  unfold arp_output, io_send_arp. apply _.
Qed.

(** Sending emits the one frame or none. *)
Definition fr_view (n : N) := n_frames n.
#[local] Instance fv_on_world {A} (m : M (world HT) A) : Keeps fr_view (on_world m).
Proof. intros n a n'. unfold on_world. by intros ([b w] & _ & [= <- <-])%res_bind_Ok. Qed.

Lemma arp_output_frames op ip ha (n : N) r n' :
  arp_output op ip ha n = Ok (r, n') ->
  n_frames n' = n_frames n \/
  exists f, n_frames n' = n_frames n ++ [f] /\ ar_op (fr_arp f) = htons op /\ ar_tip (fr_arp f) = ip.
Proof.
  unfold arp_output, io_send_arp.
  intros (mb & n1 & K1%(fv_on_world io_get_swmbuf n mb n1) & K2)%M_bind_Ok.
  case_decide; [injection K2 as <- <-; by left|].
  apply M_bind_Ok in K2 as (e & n2 & K2%fv_on_world & K3).
  case_decide; [injection K3 as <- <-; left; unfold fr_view in *; congruence|].
  apply M_bind_Ok in K3 as (eth & n3 & K3%(keeps_lift fr_view) & K4).
  apply M_bind_Ok in K4 as (m & n4 & K4%fv_on_world & K5).
  apply M_bind_Ok in K5 as ([] & n5 & K5 & [= <- <-]).
  apply M_bind_Ok in K5 as (u1 & n6 & K6%fv_on_world & K5).
  apply M_bind_Ok in K5 as (u2 & n7 & K7%fv_on_world & [= <-]).
  assert (n_frames n7 = n_frames n) as E by (unfold fr_view in *; congruence).
  right. eexists. cbn [n_frames net_rebuild]. rewrite E. split; [reflexivity | done].
Qed.
(** ** The table *)

Lemma HASH_range ip : 0 <= HASH ip < 16.
Proof.
  unfold HASH, ARP_TABLE_SIZE. change (16 - 1) with (Z.ones 4). rewrite Z.land_ones by lia.
  apply Z.mod_pos_bound. lia.
Qed.

Lemma chain_update_find l ip ha ts l' ip' :
  chain_update l ip ha ts = Some l' ->
  chain_find l' ip' = if decide (ip = ip') then Some ha else chain_find l ip'.
Proof.
  revert l'. induction l as [|e l IH]; intros l' E; simplify_eq/=.
  destruct (decide (ae_ip e = ip)) as [<-|Hne]; simplify_eq/=.
  { repeat case_decide; congruence. }
  destruct (chain_update l ip ha ts) as [l2|] eqn:E2; simplify_eq/=.
  rewrite (IH l2) by done. repeat case_decide; congruence.
Qed.

Lemma table_write t i l l' ip :
  t !! Z.to_nat (HASH i) = Some l -> length t = FULL_ARP_TABLE_SIZE ->
  (forall ip, chain_find l' ip = if decide (i = ip) then chain_find l' i else chain_find l ip) ->
  arp_find (<[Z.to_nat (HASH i) := l']> t) ip = if decide (i = ip) then chain_find l' i else arp_find t ip.
Proof.
  intros Hl Ht Hf. unfold arp_find. pose proof (HASH_range i).
  destruct (decide (HASH ip = HASH i)) as [E|E].
  - rewrite E, list_lookup_insert_eq, Hl by (unfold FULL_ARP_TABLE_SIZE in *; lia). simpl. apply Hf.
  - rewrite list_lookup_insert_ne by (pose proof (HASH_range ip); lia). by rewrite decide_False by congruence.
Qed.

(** One registration: the table maps [ip] to [ha] and is the same elsewhere. *)
Lemma register_spec ip ha ts (n n' : N) r :
  register_arp_entry ip ha ts n = Ok (r, n') ->
  length (arp_tables n) = FULL_ARP_TABLE_SIZE -> head (n_calloc n) = Some true ->
  length (arp_tables n') = FULL_ARP_TABLE_SIZE /\
  n_frames n' = n_frames n /\ g_arpm n' = g_arpm n /\
  (n_calloc n' = n_calloc n \/ n_calloc n' = tail (n_calloc n)) /\
  forall ip', arp_find (arp_tables n') ip' = if decide (ip = ip') then Some ha else arp_find (arp_tables n) ip'.
Proof.
  intros E Ht Hc. unfold register_arp_entry in E. pose proof (HASH_range ip) as Hh.
  destruct (lookup_lt_is_Some_2 (arp_tables n) (Z.to_nat (HASH ip))) as [l Hl];
    [unfold FULL_ARP_TABLE_SIZE in *; lia|].
  assert (read_at (arp_tables n) (HASH ip) = Ok l) as Hrd.
  { unfold read_at. by rewrite decide_True, Hl by lia. }
  assert (forall l', write_at (arp_tables n) (HASH ip) l' = Ok (<[Z.to_nat (HASH ip) := l']> (arp_tables n)))
    as Hwr.
  { intros l'. unfold write_at. apply decide_True. rewrite Ht. unfold FULL_ARP_TABLE_SIZE. lia. }
  rewrite (bind_ok _ _ n n n) in E by done. rewrite (bind_ok _ _ n l n) in E by (by rewrite Hrd).
  destruct (chain_update l ip ha ts) as [l'|] eqn:Eu.
  - rewrite Hwr in E. injection E as <- <-. simpl. rewrite length_insert.
    split_and!; [done..|by left|]. intros ip'. rewrite (table_write _ _ l).
    + by rewrite (chain_update_find _ _ _ _ _ ip Eu), (decide_True (P := ip = ip)).
    + done.
    + done.
    + intros ip2. rewrite !(chain_update_find _ _ _ _ _ _ Eu). by rewrite (decide_True (P := ip = ip)).
  - destruct (n_calloc n) as [|b cl] eqn:Ec; simplify_eq/=.
    rewrite (bind_ok _ _ n true (n <| n_calloc := cl |>)) in E by (unfold calloc; by rewrite Ec).
    rewrite Hwr in E. injection E as <- <-. simpl. rewrite length_insert.
    split_and!; [done..|by right|]. intros ip'. rewrite (table_write _ _ l).
    + simpl. by rewrite (decide_True (P := ip = ip)).
    + done.
    + done.
    + intros ip2. simpl. repeat case_decide; congruence.
Qed.
(** ** Requests *)

Lemma requests_app ip fs fs' : requests ip (fs ++ fs') = (requests ip fs + requests ip fs')%nat.
Proof. unfold requests. by rewrite filter_app, length_app. Qed.

(** A frame that was sent adds at most one request, and only for its target. *)
Lemma output_requests op tip ha (n n' : N) r ip :
  arp_output op tip ha n = Ok (r, n') ->
  (requests ip (n_frames n') <= requests ip (n_frames n) +
     if decide (htons op = htons arp_op_request /\ tip = ip) then 1 else 0)%nat.
Proof.
  intros [->|(f & -> & Hop & Htip)]%arp_output_frames; [lia|].
  rewrite requests_app. unfold requests at 2. rewrite filter_cons, filter_nil.
  destruct (decide (is_request ip f)) as [[? ?]|]; [|simpl; lia].
  rewrite decide_True by (split; congruence). simpl. lia.
Qed.

Lemma remove_pending_sub l ip : sublist (remove_pending l ip) l.
Proof.
  induction l as [|e l IH]; simpl; [done|]. case_decide; [by constructor|]. by constructor.
Qed.

Lemma remove_pending_other l ip ip' :
  ip' <> ip -> ip' ∈ aq_ip <$> l -> ip' ∈ aq_ip <$> remove_pending l ip.
Proof.
  intros Hne. induction l as [|e l IH]; [done|]. simpl. rewrite elem_of_cons.
  intros [->|Hin]; case_decide; simplify_eq/=; set_solver.
Qed.

(** The switch on the opcode. *)
Definition answer (ifidx : Z) (a : arphdr) : M N unit :=
  if decide (ntohs (ar_op a) = arp_op_request) then
    when (arp_to_me a) (lift (read_at cf_eths ifidx);; process_arp_request a;; mret tt)
  else if decide (ntohs (ar_op a) = arp_op_reply) then process_arp_reply a;; mret tt
  else mret tt.

Lemma answer_spec ifidx a (n n' : N) :
  answer ifidx a n = Ok (tt, n') ->
  arp_tables n' = arp_tables n /\ n_calloc n' = n_calloc n /\
  (forall ip, (requests ip (n_frames n') <= requests ip (n_frames n))%nat) /\
  g_arpm n' = if decide (ntohs (ar_op a) = arp_op_reply) then remove_pending (g_arpm n) (ar_sip a)
              else g_arpm n.
Proof.
  unfold answer. case_decide as Hq.
  - rewrite decide_False by (rewrite Hq; done). destruct (arp_to_me a); cbn [when]; [|by intros [= <-]].
    intros (e & n1 & K1%(keeps_lift (fun n => n)) & K2)%M_bind_Ok. subst n1.
    apply M_bind_Ok in K2 as (r & n2 & K2 & [= <-]).
    apply M_bind_Ok in K2 as (r' & n3 & K2 & [= <- <-]).
    pose proof (av_output _ _ _ _ _ _ K2) as [= -> _ -> ->]. split_and!; try done.
    intros ip. pose proof (output_requests _ _ _ _ _ _ ip K2). rewrite decide_False in H0; [lia|].
    by intros [? _].
  - case_decide; intros [= <-]; split_and!; done.
Qed.

Lemma heard_unfold ifidx ts a :
  process_arp_packet (HT := HT) ifidx ts a =
  if arp_valid a then answer ifidx a;; register_arp_entry (ar_sip a) (ar_sha a) ts;; mret SUCCESS
  else mret (if arp_params_ok a then SUCCESS else ERROR).
Proof.
  unfold process_arp_packet, arp_valid. destruct (arp_params_ok a); simpl; [|done].
  case_decide as E; [by rewrite bool_decide_eq_false_2 by naive_solver|].
  by rewrite bool_decide_eq_true_2.
Qed.

Record arp_inv (cs : list arp_call) (n : N) : Prop := {
  ai_len : length (arp_tables n) = FULL_ARP_TABLE_SIZE;
  ai_find ip : arp_find (arp_tables n) ip = learned cs !! ip;
  ai_pend : NoDup (aq_ip <$> g_arpm n);
  ai_req ip : (requests ip (n_frames n) <=
                 replies ip cs + if decide (ip ∈ aq_ip <$> g_arpm n) then 1 else 0)%nat;
}.

Lemma replies_snoc ip cs c :
  replies ip (cs ++ [c]) = (replies ip cs + if is_reply ip c then 1 else 0)%nat.
Proof.
  unfold replies. rewrite filter_app, length_app, filter_cons, filter_nil.
  destruct (is_reply ip c); [by rewrite decide_True | by rewrite decide_False].
Qed.

Lemma learned_snoc cs c : learned (cs ++ [c]) = learn (learned cs) c.
Proof. unfold learned. by rewrite foldl_app. Qed.

Definition uses_one (n n' : N) : Prop :=
  n_calloc n' = n_calloc n \/ n_calloc n' = tail (n_calloc n).

Lemma heard_inv cs ifidx ts a (n n' : N) r :
  process_arp_packet ifidx ts a n = Ok (r, n') -> arp_inv cs n -> head (n_calloc n) = Some true ->
  arp_inv (cs ++ [Heard ifidx ts a]) n' /\ uses_one n n'.
Proof.
  rewrite heard_unfold. intros E [Hlen Hfind Hnd Hreq] Hc.
  destruct (arp_valid a) eqn:Hv.
  2:{ injection E as <- <-. split; [|by left]. split; [done|..|done|]; intros ip.
      - rewrite learned_snoc. simpl. by rewrite Hv.
      - rewrite replies_snoc. simpl. rewrite Hv. simpl. pose proof (Hreq ip). lia. }
  apply M_bind_Ok in E as ([] & n1 & K1 & E). apply answer_spec in K1 as (Ht & Hk & Hr & Hp).
  apply M_bind_Ok in E as (r2 & n2 & K2 & [= <- <-]).
  rewrite <- Hk in Hc. apply register_spec in K2 as (Hl2 & Hf2 & Hg2 & Hc2 & Hfd); [|congruence|done].
  split; [|unfold uses_one; rewrite <- Hk; done]. split; [done|..].
  - intros ip. rewrite Hfd, learned_snoc. simpl. rewrite Hv, Ht, Hfind.
    destruct (decide (ar_sip a = ip)) as [Ei|Ei]; [by rewrite Ei, lookup_insert_eq | by rewrite lookup_insert_ne].
  - rewrite Hg2, Hp. case_decide; [|done]. eapply sublist_NoDup; [done|].
    apply fmap_sublist, remove_pending_sub.
  - intros ip. rewrite Hf2, Hg2, Hp, replies_snoc. simpl. rewrite Hv. simpl.
    pose proof (Hreq ip). pose proof (Hr ip).
    destruct (decide (ntohs (ar_op a) = arp_op_reply)) as [Eop|Eop].
    + rewrite (bool_decide_eq_true_2 _ Eop). simpl. destruct (decide (ar_sip a = ip)) as [Eip|Eip].
      * rewrite (bool_decide_eq_true_2 _ Eip). repeat case_decide; lia.
      * rewrite (bool_decide_eq_false_2 _ Eip). destruct (decide (ip ∈ aq_ip <$> g_arpm n)) as [Hi|Hi];
          [|case_decide; lia].
        rewrite decide_True by (apply remove_pending_other; auto). lia.
    + rewrite (bool_decide_eq_false_2 _ Eop). simpl. lia.
Qed.

Lemma ask_inv cs ip nif ts (n n' : N) u :
  request_arp ip nif ts n = Ok (u, n') -> arp_inv cs n -> head (n_calloc n) = Some true ->
  arp_inv (cs ++ [Ask ip nif ts]) n' /\ uses_one n n'.
Proof.
  intros E [Hlen Hfind Hnd Hreq] Hc. unfold request_arp in E.
  rewrite (bind_ok _ _ n n n) in E by done.
  destruct (existsb _ (g_arpm n)) eqn:Ex.
  { injection E as <- <-. split; [|by left]. split; [done|..|done|]; intros ip'.
    - by rewrite learned_snoc.
    - rewrite replies_snoc. simpl. pose proof (Hreq ip'). lia. }
  assert (ip ∉ aq_ip <$> g_arpm n) as Hni.
  { intros (e & -> & He)%list_elem_of_fmap. apply not_true_iff_false in Ex. apply Ex, existsb_exists.
    exists e. split; [by apply list_elem_of_In | by apply bool_decide_eq_true]. }
  destruct (n_calloc n) as [|b cl] eqn:Ec; simplify_eq/=.
  rewrite (bind_ok _ _ n true (n <| n_calloc := cl |>)) in E by (unfold calloc; by rewrite Ec).
  cbn [negb] in E. destruct (arpm_ready n); [|done].
  apply M_bind_Ok in E as ([] & n1 & [= <-] & E). apply M_bind_Ok in E as (r & n2 & K & [= <- <-]).
  pose proof (av_output _ _ _ _ _ _ K) as [= Ht _ Hg Hk].
  split; [|right; rewrite Hk, Ec; done]. split; rewrite ?Ht, ?Hg; simpl; try done.
  - intros ip'. by rewrite learned_snoc.
  - rewrite fmap_app. apply NoDup_app. split_and!; [done| |apply NoDup_singleton].
    simpl. intros x Hx ->%list_elem_of_singleton. done.
  - intros ip'. rewrite replies_snoc, fmap_app. simpl. pose proof (output_requests _ _ _ _ _ _ ip' K) as Hr.
    pose proof (Hreq ip'). simpl in Hr. destruct (decide (ip = ip')) as [->|Hne].
    + rewrite decide_False in H0 by done. rewrite (decide_True (P := ip' ∈ _)) by set_solver.
      case_decide; lia.
    + rewrite decide_False in Hr by naive_solver.
      destruct (decide (ip' ∈ aq_ip <$> g_arpm n)); [rewrite decide_True by set_solver; lia|].
      rewrite decide_False by set_solver. lia.
Qed.

Lemma arp_run_inv cs cs' (n n' : N) u :
  arp_run cs' n = Ok (u, n') -> arp_inv cs n -> Forall (eq true) (n_calloc n) ->
  (length cs' <= length (n_calloc n))%nat -> arp_inv (cs ++ cs') n'.
Proof.
  revert cs n. induction cs' as [|c cs' IH]; intros cs n E Hi Hc Hl.
  { injection E as <- <-. by rewrite app_nil_r. }
  simpl in *. apply M_bind_Ok in E as ([] & n1 & K & E).
  destruct (n_calloc n) as [|b cl] eqn:Ec; simpl in *; [lia|].
  apply Forall_cons in Hc as [Hb Hc]. subst b.
  assert (arp_inv (cs ++ [c]) n1 /\ uses_one n n1) as [Hi1 Hu].
  { destruct c; simpl in K.
    - apply M_bind_Ok in K as (r & n2 & K & [= <-]). eapply heard_inv; [done..|]. by rewrite Ec.
    - eapply ask_inv; [done..|]. by rewrite Ec. }
  rewrite cons_middle, app_assoc. apply (IH _ n1); [done..| |].
  - destruct Hu as [-> | ->]; rewrite Ec; [by constructor|done].
  - destruct Hu as [-> | ->]; rewrite Ec; simpl; lia.
Qed.

Lemma arp_init_inv (n : N) r n0 :
  arp_init n = Ok (r, n0) -> n_frames n = [] -> arp_inv [] n0 /\ n_calloc n0 = n_calloc n.
Proof.
  intros [= <- <-] Hf. split; [|done]. split; simpl; [done|..|constructor|].
  - intros ip. unfold arp_find. simpl. pose proof (HASH_range ip).
    change ([[]; []; []; []; []; []; []; []; []; []; []; []; []; []; []; []; []] : list (list arp_entry))
      with (replicate 17 ([] : list arp_entry)).
    destruct (replicate 17 ([] : list arp_entry) !! Z.to_nat (HASH ip)) as [l|] eqn:E; [|done].
    by apply lookup_replicate in E as [-> _].
  - intros ip. rewrite Hf. unfold requests. rewrite filter_nil. simpl. lia.
Qed.
End Run.

(** C26. Address resolution.  After [arp_init], for any sequence of received ARP
    packets (of any content) and requests during which memory does not run out,
    the table of 16 hash chains behaves as a map: it gives for each address the
    hardware address of the last valid packet from it, and for the others
    nothing. *)
Theorem arp_table_refines_map {HT} `{!Config} (n0 n n' : net HT) r cs u ip :
  arp_init n0 = Ok (r, n) -> n_frames n0 = [] ->
  Forall (eq true) (n_calloc n0) -> (length cs <= length (n_calloc n0))%nat ->
  arp_run cs n = Ok (u, n') ->
  arp_find (arp_tables n') ip = learned cs !! ip.
Proof.
  intros Hi Hf Hall Hl Hr. apply arp_init_inv in Hi as [Hi Hc]; [|done]. rewrite <- Hc in Hall, Hl.
  by apply (arp_run_inv [] cs n n' u).
Qed.

(** At most one request for an address is outstanding: in such a run the
    list of pending addresses never holds an address twice, and the requests
    sent for an address exceed the replies accepted from it by at most one. *)
Theorem arp_one_request {HT} `{!Config} (n0 n n' : net HT) r cs u ip :
  arp_init n0 = Ok (r, n) -> n_frames n0 = [] ->
  Forall (eq true) (n_calloc n0) -> (length cs <= length (n_calloc n0))%nat ->
  arp_run cs n = Ok (u, n') ->
  NoDup (aq_ip <$> g_arpm n') /\ (requests ip (n_frames n') <= replies ip cs + 1)%nat.
Proof.
  intros Hi Hf Hall Hl Hr. apply arp_init_inv in Hi as [Hi Hc]; [|done]. rewrite <- Hc in Hall, Hl.
  apply (arp_run_inv [] cs n n' u) in Hr as [_ _ Hnd Hreq]; [|done..].
  split; [done|]. specialize (Hreq ip). simpl in Hreq.
  destruct (decide (ip ∈ aq_ip <$> g_arpm n')); lia.
Qed.

#[local] Existing Instance demo_config.

(** Two requests for the same neighbour, its reply, and a third request. *)
Definition net0 : net (gmap ipv4_5tuple ptr) := Net _ world0 [] false [] (replicate 6 true) [].
Definition neighbour_reply : arphdr :=
  ArpHdr (htons 1) (htons 2048) 6 4 (htons 2) [2; 2; 2; 2; 2; 2] 167772162 [1; 1; 1; 1; 1; 1] 167772161 [].
Definition demo_calls : list arp_call :=
  [Ask 167772162 0 5; Ask 167772162 0 6; Heard 0 7 neighbour_reply; Ask 167772162 0 8].
Definition run_net (n : net (gmap ipv4_5tuple ptr)) : net (gmap ipv4_5tuple ptr) :=
  match (arp_init;; arp_run demo_calls) n with Ok (_, n') => n' | Fault _ => n end.
Definition init_net : net (gmap ipv4_5tuple ptr) :=
  match arp_init net0 with Ok (_, n') => n' | Fault _ => net0 end.

Lemma arp_table_refines_map_witness :
  arp_find (arp_tables (run_net net0)) 167772162 = Some [2; 2; 2; 2; 2; 2].
Proof.
  rewrite (arp_table_refines_map net0 init_net (run_net net0) SUCCESS demo_calls tt 167772162).
  - vm_compute. reflexivity.
  - vm_compute. reflexivity.
  - reflexivity.
  - repeat constructor.
  - simpl. lia.
  - vm_compute. reflexivity.
Defined.

Lemma arp_one_request_witness :
  requests 167772162 (n_frames (run_net net0)) = 2%nat /\
  (requests 167772162 (n_frames (run_net net0)) <= replies 167772162 demo_calls + 1)%nat.
Proof.
  split; [vm_compute; reflexivity|].
  apply (arp_one_request net0 init_net (run_net net0) SUCCESS demo_calls tt 167772162).
  - vm_compute. reflexivity.
  - reflexivity.
  - repeat constructor.
  - simpl. lia.
  - vm_compute. reflexivity.
Defined.
