(* ===== verification/StateMachine.v ===== *)
(** The TCP state machine: which states a stream can be in after the stack has
    processed a packet for it.

    The handlers of [TcpIn] are run symbolically over one observation of the
    world, the state of the stream; every operation that does not assign
    [state] is discharged by its frame ([Keeps]). *)
From S2P Require Import Prelude Protocol StaticArp Fifo CircularQueue N21Queue Mbuf RecvBuff SendBuff Stack StreamOps Timer TcpOptions TcpOut TcpIn Frames Demo.
#[local] Open Scope Z_scope.

Section StateFrames.
Context {HT : Type} `{!Config} `{!RteHash HT} (p : ptr).
Notation W := (world HT).
Notation Obs := (obs (HT := HT) state p).

#[export] Instance st_rto_add q t : Keeps Obs (rto_list_add q t).
Proof. keeps_unfold @rto_list_add. Qed.
#[export] Instance st_rto_remove q : Keeps Obs (rto_list_remove q).
Proof. keeps_unfold @rto_list_remove. Qed.
#[export] Instance st_rto_update q t : Keeps Obs (rto_list_update q t).
Proof. keeps_unfold @rto_list_update. Qed.
#[export] Instance st_tw_add q t : Keeps Obs (timewait_list_add q t).
Proof. keeps_unfold @timewait_list_add. Qed.
#[export] Instance st_tw_remove q : Keeps Obs (timewait_list_remove q).
Proof. keeps_unfold @timewait_list_remove. Qed.
#[export] Instance st_to_add q t : Keeps Obs (timeout_list_add q t).
Proof. keeps_unfold @timeout_list_add. Qed.
#[export] Instance st_to_remove q : Keeps Obs (timeout_list_remove q).
Proof. keeps_unfold @timeout_list_remove. Qed.
#[export] Instance st_to_update q t : Keeps Obs (timeout_list_update q t).
Proof. keeps_unfold @timeout_list_update. Qed.
#[export] Instance st_ack_new q a b : Keeps Obs (ack_new_data q a b).
Proof. keeps_unfold @ack_new_data. Qed.
#[export] Instance st_process_ack q t h a b c d : Keeps Obs (process_tcp_ack q t h a b c d).
Proof. keeps_unfold @process_tcp_ack. Qed.
#[export] Instance st_check_seq q t h a b : Keeps Obs (check_sequence_validation q t h a b).
Proof. keeps_unfold @check_sequence_validation. Qed.

End StateFrames.

(** ** Symbolic execution over the state of one stream *)

Section Post.
Context {HT : Type} `{!Config} `{!RteHash HT} (p : ptr).
Notation W := (world HT).
Notation Obs := (obs (HT := HT) state p).

(** From an observation in [P], every run of [m] that ends is in [Q]. *)
Definition post (P Q : option tcp_state -> Prop) {A} (m : M W A) : Prop :=
  forall w a w', P (Obs w) -> m w = Ok (a, w') -> Q (Obs w').

Lemma post_keeps P Q {A} (m : M W A) : Keeps Obs m -> (forall o, P o -> Q o) -> post P Q m.
Proof. intros Hk HPQ w a w' HP Hr. rewrite (Hk w a w' Hr). auto. Qed.

Lemma post_bind P R Q {A B} (m : M W A) (k : A -> M W B) :
  post P R m -> (forall a, post R Q (k a)) -> post P Q (m ≫= k).
Proof. intros Hm Hk w b w'' HP (a & w' & H1 & H2)%M_bind_Ok. eapply Hk; [by eapply Hm | done]. Qed.

(** The continuation may also use what [m] returns. *)
Lemma post_bind_val P R Q {B} (m : M W Z) (k : Z -> M W B) v :
  post P R m -> (forall w a w', P (Obs w) -> m w = Ok (a, w') -> a = v) ->
  post R Q (k v) -> post P Q (m ≫= k).
Proof.
  intros Hm Hv Hk w b w'' HP (a & w' & H1 & H2)%M_bind_Ok.
  rewrite (Hv _ _ _ HP H1) in H2. eapply Hk; [by eapply Hm | done].
Qed.

Lemma post_bind_keeps P Q {A B} (m : M W A) (k : A -> M W B) :
  Keeps Obs m -> (forall a, post P Q (k a)) -> post P Q (m ≫= k).
Proof. intros Hm Hk. eapply post_bind; [by apply post_keeps | done]. Qed.

(** Reading the stream tells its state. *)
Lemma post_stream P Q {B} (k : tcp_stream -> M W B) :
  (forall s, P (Some (state s)) -> post (eq (Some (state s))) Q (k s)) -> post P Q (stream p ≫= k).
Proof.
  intros Hk w b w'' HP (s & w' & H1 & H2)%M_bind_Ok. unfold stream in H1.
  destruct (w_streams w !! p) as [s0|] eqn:E; simplify_eq/=.
  unfold obs in HP. rewrite E in HP. eapply (Hk s HP w' b w''); [|done].
  unfold obs. by rewrite E.
Qed.

(** Assigning the state. *)
Lemma post_set P Q st g : (forall s, state (g s) = st) -> Q (Some st) -> post P Q (set_stream p g).
Proof.
  intros Hg HQ w a w' _. unfold set_stream. intros (s & Hs%deref_Ok & [= <- <-])%res_bind_Ok.
  unfold obs. simpl. rewrite lookup_insert_eq. simpl. by rewrite Hg.
Qed.

Lemma post_set_bind P Q st g {B} (k : unit -> M W B) :
  (forall s, state (g s) = st) -> post (eq (Some st)) Q (k tt) -> post P Q (set_stream p g ≫= k).
Proof. intros Hg Hk. eapply post_bind; [by eapply (post_set _ (eq (Some st)))|]. by intros []. Qed.

Lemma post_weaken P Q Q' {A} (m : M W A) : post P Q m -> (forall o, Q o -> Q' o) -> post P Q' m.
Proof. intros H1 H2 w a w' HP Hr. eauto. Qed.

Lemma post_throw P Q {A} e : post P Q (throw (A := A) e).
Proof. by intros w a w' _. Qed.

Lemma post_skip P Q {A B} (m : M W A) (k : A -> M W B) :
  (forall a, post (fun _ => True) Q (k a)) -> post P Q (m ≫= k).
Proof. intros Hk. by apply (post_bind _ (fun _ => True)). Qed.

Lemma post_bind_bind P Q {A B C} (m : M W A) (k : A -> M W B) (k' : B -> M W C) :
  post P Q (m ≫= fun a => k a ≫= k') -> post P Q ((m ≫= k) ≫= k').
Proof. intros H1 w a w' HP Hr. rewrite bind_bind in Hr. by eapply H1. Qed.

Lemma post_stream_eq st Q {B} (k : tcp_stream -> M W B) :
  (forall s, state s = st -> post (eq (Some st)) Q (k s)) -> post (eq (Some st)) Q (stream p ≫= k).
Proof. intros Hk. apply post_stream. intros s [= Hs]. rewrite <- Hs. by apply Hk. Qed.

(** Destroying the stream frees it, whatever happens before. *)
Lemma post_destroy P Q : Q None -> post P Q (tcp_stream_destroy p).
Proof.
  intros HQ. unfold tcp_stream_destroy. repeat (apply post_skip; intros ?).
  intros w r w' _ [= <- <-]. unfold obs. simpl. by rewrite lookup_delete_eq.
Qed.
End Post.

(** One step of symbolic execution from a known state. *)
Ltac sym_step :=
  lazymatch goal with
  | |- post _ _ _ (throw _) => apply post_throw
  | |- post _ _ _ (tcp_stream_destroy _) => apply post_destroy
  | |- post _ _ _ (tcp_stream_destroy _ ≫= _) =>
      eapply post_bind; [apply (post_destroy _ _ (eq None)); reflexivity | intros ?]
  | |- post _ _ _ (stream _ ≫= _) => apply post_stream_eq; let s := fresh "s" in
      let Hs := fresh "Hs" in intros s Hs; rewrite ?Hs
  | |- post _ _ _ (if ?b then _ else _) => destruct b
  | |- post _ _ _ (when ?b _) => destruct b; cbv beta iota delta [when]
  | |- post _ _ _ (match ?x with _ => _ end) => destruct x
  | |- post _ _ _ ((if ?b then _ else _) ≫= _) => destruct b
  | |- post _ _ _ ((match ?x with _ => _ end) ≫= _) => destruct x
  | |- post _ _ _ (set_stream _ _ ≫= _) =>
      first [ apply post_bind_keeps; [apply keeps_set_stream; intros ?; keeps_field | intros ?]
            | eapply post_set_bind; [intros ?; unfold update; cbn; reflexivity|] ]
  | |- post _ _ _ (_ ≫= _) =>
      first [ apply post_bind_keeps; [apply _ | intros ?]
            | apply post_bind_bind
            | match goal with |- post _ _ _ (when ?b _ ≫= _) => destruct b; cbv beta iota delta [when] end ]
  | |- post _ _ _ (set_stream _ _) => first [apply post_keeps; [apply keeps_set_stream; intros ?; keeps_field|]
            | eapply post_set; [intros ?; unfold update; cbn; reflexivity|]]
  | |- post _ _ _ _ => apply post_keeps; [apply _ | ]
  end.
Ltac sym := repeat sym_step.

(** ** The transitions *)

(** The states a packet can leave a stream in, by the state it finds it in. *)
Definition next_states (st : tcp_state) : list tcp_state :=
  match st with
  | TCP_ST_CLOSED => [TCP_ST_CLOSED]
  | TCP_ST_LISTEN => [TCP_ST_LISTEN; TCP_ST_SYN_RCVD]
  | TCP_ST_SYN_SENT => [TCP_ST_SYN_SENT; TCP_ST_SYN_RCVD; TCP_ST_ESTABLISHED; TCP_ST_CLOSE_WAIT]
  | TCP_ST_SYN_RCVD => [TCP_ST_SYN_RCVD; TCP_ST_ESTABLISHED; TCP_ST_CLOSE_WAIT; TCP_ST_CLOSED]
  | TCP_ST_ESTABLISHED => [TCP_ST_ESTABLISHED; TCP_ST_CLOSE_WAIT]
  | TCP_ST_CLOSE_WAIT => [TCP_ST_CLOSE_WAIT]
  | TCP_ST_FIN_WAIT_1 => [TCP_ST_FIN_WAIT_1; TCP_ST_FIN_WAIT_2; TCP_ST_CLOSING; TCP_ST_TIME_WAIT]
  | TCP_ST_FIN_WAIT_2 => [TCP_ST_FIN_WAIT_2; TCP_ST_TIME_WAIT]
  | TCP_ST_CLOSING => [TCP_ST_CLOSING; TCP_ST_TIME_WAIT]
  | TCP_ST_LAST_ACK => [TCP_ST_LAST_ACK]
  | TCP_ST_TIME_WAIT => [TCP_ST_TIME_WAIT]
  end.

(** The states in which a packet can make the stack destroy the stream. *)
Definition may_go (st : tcp_state) : bool :=
  match st with
  | TCP_ST_SYN_SENT | TCP_ST_SYN_RCVD | TCP_ST_FIN_WAIT_1 | TCP_ST_FIN_WAIT_2
  | TCP_ST_CLOSING | TCP_ST_LAST_ACK | TCP_ST_TIME_WAIT => true
  | _ => false
  end.

Definition follows (st : tcp_state) (o : option tcp_state) : Prop :=
  match o with Some st' => st' ∈ next_states st | None => may_go st = true end.

Lemma follows_refl st : follows st (Some st).
Proof. destruct st; simpl; set_solver. Qed.

Section Transitions.
Context {HT : Type} `{!Config} `{!RteHash HT} (p : ptr).
Notation post := (post (HT := HT) p).

Ltac close := intros ? <-; simpl; set_solver.

(** A run that ends in one of the states allowed after [st]. *)
Ltac done_in := solve [intros ? <-; simpl; set_solver | simpl; set_solver].

Lemma tr_established ts h seq ack m len wnd st :
  st ∈ [TCP_ST_SYN_RCVD; TCP_ST_ESTABLISHED] ->
  post (eq (Some TCP_ST_ESTABLISHED)) (follows st)
    (Handle_TCP_ST_ESTABLISHED p ts h seq ack m len wnd).
Proof.
  intros Hst. unfold Handle_TCP_ST_ESTABLISHED.
  assert (st = TCP_ST_SYN_RCVD \/ st = TCP_ST_ESTABLISHED) as Hs by set_solver. destruct Hs as [->| ->]; sym; done_in.
Qed.

Lemma tr_listen h st :
  st ∈ [TCP_ST_LISTEN; TCP_ST_SYN_RCVD] ->
  post (eq (Some st)) (follows st) (Handle_TCP_ST_LISTEN p h).
Proof.
  intros Hst. unfold Handle_TCP_ST_LISTEN.
  assert (st = TCP_ST_LISTEN \/ st = TCP_ST_SYN_RCVD) as Hs by set_solver. destruct Hs as [->| ->]; sym; done_in.
Qed.

Lemma tr_syn_sent ts h seq ack wnd :
  post (eq (Some TCP_ST_SYN_SENT)) (follows TCP_ST_SYN_SENT)
    (Handle_TCP_ST_SYN_SENT p ts h seq ack wnd).
Proof. unfold Handle_TCP_ST_SYN_SENT, handle_active_open. sym; done_in. Qed.

Lemma tr_close_wait ts h seq ack len wnd :
  post (eq (Some TCP_ST_CLOSE_WAIT)) (follows TCP_ST_CLOSE_WAIT)
    (Handle_TCP_ST_CLOSE_WAIT p ts h seq ack len wnd).
Proof. unfold Handle_TCP_ST_CLOSE_WAIT. sym; done_in. Qed.

Lemma tr_last_ack ts h seq ack len wnd :
  post (eq (Some TCP_ST_LAST_ACK)) (follows TCP_ST_LAST_ACK)
    (Handle_TCP_ST_LAST_ACK p ts h seq ack len wnd).
Proof. unfold Handle_TCP_ST_LAST_ACK. sym; done_in. Qed.

Lemma tr_fin_wait_2 ts h seq ack m len wnd :
  post (eq (Some TCP_ST_FIN_WAIT_2)) (follows TCP_ST_FIN_WAIT_2)
    (Handle_TCP_ST_FIN_WAIT_2 p ts h seq ack m len wnd).
Proof. unfold Handle_TCP_ST_FIN_WAIT_2. sym; done_in. Qed.

Lemma tr_closing ts h seq ack len wnd :
  post (eq (Some TCP_ST_CLOSING)) (follows TCP_ST_CLOSING)
    (Handle_TCP_ST_CLOSING p ts h seq ack len wnd).
Proof. unfold Handle_TCP_ST_CLOSING. sym; done_in. Qed.

Lemma tr_fin_wait_1 ts h seq ack m len wnd :
  post (eq (Some TCP_ST_FIN_WAIT_1)) (follows TCP_ST_FIN_WAIT_1)
    (Handle_TCP_ST_FIN_WAIT_1 p ts h seq ack m len wnd).
Proof. unfold Handle_TCP_ST_FIN_WAIT_1. sym; done_in. Qed.

(** Accepting a connection either keeps the state or closes the stream when
    the backlog is full. *)
Lemma tr_accept :
  post (eq (Some TCP_ST_ESTABLISHED))
    (fun o => o = Some TCP_ST_ESTABLISHED \/ o = Some TCP_ST_CLOSED) (_raise_accept_event p).
Proof. unfold _raise_accept_event. sym; try (intros ? <-); auto. Qed.

Lemma tr_syn_rcvd h ack :
  post (eq (Some TCP_ST_SYN_RCVD))
    (fun o => o = Some TCP_ST_SYN_RCVD \/ o = Some TCP_ST_ESTABLISHED \/ o = Some TCP_ST_CLOSED)
    (Handle_TCP_ST_SYN_RCVD p h ack).
Proof.
  unfold Handle_TCP_ST_SYN_RCVD.
  sym; first [solve [intros ? <-; auto] | eapply post_weaken; [apply tr_accept | naive_solver]].
Qed.

Lemma tr_rst st ack :
  st_val TCP_ST_SYN_SENT < st_val st ->
  post (eq (Some st)) (follows st) (handle_rst p ack).
Proof.
  intros Hst. unfold handle_rst. apply post_stream_eq. intros s Hs. rewrite Hs.
  rewrite decide_False by lia. destruct (decide (st = TCP_ST_SYN_RCVD)) as [->|Hne]; [sym; done_in|].
  destruct (bool_decide (st ∈ _)) eqn:Hin.
  - apply bool_decide_eq_true in Hin. sym. intros ? <-. destruct st; simpl in *; set_solver.
  - apply bool_decide_eq_false in Hin.
    assert (st = TCP_ST_ESTABLISHED \/ st = TCP_ST_CLOSE_WAIT) as Hs'.
    { destruct st; simpl in Hst; try lia; set_solver. }
    destruct Hs' as [->| ->]; sym; done_in.
Qed.

Lemma tr_dispatch st ts h seq ack m len wnd :
  post (eq (Some st)) (follows st) (tcp_dispatch p ts h seq ack m len wnd).
Proof.
  unfold tcp_dispatch. apply post_stream_eq. intros s Hs. rewrite Hs. destruct st.
  - sym; done_in.
  - apply tr_listen. set_solver.
  - apply tr_syn_sent.
  - destruct (th_syn h && _); [apply tr_listen; set_solver|].
    eapply post_bind; [apply tr_syn_rcvd|]. intros _.
    apply post_stream. intros s' Hs'.
    destruct (bool_decide (0 < len) && bool_decide (state s' = TCP_ST_ESTABLISHED)) eqn:Hb.
    + apply andb_true_iff in Hb as [_ Hb%bool_decide_eq_true]. rewrite Hb.
      apply tr_established. set_solver.
    + apply post_keeps; [apply _|]. intros ? <-. simpl. set_solver.
  - apply tr_established. set_solver.
  - apply tr_fin_wait_1.
  - apply tr_fin_wait_2.
  - apply tr_close_wait.
  - apply tr_closing.
  - apply tr_last_ack.
  - sym; done_in.
Qed.
End Transitions.

Section Packet.
Context {HT : Type} `{!Config} `{!RteHash HT} (p : ptr).
Notation W := (world HT).
Notation post := (post (HT := HT) p).
Notation Obs := (obs (HT := HT) state p).

(** The flow a packet belongs to. *)
Definition packet_key (iph : iphdr) (h : tcphdr) : ipv4_5tuple :=
  Tuple 6 (ip_daddr iph) (ip_saddr iph) (th_dest h) (th_source h).

Lemma packet_stream_existing ts ha iph h seq wnd (w w' : W) q :
  ht_search (stream_ht w) (packet_key iph h) = p -> p <> NULL ->
  packet_stream ts ha iph h seq wnd w = Ok (q, w') -> q = p /\ Obs w' = Obs w.
Proof.
  intros Hht Hp Hr. unfold packet_stream in Hr. rewrite (bind_ok _ _ w w w) in Hr by done.
  fold (packet_key iph h) in Hr. rewrite Hht, decide_False in Hr by done.
  apply M_bind_Ok in Hr as (s & w1 & Hs & Hr).
  apply M_bind_Ok in Hr as ([] & w2 & Hopt & [= <- <-]).
  split; [done|]. rewrite <- (keeps_stream (HT := HT) state p p w s w1 Hs).
  exact (keeps (g := Obs) _ _ _ Hopt).
Qed.

(** A reset is always handled in the states where it is looked at. *)
Lemma rst_result st ack w r w' :
  st_val TCP_ST_SYN_SENT < st_val st -> Some st = Obs w ->
  handle_rst p ack w = Ok (r, w') -> r = TRUE.
Proof.
  intros Hst Hobs. unfold handle_rst. intros (s & w1 & Hs & Hr)%M_bind_Ok.
  unfold stream in Hs. unfold obs in Hobs. destruct (w_streams w !! p) as [s0|]; simplify_eq/=.
  rewrite decide_False in Hr by lia.
  repeat case_match; repeat (apply M_bind_Ok in Hr as (? & ? & _ & Hr)); by injection Hr.
Qed.

Lemma tr_handled st ts h seq ack m len wnd :
  post (eq (Some st)) (follows st)
    (if decide (FALSE <> FALSE) then mret TRUE else
     tcp_dispatch p ts h seq ack m len wnd;; mret TRUE).
Proof.
  rewrite decide_False by (intros []; done).
  eapply post_bind; [apply tr_dispatch|]. intros _. by apply post_keeps; [apply _|].
Qed.

Lemma tr_reset st ts m len h seq ack wnd :
  post (eq (Some st)) (follows st)
    (reset ← (if th_rst h then
                set_stream p (fun s => s <| have_reset := true |>);;
                s ← stream p;
                if decide (st_val TCP_ST_SYN_SENT < st_val (state s)) then handle_rst p ack
                else mret FALSE
              else mret FALSE);
     if decide (reset <> FALSE) then mret TRUE else
     tcp_dispatch p ts h seq ack m len wnd;;
     mret TRUE).
Proof.
  destruct (th_rst h).
  - apply post_bind_bind. apply post_bind_keeps; [apply _|intros _].
    apply post_bind_bind. apply post_stream_eq. intros s Hs. rewrite Hs.
    destruct (decide (st_val TCP_ST_SYN_SENT < st_val st)) as [Hlt|Hge].
    + eapply (post_bind_val _ _ (follows st) _ _ _ TRUE); [by apply tr_rst | | ].
      * intros w r w' Hw. by apply (rst_result st ack w r w').
      * rewrite decide_True by done. apply post_keeps; [apply _ | done].
    + eapply (post_bind_val _ _ (eq (Some st)) _ _ _ FALSE).
      * by apply post_keeps; [apply _|].
      * by intros w r w' _ [= <- <-].
      * by apply tr_handled.
  - eapply (post_bind_val _ _ (eq (Some st)) _ _ _ FALSE).
    * by apply post_keeps; [apply _|].
    * by intros w r w' _ [= <- <-].
    * by apply tr_handled.
Qed.

(** The processing of a packet once its stream is known. *)
Lemma tr_known st ts m len h seq ack wnd :
  post (eq (Some st)) (follows st)
    (set_stream p (fun s => s <| last_active_ts := ts |>);;
     s ← stream p;
     valid ← (if decide (st_val TCP_ST_SYN_RCVD < st_val (state s))
              then check_sequence_validation p ts h seq len else mret TRUE);
     if decide (valid <> TRUE) then mret FAILED else
     s ← stream p;
     if negb (th_syn h) && bool_decide (32 <= wscale_peer (sndvar s)) then throw BadShift else
     set_snd p (fun v => v <| peer_wnd := if th_syn h then wnd
                                          else u32 (Z.shiftl wnd (wscale_peer v)) |>);;
     timeout_list_update p ts;;
     reset ← (if th_rst h then
                set_stream p (fun s => s <| have_reset := true |>);;
                s ← stream p;
                if decide (st_val TCP_ST_SYN_SENT < st_val (state s)) then handle_rst p ack
                else mret FALSE
              else mret FALSE);
     if decide (reset <> FALSE) then mret TRUE else
     tcp_dispatch p ts h seq ack m len wnd;;
     mret TRUE).
Proof.
  apply post_bind_keeps; [apply _|intros _]. apply post_stream_eq. intros s Hs.
  apply post_bind_keeps; [apply _|intros valid]. case_decide.
  { apply post_keeps; [apply _|]. intros ? <-. apply follows_refl. }
  apply post_stream_eq. intros s' _. case_match; [apply post_throw|].
  do 2 (apply post_bind_keeps; [apply _|intros _]). apply tr_reset.
Qed.
End Packet.

(** C2. The TCP state machine.  Whatever packet arrives for an existing stream
    (any flags, numbers, options and payload), if its processing ends then the
    stream is in one of the states listed for the state it was in, or it was
    destroyed and the state is one of those a packet may end: the only
    assignments of [state] are the transitions of [next_states]. *)
Theorem tcp_state_machine {HT : Type} `{!Config} `{!RteHash HT} (w w' : world HT) p s
    cur_ts mbuf haddr iph tcph ip_len r :
  ht_search (stream_ht w) (packet_key iph tcph) = p -> p <> NULL ->
  w_streams w !! p = Some s ->
  process_tcp_packet cur_ts mbuf haddr iph tcph ip_len w = Ok (r, w') ->
  follows (state s) (state <$> w_streams w' !! p).
Proof.
  intros Hht Hp Hs Hr. unfold process_tcp_packet in Hr.
  apply M_bind_Ok in Hr as ([] & w1 & H1 & Hr).
  assert (stream_ht w1 = stream_ht w /\ w_streams w1 = w_streams w) as [Eht Est].
  { revert H1. unfold heap. by intros ([b h] & _ & [= _ <-])%res_bind_Ok. }
  rewrite <- Est in Hs. case_match.
  { injection Hr as <- <-. rewrite Hs. apply follows_refl. }
  apply M_bind_Ok in Hr as (q & w2 & Hq & Hr). rewrite <- Eht in Hht.
  destruct (packet_stream_existing p _ _ _ _ _ _ _ _ _ Hht Hp Hq) as [-> Hobs].
  rewrite decide_False in Hr by done. refine (tr_known p _ _ _ _ _ _ _ _ w2 r w' _ Hr).
  rewrite Hobs. unfold obs. by rewrite Hs.
Qed.

(** In the example connection a FIN closes the peer's half. *)
Definition fin_segment : tcphdr := peer_segment 101 7001 5 true false false true [].
#[local] Existing Instance demo_config.

Lemma tcp_state_machine_witness :
  exists w', receive 13 13 fin_segment 0 world3 = Ok (TRUE, w') /\
    demo_state w' = Some TCP_ST_CLOSE_WAIT /\ follows TCP_ST_ESTABLISHED (demo_state w').
Proof.
  set (s := default zero_stream (w_streams world3 !! 1000)).
  assert (receive 13 13 fin_segment 0 world3 = Ok (TRUE, after (receive 13 13 fin_segment 0 world3) world3))
    as Hr by (refine (after_ok (receive 13 13 fin_segment 0 world3) world3 TRUE _); vm_compute; reflexivity).
  eexists. split; [exact Hr|]. split; [vm_compute; reflexivity|].
  assert (state s = TCP_ST_ESTABLISHED) as <- by (vm_compute; reflexivity).
  unfold receive in Hr. apply (tcp_state_machine _ _ 1000 s _ _ _ _ _ _ _) in Hr;
    [exact Hr | vm_compute; reflexivity | done | vm_compute; reflexivity].
Defined.
