(* ===== verification/Lifecycle.v ===== *)
(** The life of streams: timer lists and flow table.

    [vstep] is the abstract machine of a stack thread: a stream is created,
    changes state, is put on and taken off the three timer lists, and is
    destroyed.  Every packet and every timer walk is a sequence of these steps
    ([Steps]), and the invariant [life_ok] holds along them: the marks of a
    stream say exactly which lists it is on, no stream is on a list twice, no
    stream is on the two lists that share one link field, and neither a list
    nor the flow table mentions a stream that was destroyed. *)
From S2P Require Import Prelude Protocol StaticArp Fifo CircularQueue N21Queue Mbuf RecvBuff SendBuff Stack StreamOps Timer TcpOptions TcpOut TcpIn Api AppCalls Frames Demo.
#[local] Open Scope Z_scope.

#[export] Instance core_rebuild : Rebuild core_view := fun c =>
  Core (c_state c) (c_rto c) (c_timeout c) (c_timewait c) (c_socket c) (c_key c).
#[export] Instance view_rebuild {HT} : Rebuild (world_view HT) := fun v =>
  View _ (v_rto v) (v_timewait v) (v_timeout v) (v_core v) (v_ht v) (v_cnt v) (v_chunks v).

(** * The abstract machine *)

Section Abstract.
Context {HT : Type} `{!RteHash HT}.
Notation V := (world_view HT).

Definition set_core (p : ptr) (c : core_view) (v : V) : V := v <| v_core ::= <[p := c]> |>.

Inductive vstep (v : V) : V -> Prop :=
  | vs_state p c st : v_core v !! p = Some c ->
      vstep v (set_core p (c <| c_state := st |>) v)
  | vs_rto_on p c : v_core v !! p = Some c -> c_rto c = 0 -> c_timewait c = false ->
      vstep v (set_core p (c <| c_rto := RTO_STORAGE |>) (v <| v_rto := v_rto v ++ [p] |>))
  | vs_rto_off p c l : v_core v !! p = Some c -> c_rto c <> 0 -> tailq_remove (v_rto v) p = Ok l ->
      vstep v (set_core p (c <| c_rto := 0 |>) (v <| v_rto := l |>))
  | vs_tw_on p c : v_core v !! p = Some c -> c_rto c = 0 -> c_timewait c = false ->
      vstep v (set_core p (c <| c_timewait := true |>) (v <| v_timewait := v_timewait v ++ [p] |>))
  | vs_tw_again p c l : v_core v !! p = Some c -> c_timewait c = true ->
      tailq_remove (v_timewait v) p = Ok l -> vstep v (v <| v_timewait := l ++ [p] |>)
  | vs_tw_off p c l : v_core v !! p = Some c -> c_timewait c = true ->
      tailq_remove (v_timewait v) p = Ok l ->
      vstep v (set_core p (c <| c_timewait := false |>) (v <| v_timewait := l |>))
  | vs_to_on p c : v_core v !! p = Some c -> c_timeout c = false ->
      vstep v (set_core p (c <| c_timeout := true |>) (v <| v_timeout := v_timeout v ++ [p] |>))
  | vs_to_again p c l : v_core v !! p = Some c -> c_timeout c = true ->
      tailq_remove (v_timeout v) p = Ok l -> vstep v (v <| v_timeout := l ++ [p] |>)
  | vs_to_off p c l : v_core v !! p = Some c -> c_timeout c = true ->
      tailq_remove (v_timeout v) p = Ok l ->
      vstep v (set_core p (c <| c_timeout := false |>) (v <| v_timeout := l |>))
  | vs_create p l sk key : v_chunks v = p :: l -> v_core v !! p = None ->
      vstep v (set_core p (Core TCP_ST_LISTEN 0 false false sk key) v
                 <| v_ht := (ht_insert (v_ht v) key p).2 |> <| v_cnt := u32 (v_cnt v + 1) |>
                 <| v_chunks := l |>)
  | vs_destroy p c : v_core v !! p = Some c ->
      c_rto c = 0 -> c_timeout c = false -> c_timewait c = false ->
      vstep v (v <| v_core ::= delete p |> <| v_ht := (ht_delete (v_ht v) (c_key c)).2 |>
                 <| v_cnt := u32 (v_cnt v - 1) |>)
  | vs_pool l : NoDup l -> (forall c, c ∈ l -> v_core v !! c = None) -> vstep v (v <| v_chunks := l |>).

(** The chunks the pool hands out next are distinct and not in use. *)
Record fresh_pool (v : V) : Prop := {
  fp_nodup : NoDup (v_chunks v);
  fp_unused c : c ∈ v_chunks v -> v_core v !! c = None;
}.

(** ** The invariant *)

(** List [l] holds, once each, the streams with mark [on]. *)
Record listed (l : list ptr) (m : gmap ptr core_view) (on : core_view -> Prop) : Prop := {
  listed_nodup : NoDup l;
  listed_iff p : p ∈ l <-> exists c, m !! p = Some c /\ on c;
}.

Context `{!RteHashLaws HT}.

Record life_ok (v : V) : Prop := {
  lo_rto : listed (v_rto v) (v_core v) (fun c => c_rto c <> 0);
  lo_timewait : listed (v_timewait v) (v_core v) (fun c => c_timewait c = true);
  lo_timeout : listed (v_timeout v) (v_core v) (fun c => c_timeout c = true);
  lo_link p c : v_core v !! p = Some c -> c_timewait c = true -> c_rto c = 0;
  lo_idx p c : v_core v !! p = Some c -> 0 <= c_rto c;
  lo_table k p : rte_entries (v_ht v) !! k = Some p ->
    exists c, v_core v !! p = Some c /\ c_key c = k;
}.

Lemma tailq_remove_Ok l p l' :
  tailq_remove l p = Ok l' -> exists l1 l2, l = l1 ++ p :: l2 /\ l' = l1 ++ l2.
Proof.
  revert l'. induction l as [|x l IH]; intros l'; [done|]. simpl. case_decide as Hx.
  - intros [= <-]. exists [], l. by rewrite Hx.
  - destruct (tailq_remove l p) as [l0|] eqn:E; simpl; [|done]. intros [= <-].
    destruct (IH l0 eq_refl) as (l1 & l2 & -> & ->). by exists (x :: l1), l2.
Qed.

Lemma tailq_remove_total l p : p ∈ l -> exists l', tailq_remove l p = Ok l'.
Proof.
  induction l as [|x l IH]; [by intros ?%not_elem_of_nil|]. simpl. case_decide; [by eauto|].
  intros [->|Hp]%elem_of_cons; [done|]. destruct (IH Hp) as [l' ->]. simpl. eauto.
Qed.

(** Changing a stream in a way that keeps its mark. *)
Lemma listed_same l m (on : core_view -> Prop) p c c' :
  listed l m on -> m !! p = Some c -> (on c' <-> on c) -> listed l (<[p := c']> m) on.
Proof.
  intros [Hn Hi] Hp Hc. split; [done|]. intros q. rewrite Hi.
  destruct (decide (q = p)) as [->|Hq].
  - rewrite lookup_insert_eq, Hp. naive_solver.
  - by rewrite lookup_insert_ne.
Qed.

Lemma listed_on l m (on : core_view -> Prop) p c c' :
  listed l m on -> m !! p = Some c -> ~ on c -> on c' -> listed (l ++ [p]) (<[p := c']> m) on.
Proof.
  intros [Hn Hi] Hp Hc Hc'.
  assert (p ∉ l) by (rewrite Hi; naive_solver).
  split.
  - apply NoDup_app. split_and!; [done | set_solver | apply NoDup_singleton].
  - intros q. rewrite elem_of_app, list_elem_of_singleton, Hi. destruct (decide (q = p)) as [->|Hq].
    + rewrite lookup_insert_eq. naive_solver.
    + rewrite lookup_insert_ne by done. naive_solver.
Qed.

Lemma listed_off l l' m (on : core_view -> Prop) p c c' :
  listed l m on -> m !! p = Some c -> tailq_remove l p = Ok l' -> ~ on c' ->
  listed l' (<[p := c']> m) on.
Proof.
  intros [Hn Hi] Hp (l1 & l2 & -> & ->)%tailq_remove_Ok Hc'.
  apply NoDup_app in Hn as (Hn1 & Hn12 & [Hn2 Hn3]%NoDup_cons). split.
  - apply NoDup_app. split_and!; [done | set_solver | done].
  - intros q. destruct (decide (q = p)) as [->|Hq].
    + rewrite lookup_insert_eq. split; [|naive_solver]. set_solver.
    + rewrite lookup_insert_ne by done. rewrite <- Hi. set_solver.
Qed.

Lemma listed_again l l' m (on : core_view -> Prop) p :
  listed l m on -> tailq_remove l p = Ok l' -> listed (l' ++ [p]) m on.
Proof.
  intros [Hn Hi] (l1 & l2 & -> & ->)%tailq_remove_Ok.
  assert ((l1 ++ l2) ++ [p] ≡ₚ l1 ++ p :: l2) as Hperm by (rewrite <- app_assoc, (Permutation_app_comm l2); done).
  split; [by rewrite Hperm|]. intros q. rewrite <- Hi. by rewrite Hperm.
Qed.

Lemma listed_new l m (on : core_view -> Prop) p c :
  listed l m on -> m !! p = None -> ~ on c -> listed l (<[p := c]> m) on.
Proof.
  intros [Hn Hi] Hp Hc. split; [done|]. intros q. rewrite Hi. destruct (decide (q = p)) as [->|Hq].
  - rewrite lookup_insert_eq, Hp. naive_solver.
  - by rewrite lookup_insert_ne.
Qed.

Lemma listed_gone l m (on : core_view -> Prop) p c :
  listed l m on -> m !! p = Some c -> ~ on c -> listed l (delete p m) on.
Proof.
  intros [Hn Hi] Hp Hc. split; [done|]. intros q. rewrite Hi. destruct (decide (q = p)) as [->|Hq].
  - rewrite lookup_delete_eq, Hp. naive_solver.
  - by rewrite lookup_delete_ne.
Qed.

(** A change of one stream that keeps its flow and leaves it on at most one of
    the lists that share a link. *)
Lemma life_ok_core v p c c' rto tw to :
  life_ok v -> v_core v !! p = Some c -> c_key c' = c_key c ->
  (c_timewait c' = true -> c_rto c' = 0) -> 0 <= c_rto c' ->
  listed rto (<[p := c']> (v_core v)) (fun c => c_rto c <> 0) ->
  listed tw (<[p := c']> (v_core v)) (fun c => c_timewait c = true) ->
  listed to (<[p := c']> (v_core v)) (fun c => c_timeout c = true) ->
  life_ok (View _ rto tw to (<[p := c']> (v_core v)) (v_ht v) (v_cnt v) (v_chunks v)).
Proof.
  intros Hv Hp Hk Hl Hi H1 H2 H3. split; simpl; try done.
  - intros q d. destruct (decide (q = p)) as [->|Hq]; [rewrite lookup_insert_eq; naive_solver|].
    rewrite lookup_insert_ne by done. apply Hv.
  - intros q d. destruct (decide (q = p)) as [->|Hq]; [rewrite lookup_insert_eq; naive_solver|].
    rewrite lookup_insert_ne by done. apply Hv.
  - intros k q (d & Hd & <-)%(lo_table _ Hv). destruct (decide (q = p)) as [->|Hq].
    + rewrite lookup_insert_eq. naive_solver.
    + rewrite lookup_insert_ne by done. eauto.
Qed.

Lemma life_ok_create v p l sk key :
  life_ok v -> v_core v !! p = None ->
  life_ok (set_core p (Core TCP_ST_LISTEN 0 false false sk key) v
             <| v_ht := (ht_insert (v_ht v) key p).2 |> <| v_cnt := u32 (v_cnt v + 1) |>
             <| v_chunks := l |>).
Proof.
  intros Hv Hp. split; simpl.
  - apply listed_new; [apply Hv | done | by intros []].
  - apply listed_new; [apply Hv | done | done].
  - apply listed_new; [apply Hv | done | done].
  - intros q d. destruct (decide (q = p)) as [->|Hq]; [rewrite lookup_insert_eq; by intros [= <-]|].
    rewrite lookup_insert_ne by done. apply Hv.
  - intros q d. destruct (decide (q = p)) as [->|Hq]; [rewrite lookup_insert_eq; by intros [= <-]|].
    rewrite lookup_insert_ne by done. apply Hv.
  - intros k q. pose proof (rte_add (v_ht v) key p) as Hadd. unfold ht_insert.
    destruct (rte_hash_add_key_data (v_ht v) key p) as [err t]. simpl. rewrite Hadd.
    assert (forall k q, rte_entries (v_ht v) !! k = Some q ->
      exists c, <[p := Core TCP_ST_LISTEN 0 false false sk key]> (v_core v) !! q = Some c /\ c_key c = k)
      as Hold.
    { intros k' q' (d & Hd & <-)%(lo_table _ Hv). exists d. rewrite lookup_insert_ne by congruence. done. }
    case_decide; [|apply Hold]. destruct (decide (k = key)) as [->|Hk].
    + rewrite lookup_insert_eq. intros [= <-]. rewrite lookup_insert_eq. eauto.
    + rewrite lookup_insert_ne by done. apply Hold.
Qed.

Lemma life_ok_destroy v p c :
  life_ok v -> v_core v !! p = Some c ->
  c_rto c = 0 -> c_timeout c = false -> c_timewait c = false ->
  life_ok (v <| v_core ::= delete p |> <| v_ht := (ht_delete (v_ht v) (c_key c)).2 |>
             <| v_cnt := u32 (v_cnt v - 1) |>).
Proof.
  intros Hv Hp Hr Hto Htw. split; simpl.
  - eapply listed_gone; [apply Hv | done | by intros ?].
  - eapply listed_gone; [apply Hv | done | congruence].
  - eapply listed_gone; [apply Hv | done | congruence].
  - intros q d [_ Hd]%lookup_delete_Some. by apply (lo_link _ Hv q).
  - intros q d [_ Hd]%lookup_delete_Some. by apply (lo_idx _ Hv q).
  - intros k q. pose proof (rte_del (v_ht v) (c_key c)) as Hdel. unfold ht_delete.
    destruct (rte_hash_del_key (v_ht v) (c_key c)) as [err t]. simpl. destruct Hdel as [-> _].
    intros [Hk Hq]%lookup_delete_Some. destruct (lo_table _ Hv _ _ Hq) as (d & Hd & Hkd).
    exists d. rewrite lookup_delete_ne; [done|]. congruence.
Qed.

(** The invariant holds along the steps. *)
Lemma vstep_life v v' : vstep v v' -> life_ok v -> life_ok v'.
Proof.
  intros Hs Hv. pose proof (lo_link _ Hv) as Hl. pose proof (lo_idx _ Hv) as Hx.
  destruct Hs as [p c st Hp|p c Hp Hr Ht|p c l Hp Hr Hl'|p c Hp Hr Ht|p c l Hp Ht Hl'|p c l Hp Ht Hl'
    |p c Hp Ht|p c l Hp Ht Hl'|p c l Hp Ht Hl'|p l sk key Hc Hp|p c Hp Hr Hto Htw|l Hnd Hu].
  10: by apply life_ok_create.
  10: by apply life_ok_destroy.
  10: by split; simpl; apply Hv.
  all: try (specialize (Hl p c Hp); specialize (Hx p c Hp);
    apply (life_ok_core v p c); simpl; try done; try lia;
    first [ congruence
          | eapply listed_same; [apply Hv | exact Hp | simpl; done]
          | eapply listed_on; [apply Hv | exact Hp | simpl; congruence | simpl; done]
          | eapply listed_off; [apply Hv | exact Hp | exact Hl' | simpl; congruence] ]).
  - split; simpl; try apply Hv. by eapply listed_again; [apply Hv|].
  - split; simpl; try apply Hv. by eapply listed_again; [apply Hv|].
Qed.

Lemma vsteps_life v v' : rtc vstep v v' -> life_ok v -> life_ok v'.
Proof. induction 1; eauto using vstep_life. Qed.

(** So does the freshness of the pool: only the first chunk is ever put to use. *)
Lemma vstep_fresh v v' : vstep v v' -> fresh_pool v -> fresh_pool v'.
Proof.
  intros Hs [Hn Hu].
  destruct Hs as [p c st Hp|p c Hp Hr Ht|p c l Hp Hr Hl'|p c Hp Hr Ht|p c l Hp Ht Hl'|p c l Hp Ht Hl'
    |p c Hp Ht|p c l Hp Ht Hl'|p c l Hp Ht Hl'|p l sk key Hc Hp|p c Hp Hr Hto Htw|l Hnd Hun]; split; simpl; try done.
  all: try (intros x Hx; rewrite lookup_insert_ne; [by apply Hu|]; intros ->; by rewrite Hu in Hp).
  - rewrite Hc in Hn. by apply NoDup_cons in Hn as [_ ?].
  - rewrite Hc in Hn, Hu. apply NoDup_cons in Hn as [Hni _]. intros x Hx.
    rewrite lookup_insert_ne by congruence. apply Hu. by right.
  - intros x Hx. apply lookup_delete_None. right. by apply Hu.
Qed.

Lemma vsteps_fresh v v' : rtc vstep v v' -> fresh_pool v -> fresh_pool v'.
Proof. induction 1; eauto using vstep_fresh. Qed.
End Abstract.

(** * The code refines the machine *)

(** Inversion of the primitives. *)
Section Inversion.
Context {HT : Type}.
Notation W := (world HT).

Lemma stream_Ok p (w w' : W) s : stream p w = Ok (s, w') <-> w_streams w !! p = Some s /\ w' = w.
Proof. unfold stream. destruct (w_streams w !! p); simpl; naive_solver. Qed.

Lemma set_stream_Ok p g (w w' : W) u :
  set_stream p g w = Ok (u, w') <->
  exists s, w_streams w !! p = Some s /\ w' = w <| w_streams := <[p := g s]> (w_streams w) |>.
Proof. destruct u. unfold set_stream. destruct (w_streams w !! p); simpl; naive_solver. Qed.

Lemma ret_Ok {A} (a b : A) (w w' : W) : (mret a : M W A) w = Ok (b, w') <-> b = a /\ w' = w.
Proof. unfold mret, M_ret. naive_solver. Qed.

Lemma get_Ok (w w' v : W) : get w = Ok (v, w') <-> v = w /\ w' = w.
Proof. unfold get. naive_solver. Qed.

Lemma modify_Ok g (w w' : W) u : modify g w = Ok (u, w') <-> w' = g w.
Proof. destruct u. unfold modify. naive_solver. Qed.

Lemma streams_streams (w : W) m : w_streams (w <| w_streams := m |>) = m.
Proof. done. Qed.
Lemma streams_rto (w : W) l : w_streams (w <| rto_list := l |>) = w_streams w.
Proof. done. Qed.
Lemma streams_timewait (w : W) l : w_streams (w <| timewait_list := l |>) = w_streams w.
Proof. done. Qed.
Lemma streams_timeout (w : W) l : w_streams (w <| timeout_list := l |>) = w_streams w.
Proof. done. Qed.

Lemma lift_Ok {A} (r : res A) (w w' : W) a : lift r w = Ok (a, w') <-> r = Ok a /\ w' = w.
Proof. unfold lift. destruct r; simpl; naive_solver. Qed.
End Inversion.

Create Rewrite HintDb world.
#[export] Hint Rewrite @streams_streams @streams_rto @streams_timewait @streams_timeout : world.

(** Unfold a run in [H] into the results of its commands. *)
Ltac run_in H :=
  repeat match type of H with
  | (_ ≫= _) _ = Ok _ =>
      let H1 := fresh "Hr" in apply M_bind_Ok in H as (? & ? & H1 & H); run_in H1
  | stream _ _ = Ok _ => apply stream_Ok in H as [? ->]
  | set_stream _ _ _ = Ok _ =>
      let s := fresh "s" in apply set_stream_Ok in H as (s & ? & ->)
  | set_snd _ _ _ = Ok _ => unfold set_snd in H
  | get _ = Ok _ => apply get_Ok in H as [-> ->]
  | modify _ _ = Ok _ => apply modify_Ok in H as ->
  | mret _ _ = Ok _ => apply ret_Ok in H as [-> ->]
  | lift _ _ = Ok _ => apply lift_Ok in H as [? ->]
  end.

(** Read back what was just written. *)
Ltac reread :=
  repeat match goal with
  | H : w_streams _ !! _ = Some _ |- _ => progress autorewrite with world in H
  | H : <[?p := _]> _ !! ?p = Some _ |- _ => rewrite lookup_insert_eq in H; injection H as <-
  end; simplify_eq.

Section Step.
Context {HT : Type} `{!RteHash HT}.
Notation W := (world HT).

Lemma v_core_lookup (w : W) p s : w_streams w !! p = Some s -> v_core (view w) !! p = Some (core s).
Proof. intros Hs. simpl. by rewrite lookup_fmap, Hs. Qed.

(** One step that replaces stream [p] by [s']. *)
Lemma step_set (w w' : W) p s' (v : world_view HT) :
  vstep (view w) v ->
  w_streams w' = <[p := s']> (w_streams w) ->
  v = View _ (rto_list w') (timewait_list w') (timeout_list w')
        (<[p := core s']> (core <$> w_streams w)) (stream_ht w') (flow_cnt w') (w_chunks w') ->
  rtc vstep (view w) (view w').
Proof.
  intros Hs Hw Hv. apply rtc_once. enough (view w' = v) as -> by done.
  rewrite Hv. unfold view. by rewrite Hw, fmap_insert.
Qed.

End Step.

(** One abstract step that replaces a stream, by the rule [rule]. *)
Ltac one_step rule :=
  eapply step_set;
    [eapply rule; [by apply v_core_lookup|..]; try done
    | autorewrite with world; by rewrite ?insert_insert_eq | reflexivity].

Section Refine.
Context {HT : Type} `{!Config} `{!RteHash HT} `{!RteHashLaws HT}.
Notation W := (world HT).

(** From the invariant, [m] runs as a sequence of abstract steps. *)
Class Steps {A} (m : M W A) : Prop :=
  steps w a w' : life_ok (view w) -> m w = Ok (a, w') -> rtc vstep (view w) (view w').

#[export] Instance steps_keeps {A} (m : M W A) : Keeps view m -> Steps m | 5.
Proof. intros Hk w a w' _ Hr. by rewrite (Hk w a w' Hr). Qed.

#[export] Instance steps_bind {A B} (m : M W A) (k : A -> M W B) :
  Steps m -> (forall a, Steps (k a)) -> Steps (m ≫= k).
Proof.
  intros Hm Hk w b w'' Hl (a & w' & H1 & H2)%M_bind_Ok.
  pose proof (Hm w a w' Hl H1) as Hs. etrans; [exact Hs|].
  eapply Hk; [|exact H2]. by eapply vsteps_life.
Qed.

#[export] Instance steps_when b (m : M W unit) : Steps m -> Steps (when b m).
Proof. destruct b; [done | intros _; apply _]. Qed.

#[export] Instance steps_if {A} (b : bool) (m1 m2 : M W A) :
  Steps m1 -> Steps m2 -> Steps (if b then m1 else m2).
Proof. by destruct b. Qed.

#[export] Instance steps_rto_add p ts : Steps (rto_list_add p ts).
Proof.
  intros w a w' _ Hr. unfold rto_list_add in Hr. run_in Hr. case_decide as Hz; run_in Hr; [|done].
  case_match; run_in Hr; reread.
  - by erewrite view_streams by (by eapply core_insert).
  - one_step vs_rto_on.
Qed.

(** A step that only moves [p] to the end of its list. *)
Lemma step_lists (w w' : W) (v : world_view HT) :
  vstep (view w) v -> core <$> w_streams w' = core <$> w_streams w ->
  v = View _ (rto_list w') (timewait_list w') (timeout_list w') (core <$> w_streams w)
        (stream_ht w') (flow_cnt w') (w_chunks w') ->
  rtc vstep (view w) (view w').
Proof.
  intros Hs Hc Hv. apply rtc_once. enough (view w' = v) as -> by done.
  rewrite Hv. unfold view. by rewrite Hc.
Qed.

#[export] Instance steps_rto_remove p : Steps (rto_list_remove p).
Proof.
  intros w a w' _ Hr. unfold rto_list_remove in Hr. run_in Hr. case_decide; run_in Hr; [|done].
  reread. one_step vs_rto_off.
Qed.

#[export] Instance steps_rto_update p ts : Steps (rto_list_update p ts).
Proof. unfold rto_list_update. apply _. Qed.

Lemma rto_list_remove_off p (w w' : W) a s :
  w_streams w !! p = Some s -> rto_list_remove p w = Ok (a, w') ->
  exists s', w_streams w' !! p = Some s' /\ core s' = core s <| c_rto := 0 |>.
Proof.
  intros Hs Hr. unfold rto_list_remove in Hr. run_in Hr. case_decide as Hz; run_in Hr; reread.
  - autorewrite with world. rewrite lookup_insert_eq. eauto.
  - exists s. split; [done|]. unfold core. simpl. do 2 f_equal. destruct (decide (on_rto_idx s = 0)); done.
Qed.

#[export] Instance steps_timewait_add p ts : Steps (timewait_list_add p ts).
Proof.
  unfold timewait_list_add. apply steps_bind; [apply _|intros _].
  intros w a w' Hl Hr. apply M_bind_Ok in Hr as (s & w0 & Hs & Hr).
  apply stream_Ok in Hs as [Hs ->]. destruct (on_timewait_list s) eqn:Ht.
  - run_in Hr. eapply step_lists; [eapply vs_tw_again; [by apply v_core_lookup|done|done]|done|done].
  - pose proof (lo_idx _ Hl p (core s) (v_core_lookup w p s Hs)) as Hx. simpl in Hx.
    rewrite bool_decide_true in Hr by done. apply M_bind_Ok in Hr as (u & w1 & Hr1 & Hr2).
    apply M_bind_Ok in Hr1 as (u' & w2 & Hrm & Hr1). unfold when in Hrm.
    apply M_bind_Ok in Hrm as (z & w3 & Hrm & Hret). injection Hret as <- <-.
    destruct (rto_list_remove_off p w w3 z s Hs Hrm) as (s' & Hs' & Hc).
    etrans; [exact (steps _ _ _ Hl Hrm)|]. run_in Hr1. run_in Hr2. reread.
    assert (c_rto (core s0) = 0 /\ c_timewait (core s0) = false) as [? ?] by (rewrite Hc; done).
    one_step vs_tw_on.
Qed.

#[export] Instance steps_timewait_remove p : Steps (timewait_list_remove p).
Proof.
  intros w a w' _ Hr. unfold timewait_list_remove in Hr. run_in Hr.
  destruct (on_timewait_list _) eqn:Ht; cbn [negb] in Hr; run_in Hr; [|done]. reread. one_step vs_tw_off.
Qed.

#[export] Instance steps_timeout_add p ts : Steps (timeout_list_add p ts).
Proof.
  unfold timeout_list_add. apply steps_bind; [apply _|intros _]. intros w a w' _ Hr. run_in Hr.
  destruct (on_timeout_list _) eqn:Ht; cbn [negb] in Hr; run_in Hr; [done|]. reread. one_step vs_to_on.
Qed.

#[export] Instance steps_timeout_remove p : Steps (timeout_list_remove p).
Proof.
  intros w a w' _ Hr. unfold timeout_list_remove in Hr. run_in Hr.
  destruct (on_timeout_list _) eqn:Ht; cbn [negb] in Hr; run_in Hr; [|done]. reread. one_step vs_to_off.
Qed.

#[export] Instance steps_timeout_update p ts : Steps (timeout_list_update p ts).
Proof.
  unfold timeout_list_update. apply steps_bind; [apply _|intros _]. intros w a w' _ Hr. run_in Hr.
  destruct (on_timeout_list _) eqn:Ht; cbn [when] in *;
    match goal with H : _ _ = Ok (_, _) |- _ => run_in H end; [|done].
  eapply step_lists; [eapply vs_to_again; [by apply v_core_lookup|done|done]|done|done].
Qed.

(** ** Creation and destruction *)

Lemma timeout_remove_off p (w w' : W) s a :
  w_streams w !! p = Some s -> timeout_list_remove p w = Ok (a, w') ->
  exists s', w_streams w' !! p = Some s' /\ core s' = core s <| c_timeout := false |>.
Proof.
  intros Hs Hr. unfold timeout_list_remove in Hr. run_in Hr.
  destruct (on_timeout_list _) eqn:Ht; cbn [negb] in Hr; run_in Hr; reread.
  - autorewrite with world. rewrite lookup_insert_eq. eauto.
  - exists s. split; [done|]. unfold core. simpl. by rewrite Ht.
Qed.

Lemma timewait_remove_off p (w w' : W) s a :
  w_streams w !! p = Some s -> timewait_list_remove p w = Ok (a, w') ->
  exists s', w_streams w' !! p = Some s' /\ core s' = core s <| c_timewait := false |>.
Proof.
  intros Hs Hr. unfold timewait_list_remove in Hr. run_in Hr.
  destruct (on_timewait_list _) eqn:Ht; cbn [negb] in Hr; run_in Hr; reread.
  - autorewrite with world. rewrite lookup_insert_eq. eauto.
  - exists s. split; [done|]. unfold core. simpl. by rewrite Ht.
Qed.

(** Removing from a list only when the mark says so. *)
Lemma when_remove (b : tcp_stream -> bool) off (m : M W Z) p (w w' : W) s u :
  (forall w w' s a, w_streams w !! p = Some s -> m w = Ok (a, w') ->
     exists s', w_streams w' !! p = Some s' /\ core s' = off (core s)) ->
  Steps m -> (b s = false -> off (core s) = core s) ->
  life_ok (view w) -> w_streams w !! p = Some s -> when (b s) (m;; mret tt) w = Ok (u, w') ->
  rtc vstep (view w) (view w') /\
  exists s', w_streams w' !! p = Some s' /\ core s' = off (core s).
Proof.
  intros Hoff Hm Hb Hl Hs Hr. destruct (b s) eqn:E; cbn [when] in Hr.
  - apply M_bind_Ok in Hr as (z & w1 & Hr & Hret). apply ret_Ok in Hret as [_ ->].
    split; [by eapply steps | by eapply Hoff].
  - apply ret_Ok in Hr as [_ ->]. split; [done|]. exists s. by rewrite Hb.
Qed.

(** The end of [tcp_stream_destroy], when the stream is on no list. *)
Definition destroy_tail (p : ptr) : M W unit :=
  s ← stream p;
  modify (fun w => w <| stream_ht := (ht_delete (stream_ht w) (flow_key s)).2 |>);;
  modify (fun w => w <| flow_cnt := u32 (flow_cnt w - 1) |>);;
  on_sndbuf p sb_free;;
  on_rcvbuf p (fun b => b' ← rb_clear b; mret (tt, b'));;
  s ← stream p;
  match socket s with
  | None => mret tt
  | Some i => k ← sock i; socket_free cf_stack_id (Z.to_nat (sk_id k))
  end;;
  modify (fun w => w <| w_streams := delete p (w_streams w) |>).

Lemma view_delete (w : W) p :
  view (w <| w_streams := delete p (w_streams w) |>) = view w <| v_core ::= delete p |>.
Proof.
  transitivity (View _ (rto_list w) (timewait_list w) (timeout_list w)
    (core <$> delete p (w_streams w)) (stream_ht w) (flow_cnt w) (w_chunks w)); [done|]. by rewrite fmap_delete.
Qed.

Lemma destroy_tail_step p (w w' : W) s u :
  w_streams w !! p = Some s ->
  c_rto (core s) = 0 -> c_timeout (core s) = false -> c_timewait (core s) = false ->
  destroy_tail p w = Ok (u, w') -> rtc vstep (view w) (view w').
Proof.
  intros Hs Hr Hto Htw Hrun. unfold destroy_tail in Hrun.
  apply M_bind_Ok in Hrun as (s0 & w0 & H0 & Hrun). apply stream_Ok in H0 as [Hs0 ->].
  rewrite Hs in Hs0. injection Hs0 as <-.
  do 2 (apply M_bind_Ok in Hrun as (? & ? & ->%modify_Ok & Hrun)).
  set (w1 := (w <| stream_ht := _ |>) <| flow_cnt := _ |>) in Hrun.
  do 2 (apply M_bind_Ok in Hrun as (? & ? & ?%(keeps (g := view)) & Hrun)).
  do 2 (apply M_bind_Ok in Hrun as (? & ? & ?%(keeps (g := view)) & Hrun)).
  apply modify_Ok in Hrun as ->. apply rtc_once.
  match goal with |- vstep _ (view (?x <| w_streams := _ |>)) => assert (view x = view w1) as Hv by congruence end.
  rewrite view_delete, Hv.
  exact (vs_destroy (view w) p _ (v_core_lookup w p s Hs) Hr Hto Htw).
Qed.

#[export] Instance steps_destroy p : Steps (tcp_stream_destroy p).
Proof.
  intros w u w' Hl Hr. unfold tcp_stream_destroy in Hr.
  apply M_bind_Ok in Hr as (s & w0 & H0 & Hr). apply stream_Ok in H0 as [Hs ->].
  apply M_bind_Ok in Hr as (x & w1 & H1 & Hr).
  destruct (when_remove on_timeout_list (fun c => c <| c_timeout := false |>) (timeout_list_remove p) p w w1 s x)
    as (Hs1 & s1 & E1 & C1); try done; [intros; by eapply timeout_remove_off | apply _ | by destruct s; simpl; intros -> |].
  assert (life_ok (view w1)) as Hl1 by (by eapply vsteps_life).
  apply M_bind_Ok in Hr as (s' & w0 & H0 & Hr). apply stream_Ok in H0 as [E ->]. rewrite E1 in E. injection E as <-.
  apply M_bind_Ok in Hr as (x' & w2 & H2 & Hr).
  destruct (when_remove on_timewait_list (fun c => c <| c_timewait := false |>) (timewait_list_remove p) p w1 w2 s1 x')
    as (Hs2 & s2 & E2 & C2); try done; [intros; by eapply timewait_remove_off | apply _ | by destruct s1; simpl; intros -> |].
  assert (life_ok (view w2)) as Hl2 by (by eapply vsteps_life).
  apply M_bind_Ok in Hr as (s' & w0 & H0 & Hr). apply stream_Ok in H0 as [E ->]. rewrite E2 in E. injection E as <-.
  apply M_bind_Ok in Hr as (y & w3 & H3 & Hr).
  destruct (when_remove (fun s => bool_decide (on_rto_idx s <> 0)) (fun c => c <| c_rto := 0 |>)
    (rto_list_remove p) p w2 w3 s2 y)
    as (Hs3 & s3 & E3 & C3); try done;
    [intros; by eapply rto_list_remove_off | apply _ | |].
  { intros Hz%bool_decide_eq_false. unfold core. simpl. do 2 f_equal. lia. }
  etrans; [exact Hs1|]. etrans; [exact Hs2|]. etrans; [exact Hs3|].
  eapply destroy_tail_step; [exact E3|..|exact Hr]; rewrite C3, ?C2, ?C1; done.
Qed.

(** ** Assignments of the state, and the handlers made of these *)

Lemma steps_set_state p g :
  (forall s, core (g s) = core s <| c_state := state (g s) |>) -> Steps (set_stream p g).
Proof.
  intros Hg w u w' _ Hr. run_in Hr. eapply step_set;
    [eapply (vs_state _ p _ (state (g s))); by apply v_core_lookup | by autorewrite with world |].
  rewrite Hg. reflexivity.
Qed.
End Refine.

#[export] Hint Extern 6 (Steps (set_stream _ _)) =>
  apply steps_set_state; intros ?; keeps_field : typeclass_instances.
#[export] Hint Extern 2 (Steps (match ?x with _ => _ end)) => destruct x : typeclass_instances.

Section Handlers.
Context {HT : Type} `{!Config} `{!RteHash HT} `{!RteHashLaws HT}.
Notation W := (world HT).

Ltac steps_unfold d := unfold d; apply _.

#[export] Instance steps_accept p : Steps (_raise_accept_event p).
Proof. steps_unfold @_raise_accept_event. Qed.
#[export] Instance steps_active_open p t h a b c : Steps (handle_active_open p t h a b c).
Proof. steps_unfold @handle_active_open. Qed.
#[export] Instance steps_ack_new p t a : Steps (ack_new_data p t a).
Proof. steps_unfold @ack_new_data. Qed.
#[export] Instance steps_process_ack p t h a b c d : Steps (process_tcp_ack p t h a b c d).
Proof. steps_unfold @process_tcp_ack. Qed.
#[export] Instance steps_check_seq p t h a b : Steps (check_sequence_validation p t h a b).
Proof. steps_unfold @check_sequence_validation. Qed.
#[export] Instance steps_rst p a : Steps (handle_rst p a).
Proof. steps_unfold @handle_rst. Qed.
#[export] Instance steps_listen p h : Steps (Handle_TCP_ST_LISTEN p h).
Proof. steps_unfold @Handle_TCP_ST_LISTEN. Qed.
#[export] Instance steps_syn_sent p t h a b c : Steps (Handle_TCP_ST_SYN_SENT p t h a b c).
Proof. steps_unfold @Handle_TCP_ST_SYN_SENT. Qed.
#[export] Instance steps_syn_rcvd p h a : Steps (Handle_TCP_ST_SYN_RCVD p h a).
Proof. steps_unfold @Handle_TCP_ST_SYN_RCVD. Qed.
#[export] Instance steps_close_wait p t h a b c d : Steps (Handle_TCP_ST_CLOSE_WAIT p t h a b c d).
Proof. steps_unfold @Handle_TCP_ST_CLOSE_WAIT. Qed.
#[export] Instance steps_last_ack p t h a b c d : Steps (Handle_TCP_ST_LAST_ACK p t h a b c d).
Proof. steps_unfold @Handle_TCP_ST_LAST_ACK. Qed.
#[export] Instance steps_fin_wait_1 p t h a b m c d : Steps (Handle_TCP_ST_FIN_WAIT_1 p t h a b m c d).
Proof. steps_unfold @Handle_TCP_ST_FIN_WAIT_1. Qed.
#[export] Instance steps_fin_wait_2 p t h a b m c d : Steps (Handle_TCP_ST_FIN_WAIT_2 p t h a b m c d).
Proof. steps_unfold @Handle_TCP_ST_FIN_WAIT_2. Qed.
#[export] Instance steps_closing p t h a b c d : Steps (Handle_TCP_ST_CLOSING p t h a b c d).
Proof. steps_unfold @Handle_TCP_ST_CLOSING. Qed.
#[export] Instance steps_established p t h a b m c d : Steps (Handle_TCP_ST_ESTABLISHED p t h a b m c d).
Proof. steps_unfold @Handle_TCP_ST_ESTABLISHED. Qed.
#[export] Instance steps_dispatch p t h a b m c d : Steps (tcp_dispatch p t h a b m c d).
Proof. steps_unfold @tcp_dispatch. Qed.
#[export] Instance steps_handle_rto t p : Steps (handle_rto t p).
Proof. steps_unfold @handle_rto. Qed.

(** ** The timer walks *)

Lemma in_list (l l' : list ptr) p : tailq_remove l p = Ok l' -> p ∈ l.
Proof. intros (l1 & l2 & -> & _)%tailq_remove_Ok. set_solver. Qed.

Lemma marked l m on p (c : core_view) : listed l m on -> m !! p = Some c -> p ∈ l -> on c.
Proof. intros [_ Hi] Hp (d & Hd & Hon)%Hi. naive_solver. Qed.

#[export] Instance steps_rto_loop fuel ts walk cnt : Steps (rto_check_loop (HT := HT) fuel ts walk cnt).
Proof.
  revert walk cnt. induction fuel as [|fuel IH]; intros walk cnt; [apply _|]. cbn [rto_check_loop].
  case_match; [apply _|]. intros w a w' Hl Hr. apply M_bind_Ok in Hr as (s & w0 & Hst & Hr).
  apply stream_Ok in Hst as [Hs ->]. case_decide; [by run_in Hr|].
  apply M_bind_Ok in Hr as (? & ? & [-> ->]%get_Ok & Hr).
  apply M_bind_Ok in Hr as (? & ? & (s0 & Hs0 & ->)%set_stream_Ok & Hr).
  apply M_bind_Ok in Hr as (l & ? & [Hrm ->]%lift_Ok & Hr).
  apply M_bind_Ok in Hr as (? & ? & ->%modify_Ok & Hr). rewrite Hs in Hs0. injection Hs0 as <-.
  pose proof (marked _ _ _ _ _ (lo_rto _ Hl) (v_core_lookup w walk s Hs) (in_list _ _ _ Hrm)) as Hon.
  assert (rtc vstep (view w) (view (w <| w_streams := <[walk := s <| on_rto_idx := 0 |>]> (w_streams w) |>
    <| rto_list := l |>))) as Hoff by one_step vs_rto_off.
  etrans; [exact Hoff|]. refine (steps _ _ _ _ Hr). by eapply vsteps_life.
Qed.

#[export] Instance steps_timewait_loop fuel ts walk cnt :
  Steps (timewait_check_loop (HT := HT) fuel ts walk cnt).
Proof.
  revert walk cnt. induction fuel as [|fuel IH]; intros walk cnt; [apply _|]. cbn [timewait_check_loop].
  case_match; [apply _|]. intros w a w' Hl Hr. apply M_bind_Ok in Hr as (s & w0 & Hst & Hr).
  apply stream_Ok in Hst as [Hs ->]. apply M_bind_Ok in Hr as (? & ? & [-> ->]%get_Ok & Hr).
  destruct (on_timewait_list s) eqn:Ht.
  - case_decide; [by run_in Hr|].
    apply M_bind_Ok in Hr as (? & ? & (s0 & Hs0 & ->)%set_stream_Ok & Hr).
    apply M_bind_Ok in Hr as (l & ? & [Hrm ->]%lift_Ok & Hr).
    apply M_bind_Ok in Hr as (? & ? & ->%modify_Ok & Hr). rewrite Hs in Hs0. injection Hs0 as <-.
    assert (rtc vstep (view w) (view (w <| w_streams := <[walk := s <| on_timewait_list := false |>]>
      (w_streams w) |> <| timewait_list := l |>))) as Hoff by one_step vs_tw_off.
    etrans; [exact Hoff|]. refine (steps _ _ _ _ Hr). by eapply vsteps_life.
  - apply M_bind_Ok in Hr as (l & ? & [Hrm ->]%lift_Ok & Hr).
    pose proof (marked _ _ _ _ _ (lo_timewait _ Hl) (v_core_lookup w walk s Hs) (in_list _ _ _ Hrm)) as Hon.
    simpl in Hon. congruence.
Qed.

#[export] Instance steps_timeout_loop fuel ts walk cnt :
  Steps (timeout_check_loop (HT := HT) fuel ts walk cnt).
Proof.
  revert walk cnt. induction fuel as [|fuel IH]; intros walk cnt; [apply _|]. cbn [timeout_check_loop].
  case_match; [apply _|]. intros w a w' Hl Hr. apply M_bind_Ok in Hr as (s & w0 & Hst & Hr).
  apply stream_Ok in Hst as [Hs ->]. case_decide; [by run_in Hr|].
  apply M_bind_Ok in Hr as (? & ? & [-> ->]%get_Ok & Hr).
  apply M_bind_Ok in Hr as (? & ? & (s0 & Hs0 & ->)%set_stream_Ok & Hr).
  apply M_bind_Ok in Hr as (l & ? & [Hrm ->]%lift_Ok & Hr).
  apply M_bind_Ok in Hr as (? & ? & ->%modify_Ok & Hr). rewrite Hs in Hs0. injection Hs0 as <-.
  pose proof (marked _ _ _ _ _ (lo_timeout _ Hl) (v_core_lookup w walk s Hs) (in_list _ _ _ Hrm)) as Hon.
  assert (rtc vstep (view w) (view (w <| w_streams := <[walk := s <| on_timeout_list := false |>]>
    (w_streams w) |> <| timeout_list := l |>))) as Hoff by one_step vs_to_off.
  etrans; [exact Hoff|]. refine (steps _ _ _ _ Hr). by eapply vsteps_life.
Qed.
End Handlers.

(** ** Sending *)

Section Sending.
Context {HT : Type} `{!Config} `{!RteHash HT} `{!RteHashLaws HT}.
Notation W := (world HT).

#[export] Instance view_ip_packet p m len : Keeps view (generate_ip_packet (HT := HT) p m len).
Proof. unfold generate_ip_packet, eth_hdr_generate. apply _. Qed.
#[export] Instance view_io_send m len pkt : Keeps view (io_send_mbuf (HT := HT) m len pkt).
Proof. keeps_unfold @io_send_mbuf. Qed.
#[export] Instance view_from_queue : Keeps view (get_from_send_queue (HT := HT)).
Proof. keeps_unfold @get_from_send_queue. Qed.
#[export] Instance view_after_flush p n : Keeps view (after_flush (HT := HT) p n).
Proof. keeps_unfold @after_flush. Qed.
#[export] Instance view_send_event_add c p pri : Keeps view (send_event_add (HT := HT) c p pri).
Proof. keeps_unfold @send_event_add. Qed.
#[export] Instance steps_send p ts fl m len : Steps (send_tcp_packet (HT := HT) p ts fl m len).
Proof. unfold send_tcp_packet. apply _. Qed.
#[export] Instance steps_control p ts : Steps (send_tcp_control_packet (HT := HT) p ts).
Proof. unfold send_tcp_control_packet. apply _. Qed.
#[export] Instance steps_control_loop fuel ts cnt : Steps (control_loop (HT := HT) fuel ts cnt).
Proof. revert cnt. induction fuel; intros cnt; cbn [control_loop]; apply _. Qed.
#[export] Instance steps_flush_loop fuel p ts wnd n : Steps (flush_loop (HT := HT) fuel p ts wnd n).
Proof. revert n. induction fuel; intros n; cbn [flush_loop]; apply _. Qed.
#[export] Instance steps_flush p ts : Steps (flush_tcp_sending_buffer (HT := HT) p ts).
Proof. unfold flush_tcp_sending_buffer. apply _. Qed.
#[export] Instance steps_send_loop fuel ts cnt : Steps (send_loop (HT := HT) fuel ts cnt).
Proof. revert cnt. induction fuel; intros cnt; cbn [send_loop]; apply _. Qed.
#[export] Instance steps_ack_send_loop fuel p ts cnt : Steps (ack_send_loop (HT := HT) fuel p ts cnt).
Proof. revert cnt. induction fuel; intros cnt; cbn [ack_send_loop]; apply _. Qed.
#[export] Instance steps_wack p ts cnt : Steps (wack_send (HT := HT) p ts cnt).
Proof. unfold wack_send. apply _. Qed.
#[export] Instance steps_ack_loop fuel ts cnt : Steps (ack_loop (HT := HT) fuel ts cnt).
Proof. revert cnt. induction fuel; intros cnt; cbn [ack_loop]; apply _. Qed.
End Sending.

(** ** Creation and the whole packet *)

Section Packets.
Context {HT : Type} `{!Config} `{!RteHash HT} `{!RteHashLaws HT}.
Notation W := (world HT).

Lemma view_insert (w : W) p s :
  view (w <| w_streams := <[p := s]> (w_streams w) |>) = set_core p (core s) (view w).
Proof.
  transitivity (View _ (rto_list w) (timewait_list w) (timeout_list w)
    (core <$> <[p := s]> (w_streams w)) (stream_ht w) (flow_cnt w) (w_chunks w)); [done|]. by rewrite fmap_insert.
Qed.

Lemma set_core_twice p c c' (v : world_view HT) : set_core p c' (set_core p c v) = set_core p c' v.
Proof.
  unfold set_core, update. simpl. by rewrite insert_insert_eq.
Qed.

(** An assignment to the stream that was just inserted. *)
Lemma view_put p g (w w' : W) u c c' v :
  view w = set_core p c v -> set_stream p g w = Ok (u, w') ->
  (forall s, core s = c -> core (g s) = c') -> view w' = set_core p c' v.
Proof.
  intros Hv (s & Hs & ->)%set_stream_Ok Hg.
  assert (core s = c) as Hc.
  { pose proof (v_core_lookup w p s Hs) as Hl. rewrite Hv in Hl. simpl in Hl.
    rewrite lookup_insert_eq in Hl. by injection Hl. }
  by rewrite view_insert, Hv, set_core_twice, (Hg s).
Qed.

Ltac put_core := intros [] Hs; unfold core, flow_key in *; simpl in *; congruence.

(** The part of [tcp_stream_create] after the flow was entered in the table. *)
Definition create_tail (p : ptr) (sk : option nat) (seq : Z) : M W ptr :=
  match sk with
  | None => mret tt
  | Some i =>
      set_stream p (fun s => s <| socket := Some i |>);;
      set_sock i (fun k => k <| sk_stream := p |>);;
      k ← sock i;
      set_stream p (fun s => s <| id := u32 (sk_id k) |>)
  end;;
  set_stream p (fun s => s <| state := TCP_ST_LISTEN |> <| on_rto_idx := 0 |> <| st_priority := 0 |>);;
  set_rcv p (fun v => v <| irs := seq |> <| rcv_wnd := TCP_INITIAL_WINDOW |>
                        <| snd_wl1 := u32 (seq - 1) |>);;
  set_rcv p (fun v => v <| rcvbuf := rb_init cf_rcvbuf_size (rcvbuf v) (u32 (seq + 1)) |>);;
  set_snd p (fun v => v <| ip_id := 0 |> <| mss := TCP_DEFAULT_MSS |> <| eff_mss := TCP_DEFAULT_MSS |>
                        <| wscale_mine := TCP_DEFAULT_WSCALE |> <| wscale_peer := 0 |>
                        <| nif_out := 0 |>);;
  r ← rand;
  set_snd p (fun v => v <| iss := u32 r |> <| snd_una := u32 r |> <| snd_wnd := TCP_INIT_CWND |>
                        <| rto := TCP_INITIAL_RTO |>);;
  set_snd p (fun v => v <| sndbuf := sb_init cf_sndbuf_size (sndbuf v) (u32 (iss v + 1)) |>);;
  set_stream p (fun s => s <| rcv_nxt := irs (rcvvar s) |> <| snd_nxt := iss (sndvar s) |>
                           <| pending_events := [] |>);;
  mret p.

Lemma create_tail_view p sk seq (w w' : W) q key v :
  view w = set_core p (Core TCP_ST_CLOSED 0 false false None key) v ->
  create_tail p sk seq w = Ok (q, w') ->
  q = p /\ view w' = set_core p (Core TCP_ST_LISTEN 0 false false sk key) v.
Proof.
  intros Hv Hr. unfold create_tail in Hr. apply M_bind_Ok in Hr as (u & w1 & H1 & Hr).
  assert (view w1 = set_core p (Core TCP_ST_CLOSED 0 false false sk key) v) as Hv1.
  { destruct sk as [i|]; [|by apply ret_Ok in H1 as [_ ->]].
    apply M_bind_Ok in H1 as (u1 & w2 & H2 & H1).
    rewrite (keeps (g := view) _ _ _ H1).
    eapply (view_put _ _ _ _ _ _ _ _ Hv H2). put_core. }
  apply M_bind_Ok in Hr as (u1 & w2 & H2 & Hr).
  assert (view w2 = set_core p (Core TCP_ST_LISTEN 0 false false sk key) v) as Hv2.
  { eapply (view_put _ _ _ _ _ _ _ _ Hv1 H2). put_core. }
  repeat (apply M_bind_Ok in Hr as (? & ? & ?%(keeps (g := view)) & Hr)).
  apply ret_Ok in Hr as [-> ->]. split; [done|]. congruence.
Qed.

(** The allocation takes the first chunk of the supply. *)
Lemma alloc_view (w w1 : W) c :
  mempool_alloc_chunk w = Ok (c, w1) -> c <> NULL ->
  exists l, w_chunks w = c :: l /\ view w1 = view w <| v_chunks := l |>.
Proof.
  unfold mempool_alloc_chunk. destruct (w_chunks w) as [|c0 l] eqn:E; intros [= <- <-]; [done|].
  intros _. exists l. split; [done|]. done.
Qed.

Lemma create_steps sk sa sp da dp seq (w w' : W) p :
  fresh_pool (view w) -> tcp_stream_create sk sa sp da dp seq w = Ok (p, w') ->
  vstep (view w) (view w').
Proof.
  intros Hf Hr. unfold tcp_stream_create in Hr. apply M_bind_Ok in Hr as (c & w1 & H1 & Hr).
  case_decide as Hz; [done|]. apply alloc_view in H1 as (l & Hc & Hv1); [|done].
  apply M_bind_Ok in Hr as (? & ? & ->%modify_Ok & Hr).
  pose proof (view_insert w1 c zero_stream) as Hv0. rewrite Hv1 in Hv0.
  apply M_bind_Ok in Hr as (u & w2 & H2 & Hr).
  assert (view w2 = set_core c (Core TCP_ST_CLOSED 0 false false None (Tuple 6 sa da sp dp))
                      (view w <| v_chunks := l |>)) as Hv2.
  { eapply (view_put c _ _ _ _ _ _ _ Hv0 H2). put_core. }
  do 2 (apply M_bind_Ok in Hr as (? & ? & ->%modify_Ok & Hr)).
  eapply (create_tail_view c sk seq _ _ _ (Tuple 6 sa da sp dp)
    (view w <| v_ht := (ht_insert (v_ht (view w)) (Tuple 6 sa da sp dp) c).2 |>
            <| v_cnt := u32 (v_cnt (view w) + 1) |> <| v_chunks := l |>)) in Hr as [-> ->].
  - apply (vs_create (view w) c l sk (Tuple 6 sa da sp dp)); [done|].
    apply (fp_unused _ Hf). simpl. rewrite Hc. by left.
  - transitivity (view w2 <| v_ht := (ht_insert (v_ht (view w2)) (Tuple 6 sa da sp dp) c).2 |>
                          <| v_cnt := u32 (v_cnt (view w2) + 1) |>); [done|].
    by rewrite Hv2.
Qed.

(** Runs that may create streams. *)
Definition FSteps {A} (m : M W A) : Prop := forall w a w',
  life_ok (view w) -> fresh_pool (view w) -> m w = Ok (a, w') -> rtc vstep (view w) (view w').

Lemma fsteps_steps {A} (m : M W A) : Steps m -> FSteps m.
Proof. intros Hm w a w' Hl _ Hr. exact (Hm w a w' Hl Hr). Qed.

Lemma fsteps_bind {A B} (m : M W A) (k : A -> M W B) :
  FSteps m -> (forall a, FSteps (k a)) -> FSteps (m ≫= k).
Proof.
  intros Hm Hk w b w'' Hl Hf (a & w' & H1 & H2)%M_bind_Ok.
  pose proof (Hm w a w' Hl Hf H1) as Hs. etrans; [exact Hs|].
  eapply Hk; [by eapply vsteps_life | by eapply vsteps_fresh | done].
Qed.

Lemma fsteps_before {A B} (m : M W A) (k : A -> M W B) :
  Steps m -> (forall a, FSteps (k a)) -> FSteps (m ≫= k).
Proof. intros Hm. by apply fsteps_bind, fsteps_steps. Qed.

Lemma fsteps_after {A B} (m : M W A) (k : A -> M W B) :
  FSteps m -> (forall a, Steps (k a)) -> FSteps (m ≫= k).
Proof. intros Hm Hk. apply fsteps_bind; [done|]. intros a. apply fsteps_steps, Hk. Qed.

Lemma fsteps_create sk sa sp da dp seq : FSteps (tcp_stream_create sk sa sp da dp seq).
Proof. intros w r w' _ Hf Hr. apply rtc_once. by eapply create_steps. Qed.

Lemma fsteps_passive_open ts iph h seq wnd : FSteps (handle_passive_open ts iph h seq wnd).
Proof.
  unfold handle_passive_open. do 3 (apply fsteps_before; [apply _ | intros ?]).
  apply fsteps_after; [apply fsteps_create | apply _].
Qed.

Lemma fsteps_new_flow ts iph h seq wnd : FSteps (CreateNewFlowHTEntry ts iph h seq wnd).
Proof.
  unfold CreateNewFlowHTEntry. case_match; [|apply fsteps_steps; apply _].
  apply fsteps_before; [apply _ | intros [li|]]; [|apply fsteps_steps; apply _].
  apply fsteps_after; [apply fsteps_passive_open | apply _].
Qed.

Lemma fsteps_packet_stream ts ha iph h seq wnd : FSteps (packet_stream ts ha iph h seq wnd).
Proof.
  unfold packet_stream. apply fsteps_before; [apply _ | intros w].
  case_decide; [|apply fsteps_steps; apply _]. case_match; [apply fsteps_steps; apply _|].
  apply fsteps_after; [apply fsteps_new_flow | apply _].
Qed.

Lemma fsteps_packet ts m ha iph h len : FSteps (process_tcp_packet ts m ha iph h len).
Proof.
  unfold process_tcp_packet. apply fsteps_before; [apply _ | intros _].
  case_match; [apply fsteps_steps; apply _|].
  apply fsteps_after; [apply fsteps_packet_stream | apply _].
Qed.
End Packets.

(** ** Calls of the application *)

#[export] Hint Opaque q_socket q_bind listeners_search listeners_insert alloc_listener q_listen q_accept
  get_rss_core q_connect q_recv q_send close_stream_socket q_close q_socket_ioctl send_from_user
  _q_tcp_send handle_close_call handle_connect_call close_one connect_one : typeclass_instances.

Section AppFrames.
Context {HT : Type} `{!Config} `{!RteHash HT} `{!RteHashLaws HT} `{!Rss}.
Notation W := (world HT).
Notation V := (view (HT := HT)).

#[export] Instance view_q_socket a d t : Keeps V (q_socket a d t).
Proof. keeps_unfold @q_socket. Qed.
#[export] Instance view_q_bind i a l : Keeps V (q_bind i a l).
Proof. keeps_unfold @q_bind. Qed.
#[export] Instance view_listeners_search l q : Keeps V (listeners_search l q).
Proof. induction l; cbn [listeners_search]; apply _. Qed.
#[export] Instance view_listeners_insert l : Keeps V (listeners_insert l).
Proof. keeps_unfold @listeners_insert. Qed.
#[export] Instance view_alloc_listener : Keeps V alloc_listener.
Proof. intros w a w'. unfold alloc_listener. by destruct (w_lchunks w); intros [= <- <-]. Qed.
#[export] Instance view_q_listen a i b : Keeps V (q_listen a i b).
Proof. keeps_unfold @q_listen. Qed.
#[export] Instance view_q_accept a i : Keeps V (q_accept a i).
Proof. keeps_unfold @q_accept. Qed.
#[export] Instance view_rss_core k : Keeps V (get_rss_core k).
Proof. keeps_unfold @get_rss_core. Qed.
#[export] Instance view_q_connect a i d l o : Keeps V (q_connect a i d l o).
Proof. keeps_unfold @q_connect. Qed.
#[export] Instance view_q_recv i : Keeps V (q_recv i).
Proof. keeps_unfold @q_recv. Qed.
#[export] Instance view_send_from_user p m : Keeps V (send_from_user p m).
Proof. keeps_unfold @send_from_user. Qed.
#[export] Instance view_q_tcp_send c i m l f : Keeps V (_q_tcp_send c i m l f).
Proof. keeps_unfold @_q_tcp_send. Qed.
#[export] Instance view_q_send a i m l f : Keeps V (q_send a i m l f).
Proof. keeps_unfold @q_send. Qed.
#[export] Instance view_close_socket a i : Keeps V (close_stream_socket a i).
Proof. keeps_unfold @close_stream_socket. Qed.
#[export] Instance view_q_close a i : Keeps V (q_close a i).
Proof. keeps_unfold @q_close. Qed.
#[export] Instance view_q_ioctl i r a : Keeps V (q_socket_ioctl i r a).
Proof. keeps_unfold @q_socket_ioctl. Qed.

#[export] Instance steps_close_call p : Steps (handle_close_call p).
Proof. unfold handle_close_call. apply _. Qed.
#[export] Instance steps_close_one : Steps close_one.
Proof. unfold close_one. apply _. Qed.

Lemma fsteps_connect_call i : FSteps (handle_connect_call i).
Proof.
  unfold handle_connect_call. apply fsteps_before; [apply _ | intros k].
  case_match; [apply fsteps_steps; apply _|]. apply fsteps_after; [apply fsteps_create | apply _].
Qed.

Lemma fsteps_connect_one : FSteps connect_one.
Proof.
  unfold connect_one. apply fsteps_before; [apply _ | intros w].
  apply fsteps_before; [apply _ | intros [p q]]. apply fsteps_before; [apply _ | intros _].
  case_decide; [apply fsteps_steps; apply _|].
  apply fsteps_after; [apply fsteps_connect_call | apply _].
Qed.

Lemma fsteps_while n m : FSteps m -> FSteps (while_one n m).
Proof.
  intros Hm. induction n as [|n IH]; cbn [while_one]; [apply fsteps_steps; apply _|].
  apply fsteps_bind; [done|]. intros []; [done | apply fsteps_steps; apply _].
Qed.

Lemma fsteps_app_call : FSteps handle_app_call.
Proof.
  unfold handle_app_call. apply fsteps_bind; [|intros _];
    [apply fsteps_while, fsteps_steps, _ | apply fsteps_while, fsteps_connect_one].
Qed.
End AppFrames.

(** ** A stack thread *)

(** A call an application thread makes. *)
Inductive api_call : Type :=
  | ASocket (app : qapp) (domain type : Z)
  | ABind (sockid : Z) (addr : option sockaddr_in) (addrlen : Z)
  | AListen (app : option qapp) (sockid backlog : Z)
  | AAccept (app : qapp) (sockid : Z)
  | AConnect (app : qapp) (sockid : Z) (addr : option sockaddr_in) (addrlen other : Z)
  | ARecv (sockid : Z)
  | ASend (app : qapp) (sockid : Z) (mbuf : ptr) (len flags : Z)
  | AClose (app : qapp) (sockid : Z)
  | AIoctl (sockid request : Z) (arg : bool).

(** What the main loop of a stack thread does with its streams: receive a
    packet, walk the timer lists, drain the queues, serve the calls to close
    and to connect; and, between these, the calls of the application. *)
Inductive thread_action : Type :=
  | Receive (cur_ts : Z) (mbuf : ptr) (haddr : list Z) (iph : iphdr) (tcph : tcphdr) (ip_len : Z)
  | CheckRto (cur_ts : Z)
  | CheckTimewait (cur_ts : Z)
  | CheckTimeout (cur_ts : Z)
  | WriteControl (cur_ts : Z)
  | WriteData (cur_ts : Z)
  | WriteAck (cur_ts : Z)
  | CloseCall
  | ConnectCall
  | Call (c : api_call).

Section Thread.
Context {HT : Type} `{!Config} `{!RteHash HT} `{!RteHashLaws HT} `{!Rss}.
Notation W := (world HT).

(** The calls, with the first component of their result. *)
Definition api (c : api_call) : M W Z :=
  match c with
  | ASocket a d t => r ← q_socket a d t; mret r.1
  | ABind i a l => r ← q_bind i a l; mret r.1
  | AListen a i b => r ← q_listen a i b; mret r.1
  | AAccept a i => r ← q_accept a i; mret r.1.1
  | AConnect a i d l o => r ← q_connect a i d l o; mret r.1
  | ARecv i => r ← q_recv i; mret r.1.1
  | ASend a i m l f => q_send a i m l f
  | AClose a i => r ← q_close a i; mret r.1
  | AIoctl i r a => r ← q_socket_ioctl i r a; mret r.1.1
  end.

Definition act (a : thread_action) : M W Z :=
  match a with
  | Receive ts m ha iph h len => process_tcp_packet ts m ha iph h len
  | CheckRto ts => rto_list_check ts
  | CheckTimewait ts => timewait_list_check ts
  | CheckTimeout ts => timeout_list_check ts
  | WriteControl ts => write_tcp_control_queue ts
  | WriteData ts => write_tcp_send_queue ts
  | WriteAck ts => write_tcp_ack_queue ts
  | CloseCall => b ← close_one; mret (cbool b)
  | ConnectCall => b ← connect_one; mret (cbool b)
  | Call c => api c
  end.

(** The one assumption on the allocator: the chunks it hands out during a step
    are distinct and not in use.  They may have been used and freed before. *)
Inductive thread_step : W -> W -> Prop :=
  | TStep a w l r w' : fresh_pool (view (w <| w_chunks := l |>)) ->
      act a (w <| w_chunks := l |>) = Ok (r, w') -> thread_step w w'.

Lemma fsteps_act a : FSteps (act a).
Proof.
  destruct a as [| | | | | | | | |c];
    [apply fsteps_packet | apply fsteps_steps; apply _.. | |apply fsteps_steps; destruct c; apply _].
  apply fsteps_after; [apply fsteps_connect_one | apply _].
Qed.

Lemma fresh_by (w : W) l :
  bool_decide (NoDup l) && forallb (fun c => bool_decide (w_streams w !! c = None)) l = true ->
  fresh_pool (view (w <| w_chunks := l |>)).
Proof.
  intros [Hn%bool_decide_eq_true Hu]%andb_true_iff. split; [done|]. intros c Hc.
  rewrite forallb_forall in Hu. apply list_elem_of_In, Hu, bool_decide_eq_true in Hc.
  simpl. by rewrite lookup_fmap, Hc.
Qed.

(** A new supply is a step of the machine. *)
Lemma refill_step (w : W) l :
  fresh_pool (view (w <| w_chunks := l |>)) -> vstep (view w) (view (w <| w_chunks := l |>)).
Proof. intros [Hn Hu]. exact (vs_pool (view w) l Hn Hu). Qed.

Lemma fsteps_refill {A} (m : M W A) (w w' : W) l a :
  FSteps m -> life_ok (view w) -> fresh_pool (view (w <| w_chunks := l |>)) ->
  m (w <| w_chunks := l |>) = Ok (a, w') -> rtc vstep (view w) (view w').
Proof.
  intros Hm Hl Hf Hr. eapply rtc_l; [by apply refill_step|].
  eapply Hm; [by eapply vstep_life; [apply refill_step|] | done | done].
Qed.

Lemma thread_life w w' :
  rtc thread_step w w' -> life_ok (view w) -> rtc vstep (view w) (view w') /\ life_ok (view w').
Proof.
  intros Hs Hl. induction Hs as [w|w1 w2 w3 [a w l r w' Hf Hr] _ IH]; [done|].
  pose proof (fsteps_refill _ _ _ _ _ (fsteps_act a) Hl Hf Hr) as Hv.
  destruct IH as [Hv' Hl']; [by eapply vsteps_life|]. split; [by etrans | done].
Qed.

(** ** The list operations never fail *)

Lemma remove_listed l m on p s :
  listed l m on -> m !! p = Some (core s) -> on (core s) -> exists l', tailq_remove l p = Ok l'.
Proof. intros [_ Hi] Hp Hon. apply tailq_remove_total, Hi. eauto. Qed.

Lemma stream_run p (w : W) s : w_streams w !! p = Some s -> stream p w = Ok (s, w).
Proof. unfold stream. by intros ->. Qed.

Lemma set_stream_run p g (w : W) s :
  w_streams w !! p = Some s ->
  set_stream p g w = Ok (tt, w <| w_streams := <[p := g s]> (w_streams w) |>).
Proof. unfold set_stream. by intros ->. Qed.
End Thread.

(** Execute one command whose stream is in the context or was just written. *)
Ltac find_stream := autorewrite with world; rewrite ?lookup_insert_eq; first [eassumption | reflexivity].
Ltac exec :=
  rewrite ?bind_bind; erewrite bind_ok by
    (first [ apply stream_run; find_stream
           | unfold set_snd; apply set_stream_run; find_stream
           | reflexivity
           | apply lift_ok; eassumption ]); cbn beta iota.
Ltac exec_all := repeat exec; try (eexists _, _; reflexivity).

Section Total.
Context {HT : Type} `{!Config} `{!RteHash HT} `{!RteHashLaws HT}.
Notation W := (world HT).
Context (w : W) (p : ptr) (s : tcp_stream) (Hl : life_ok (view w)) (Hs : w_streams w !! p = Some s).

Lemma rto_add_total ts : exists r w', rto_list_add p ts w = Ok (r, w').
Proof. unfold rto_list_add. exec. case_decide; [exec; case_match|]; exec_all. Qed.

Lemma rto_remove_total : exists r w', rto_list_remove p w = Ok (r, w').
Proof.
  unfold rto_list_remove. exec. case_decide as Hz; [|exec_all].
  destruct (remove_listed _ _ _ p s (lo_rto _ Hl) (v_core_lookup w p s Hs) Hz) as [l Hrm]. exec_all.
Qed.

Lemma timewait_remove_total : exists r w', timewait_list_remove p w = Ok (r, w').
Proof.
  unfold timewait_list_remove. exec. destruct (on_timewait_list s) eqn:Ht; cbn [negb]; [|exec_all].
  destruct (remove_listed _ _ _ p s (lo_timewait _ Hl) (v_core_lookup w p s Hs) Ht) as [l Hrm]. exec_all.
Qed.

Lemma timewait_add_total ts : exists r w', timewait_list_add p ts w = Ok (r, w').
Proof.
  unfold timewait_list_add. exec. exec.
  pose proof (lo_idx _ Hl p (core s) (v_core_lookup w p s Hs)) as Hx. simpl in Hx.
  change (on_timewait_list (s <| ts_tw_expire := s32 (ts + TCP_TIMEWAIT) |>)) with (on_timewait_list s).
  change (on_rto_idx (s <| ts_tw_expire := s32 (ts + TCP_TIMEWAIT) |>)) with (on_rto_idx s).
  destruct (on_timewait_list s) eqn:Ht.
  - destruct (remove_listed _ _ _ p s (lo_timewait _ Hl) (v_core_lookup w p s Hs) Ht) as [l Hrm]. exec_all.
  - rewrite bool_decide_true by done. unfold rto_list_remove. cbn [when]. exec.
    change (on_rto_idx (s <| ts_tw_expire := s32 (ts + TCP_TIMEWAIT) |>)) with (on_rto_idx s).
    case_decide as Hz; [|exec_all].
    destruct (remove_listed _ _ _ p s (lo_rto _ Hl) (v_core_lookup w p s Hs) Hz) as [l Hrm]. exec_all.
Qed.

Lemma timeout_add_total ts : exists r w', timeout_list_add p ts w = Ok (r, w').
Proof. unfold timeout_list_add. exec. exec. case_match; exec_all. Qed.

Lemma timeout_remove_total : exists r w', timeout_list_remove p w = Ok (r, w').
Proof.
  unfold timeout_list_remove. exec. destruct (on_timeout_list s) eqn:Ht; cbn [negb]; [|exec_all].
  destruct (remove_listed _ _ _ p s (lo_timeout _ Hl) (v_core_lookup w p s Hs) Ht) as [l Hrm]. exec_all.
Qed.

Lemma timeout_update_total ts : exists r w', timeout_list_update p ts w = Ok (r, w').
Proof.
  unfold timeout_list_update. exec. exec.
  change (on_timeout_list (s <| last_active_ts := ts |>)) with (on_timeout_list s).
  destruct (on_timeout_list s) eqn:Ht; cbn [when]; [|exec_all].
  destruct (remove_listed _ _ _ p s (lo_timeout _ Hl) (v_core_lookup w p s Hs) Ht) as [l Hrm]. exec_all.
Qed.
End Total.

(** The life cycle refines an abstract machine.  Any run of a stack thread
    (packets of any content, timer walks, draining of the queues, closing and
    connecting for the application) interleaved with any calls of the
    application is a sequence of the abstract steps create, change state, enter or leave a timer list,
    destroy; so it keeps the invariant: every stream is on exactly the timer
    lists its marks say and on each at most once, never on the retransmission
    and the time-wait list together (they share one link field), and neither a
    list nor the flow table refers to a stream that is gone. *)
Theorem thread_keeps_life {HT} `{!Config} `{!RteHash HT} `{!RteHashLaws HT} `{!Rss} (w w' : world HT) :
  rtc thread_step w w' -> life_ok (view w) -> rtc vstep (view w) (view w') /\ life_ok (view w').
Proof. apply thread_life. Qed.

#[local] Existing Instance demo_config.
#[local] Instance demo_rss : Rss := fun _ _ _ _ => 0.

(** The application closes the connection, and the stack serves the call. *)
Definition demo_app : qapp := Qapp 0 0.
Definition world3c : demo_world := after (act (Call (AClose demo_app 0)) world3) world3.
Definition world3d : demo_world := after (act CloseCall world3c) world3c.

Lemma world0_life : life_ok (view world0).
Proof. split; simpl; try (split; [constructor | set_solver]); set_solver. Qed.

Lemma demo_tstep a (w : demo_world) r :
  bool_decide (NoDup (w_chunks w)) && forallb (fun c => bool_decide (w_streams w !! c = None)) (w_chunks w) = true ->
  result (act a w) = Some r -> thread_step w (after (act a w) w).
Proof.
  intros Hf Hr. refine (TStep a w (w_chunks w) r _ (fresh_by w _ Hf) _).
  rewrite same_chunks by done. by apply after_ok.
Qed.

(** The three-way handshake, as a run of the thread. *)
Lemma handshake_steps : rtc thread_step world0 world3.
Proof.
  apply (rtc_l _ _ world1).
  { refine (demo_tstep (Receive 10 11 (replicate 6 2) peer_ip syn_segment 48) world0 TRUE _ _); vm_compute; reflexivity. }
  apply (rtc_l _ _ world2).
  { refine (demo_tstep (WriteControl 11) world1 1 _ _); vm_compute; reflexivity. }
  apply rtc_once.
  refine (demo_tstep (Receive 12 12 (replicate 6 2) peer_ip ack_segment 40) world2 TRUE _ _); vm_compute; reflexivity.
Qed.

Lemma close_steps : rtc thread_step world3 world3d.
Proof.
  apply (rtc_l _ _ world3c).
  { refine (demo_tstep (Call (AClose demo_app 0)) world3 0 _ _); vm_compute; reflexivity. }
  apply rtc_once. refine (demo_tstep CloseCall world3c 1 _ _); vm_compute; reflexivity.
Qed.

Lemma demo_steps : rtc thread_step world0 world3d.
Proof. etrans; [apply handshake_steps | apply close_steps]. Qed.

Lemma thread_keeps_life_witness :
  rtc vstep (view world0) (view world3d) /\ life_ok (view world3d) /\
  demo_state world3 = Some TCP_ST_ESTABLISHED /\ demo_state world3d = Some TCP_ST_FIN_WAIT_1 /\
  timeout_list world3d = [1000].
Proof.
  destruct (thread_keeps_life world0 world3d demo_steps world0_life)
    as [Hs Hl].
  split_and!; [exact Hs | exact Hl | vm_compute; reflexivity..].
Defined.

(** No list corruption.  In a world that satisfies the invariant, every
    timer-list operation on an allocated stream succeeds: it never unlinks a
    stream from a list it is not on. *)
Theorem timer_ops_total {HT} `{!Config} `{!RteHash HT} `{!RteHashLaws HT} (w : world HT) p s cur_ts op :
  life_ok (view w) -> w_streams w !! p = Some s ->
  op ∈ [rto_list_add p cur_ts; rto_list_remove p; timewait_list_add p cur_ts; timewait_list_remove p;
        timeout_list_add p cur_ts; timeout_list_remove p; timeout_list_update p cur_ts] ->
  exists r w', op w = Ok (r, w').
Proof.
  intros Hl Hs Hop. repeat (apply elem_of_cons in Hop as [->|Hop]); [..|by apply not_elem_of_nil in Hop].
  - by eapply rto_add_total.
  - by eapply rto_remove_total.
  - by eapply timewait_add_total.
  - by eapply timewait_remove_total.
  - by eapply timeout_add_total.
  - by eapply timeout_remove_total.
  - by eapply timeout_update_total.
Qed.

Lemma timer_ops_total_witness : exists r w', timewait_list_add 1000 13 world3 = Ok (r, w').
Proof.
  destruct (thread_life world0 world3 handshake_steps world0_life) as [_ Hl].
  apply (timer_ops_total world3 1000 (default zero_stream (w_streams world3 !! 1000)) 13);
    [exact Hl | vm_compute; reflexivity | set_solver].
Defined.
