(* ===== verification/MainLoop.v ===== *)
(** From the wire to the streams, and the loop around it:
    [process_eth_packet] ([eth_in.h]), [process_ipv4_packet] ([ip_in.h]) and
    the body of [qstack_main_loop] ([core.c]).

    A received frame is given by the headers at its buffer; the driver hands
    over at most [MAX_RECV_BATCH] of them per round.  The application's turn
    ([wakeup_application]), statistics, time stamps and the flushing of the
    driver's ring are not part of the model. *)
From S2P Require Import Prelude Protocol StaticArp Fifo CircularQueue N21Queue Mbuf RecvBuff SendBuff Stack StreamOps Timer TcpOptions TcpOut TcpIn Api AppCalls Frames Demo Arp StateMachine Lifecycle.
#[local] Open Scope Z_scope.

Definition MAX_RECV_BATCH : nat := 32.
Definition IFIDX_SINGLE : Z := 0.
Definition IPPROTO_TCP : Z := 6.

(** Fields as they lie in memory. *)
Record frame : Type := Frame {
  f_mbuf : ptr; h_dest : list Z; h_source : list Z; h_proto : Z;
  ip_version : Z; ip_protocol : Z; f_ip : iphdr; f_tcp : tcphdr; f_arp : arphdr;
}.

Section Loop.
Context {HT : Type} `{!Config} `{!RteHash HT}.
Abbreviation N := (net HT).

(** A header with options ends the process ([TRACE_EXIT]). *)
Definition process_ipv4_packet (cur_ts : Z) (f : frame) : M (world HT) Z :=
  let iph := f_ip f in
  let ip_len := ntohs (tot_len iph) in
  heap (store (f_mbuf f) (fun m => m <| l3_len := IP_HEADER_LEN |>));;
  if decide (ihl iph <> Z.shiftr IP_HEADER_LEN 2) then throw Exit else
  if decide (ip_version f <> 4) then mret FAILED else
  if decide (ip_protocol f = IPPROTO_TCP) then
    process_tcp_packet cur_ts (f_mbuf f) (h_source f) iph (f_tcp f) ip_len
  else mret FAILED.

(** The frame is for this interface: every byte of the address agrees. *)
Definition dest_ok (haddr : list Z) (f : frame) : bool :=
  forallb (fun i => bool_decide (nth i (h_dest f) 0 = nth i haddr 0)) (seq 0 ETH_ALEN).

Definition process_eth_packet (ifidx cur_ts : Z) (f : frame) : M N Z :=
  on_world (heap (store (f_mbuf f) (fun m => m <| mbuf_state := MBUF_STATE_RCVED |>
                                               <| l2_len := ETHERNET_HEADER_LEN |>)));;
  if decide (ntohs (h_proto f) = ETH_P_IP) then
    eth ← lift (read_at cf_eths 0);
    if negb (dest_ok (eth_haddr eth) f) then mret FAILED else
    on_world (process_ipv4_packet cur_ts f)
  else if decide (ntohs (h_proto f) = ETH_P_ARP) then
    process_arp_packet ifidx cur_ts (f_arp f);; mret TRUE
  else mret FAILED.

(** A buffer that nobody kept is freed. *)
Definition receive_frame (cur_ts : Z) (f : frame) : M N unit :=
  process_eth_packet IFIDX_SINGLE cur_ts f;;
  m ← on_world (heap (load (f_mbuf f)));
  when (bool_decide (mbuf_state m = MBUF_STATE_RCVED)) (on_world (heap (mbuf_free (f_mbuf f)))).

Fixpoint receive_all (cur_ts : Z) (fs : list frame) : M N unit :=
  match fs with
  | [] => mret tt
  | f :: fs' => receive_frame cur_ts f;; receive_all cur_ts fs'
  end.

(** One round, with the frames the driver has: the number of packets sent.  The
    further checks of the receive ring between the stages ([EXTRA_RECV_CHECK] is 2)
    only fetch frames for the rounds to come. *)
Definition main_loop_body (cur_ts : Z) (ready : list frame) : M N Z :=
  receive_all cur_ts (take MAX_RECV_BATCH ready);;
  on_world (timeout_list_check cur_ts);;
  on_world (timewait_list_check cur_ts);;
  on_world (rto_list_check cur_ts);;
  on_world (write_tcp_send_queue cur_ts);;
  on_world handle_app_call;;
  ctl ← on_world (write_tcp_control_queue cur_ts);
  rsp ← on_world (write_tcp_send_queue cur_ts);
  ack ← on_world (write_tcp_ack_queue cur_ts);
  mret (u32 (ctl + ack + rsp)).

(** * Properties *)

(** Frames that reach the TCP layer. *)
Definition tcp_frame (f : frame) : bool :=
  bool_decide (ntohs (h_proto f) = ETH_P_IP)
  && match cf_eths with e :: _ => dest_ok (eth_haddr e) f | [] => false end
  && bool_decide (ip_version f = 4) && bool_decide (ip_protocol f = IPPROTO_TCP).

(** The state of the TCP layer: everything but the packet buffers. *)
Definition tcp_part (n : N) :=
  let w := n_world n in
  (view w, w_streams w, (sockets w, free_socket w, free_num w, listeners w),
   (control_queue w, ack_queue w, send_event_queue w, send_hevent_queue w, close_queue w, connect_queue w),
   (w_chunks w, w_rands w, w_sent w, w_events w)).

(** The state of address resolution. *)
Definition arp_part (n : N) := (arp_tables n, g_arpm n, n_frames n).

#[export] Instance tcp_on_heap {A} (m : M mheap A) : Keeps tcp_part (on_world (heap m)).
Proof.
  intros n a n'. unfold on_world, heap.
  by intros ([b w] & ([c h] & _ & [= <- <-])%res_bind_Ok & [= <- <-])%res_bind_Ok.
Qed.

#[export] Instance tcp_swmbuf : Keeps tcp_part (on_world io_get_swmbuf).
Proof.
  intros n a n'. unfold on_world, io_get_swmbuf. by destruct (w_swmbufs _); intros [= <- <-].
Qed.

#[export] Instance tcp_eth_hdr m : Keeps tcp_part (on_world (eth_hdr_generate m)).
Proof.
  intros n a n'. unfold on_world, eth_hdr_generate, heap, mbind, M_bind, res_bind.
  case_decide; [by intros [= <- <-]|]. destruct (store _ _ _) as [[]|]; [|done]. by intros [= <- <-].
Qed.

#[local] Hint Extern 1 (Keeps tcp_part (modify _)) =>
  apply keeps_modify; intros; reflexivity : typeclass_instances.

#[export] Instance tcp_calloc : Keeps tcp_part calloc.
Proof. intros n a n'. unfold calloc. by destruct (n_calloc n); intros [= <- <-]. Qed.

#[export] Instance tcp_arp_output op ip ha : Keeps tcp_part (arp_output op ip ha).
Proof. unfold arp_output, io_send_arp. apply _. Qed.

#[export] Instance tcp_arp_register ip ha ts : Keeps tcp_part (register_arp_entry ip ha ts).
Proof. unfold register_arp_entry. apply _. Qed.

#[export] Instance tcp_arp i ts a : Keeps tcp_part (process_arp_packet i ts a).
Proof. unfold process_arp_packet, process_arp_request, process_arp_reply. apply _. Qed.

#[export] Instance arp_on_world {A} (m : M (world HT) A) : Keeps arp_part (on_world m).
Proof. intros n a n'. unfold on_world. by intros ([b w] & _ & [= <- <-])%res_bind_Ok. Qed.

Lemma on_world_Ok {A} (m : M (world HT) A) (n n' : N) a :
  on_world m n = Ok (a, n') <-> exists w, m (n_world n) = Ok (a, w) /\ n' = n <| n_world := w |>.
Proof. unfold on_world. rewrite res_bind_Ok. split; [intros ([b w] & ? & [= <- <-]); eauto|].
  intros (w & ? & ->). exists (a, w). done. Qed.

(** An IP packet that does not reach TCP. *)
Lemma ipv4_other ts f (n n' : N) r :
  on_world (process_ipv4_packet ts f) n = Ok (r, n') ->
  bool_decide (ip_version f = 4) && bool_decide (ip_protocol f = IPPROTO_TCP) = false ->
  r = FAILED /\ tcp_part n' = tcp_part n.
Proof.
  intros (w & E & ->)%on_world_Ok Hf. unfold process_ipv4_packet in E.
  apply M_bind_Ok in E as ([] & w1 & K & E).
  assert (tcp_part (n <| n_world := w1 |>) = tcp_part n) as Ht.
  { eapply (tcp_on_heap _ n tt). apply on_world_Ok. eauto. }
  case_decide; [done|]. case_decide as Hv; [injection E as <- <-; done|].
  rewrite bool_decide_eq_true_2 in Hf by (destruct (decide (ip_version f = 4)); tauto).
  apply bool_decide_eq_false in Hf. rewrite decide_False in E by done. by injection E as <- <-.
Qed.
End Loop.

(** The filter in front of TCP.  A frame that is not an IPv4 TCP packet
    addressed to this interface changes nothing of the TCP layer, whatever it
    contains: no stream, socket, listener, timer list, queue or event, and no
    TCP packet is sent; and an IPv4 frame changes nothing of address
    resolution. *)
Theorem other_frames_ignored {HT} `{!Config} `{!RteHash HT} ifidx ts f (n n' : net HT) r :
  process_eth_packet ifidx ts f n = Ok (r, n') ->
  (tcp_frame f = false -> tcp_part n' = tcp_part n) /\
  (ntohs (h_proto f) = ETH_P_IP -> arp_part n' = arp_part n).
Proof.
  unfold process_eth_packet. intros ([] & n1 & K & E)%M_bind_Ok.
  pose proof (tcp_on_heap _ _ _ _ K) as Ht. pose proof (arp_on_world _ _ _ _ K) as Ha.
  rewrite <- Ht, <- Ha. unfold tcp_frame. case_decide as Hp.
  - rewrite bool_decide_eq_true_2 by done. simpl.
    apply M_bind_Ok in E as (e & n2 & K2 & E).
    assert (n2 = n1 /\ exists l, cf_eths = e :: l) as [-> [l ->]].
    { unfold lift, read_at in K2. simpl in K2. destruct cf_eths; simplify_eq/=. eauto. }
    destruct (dest_ok (eth_haddr e) f) eqn:Hd; simpl in *.
    + split; [|intros _; by apply (arp_on_world _ _ _ _ E)].
      intros Hf. by apply (ipv4_other _ _ _ _ _ E).
    + injection E as <- <-. done.
  - split; [intros _|by intros ?]. case_decide.
    + apply M_bind_Ok in E as (r2 & n2 & K2 & [= <- <-]). by apply (tcp_arp _ _ _ _ _ _ K2).
    + by injection E as <- <-.
Qed.

(** A remote packet can end the server: an IPv4 frame to this interface
    whose header length is not 5 words, that is any packet with IP options, ends
    the process. *)
Theorem ip_options_exit {HT} `{!Config} `{!RteHash HT} ifidx ts f (n : net HT) m e l :
  mbufs (w_heap (n_world n)) !! f_mbuf f = Some m -> cf_eths = e :: l ->
  ntohs (h_proto f) = ETH_P_IP -> dest_ok (eth_haddr e) f = true -> ihl (f_ip f) <> 5 ->
  process_eth_packet ifidx ts f n = Fault Exit.
Proof.
  intros Hm He Hp Hd Hi. unfold process_eth_packet.
  erewrite bind_ok; [|unfold on_world, heap, store; rewrite Hm; reflexivity].
  rewrite decide_True by done. erewrite bind_ok; [|unfold lift; rewrite He; reflexivity].
  rewrite Hd. simpl. unfold on_world, process_ipv4_packet.
  erewrite bind_ok; [|unfold heap, store; simpl; rewrite lookup_insert_eq; reflexivity].
  by rewrite decide_True.
Qed.

#[local] Existing Instance demo_config.

(** A frame of the neighbour that carries its SYN, and three variants of it: for
    another interface, not TCP, and with IP options. *)
Definition syn_frame : frame :=
  Frame 11 (replicate 6 1) (replicate 6 2) (htons 2048) 4 6
    (IpHdr 5 167772162 167772161 0 (htons 48)) syn_segment neighbour_reply.
Definition other_frame : frame :=
  Frame 11 (replicate 6 9) (replicate 6 2) (htons 2048) 4 6
    (IpHdr 5 167772162 167772161 0 (htons 48)) syn_segment neighbour_reply.
Definition option_frame : frame :=
  Frame 11 (replicate 6 1) (replicate 6 2) (htons 2048) 4 6
    (IpHdr 6 167772162 167772161 0 (htons 52)) syn_segment neighbour_reply.

Definition after_frame (f : frame) : net (gmap ipv4_5tuple ptr) :=
  match process_eth_packet 0 10 f net0 with Ok (_, n) => n | Fault _ => net0 end.

Lemma other_frames_ignored_witness :
  tcp_frame syn_frame = true /\ demo_state (n_world (after_frame syn_frame)) = Some TCP_ST_SYN_RCVD /\
  tcp_part (after_frame other_frame) = tcp_part net0.
Proof.
  split_and!; [vm_compute; reflexivity..|].
  apply (other_frames_ignored 0 10 other_frame net0 (after_frame other_frame) FAILED);
    vm_compute; reflexivity.
Defined.

Lemma ip_options_exit_witness : process_eth_packet 0 10 option_frame net0 = Fault Exit.
Proof.
  apply (ip_options_exit 0 10 option_frame net0 mbuf0 (EthTable 0 (replicate 6 1) 167772161) []);
    [vm_compute; reflexivity | reflexivity | reflexivity | vm_compute; reflexivity | done].
Defined.

(** One round of the loop over the handshake: the SYN is answered in the round
    it arrives in. *)
Example main_loop_round :
  match main_loop_body 10 [syn_frame] net0 with
  | Ok (r, n) => r = 1 /\ length (w_sent (n_world n)) = 1%nat
  | Fault _ => False
  end.
Proof. vm_compute. done. Qed.

(** ** The loop *)

#[export] Hint Extern 1 (Keeps tcp_part (modify _)) =>
  apply keeps_modify; intros; reflexivity : typeclass_instances.

Section Rounds.
Context {HT : Type} `{!Config} `{!RteHash HT} `{!RteHashLaws HT} `{!Rss}.
Abbreviation N := (net HT).

(** The thread's part of a network state, as the abstract machine sees it. *)
Definition nview (n : N) : world_view HT := view (n_world n).

Definition NSteps {A} (m : M N A) : Prop := forall n a n',
  life_ok (nview n) -> fresh_pool (nview n) -> m n = Ok (a, n') -> rtc vstep (nview n) (nview n').

Lemma nsteps_world {A} (m : M (world HT) A) : FSteps m -> NSteps (on_world m).
Proof. intros Hm n a n' Hl Hf (w & Hr & ->)%on_world_Ok. exact (Hm _ _ _ Hl Hf Hr). Qed.

Lemma nsteps_steps {A} (m : M (world HT) A) : Steps m -> NSteps (on_world m).
Proof. intros Hm. by apply nsteps_world, fsteps_steps. Qed.

Lemma nsteps_keeps {A} (m : M N A) : Keeps tcp_part m -> NSteps m.
Proof.
  intros Hm n a n' _ _ Hr. assert (nview n' = nview n) as ->; [|done].
  specialize (Hm _ _ _ Hr). unfold tcp_part in Hm. unfold nview. congruence.
Qed.

Lemma nsteps_bind {A B} (m : M N A) (k : A -> M N B) :
  NSteps m -> (forall a, NSteps (k a)) -> NSteps (m ≫= k).
Proof.
  intros Hm Hk n b n'' Hl Hf (a & n' & H1 & H2)%M_bind_Ok.
  pose proof (Hm n a n' Hl Hf H1) as Hs. etrans; [exact Hs|].
  eapply Hk; [by eapply vsteps_life | by eapply vsteps_fresh | done].
Qed.

Lemma fsteps_ipv4 ts f : FSteps (process_ipv4_packet ts f).
Proof.
  unfold process_ipv4_packet. apply fsteps_before; [apply _ | intros _].
  repeat (case_decide; [|try (apply fsteps_steps; apply _)]); try (apply fsteps_steps; apply _).
  apply fsteps_packet.
Qed.

Lemma nsteps_eth i ts f : NSteps (process_eth_packet i ts f).
Proof.
  unfold process_eth_packet. apply nsteps_bind; [apply nsteps_steps; apply _ | intros _].
  case_decide; [|apply nsteps_keeps; apply _].
  apply nsteps_bind; [apply nsteps_keeps; apply _ | intros e].
  case_match; [apply nsteps_keeps; apply _|]. apply nsteps_world, fsteps_ipv4.
Qed.

Lemma nsteps_receive ts fs : NSteps (receive_all ts fs).
Proof.
  induction fs as [|f fs IH]; cbn [receive_all]; [apply nsteps_keeps; apply _|].
  apply nsteps_bind; [|by intros _]. unfold receive_frame.
  apply nsteps_bind; [apply nsteps_eth | intros _]. apply nsteps_keeps. apply _.
Qed.

Lemma nsteps_round ts fs : NSteps (main_loop_body ts fs).
Proof.
  unfold main_loop_body. apply nsteps_bind; [apply nsteps_receive | intros _].
  do 4 (apply nsteps_bind; [apply nsteps_steps; apply _ | intros _]).
  apply nsteps_bind; [apply nsteps_world, fsteps_app_call | intros _].
  do 3 (apply nsteps_bind; [apply nsteps_steps; apply _ | intros ?]).
  apply nsteps_keeps. apply _.
Qed.

(** Rounds of the loop over any frames, and calls of the application between
    them.  In a round, and in a call, the pool hands out distinct chunks that are
    not in use. *)
Inductive round_step : N -> N -> Prop :=
  | Round ts fs n l r n' : fresh_pool (nview (n <| n_world ::= fun w => w <| w_chunks := l |> |>)) ->
      main_loop_body ts fs (n <| n_world ::= fun w => w <| w_chunks := l |> |>) = Ok (r, n') ->
      round_step n n'
  | Turn c n r n' : on_world (api c) n = Ok (r, n') -> round_step n n'.

Lemma round_refines n n' :
  round_step n n' -> life_ok (nview n) -> rtc vstep (nview n) (nview n').
Proof.
  intros [ts fs n0 l r n1 Hf Hr|c n0 r n1 (w & Hr & ->)%on_world_Ok] Hl.
  - pose proof (refill_step (n_world n0) l Hf) as Hs. eapply rtc_l; [exact Hs|].
    refine (nsteps_round ts fs (n0 <| n_world ::= fun w => w <| w_chunks := l |> |>) r n1 _ Hf Hr).
    exact (vstep_life _ _ Hs Hl).
  - assert (Steps (api (HT := HT) c)) as Hc by (destruct c; apply _). exact (Hc _ _ _ Hl Hr).
Qed.
End Rounds.

(** C3. The main loop keeps the streams in order.  Any number of rounds of the
    loop of a stack thread, over any frames from the network (ARP, other
    protocols, TCP segments of any content), with the application calling any
    function of the interface between the rounds, is a run of the abstract
    machine of create, change state, timer list and destroy steps, and so keeps
    the invariant of the timer lists and the flow table. *)
Theorem main_loop_keeps_life {HT} `{!Config} `{!RteHash HT} `{!RteHashLaws HT} `{!Rss} (n n' : net HT) :
  rtc round_step n n' -> life_ok (nview n) -> rtc vstep (nview n) (nview n') /\ life_ok (nview n').
Proof.
  intros Hs Hl. induction Hs as [n|n1 n2 n3 Hs _ IH]; [done|].
  pose proof (round_refines _ _ Hs Hl) as Hv. destruct IH as [Hv' Hl']; [by eapply vsteps_life|].
  split; [by etrans | done].
Qed.

#[local] Instance demo_rss : Rss := fun _ _ _ _ => 0.

(** The handshake, the close by the application, and the FIN. *)
Definition ack_frame : frame :=
  Frame 12 (replicate 6 1) (replicate 6 2) (htons 2048) 4 6
    (IpHdr 5 167772162 167772161 0 (htons 40)) ack_segment neighbour_reply.
Definition next_net {A} (m : M (net (gmap ipv4_5tuple ptr)) A) (n : net (gmap ipv4_5tuple ptr)) :=
  match m n with Ok (_, n') => n' | Fault _ => n end.

Lemma next_ok {A} (m : M (net (gmap ipv4_5tuple ptr)) A) n a : result (m n) = Some a -> m n = Ok (a, next_net m n).
Proof. unfold next_net. destruct (m n) as [[]|]; simpl; [by intros [= ->] | done]. Qed.

Lemma demo_round ts fs n r :
  let w := n_world n in
  bool_decide (NoDup (w_chunks w)) && forallb (fun c => bool_decide (w_streams w !! c = None)) (w_chunks w) = true ->
  result (main_loop_body ts fs n) = Some r -> round_step n (next_net (main_loop_body ts fs) n).
Proof.
  intros w Hf Hr. assert (n <| n_world ::= fun w => w <| w_chunks := w_chunks (n_world n) |> |> = n) as Hn.
  { destruct n as [w0 net]. subst w. simpl. by rewrite same_chunks. }
  refine (Round ts fs n (w_chunks w) r _ (fresh_by w _ Hf) _). unfold w. rewrite Hn. by apply next_ok.
Qed.

Definition net1 := next_net (main_loop_body 10 [syn_frame]) net0.
Definition net2 := next_net (main_loop_body 12 [ack_frame]) net1.
Definition net3 := next_net (on_world (api (AClose demo_app 0))) net2.
Definition net4 := next_net (main_loop_body 14 []) net3.

Lemma demo_rounds : rtc round_step net0 net4.
Proof.
  apply (rtc_l _ _ net1); [refine (demo_round 10 [syn_frame] net0 1 _ _); vm_compute; reflexivity|].
  apply (rtc_l _ _ net2); [refine (demo_round 12 [ack_frame] net1 0 _ _); vm_compute; reflexivity|].
  apply (rtc_l _ _ net3); [refine (Turn (AClose demo_app 0) net2 0 net3 (next_ok (on_world (api (AClose demo_app 0))) net2 0 _)); vm_compute; reflexivity|].
  apply rtc_once. refine (demo_round 14 [] net3 1 _ _); vm_compute; reflexivity.
Qed.

Lemma main_loop_keeps_life_witness :
  rtc vstep (nview net0) (nview net4) /\ life_ok (nview net4) /\
  demo_state (n_world net2) = Some TCP_ST_ESTABLISHED /\
  demo_state (n_world net4) = Some TCP_ST_FIN_WAIT_1 /\
  (fun p => th_fin (pk_tcp p)) <$> w_sent (n_world net4) = [false; true].
Proof.
  destruct (main_loop_keeps_life net0 net4 demo_rounds world0_life) as [Hs Hl].
  split_and!; [exact Hs | exact Hl | vm_compute; reflexivity..].
Defined.
