(* ===== verification/ChunkSupply.v ===== *)
(** The chunk allocator under the main loop: when the chunks of destroyed
    streams are given back between the rounds, the addresses the allocator of
    [MemPool] gives a core are a supply of the kind the rounds of [MainLoop]
    are run with.  A chunk that is given back and handed out again within one
    round is not covered: the rounds of [MainLoop] take their chunks from a
    supply that is fresh at the start of the round. *)
From S2P Require Import MemPool MemPoolCorrect.
From S2P Require Import Prelude Protocol StaticArp Fifo CircularQueue N21Queue Mbuf RecvBuff SendBuff Stack StreamOps Timer TcpOptions TcpOut TcpIn Api AppCalls Frames Demo Arp StateMachine Lifecycle MainLoop.
#[local] Open Scope Z_scope.

Section Supply.
Context {P E : Type} `{!MemPool.RteMempool P E, !MemPool.RteMempoolLaws P E}.
Notation A := (MemPool.arena P).





Context {HT : Type}.


End Supply.

#[local] Existing Instances demo_config ListPool.list_pool ListPool.list_pool_laws.


