(* ===== verification/SocketPool.v ===== *)
(** The pool of sockets: [socket_table_init] of [socket.c] and what the rest of
    the stack keeps of the table it builds.

    A socket is free exactly when its type is [SOCK_TYPE_UNUSED], and a free
    socket is in exactly one place of one core's list.  Rounds of the main loop
    and calls of the application keep this, so the stack never hands out a socket
    that is in use and never loses one. *)
From S2P Require Import Prelude Protocol StaticArp Fifo CircularQueue N21Queue Mbuf RecvBuff SendBuff Stack StreamOps Timer TcpOptions TcpOut TcpIn Api AppCalls Frames Demo Arp StateMachine Lifecycle MainLoop.
#[local] Open Scope Z_scope.

(** * Initialisation *)

(** What [calloc] leaves in an entry of the table. *)
Definition zero_socket : socket_rec := Socket 0 SOCK_TYPE_UNUSED 0 0 0 NULL NULL 0 0 0 0.

Definition init_socket (i : nat) (k : socket_rec) : socket_rec :=
  k <| sk_id := Z.of_nat i |> <| sk_qe := NULL |> <| socktype := SOCK_TYPE_UNUSED |>
    <| sk_port := 0 |> <| sk_addr := 0 |> <| sk_stream := NULL |>.

(** The sockets from [i] on, [n] of them, enter the list of one core. *)
Fixpoint pool_loop (n i : nat) (sk : list socket_rec) (free : list nat) (num : Z)
    : res (list socket_rec * list nat * Z) :=
  match n with
  | O => Ok (sk, free, num)
  | S n' =>
      k ← read_at sk (Z.of_nat i);
      sk' ← write_at sk (Z.of_nat i) (init_socket i k);
      pool_loop n' (S i) sk' (free ++ [i]) (num + 1)
  end.

(** One list per stack thread. *)
Fixpoint cores_loop (todo core chunk_num : nat) (sk : list socket_rec)
    : res (list socket_rec * list (list nat) * list Z) :=
  match todo with
  | O => Ok (sk, [], [])
  | S todo' =>
      '(sk', free, num) ← pool_loop chunk_num (core * chunk_num) sk [] 0;
      '(sk'', frees, nums) ← cores_loop todo' (S core) chunk_num sk';
      Ok (sk'', free :: frees, num :: nums)
  end.

(** The table, the free lists and their lengths; [max] is [MAX_SOCKET_NUM].  The
    public pool has [PUB_SOCKET_NUM], that is no, sockets. *)
Definition socket_table_init (max stack_thread max_concurrency : nat)
    : res (list socket_rec * list (list nat) * list Z) :=
  if decide (stack_thread = 0%nat) then Fault DivByZero else
  if decide (max < max_concurrency)%nat then Fault Exit else
  cores_loop stack_thread 0 (max / stack_thread) (replicate max zero_socket).

(** * The invariant *)

Definition unused (sk : list socket_rec) (i : nat) : Prop :=
  exists k, sk !! i = Some k /\ socktype k = SOCK_TYPE_UNUSED.

(** [n] sockets are managed. *)
Record pool_ok (n : nat) (sk : list socket_rec) (free : list (list nat)) (num : list Z) : Prop := {
  po_len : (n <= length sk)%nat;
  po_id i k : (i < n)%nat -> sk !! i = Some k -> sk_id k = Z.of_nat i;
  po_rest i k : (n <= i)%nat -> sk !! i = Some k -> socktype k = SOCK_TYPE_UNUSED;
  po_once : NoDup (concat free);
  po_free i : i ∈ concat free <-> (i < n)%nat /\ unused sk i;
  po_num : num = (fun l => Z.of_nat (length l)) <$> free;
}.

(** ** Assignments to one socket *)

Lemma pool_assign n sk free num i k k' :
  pool_ok n sk free num -> sk !! i = Some k -> sk_id k' = sk_id k ->
  (socktype k' = SOCK_TYPE_UNUSED <-> socktype k = SOCK_TYPE_UNUSED) ->
  pool_ok n (<[i := k']> sk) free num.
Proof.
  intros [Hl Hid Hr Ho Hf Hn] Hk Hid' Ht. pose proof (lookup_lt_Some _ _ _ Hk) as Hi.
  assert (forall j, unused (<[i := k']> sk) j <-> unused sk j) as Hu.
  { intros j. unfold unused. destruct (decide (j = i)) as [-> | Hj].
    - rewrite list_lookup_insert_eq by done. rewrite Hk. naive_solver.
    - by rewrite list_lookup_insert_ne. }
  split; [by rewrite length_insert | | | done | intros j; by rewrite Hu | done].
  - intros j x Hj [(<- & <- & _)|[_ Hx]]%list_lookup_insert_Some; [rewrite Hid'; by apply Hid | by apply Hid].
  - intros j x Hj [(<- & <- & _)|[_ Hx]]%list_lookup_insert_Some; [apply Ht; by apply (Hr i) | by apply (Hr j)].
Qed.

(** A core takes the first socket of its list. *)
Lemma pool_take n sk free num c i l k k' x :
  pool_ok n sk free num -> free !! c = Some (i :: l) -> sk !! i = Some k -> num !! c = Some x ->
  sk_id k' = sk_id k -> socktype k' <> SOCK_TYPE_UNUSED ->
  pool_ok n (<[i := k']> sk) (<[c := l]> free) (<[c := x - 1]> num).
Proof.
  intros [Hl Hid Hr Ho Hf Hn] Hc Hk Hx Hid' Ht. pose proof (lookup_lt_Some _ _ _ Hk) as Hi.
  pose proof (concat_pop free c i l Hc) as Hp.
  assert (i ∉ concat (<[c := l]> free) /\ NoDup (concat (<[c := l]> free))) as [Hni Hnd].
  { rewrite Hp in Ho. by apply NoDup_cons in Ho. }
  assert (i < n)%nat as Hin by (apply Hf; rewrite Hp; set_solver).
  split; [by rewrite length_insert | | | done | |].
  - intros j y Hj [(<- & <- & _)|[_ Hy]]%list_lookup_insert_Some; [rewrite Hid'; by apply Hid | by apply Hid].
  - intros j y Hj [(<- & <- & _)|[_ Hy]]%list_lookup_insert_Some; [lia | by apply (Hr j)].
  - intros j. unfold unused. destruct (decide (j = i)) as [-> | Hj].
    + rewrite list_lookup_insert_eq by done. naive_solver.
    + rewrite list_lookup_insert_ne by done. rewrite <- (Hf j), Hp. set_solver.
  - rewrite list_fmap_insert, <- Hn. f_equal. rewrite Hn, list_lookup_fmap, Hc in Hx. simpl in Hx. injection Hx as <-. lia.
Qed.

(** A socket in use goes to the end of a list. *)
Lemma pool_give n sk free num c i l k k' x :
  pool_ok n sk free num -> free !! c = Some l -> sk !! i = Some k -> num !! c = Some x ->
  sk_id k' = sk_id k -> socktype k <> SOCK_TYPE_UNUSED -> socktype k' = SOCK_TYPE_UNUSED ->
  pool_ok n (<[i := k']> sk) (<[c := l ++ [i]]> free) (<[c := x + 1]> num).
Proof.
  intros [Hl Hid Hr Ho Hf Hn] Hc Hk Hx Hid' Ht Ht'. pose proof (lookup_lt_Some _ _ _ Hk) as Hi.
  pose proof (concat_insert free c l (l ++ [i]) Hc) as Hperm.
  assert (concat (<[c := l ++ [i]]> free) ≡ₚ i :: concat free) as Hp.
  { apply (Permutation_app_inv_l l). rewrite Hperm, <- app_assoc. done. }
  assert (i < n)%nat as Hin.
  { destruct (decide (i < n)%nat); [done|]. exfalso. apply Ht, (Hr i); [lia | done]. }
  assert (i ∉ concat free) as Hni by (intros [_ (k0 & Hk0 & ?)]%Hf; congruence).
  split; [by rewrite length_insert | | | | |].
  - intros j y Hj [(<- & <- & _)|[_ Hy]]%list_lookup_insert_Some; [rewrite Hid'; by apply Hid | by apply Hid].
  - intros j y Hj [(<- & <- & _)|[_ Hy]]%list_lookup_insert_Some; [done | by apply (Hr j)].
  - rewrite Hp. by apply NoDup_cons.
  - intros j. rewrite Hp, elem_of_cons. unfold unused. destruct (decide (j = i)) as [-> | Hj].
    + rewrite list_lookup_insert_eq by done. naive_solver.
    + rewrite list_lookup_insert_ne by done. rewrite Hf. unfold unused. naive_solver.
  - rewrite list_fmap_insert, <- Hn. f_equal. rewrite Hn, list_lookup_fmap, Hc in Hx. simpl in Hx. injection Hx as <-.
    rewrite length_app. simpl. lia.
Qed.

(** * Preservation *)

Section Pools.
Context {HT : Type} (n : nat).
Abbreviation W := (world HT).

Definition wpool (w : W) : Prop := pool_ok n (sockets w) (free_socket w) (free_num w).

(** The part of the world the invariant is about. *)
Definition sview (w : W) := (sockets w, free_socket w, free_num w).

(** Every run of [m] that ends keeps the invariant. *)
Class Pools {A} (m : M W A) : Prop := pools w a w' : wpool w -> m w = Ok (a, w') -> wpool w'.

Lemma pools_keeps {A} (m : M W A) : Keeps sview m -> Pools m.
Proof. intros Hk w a w' Hp Hr. apply Hk in Hr. unfold sview in Hr. injection Hr as E1 E2 E3.
  unfold wpool. by rewrite E1, E2, E3. Qed.

#[export] Instance pools_ret {A} (a : A) : Pools (mret a).
Proof. apply pools_keeps, _. Qed.
#[export] Instance pools_get : Pools get.
Proof. apply pools_keeps, _. Qed.
#[export] Instance pools_throw {A} f : Pools (throw (A := A) f).
Proof. apply pools_keeps, _. Qed.
#[export] Instance pools_lift {A} (r : res A) : Pools (lift r).
Proof. apply pools_keeps, _. Qed.

#[export] Instance pools_bind {A B} (m : M W A) (k : A -> M W B) :
  Pools m -> (forall a, Pools (k a)) -> Pools (m ≫= k).
Proof. intros Hm Hk w b w'' Hp (a & w' & H1 & H2)%M_bind_Ok. eapply Hk; [by eapply Hm | done]. Qed.

#[export] Instance pools_when b (m : M W unit) : Pools m -> Pools (when b m).
Proof. destruct b; [done | intros _; apply _]. Qed.

#[export] Instance pools_heap {A} (m : M mheap A) : Pools (heap m).
Proof. apply pools_keeps. intros w a w'. unfold heap. by intros ([b h] & _ & [= <- <-])%res_bind_Ok. Qed.
#[export] Instance pools_stream p : Pools (stream p).
Proof. apply pools_keeps. intros w a w'. unfold stream. destruct (w_streams w !! p); simpl; [by intros [= <- <-] | done]. Qed.
#[export] Instance pools_sock i : Pools (sock i).
Proof. apply pools_keeps. intros w a w'. unfold sock. destruct (sockets w !! i); simpl; [by intros [= <- <-] | done]. Qed.
#[export] Instance pools_set_stream p g : Pools (set_stream p g).
Proof. apply pools_keeps. intros w a w'. unfold set_stream. by intros (s & _ & [= <- <-])%res_bind_Ok. Qed.
#[export] Instance pools_swmbuf : Pools io_get_swmbuf.
Proof. apply pools_keeps. intros w a w'. unfold io_get_swmbuf. by destruct (w_swmbufs w); intros [= <- <-]. Qed.
#[export] Instance pools_rand : Pools rand.
Proof. apply pools_keeps. intros w a w'. unfold rand. by destruct (w_rands w); intros [= <- <-]. Qed.
#[export] Instance pools_chunk : Pools mempool_alloc_chunk.
Proof. apply pools_keeps. intros w a w'. unfold mempool_alloc_chunk. by destruct (w_chunks w); intros [= <- <-]. Qed.
#[export] Instance pools_alloc_listener : Pools alloc_listener.
Proof. apply pools_keeps. intros w a w'. unfold alloc_listener. by destruct (w_lchunks w); intros [= <- <-]. Qed.

Lemma pools_modify g : (forall w, sview (g w) = sview w) -> Pools (modify g).
Proof. intros Hg. by apply pools_keeps, keeps_modify. Qed.

Lemma set_sock_Ok i g (w w' : W) u :
  set_sock i g w = Ok (u, w') <-> exists k, sockets w !! i = Some k /\ w' = w <| sockets := <[i := g k]> (sockets w) |>.
Proof.
  unfold set_sock, sock, mbind, M_bind, modify. destruct (sockets w !! i) as [k|]; simpl; [|naive_solver].
  split; [intros [= <- <-]; eauto | intros (? & [= <-] & ->); by destruct u].
Qed.

Lemma sock_Ok i (w w' : W) k : sock i w = Ok (k, w') <-> sockets w !! i = Some k /\ w' = w.
Proof. unfold sock. destruct (sockets w !! i); simpl; naive_solver. Qed.

Lemma pools_set_sock i g :
  (forall k, sk_id (g k) = sk_id k /\ socktype (g k) = socktype k) -> Pools (set_sock i g).
Proof.
  intros Hg w u w' Hp (k & Hk & ->)%set_sock_Ok. destruct (Hg k) as [Hid Ht].
  apply (pool_assign n _ _ _ i k (g k) Hp Hk Hid). by rewrite Ht.
Qed.

(** ** Allocation and release *)
#[export] Instance pools_socket_alloc `{!Config} c t : t <> SOCK_TYPE_UNUSED -> Pools (socket_alloc c t).
Proof.
  intros Ht w r w' Hp Hr. unfold socket_alloc in Hr. case_decide; [by apply ret_Ok in Hr as [_ ->]|].
  apply M_bind_Ok in Hr as (? & ? & [-> ->]%get_Ok & Hr).
  apply M_bind_Ok in Hr as (l & ? & [Hl%read_at_inv ->]%lift_Ok & Hr).
  destruct l as [|i l]; [by apply ret_Ok in Hr as [_ ->]|].
  apply M_bind_Ok in Hr as (fs & ? & [[_ ->]%write_at_inv ->]%lift_Ok & Hr).
  apply M_bind_Ok in Hr as (x & ? & [Hx%read_at_inv ->]%lift_Ok & Hr).
  apply M_bind_Ok in Hr as (fn & ? & [[_ ->]%write_at_inv ->]%lift_Ok & Hr).
  apply M_bind_Ok in Hr as ([] & ? & ->%modify_Ok & Hr).
  apply M_bind_Ok in Hr as ([] & w1 & (k & Hk & ->)%set_sock_Ok & [_ ->]%ret_Ok).
  by eapply (pool_take n (sockets w) (free_socket w) (free_num w)).
Qed.

#[export] Instance pools_socket_free c i : Pools (socket_free c i).
Proof.
  intros w r w' Hp Hr. unfold socket_free in Hr.
  apply M_bind_Ok in Hr as (k & ? & [Hk ->]%sock_Ok & Hr). case_decide as Ht; [done|].
  apply M_bind_Ok in Hr as ([] & ? & (k' & Hk' & ->)%set_sock_Ok & Hr). rewrite Hk in Hk'. injection Hk' as <-.
  apply M_bind_Ok in Hr as (? & ? & [-> ->]%get_Ok & Hr).
  apply M_bind_Ok in Hr as (l & ? & [Hl%read_at_inv ->]%lift_Ok & Hr).
  apply M_bind_Ok in Hr as (fs & ? & [[_ ->]%write_at_inv ->]%lift_Ok & Hr).
  apply M_bind_Ok in Hr as (x & ? & [Hx%read_at_inv ->]%lift_Ok & Hr).
  apply M_bind_Ok in Hr as (fn & ? & [[_ ->]%write_at_inv ->]%lift_Ok & Hr).
  apply modify_Ok in Hr as ->.
  by eapply (pool_give n (sockets w) (free_socket w) (free_num w)).
Qed.
End Pools.

#[export] Hint Extern 1 (Pools _ (modify _)) =>
  apply pools_modify; intros; reflexivity : typeclass_instances.
#[export] Hint Extern 1 (Pools _ (set_sock _ _)) =>
  apply pools_set_sock; intros ?; split; reflexivity : typeclass_instances.
#[export] Hint Extern 1 (Pools _ (set_snd _ _)) => unfold set_snd : typeclass_instances.
#[export] Hint Extern 1 (Pools _ (set_rcv _ _)) => unfold set_rcv : typeclass_instances.
#[export] Hint Extern 2 (Pools _ (match ?x with _ => _ end)) => destruct x : typeclass_instances.
#[export] Hint Extern 1 (SOCK_TYPE_STREAM <> SOCK_TYPE_UNUSED) => done : typeclass_instances.

(** An operation without an instance of its own is looked into. *)
Ltac head_of t := lazymatch t with ?f _ => head_of f | _ => t end.
#[export] Hint Extern 10 (Pools _ ?m) => let h := head_of m in unfold h : typeclass_instances.

Section Operations.
Context {HT : Type} (n : nat) `{!Config} `{!RteHash HT}.
Abbreviation W := (world HT).
Abbreviation P := (Pools (HT := HT) n).

#[export] Instance pools_destroy p : P (tcp_stream_destroy p).
Proof. unfold tcp_stream_destroy. apply _. Qed.
#[export] Instance pools_epoll_event t r i d q : P (add_epoll_event t r i d q).
Proof. unfold add_epoll_event. apply _. Qed.
#[export] Instance pools_payload q m a b : P (process_tcp_payload q m a b).
Proof. unfold process_tcp_payload. apply _. Qed.
#[export] Instance pools_ack p t h a b c d : P (process_tcp_ack p t h a b c d).
Proof. unfold process_tcp_ack. apply _. Qed.
#[export] Instance pools_dispatch p t h a b m c d : P (tcp_dispatch p t h a b m c d).
Proof. unfold tcp_dispatch. apply _. Qed.
#[export] Instance pools_create sk sa sp da dp seq : P (tcp_stream_create sk sa sp da dp seq).
Proof. unfold tcp_stream_create. apply _. Qed.
#[export] Instance pools_packet ts m ha iph h len : P (process_tcp_packet ts m ha iph h len).
Proof. unfold process_tcp_packet. apply _. Qed.
#[export] Instance pools_rto_loop fuel ts walk cnt : P (rto_check_loop fuel ts walk cnt).
Proof. revert walk cnt. induction fuel; intros walk cnt; cbn [rto_check_loop]; apply _. Qed.
#[export] Instance pools_timewait_loop fuel ts walk cnt : P (timewait_check_loop fuel ts walk cnt).
Proof. revert walk cnt. induction fuel; intros walk cnt; cbn [timewait_check_loop]; apply _. Qed.
#[export] Instance pools_timeout_loop fuel ts walk cnt : P (timeout_check_loop fuel ts walk cnt).
Proof. revert walk cnt. induction fuel; intros walk cnt; cbn [timeout_check_loop]; apply _. Qed.

(** ** Sending *)
#[export] Instance pools_send p ts fl m len : P (send_tcp_packet p ts fl m len).
Proof. unfold send_tcp_packet. apply _. Qed.
#[export] Instance pools_control_loop fuel ts cnt : P (control_loop fuel ts cnt).
Proof. revert cnt. induction fuel; intros cnt; cbn [control_loop]; apply _. Qed.
#[export] Instance pools_flush_loop fuel p ts wnd k : P (flush_loop fuel p ts wnd k).
Proof. revert k. induction fuel; intros k; cbn [flush_loop]; apply _. Qed.
#[export] Instance pools_send_loop fuel ts cnt : P (send_loop fuel ts cnt).
Proof. revert cnt. induction fuel; intros cnt; cbn [send_loop]; apply _. Qed.
#[export] Instance pools_ack_send_loop fuel p ts cnt : P (ack_send_loop fuel p ts cnt).
Proof. revert cnt. induction fuel; intros cnt; cbn [ack_send_loop]; apply _. Qed.
#[export] Instance pools_ack_loop fuel ts cnt : P (ack_loop fuel ts cnt).
Proof. revert cnt. induction fuel; intros cnt; cbn [ack_loop]; apply _. Qed.
End Operations.

(** ** Calls of the application and rounds of the loop *)
Section Rounds.
Context {HT : Type} (n : nat) `{!Config} `{!RteHash HT} `{!Rss}.
Abbreviation W := (world HT).
Abbreviation P := (Pools (HT := HT) n).

#[export] Instance pools_listeners_search l q : P (listeners_search l q).
Proof. induction l; cbn [listeners_search]; apply _. Qed.

(** A socket that listens was in use before. *)
Lemma pools_make_listener i k (w w' : W) u :
  wpool n w -> sockets w !! i = Some k -> socktype k <> SOCK_TYPE_UNUSED ->
  when (bool_decide (socktype k = SOCK_TYPE_STREAM))
    (set_sock i (fun k => k <| socktype := SOCK_TYPE_LISTENER |>)) w = Ok (u, w') -> wpool n w'.
Proof.
  intros Hp Hk Hu Hr. case_bool_decide; cbn [when] in Hr; [|by apply ret_Ok in Hr as [_ ->]].
  apply set_sock_Ok in Hr as (k' & Hk' & ->). rewrite Hk in Hk'. injection Hk' as <-.
  by apply (pool_assign n _ _ _ i k _ Hp Hk).
Qed.

#[export] Instance pools_q_listen a i b : P (q_listen a i b).
Proof.
  unfold q_listen. case_match; [apply _|]. intros w r w' Hp Hr.
  apply M_bind_Ok in Hr as (k & ? & [Hk ->]%sock_Ok & Hr).
  case_decide as Hu; [by apply ret_Ok in Hr as [_ ->]|].
  apply M_bind_Ok in Hr as (u & w1 & Hset & Hr).
  pose proof (pools_make_listener _ _ _ _ _ Hp Hk Hu Hset) as Hp1.
  revert Hr. refine (pools n w1 r w' Hp1).
Qed.

#[export] Instance pools_api c : P (api c).
Proof. destruct c; cbn [api]; apply _. Qed.

#[export] Instance pools_while k m : P m -> P (while_one k m).
Proof. intros Hm. induction k; cbn [while_one]; apply _. Qed.

(** The same for the state with address resolution. *)
Class NPools {A} (m : M (net HT) A) : Prop :=
  npools s a s' : wpool n (n_world s) -> m s = Ok (a, s') -> wpool n (n_world s').

#[export] Instance npools_world {A} (m : M W A) : P m -> NPools (on_world m).
Proof. intros Hm s a s' Hp (w & Hr & ->)%on_world_Ok. exact (Hm _ _ _ Hp Hr). Qed.

#[export] Instance npools_keeps {A} (m : M (net HT) A) : Keeps tcp_part m -> NPools m | 5.
Proof.
  intros Hm s a s' Hp Hr. apply Hm, (f_equal (fun t => t.1.1.2.1)) in Hr. simpl in Hr.
  injection Hr as E1 E2 E3. unfold wpool. by rewrite E1, E2, E3.
Qed.

#[export] Instance npools_bind {A B} (m : M (net HT) A) (k : A -> M (net HT) B) :
  NPools m -> (forall a, NPools (k a)) -> NPools (m ≫= k).
Proof. intros Hm Hk s b s'' Hp (a & s' & H1 & H2)%M_bind_Ok. eapply Hk; [by eapply Hm | done]. Qed.

#[export] Instance npools_eth i ts f : NPools (process_eth_packet i ts f).
Proof.
  unfold process_eth_packet. apply npools_bind; [apply _ | intros _]. case_decide; [|apply _].
  apply npools_bind; [apply _ | intros e]. case_match; apply _.
Qed.

#[export] Instance npools_receive ts fs : NPools (receive_all ts fs).
Proof. induction fs as [|f fs IH]; cbn [receive_all]; [apply _|]. unfold receive_frame. apply _. Qed.

Lemma npools_round ts fs : NPools (main_loop_body ts fs).
Proof. unfold main_loop_body. apply _. Qed.

Lemma round_keeps_pool (s s' : net HT) : round_step s s' -> wpool n (n_world s) -> wpool n (n_world s').
Proof.
  intros [ts fs s0 l r s1 _ Hr|c s0 r s1 Hr] Hp.
  - by refine (npools_round ts fs _ _ _ _ Hr).
  - by refine (npools_world _ _ _ _ _ Hp Hr).
Qed.
End Rounds.

(** * The table at the start *)

(** The table with the sockets from [a] to [b] initialised. *)
Definition inited (a b : nat) (sk sk' : list socket_rec) : Prop :=
  length sk' = length sk /\
  forall j, sk' !! j = if decide (a <= j < b)%nat then init_socket j <$> sk !! j else sk !! j.

Lemma inited_trans a b c sk sk1 sk2 :
  (a <= b <= c)%nat -> inited a b sk sk1 -> inited b c sk1 sk2 -> inited a c sk sk2.
Proof.
  intros Hb [L1 H1] [L2 H2]. split; [congruence|]. intros j. rewrite H2, !H1. repeat case_decide; (done || lia).
Qed.

Lemma pool_loop_run k i sk free num :
  (i + k <= length sk)%nat ->
  exists sk', pool_loop k i sk free num = Ok (sk', free ++ seq i k, num + Z.of_nat k) /\ inited i (i + k) sk sk'.
Proof.
  revert i sk free num. induction k as [|k IH]; intros i sk free num Hl; cbn [pool_loop seq].
  - exists sk. rewrite app_nil_r, Z.add_0_r. repeat split. intros j. by rewrite decide_False by lia.
  - destruct (lookup_lt_is_Some_2 sk i) as [x Hx]; [lia|].
    rewrite (read_at_nat _ _ _ Hx). simpl. rewrite write_at_nat by lia. simpl.
    destruct (IH (S i) (<[i := init_socket i x]> sk) (free ++ [i]) (num + 1)) as (sk' & -> & Hin);
      [rewrite length_insert; lia|].
    exists sk'. rewrite <- app_assoc. split; [by replace (num + Z.of_nat (S k)) with (num + 1 + Z.of_nat k) by lia|].
    apply (inited_trans i (S i) (i + S k) sk (<[i := init_socket i x]> sk)); [lia | |by rewrite Nat.add_succ_r].
    split; [by rewrite length_insert|]. intros j. case_decide.
    + assert (j = i) as -> by lia. by rewrite list_lookup_insert_eq, Hx by lia.
    + by rewrite list_lookup_insert_ne by lia.
Qed.

Lemma cores_loop_run todo core chunk sk :
  ((core + todo) * chunk <= length sk)%nat ->
  exists sk', cores_loop todo core chunk sk =
      Ok (sk', (fun c => seq (c * chunk) chunk) <$> seq core todo, replicate todo (Z.of_nat chunk)) /\
    inited (core * chunk) ((core + todo) * chunk) sk sk'.
Proof.
  revert core sk. induction todo as [|todo IH]; intros core sk Hl; cbn [cores_loop seq fmap list_fmap replicate].
  - exists sk. repeat split. intros j. by rewrite decide_False by lia.
  - destruct (pool_loop_run chunk (core * chunk) sk [] 0) as (sk1 & -> & Hi1); [nia|]. simpl.
    destruct (IH (S core) sk1) as (sk2 & -> & Hi2); [rewrite (proj1 Hi1); nia|]. simpl.
    exists sk2. split; [done|].
    apply (inited_trans _ (S core * chunk) _ sk sk1); [nia | by replace (S core * chunk)%nat with (core * chunk + chunk)%nat by lia|].
    by replace (core + S todo)%nat with (S core + todo)%nat by lia.
Qed.

Lemma concat_seqs core todo chunk :
  concat ((fun c => seq (c * chunk) chunk) <$> seq core todo) = seq (core * chunk) (todo * chunk).
Proof.
  revert core. induction todo as [|todo IH]; intros core; [done|]. simpl.
  rewrite IH, seq_app. do 2 f_equal. lia.
Qed.

Lemma init_pool_ok max st conc sk free num :
  socket_table_init max st conc = Ok (sk, free, num) -> pool_ok (st * (max / st)) sk free num.
Proof.
  unfold socket_table_init. case_decide as Hst; [done|]. case_decide; [done|].
  pose proof (Nat.Div0.mul_div_le max st) as Hle.
  destruct (cores_loop_run st 0 (max / st) (replicate max zero_socket)) as (sk' & -> & Hlen & Hsk);
    [by rewrite length_replicate|]. intros [= <- <- <-]. rewrite length_replicate in Hlen.
  split; [lia | | | | |].
  - intros i k Hi. rewrite Hsk, decide_True by lia. by intros (x & _ & ->)%fmap_Some.
  - intros i k Hi. rewrite Hsk, decide_False by lia. by intros [-> _]%lookup_replicate.
  - rewrite concat_seqs. apply NoDup_seq.
  - intros i. rewrite concat_seqs, elem_of_seq. unfold unused. rewrite Hsk. split.
    + intros Hi. split; [lia|]. rewrite decide_True, lookup_replicate_2 by lia. simpl. eauto.
    + intros [Hi _]. lia.
  - apply list_eq. intros i. rewrite !list_lookup_fmap. destruct (decide (i < st)%nat).
    + rewrite lookup_replicate_2, lookup_seq_lt by lia. simpl. by rewrite length_seq.
    + rewrite lookup_seq_ge by lia. simpl. apply lookup_replicate_None. lia.
Qed.

(** C4. The socket table is well-formed at every moment.  Start from the table
    of [socket_table_init]; after any number of rounds of the main loop over any
    frames and of calls of the application, a socket is marked unused exactly
    when it is in a free list, it is there once and in one list, its id is its
    index, and the counters are the lengths of the lists. *)
Theorem socket_table_well_formed {HT} `{!Config} `{!RteHash HT} `{!Rss} max st conc (s s' : net HT) :
  socket_table_init max st conc = Ok (sockets (n_world s), free_socket (n_world s), free_num (n_world s)) ->
  rtc round_step s s' ->
  pool_ok (st * (max / st)) (sockets (n_world s')) (free_socket (n_world s')) (free_num (n_world s')).
Proof.
  intros Hinit%init_pool_ok Hs. change (wpool (st * (max / st)) (n_world s')).
  induction Hs as [s|s1 s2 s3 Hs _ IH]; [done|]. apply IH. by apply (round_keeps_pool _ s1).
Qed.

#[local] Existing Instance demo_config.
#[local] Instance demo_rss : Rss := fun _ _ _ _ => 0.

(** Six sockets for two stack threads.  The application opens a socket, binds it
    to port 80 and listens; then a SYN arrives. *)
Definition pool_net0 : net (gmap ipv4_5tuple ptr) :=
  match socket_table_init 6 2 4 with
  | Ok (sk, free, num) =>
      net0 <| n_world ::= fun w => w <| sockets := sk |> <| free_socket := free |> <| free_num := num |>
                                     <| listeners := [] |> |>
  | Fault _ => net0
  end.
Definition pool_net1 := next_net (on_world (api (ASocket demo_app AF_INET 1))) pool_net0.
Definition pool_net2 :=
  next_net (on_world (api (ABind 0 (Some (SockAddr AF_INET (htons 80) 167772161)) 16))) pool_net1.
Definition pool_net3 := next_net (on_world (api (AListen (Some demo_app) 0 4))) pool_net2.
Definition pool_net4 := next_net (main_loop_body 10 [syn_frame]) pool_net3.

Lemma pool_steps : rtc round_step pool_net0 pool_net4.
Proof.
  apply (rtc_l _ _ pool_net1); [eapply Turn, (next_ok _ pool_net0 0); vm_compute; reflexivity|].
  apply (rtc_l _ _ pool_net2); [eapply Turn, (next_ok _ pool_net1 0); vm_compute; reflexivity|].
  apply (rtc_l _ _ pool_net3); [eapply Turn, (next_ok _ pool_net2 0); vm_compute; reflexivity|].
  apply rtc_once. refine (demo_round 10 [syn_frame] pool_net3 1 _ _); vm_compute; reflexivity.
Qed.

Lemma socket_table_well_formed_witness :
  free_socket (n_world pool_net4) = [[2%nat]; [3%nat; 4%nat; 5%nat]] /\
  pool_ok 6 (sockets (n_world pool_net4)) (free_socket (n_world pool_net4)) (free_num (n_world pool_net4)).
Proof.
  split; [vm_compute; reflexivity|].
  apply (socket_table_well_formed 6 2 4 pool_net0 pool_net4); [vm_compute; reflexivity | exact pool_steps].
Defined.
