(* ===== verification/Startup.v ===== *)
(** The start of the stack: [gctx_init], [sender_init], [stack_context_init] and
    [qstack_app_init] of [core.c], [create_app_pthread] of [runtime_mgt.c],
    [ht_create] of [hashtable.c] and [listeners_init] of [socket.h], on top of the
    socket table, the memory pools, the queues and the runtime contexts.

    The first two members of the global context are adjacent arrays of pointers,
    [core_contexts] and [app_contexts]; they are one list here, because the code
    stores behind the end of the first. *)
From S2P Require Import MemPool Runtime Configuration.
From S2P Require Import Prelude Protocol StaticArp Fifo CircularQueue N21Queue Mbuf RecvBuff SendBuff Stack StreamOps Timer TcpOptions TcpOut TcpIn Api AppCalls Frames Demo Arp StateMachine Lifecycle MainLoop SocketPool.
#[local] Open Scope Z_scope.

#[local] Existing Instance Runtime.runtime_ctx_rebuild.

Module Startup.

(** The values of [typical_macro.h], which [global_macro.h] includes before its
    defaults. *)
Definition MAX_CORE_NUM : nat := 24.
Definition MAX_APP_NUM : nat := MAX_CORE_NUM.
Definition MAX_STACK_NUM : nat := 4.

Section Start.
Context {HT P E : Type} `{!MemPool.RteMempool P E}.

(** DPDK's table of a number and a size, sizes of C structures, and two macros of
    the build (14000000 and 6 in [typical_macro.h]). *)
Context (rte_hash_create : Z -> Z -> option HT) (sizeof_tcp_listener sizeof_tcp_stream : Z).
Context (MAX_FLOW_NUM : nat) (MEM_SCALE : Z).

(** [struct qstack_context_global].  The runtime context of a core is found with
    the address of its [struct qcore_context], the application contexts with
    theirs: id and core. *)
Record qstack_context_global : Type := Gctx {
  ctx_ptrs : list ptr;
  stack_contexts : list ptr;
  stream_hts : list (option HT);
  socket_table : list socket_rec * list (list nat) * list Z;
  listener_ht : option HT;
  g_listeners : list tcp_listener;
  mp_listener : option (MemPool.arena P);
  mp_stream : option (MemPool.arena P);
  core_rt : gmap ptr Runtime.runtime_ctx;
}.
#[export] Instance gctx_rebuild : Rebuild qstack_context_global := fun g =>
  Gctx (ctx_ptrs g) (stack_contexts g) (stream_hts g) (socket_table g) (listener_ht g) (g_listeners g)
    (mp_listener g) (mp_stream g) (core_rt g).

(** What [calloc] leaves in it. *)
Definition gctx0 : qstack_context_global :=
  Gctx (replicate (MAX_CORE_NUM + MAX_APP_NUM) NULL) (replicate MAX_STACK_NUM NULL) (replicate MAX_STACK_NUM None)
    ([], [], []) None [] None None ∅.

(** What the calls of the start return: [calloc] for contexts, DPDK for pools; and
    the number of the next hash table. *)
Record boot : Type := Boot { b_callocs : list ptr; b_setup : MemPool.setup E; ht_idx : Z }.
#[export] Instance boot_rebuild : Rebuild boot := fun b => Boot (b_callocs b) (b_setup b) (ht_idx b).

(** The contexts are used without a test of the result. *)
Definition calloc : M boot ptr :=
  b ← get;
  match b_callocs b with
  | [] => throw NullDeref
  | p :: l =>
      if decide (p = NULL) then throw NullDeref else modify (fun b => b <| b_callocs := l |>);; mret p
  end.

Definition on_setup {A} (m : M (MemPool.setup E) A) : M boot A := fun b =>
  '(a, s) ← m (b_setup b); Ok (a, b <| b_setup := s |>).

Definition ht_create (num_bins : Z) : M boot HT :=
  b ← get;
  modify (fun b => b <| ht_idx ::= Z.add 1 |>);;
  match rte_hash_create (ht_idx b) num_bins with
  | None => throw Exit
  | Some t => mret t
  end.

Definition listeners_init : list tcp_listener := [].

(** The runtime context of a core, from [calloc]. *)
Definition qcore_init (core_id : Z) : M boot Runtime.runtime_ctx :=
  calloc;; mret (Runtime.runtime_init core_id (Runtime.RtCtx false 0 false false false 0 0 0 NULL NULL NULL)).

(** [for (i=0; i<MAX_CORE_NUM+1; i++)]. *)
Fixpoint cores_init (n : nat) (i : Z) (g : qstack_context_global) : M boot qstack_context_global :=
  match n with
  | O => mret g
  | S n' =>
      qcore ← calloc;
      l ← lift (write_at (ctx_ptrs g) i qcore);
      r ← qcore_init i;
      cores_init n' (i + 1) (g <| ctx_ptrs := l |> <| core_rt ::= <[qcore := r]> |>)
  end.

(** [for (i=0; i<CONFIG.stack_thread; i++)]. *)
Fixpoint tables_init (n : nat) (i pstack : Z) (g : qstack_context_global) : M boot qstack_context_global :=
  match n with
  | O => mret g
  | S n' =>
      t ← ht_create (pstack + i);
      l ← lift (write_at (stream_hts g) i (Some t));
      tables_init n' (i + 1) pstack (g <| stream_hts := l |>)
  end.

(** A pool: the memory [malloc] gives for its context, and the creation; the
    program ends when it fails. *)
Record pool_memory : Type := PoolMem { pm_ok : bool; pm_cell : MemPool.Mempool_t; pm_junk : MemPool.chunk_head }.
Definition pool_create (m : pool_memory) (csize p_size s_size cores : Z) : M boot (MemPool.arena P) :=
  r ← on_setup (MemPool.mempool_create (pm_ok m) (pm_cell m) (pm_junk m) csize p_size s_size cores);
  match r with None => throw Exit | Some a => mret a end.

Definition gctx_init (c : Configuration.qstack_config) (m1 m2 : pool_memory) : M boot qstack_context_global :=
  let st := Configuration.stack_thread c in
  calloc;;
  g ← cores_init (MAX_CORE_NUM + 1) 0 gctx0;
  let g := g <| g_listeners := listeners_init |> in
  table ← lift (socket_table_init MAX_FLOW_NUM (Z.to_nat st) (Z.to_nat (Configuration.max_concurrency c)));
  let pstack := Z.of_nat (MAX_FLOW_NUM / Z.to_nat st) in
  g ← tables_init (Z.to_nat st) 0 pstack (g <| socket_table := table |>);
  t ← ht_create 10;
  a1 ← pool_create m1 sizeof_tcp_listener 10 10 st;
  a2 ← pool_create m2 sizeof_tcp_stream pstack 0 st;
  mret (g <| listener_ht := Some t |> <| mp_listener := Some a1 |> <| mp_stream := Some a2 |>).

(** ** A stack thread *)
Definition sender_init : M boot (circular_queue * circular_queue) :=
  calloc;;
  mret (sstreamq_init (Z.shiftr (Z.of_nat MAX_FLOW_NUM) (2 + MEM_SCALE)), sstreamq_init (Z.shiftr (Z.of_nat MAX_FLOW_NUM) (2 + MEM_SCALE))).

(** What the thread will get from the driver, the pools and [rand], and the
    address resolution it shares. *)
Record supplies : Type := Supplies {
  sp_heap : mheap; sp_swmbufs : list ptr; sp_lchunks : list ptr; sp_rands : list Z;
  sp_arp : list (list arp_entry); sp_callocs : list bool;
}.

(** The context of the thread and the global context; the flow table and the socket
    table are those of the global context.  [mbufq_mp_init] does nothing with
    [DIRECT_CIRCULAR_QUEUE]; the locks and the time stamps are left out. *)
Definition stack_context_init (c : Configuration.qstack_config) (s : supplies) (stack_id : Z)
    (g : qstack_context_global) : M boot (net HT * qstack_context_global) :=
  qstack ← calloc;
  qcore ← lift (read_at (ctx_ptrs g) stack_id);
  sc ← lift (write_at (stack_contexts g) stack_id qstack);
  r ← lift (deref NullDeref (core_rt g !! qcore));
  let r := r <| Runtime.qstack := qstack |> in
  let g := g <| stack_contexts := sc |> <| core_rt ::= <[qcore := r]> |> in
  '(ctl, ack) ← sender_init;
  ht ← lift (t ← read_at (stream_hts g) stack_id; deref NullDeref t);
  let '(sk, free, num) := socket_table g in
  let cores := Configuration.num_cores c in
  let small := Z.shiftr (Z.of_nat MAX_FLOW_NUM) (2 + MEM_SCALE) in
  let w := (World _ (sp_heap s) ∅ ht sk free num (g_listeners g) 0 [] [] [] ctl ack
             (streamq_init cores small) (streamq_init cores small) (streamq_init cores small)
             (streamq_init cores (Z.of_nat MAX_FLOW_NUM)) [] (sp_lchunks s) (sp_swmbufs s) (sp_rands s) [] []) in
  '(_, w) ← lift (timer_init w);
  mret (Net _ w (sp_arp s) false [] (sp_callocs s) [], g).

(** ** Applications *)

(** [struct qapp_context]: its address, id and core. *)
Record qapp_context : Type := Qapp { qa_ptr : ptr; app_id : Z; qa_core : Z }.

Fixpoint qstack_app_init (n : nat) (i stack_num : Z) : M boot (list qapp_context) :=
  match n with
  | O => mret []
  | S n' =>
      p ← calloc;
      l ← qstack_app_init n' (i + 1) stack_num;
      mret (Qapp p (u8 i) (u8 (i + stack_num)) :: l)
  end.

(** [qstack_init]: the contexts of all stack threads, and of the applications.  The
    creation of the threads themselves, of the driver ([DriverCorrect]) and of the
    event layer ([Qepoll.q_init_manager]) are left out. *)
Fixpoint threads_init (c : Configuration.qstack_config) (s : Z -> supplies) (n : nat) (i : Z) (g : qstack_context_global)
    : M boot (list (net HT) * qstack_context_global) :=
  match n with
  | O => mret ([], g)
  | S n' =>
      '(t, g) ← stack_context_init c (s i) i g;
      '(l, g) ← threads_init c s n' (i + 1) g;
      mret (t :: l, g)
  end.

Definition qstack_init (c : Configuration.qstack_config) (m1 m2 : pool_memory) (s : Z -> supplies)
    : M boot (list (net HT) * list qapp_context * qstack_context_global) :=
  let st := Configuration.stack_thread c in
  g ← gctx_init c m1 m2;
  '(l, g) ← threads_init c s (Z.to_nat st) 0 g;
  apps ← qstack_app_init (Z.to_nat (Configuration.app_thread c)) 0 st;
  mret (l, apps, g).

(** [create_app_pthread]: the core of the application must have no other one. *)
Definition create_app_pthread (q : qapp_context) (g : qstack_context_global) : res qstack_context_global :=
  qcore ← read_at (ctx_ptrs g) (qa_core q);
  r ← deref NullDeref (core_rt g !! qcore);
  if decide (Runtime.qapp r <> NULL) then Fault Exit else
  let r := r <| Runtime.qapp := qa_ptr q |> in
  let g := g <| core_rt ::= <[qcore := r]> |> in
  l ← write_at (ctx_ptrs g) (Z.of_nat MAX_CORE_NUM + app_id q) (qa_ptr q);
  Ok (g <| ctx_ptrs := l |>).
End Start.
End Startup.
