(* ===== verification/StartupCorrect.v ===== *)
(** Every stack thread starts in a state that satisfies the invariants of the other
    files, and so keeps them in every run. *)
From S2P Require Import MemPool MemPoolCorrect Runtime Configuration.
From S2P Require Import Prelude Protocol StaticArp Fifo CircularQueue N21Queue Mbuf RecvBuff SendBuff Stack StreamOps Timer TcpOptions TcpOut TcpIn Api AppCalls Frames Demo Arp StateMachine Lifecycle MainLoop SocketPool Startup.
Import Startup.
#[local] Open Scope Z_scope.
#[local] Existing Instance Runtime.runtime_ctx_rebuild.

Section Start.
Context {HT P E : Type} `{!Config} `{!RteHash HT, !RteHashLaws HT} `{!Rss} `{!MemPool.RteMempool P E}.
Context (rte_hash_create : Z -> Z -> option HT) (sizeof_tcp_listener sizeof_tcp_stream : Z).
Context (MAX_FLOW_NUM : nat) (MEM_SCALE : Z).
Abbreviation G := (qstack_context_global (HT := HT) (P := P)).

(** DPDK has room for the tables, and a new table is empty. *)
Context (Hcreate : forall k n, exists t, rte_hash_create k n = Some t /\ rte_entries t = ∅).

Definition non_null (l : list ptr) : Prop := Forall (fun p => p <> NULL) l.

Lemma calloc_run (b : boot (E := E)) p l : b_callocs b = p :: l -> p <> NULL -> calloc b = Ok (p, b <| b_callocs := l |>).
Proof. intros Hb Hp. unfold calloc. step by reflexivity. by rewrite Hb, decide_False. Qed.

Lemma ht_create_run (b : boot (E := E)) n :
  exists t, ht_create rte_hash_create n b = Ok (t, b <| ht_idx ::= Z.add 1 |>) /\ rte_entries t = ∅.
Proof.
  destruct (Hcreate (ht_idx b) n) as (t & Ht & He). exists t. split; [|done].
  unfold ht_create. step by reflexivity. step by reflexivity. by rewrite Ht.
Qed.

Lemma calloc_skip (b : boot (E := E)) p l {B} (k : M boot B) : b_callocs b = p :: l -> p <> NULL ->
  (calloc;; k) b = k (b <| b_callocs := l |>).
Proof. intros Hb Hp. by rewrite (bind_ok _ _ _ _ _ (calloc_run b p l Hb Hp)). Qed.

(** Every second address: the contexts of the cores without the runtime contexts. *)
Fixpoint evens (l : list ptr) : list ptr :=
  match l with p :: _ :: l' => p :: evens l' | _ => [] end.

Lemma cores_init_run n : forall ps i (g : G) (b : boot (E := E)) rest,
  b_callocs b = ps ++ rest -> non_null ps -> length ps = (2 * n)%nat -> (i + n <= length (ctx_ptrs g))%nat ->
  exists g', cores_init n (Z.of_nat i) g b = Ok (g', b <| b_callocs := rest |>) /\
    ctx_ptrs g' = list_inserts i (evens ps) (ctx_ptrs g) /\ Forall (fun p => is_Some (core_rt g' !! p)) (evens ps) /\
    (forall p, is_Some (core_rt g !! p) -> is_Some (core_rt g' !! p)) /\
    stack_contexts g' = stack_contexts g /\ stream_hts g' = stream_hts g /\ length (evens ps) = n.
Proof.
  induction n as [|n IH]; intros ps i g b rest Hb Hn Hlen Hl.
  - destruct ps; [|done]. exists g. split_and!; try done. cbn in Hb. destruct b; simpl in *; by subst.
  - destruct ps as [|p [|r ps]]; [done | cbn in Hlen; lia |]. apply Forall_cons in Hn as [Hp Hn]. apply Forall_cons in Hn as [Hr Hn].
    cbn [cores_init evens].
    set (rt := Runtime.runtime_init (Z.of_nat i) (Runtime.RtCtx false 0 false false false 0 0 0 NULL NULL NULL)).
    set (g1 := g <| ctx_ptrs := <[i := p]> (ctx_ptrs g) |> <| core_rt ::= <[p := rt]> |>).
    destruct (IH ps (S i) g1 (b <| b_callocs := ps ++ rest |>) rest) as (g' & Hrun & Hc & Hps & Hold & Hs' & Ht' & Hev);
      [done | done | cbn in Hlen; lia | simpl; rewrite length_insert; lia |].
    exists g'. split_and!; [| | | | done | done | by cbn; rewrite Hev].
    + step by (by apply (calloc_run b p (r :: ps ++ rest))). step by (apply lift_ok, write_at_nat; lia).
      step by (unfold qcore_init; rewrite (calloc_skip _ r (ps ++ rest)) by done; reflexivity).
      replace (Z.of_nat i + 1) with (Z.of_nat (S i)) by lia. exact Hrun.
    + rewrite Hc. simpl. by rewrite list_insert_inserts_lt by lia.
    + constructor; [|done]. apply Hold. simpl. rewrite lookup_insert_eq. by eexists.
    + intros q Hq. apply Hold. simpl. destruct (decide (q = p)) as [-> | ?]; [rewrite lookup_insert_eq; by eexists|].
      by rewrite lookup_insert_ne.
Qed.

(** Table [i] and the later ones are created. *)
Lemma tables_init_run n : forall i pstack (g : G) (b : boot (E := E)),
  (i + n <= length (stream_hts g))%nat ->
  (forall j, (j < i)%nat -> exists t, stream_hts g !! j = Some (Some t) /\ rte_entries t = ∅) ->
  exists g' b', tables_init rte_hash_create n (Z.of_nat i) pstack g b = Ok (g', b') /\
    (b_callocs b', b_setup b') = (b_callocs b, b_setup b) /\
    (forall j, (j < i + n)%nat -> exists t, stream_hts g' !! j = Some (Some t) /\ rte_entries t = ∅) /\
    (ctx_ptrs g', stack_contexts g', socket_table g', g_listeners g', core_rt g') =
    (ctx_ptrs g, stack_contexts g, socket_table g, g_listeners g, core_rt g).
Proof.
  induction n as [|n IH]; intros i pstack g b Hl Ht; cbn [tables_init].
  - exists g, b. split_and!; [done | done | intros; apply Ht; lia | done].
  - destruct (ht_create_run b (pstack + Z.of_nat i)) as (t & Hrun & He). step by (exact Hrun).
    step by (apply lift_ok, write_at_nat; lia).
    replace (Z.of_nat i + 1) with (Z.of_nat (S i)) by lia.
    destruct (IH (S i) pstack (g <| stream_hts := <[i := Some t]> (stream_hts g) |>) (b <| ht_idx ::= Z.add 1 |>))
      as (g' & b' & Hr' & Hb' & Ht' & Hg'); [simpl; rewrite length_insert; lia | |].
    + intros j Hj. simpl. destruct (decide (j = i)) as [-> | ?]; [rewrite list_lookup_insert_eq by lia; eauto|].
      rewrite list_lookup_insert_ne by done. apply Ht. lia.
    + exists g', b'. split_and!; [done | done | intros; apply Ht'; lia | done].
Qed.

Context (c : Configuration.qstack_config).
Abbreviation st := (Z.to_nat (Configuration.stack_thread c)).
Abbreviation managed := (st * (MAX_FLOW_NUM / st))%nat.

(** What the stack threads find in the global context. *)
Record ready (g : G) : Prop := {
  rd_core j : (j < st)%nat -> exists p, ctx_ptrs g !! j = Some p /\ is_Some (core_rt g !! p);
  rd_ht j : (j < st)%nat -> exists t, stream_hts g !! j = Some (Some t) /\ rte_entries t = ∅;
  rd_stacks : length (stack_contexts g) = MAX_STACK_NUM;
  rd_table : pool_ok managed (socket_table g).1.1 (socket_table g).1.2 (socket_table g).2;
}.

(** The limits of the configuration and of the build. *)
Record config_fits : Prop := {
  cf_threads : 0 < Configuration.stack_thread c <= Z.of_nat MAX_STACK_NUM;
  cf_apps : 0 <= Configuration.app_thread c;
  cf_cores : 0 < Configuration.num_cores c < 256;
  cf_conc : Configuration.max_concurrency c <= Z.of_nat MAX_FLOW_NUM;
  cf_queue : 0 < Z.shiftr (Z.of_nat MAX_FLOW_NUM) (2 + MEM_SCALE) <= Z.of_nat MAX_FLOW_NUM;
  cf_max : Z.of_nat MAX_FLOW_NUM < 2 ^ 31;
}.
Context (Hfit : config_fits).

Lemma socket_table_ready : exists sk free num,
  socket_table_init MAX_FLOW_NUM st (Z.to_nat (Configuration.max_concurrency c)) = Ok (sk, free, num) /\
  pool_ok managed sk free num.
Proof using Hfit.
  destruct Hfit as [Hst _ _ Hc _ _].
  destruct (socket_table_init MAX_FLOW_NUM st (Z.to_nat (Configuration.max_concurrency c))) as [[[sk free] num]|] eqn:Hi.
  - exists sk, free, num. split; [done|]. by eapply init_pool_ok.
  - revert Hi. unfold socket_table_init. rewrite !decide_False by lia.
    destruct (cores_loop_run st 0 (MAX_FLOW_NUM / st) (replicate MAX_FLOW_NUM zero_socket)) as (sk' & -> & _); [|done].
    rewrite length_replicate. apply Nat.Div0.mul_div_le.
Qed.

Lemma pool_create_run (b : boot (E := E)) m csize ps ss n (a : MemPool.arena P) s :
  MemPool.mempool_create (pm_ok m) (pm_cell m) (pm_junk m) csize ps ss n (b_setup b) = Ok (Some a, s) ->
  pool_create m csize ps ss n b = Ok (a, b <| b_setup := s |>).
Proof. intros Hm. unfold pool_create. step by (unfold on_setup; rewrite Hm; reflexivity). done. Qed.

(** The pools can be created. *)
Definition pools_fit (m1 m2 : pool_memory) (b : boot (E := E)) : Prop :=
  exists (a1 a2 : MemPool.arena P) s1 s2,
    MemPool.mempool_create (pm_ok m1) (pm_cell m1) (pm_junk m1) sizeof_tcp_listener 10 10
      (Configuration.stack_thread c) (b_setup b) = Ok (Some a1, s1) /\
    MemPool.mempool_create (pm_ok m2) (pm_cell m2) (pm_junk m2) sizeof_tcp_stream
      (Z.of_nat (MAX_FLOW_NUM / st)) 0 (Configuration.stack_thread c) s1 = Ok (Some a2, s2).

(** It suffices to run the creation. *)
Definition pools_check (m1 m2 : pool_memory) (b : boot (E := E)) : bool :=
  match MemPool.mempool_create (P := P) (pm_ok m1) (pm_cell m1) (pm_junk m1) sizeof_tcp_listener 10 10
      (Configuration.stack_thread c) (b_setup b) with
  | Ok (Some _, s1) =>
      match MemPool.mempool_create (P := P) (pm_ok m2) (pm_cell m2) (pm_junk m2) sizeof_tcp_stream
        (Z.of_nat (MAX_FLOW_NUM / st)) 0 (Configuration.stack_thread c) s1 with
      | Ok (Some _, _) => true
      | _ => false
      end
  | _ => false
  end.
Lemma pools_check_fit m1 m2 b : pools_check m1 m2 b = true -> pools_fit m1 m2 b.
Proof.
  unfold pools_check, pools_fit. destruct (MemPool.mempool_create _ _ _ sizeof_tcp_listener _ _ _ _) as [[[a1|] s1]|]; try done.
  destruct (MemPool.mempool_create _ _ _ _ _ _ _ s1) as [[[a2|] s2]|] eqn:E2; try done. intros _. by exists a1, a2, s1, s2.
Qed.

(** The addresses [calloc] returns for the global context and the cores. *)
Definition core_memory (l : list ptr) : Prop := non_null l /\ length l = (1 + 2 * (MAX_CORE_NUM + 1))%nat.

Lemma gctx_init_run m1 m2 (b : boot (E := E)) ps rest :
  b_callocs b = ps ++ rest -> core_memory ps -> pools_fit m1 m2 b ->
  exists g b', gctx_init rte_hash_create sizeof_tcp_listener sizeof_tcp_stream MAX_FLOW_NUM c m1 m2 b = Ok (g, b') /\
    ready g /\ b_callocs b' = rest /\ ctx_ptrs g !! MAX_CORE_NUM = evens (tail ps) !! MAX_CORE_NUM /\ is_Some (evens (tail ps) !! MAX_CORE_NUM).
Proof using Hcreate Hfit.
  intros Hb [Hn Hl] (a1 & a2 & s1 & s2 & Hm1 & Hm2). unfold gctx_init. cbv zeta.
  destruct ps as [|p0 ps]; [done|]. apply Forall_cons in Hn as [Hp0 Hn]. cbn [tail]. rewrite (calloc_skip b p0 (ps ++ rest)) by done.
  destruct (cores_init_run (MAX_CORE_NUM + 1) ps 0 (gctx0 (HT := HT) (P := P)) (b <| b_callocs := ps ++ rest |>) rest)
    as (g1 & Hrun1 & Hp & Hps & _ & Hs & Ht & Hev); [done | done | cbn in Hl; unfold MAX_CORE_NUM in *; lia | cbn; lia |].
  step by (exact Hrun1).
  destruct socket_table_ready as (sk & free & num & Hrun2 & Hpool). step by (by apply lift_ok).
  set (g2 := g1 <| g_listeners := listeners_init |> <| socket_table := _ |>).
  assert (st <= MAX_STACK_NUM)%nat as Hst4 by (destruct Hfit; lia).
  destruct (tables_init_run st 0 (Z.of_nat (MAX_FLOW_NUM / st)) g2 (b <| b_callocs := rest |>))
    as (g3 & b3 & Hrun3 & [= Hb3 Hsu] & Hts & [= Hc3 Hst3 Hk3 _ Hr3]);
    [simpl; rewrite Ht; cbn; unfold MAX_STACK_NUM in *; lia | intros; lia |].
  step by (exact Hrun3). destruct (ht_create_run b3 10) as (t & Hrun4 & _). step by (exact Hrun4).
  step by (apply pool_create_run; simpl; rewrite Hsu; exact Hm1). step by (apply pool_create_run; exact Hm2).
  eexists _, _. split; [reflexivity|]. simpl in *. split_and!; [split; simpl | done | | apply lookup_lt_is_Some_2; rewrite Hev; unfold MAX_CORE_NUM; lia].
  - intros j Hj. rewrite Hc3, Hr3. destruct (lookup_lt_is_Some_2 (evens ps) j) as [p Hj']; [unfold MAX_CORE_NUM, MAX_STACK_NUM in *; lia|].
    exists p. rewrite Hp, list_lookup_inserts, Nat.sub_0_r by (cbn; unfold MAX_CORE_NUM, MAX_STACK_NUM in *; lia). split; [done|]. by apply (Forall_lookup_1 _ _ _ _ Hps Hj').
  - exact Hts.
  - rewrite Hst3, Hs. done.
  - by rewrite Hk3.
  - rewrite Hc3, Hp, list_lookup_inserts, Nat.sub_0_r by (unfold MAX_CORE_NUM in *; cbn; lia). done.
Qed.

(** A stack thread that starts: no stream, nothing on the timer lists, empty queues
    that are well-formed, and the invariants. *)
Record thread_start (n : net HT) : Prop := {
  ts_streams : w_streams (n_world n) = ∅ /\ rte_entries (stream_ht (n_world n)) = ∅;
  ts_timers : rto_list (n_world n) = [] /\ timewait_list (n_world n) = [] /\ timeout_list (n_world n) = [];
  ts_life : life_ok (nview n);
  ts_pool : wpool managed (n_world n);
  ts_single : Forall (fun q => heap_wf q /\ cirq_contents q = []) [control_queue (n_world n); ack_queue (n_world n)];
  ts_shared : Forall (fun q => n21_wf q /\ Forall (fun l => l = []) (n21_contents q))
    [send_event_queue (n_world n); send_hevent_queue (n_world n); close_queue (n_world n); connect_queue (n_world n)];
}.

Lemma listed_nil (on : core_view -> Prop) : listed [] ∅ on.
Proof. split; [constructor|]. intros p. split; [by intros ?%not_elem_of_nil|]. intros (v & Hv & _). by rewrite lookup_empty in Hv. Qed.

Lemma stack_context_init_run s i (g : G) (b : boot (E := E)) p r rest :
  ready g -> (i < st)%nat -> b_callocs b = p :: r :: rest -> p <> NULL -> r <> NULL ->
  exists n g', stack_context_init MAX_FLOW_NUM MEM_SCALE c s (Z.of_nat i) g b = Ok ((n, g'), b <| b_callocs := rest |>) /\
    thread_start n /\ ready g'.
Proof using Hfit.
  intros [Hcore Hht Hstk Hpool] Hi Hb Hp Hpr. destruct (Hcore i Hi) as (q & Hq & x & Hr). destruct (Hht i Hi) as (t & Ht & He).
  destruct (socket_table g) as [[sk free] num] eqn:Et. cbn in Hpool.
  destruct Hfit as [Hst _ Hnum _ Hqs Hmax]. unfold stack_context_init.
  step by (by apply (calloc_run b p (r :: rest))). step by (apply lift_ok; by apply read_at_nat).
  step by (apply lift_ok, write_at_nat; rewrite Hstk; unfold MAX_STACK_NUM in *; lia).
  step by (apply lift_ok; rewrite Hr; reflexivity). cbv zeta. unfold sender_init.
  rewrite bind_bind, (calloc_skip _ r rest) by done. step by reflexivity.
  step by (apply lift_ok; simpl; rewrite (read_at_nat _ _ _ Ht); reflexivity). simpl. rewrite Et.
  step by reflexivity.
  eexists _, _. split; [reflexivity|]. split.
  - split; simpl; [done | done | | exact Hpool | |].
    + unfold nview, view. simpl. rewrite fmap_empty. split; simpl; try apply listed_nil; try done.
      intros k y. by rewrite He.
    + do 2 (constructor; [apply cirq_init_wf; lia|]). constructor.
    + do 4 (constructor; [apply n21q_init_wf; lia|]). constructor.
  - split; simpl; [| exact Hht | by rewrite length_insert | done].
    intros j Hj. destruct (Hcore j Hj) as (q' & Hq' & Hr'). exists q'. split; [done|].
    destruct (decide (q' = q)) as [-> | ?]; [rewrite lookup_insert_eq; by eexists | by rewrite lookup_insert_ne].
Qed.

Lemma threads_init_run s n : forall ps i (g : G) (b : boot (E := E)) rest,
  ready g -> (i + n <= st)%nat -> b_callocs b = ps ++ rest -> non_null ps -> length ps = (2 * n)%nat ->
  exists l g', threads_init MAX_FLOW_NUM MEM_SCALE c s n (Z.of_nat i) g b = Ok ((l, g'), b <| b_callocs := rest |>) /\
    length l = n /\ Forall thread_start l /\ ready g'.
Proof using Hfit.
  induction n as [|n IH]; intros ps i g b rest Hr Hi Hb Hn Hlen; cbn [threads_init].
  - destruct ps; [|done]. exists [], g. split_and!; [|done|done|done]. cbn in Hb. destruct b; simpl in *; by subst.
  - destruct ps as [|p [|r ps]]; [done | cbn in Hlen; lia |]. apply Forall_cons in Hn as [Hp Hn]. apply Forall_cons in Hn as [Hpr Hn].
    destruct (stack_context_init_run (s (Z.of_nat i)) i g b p r (ps ++ rest)) as (t & g1 & Hrun & Hs & Hr1); [done | lia | done | done | done |].
    destruct (IH ps (S i) g1 (b <| b_callocs := ps ++ rest |>) rest) as (l & g2 & Hrun2 & Hl & Hts & Hr2); [done | lia | done | done | cbn in Hlen; lia |].
    exists (t :: l), g2. split_and!; [| cbn; lia | by constructor | done].
    step by (exact Hrun). replace (Z.of_nat i + 1) with (Z.of_nat (S i)) by lia. step by (exact Hrun2). done.
Qed.

(** The applications get the cores behind those of the stack threads. *)
Lemma app_init_run ps : forall i (b : boot (E := E)) rest stacks,
  b_callocs b = ps ++ rest -> non_null ps ->
  exists b', qstack_app_init (length ps) i stacks b =
    Ok (imap (fun k p => Qapp p (u8 (i + Z.of_nat k)) (u8 (i + Z.of_nat k + stacks))) ps, b').
Proof.
  induction ps as [|p ps IH]; intros i b rest stacks Hb Hn; cbn [qstack_app_init length imap]; [by eexists|].
  apply Forall_cons in Hn as [Hp Hn]. step by (by apply (calloc_run b p (ps ++ rest))).
  destruct (IH (i + 1) (b <| b_callocs := ps ++ rest |>) rest stacks) as (b' & Hrun); [done | done |]. step by (exact Hrun).
  exists b'. unfold mret, M_ret. do 3 f_equal; [f_equal; f_equal; lia|]. apply imap_ext. intros k x _. simpl. f_equal; f_equal; lia.
Qed.

(** The core contexts overrun their array by one: the first application context is
    the last core's until the first application is created. *)
Lemma last_core_in_app_contexts m1 m2 (b : boot (E := E)) ps rest :
  b_callocs b = ps ++ rest -> core_memory ps -> pools_fit m1 m2 b ->
  exists g b' p, gctx_init rte_hash_create sizeof_tcp_listener sizeof_tcp_stream MAX_FLOW_NUM c m1 m2 b = Ok (g, b') /\
    evens (tail ps) !! MAX_CORE_NUM = Some p /\ drop MAX_CORE_NUM (ctx_ptrs g) !! 0%nat = Some p.
Proof using Hcreate Hfit.
  intros Hb Hn Hp. destruct (gctx_init_run m1 m2 b ps rest Hb Hn Hp) as (g & b' & Hrun & _ & _ & Hk & p & Hsome).
  exists g, b', p. split_and!; [done | done |]. by rewrite lookup_drop, Nat.add_0_r, Hk.
Qed.

(** A core takes one application; its context is found under its id. *)
Lemma one_application_per_core (q q' : qapp_context) (g g' : G) :
  0 <= app_id q < Z.of_nat MAX_APP_NUM -> 0 <= qa_core q < Z.of_nat MAX_CORE_NUM -> qa_core q' = qa_core q -> qa_ptr q <> NULL ->
  create_app_pthread q g = Ok g' ->
  drop MAX_CORE_NUM (ctx_ptrs g') !! Z.to_nat (app_id q) = Some (qa_ptr q) /\ create_app_pthread q' g' = Fault Exit.
Proof.
  intros Hid Hc Hc' Hp. unfold create_app_pthread. intros (p & Hrd & Hrun)%res_bind_Ok. simpl in *.
  apply res_bind_Ok in Hrun as (r & Hr%deref_Ok & Hrun). case_decide; [done|].
  apply res_bind_Ok in Hrun as (l & [Hlen ->]%write_at_inv & [= <-]). simpl in *.
  assert (Z.to_nat (Z.of_nat MAX_CORE_NUM + app_id q) = MAX_CORE_NUM + Z.to_nat (app_id q))%nat as Hx by (unfold MAX_CORE_NUM; lia).
  rewrite Hx in *. split; [rewrite lookup_drop, list_lookup_insert_eq by done; done|].
  rewrite Hc'. apply read_at_inv in Hrd.
  replace (qa_core q) with (Z.of_nat (Z.to_nat (qa_core q))) by lia.
  rewrite (read_at_nat _ _ p) by (rewrite list_lookup_insert_ne by (unfold MAX_CORE_NUM in *; lia); done). simpl.
  rewrite lookup_insert_eq. simpl. by rewrite decide_True.
Qed.

(** From such a start on, the invariants hold for ever. *)
Lemma rounds_safe (n n' : net HT) :
  rtc round_step n n' -> life_ok (nview n) -> wpool managed (n_world n) -> life_ok (nview n') /\ wpool managed (n_world n').
Proof.
  intros Hs. induction Hs as [n|n1 n2 n3 Hs _ IH]; intros Hl Hp; [done|]. apply IH.
  - eapply vsteps_life; [exact (round_refines _ _ Hs Hl) | done].
  - by apply (round_keeps_pool managed n1).
Qed.

(** C5. The stack starts, and its threads are safe for ever.  For a configuration
    within the limits of the build, at most [MAX_STACK_NUM] stack threads among them,
    and with memory, hash tables and pools available, [qstack_init] returns the
    contexts of as many stack threads as are configured.  Each has no stream, nothing
    on its timer lists, and well-formed, empty queues; and whatever rounds of the
    main loop, over whatever frames, and whatever calls of the application follow,
    its timer lists and flow table are exact and its socket table is well-formed.
    Application [k] is placed on the core behind the stack threads' cores and [k]
    others. *)
Theorem started_threads_safe m1 m2 s (b : boot (E := E)) cores threads apps rest :
  b_callocs b = cores ++ threads ++ apps ++ rest -> core_memory cores -> non_null (threads ++ apps) ->
  length threads = (2 * st)%nat -> length apps = Z.to_nat (Configuration.app_thread c) ->
  pools_fit m1 m2 b ->
  exists l g b',
    qstack_init rte_hash_create sizeof_tcp_listener sizeof_tcp_stream MAX_FLOW_NUM MEM_SCALE c m1 m2 s b =
      Ok ((l, imap (fun k p => Qapp p (u8 (Z.of_nat k)) (u8 (Z.of_nat k + Configuration.stack_thread c))) apps, g), b') /\
    length l = st /\ Forall thread_start l /\
    forall n n', n ∈ l -> rtc round_step n n' -> life_ok (nview n') /\ wpool managed (n_world n').
Proof using Hcreate Hfit.
  intros Hb Hc Hn Hlt Hla Hp. unfold non_null in Hn. rewrite Forall_app in Hn. destruct Hn as (Hn2 & Hn3).
  destruct (gctx_init_run m1 m2 b cores (threads ++ apps ++ rest)) as (g & b1 & Hrun1 & Hr & Hb1 & _); [done..|].
  destruct (threads_init_run s st threads 0 g b1 (apps ++ rest)) as (l & g2 & Hrun2 & Hl & Hts & _); [done | lia | done | done | done |].
  destruct (app_init_run apps 0 (b1 <| b_callocs := apps ++ rest |>) rest (Configuration.stack_thread c)) as (b3 & Hrun3); [done..|].
  exists l, g2, b3. split_and!; [| lia | done |].
  - unfold qstack_init. cbv zeta. step by (exact Hrun1). step by (exact Hrun2). rewrite <- Hla. by step by (exact Hrun3).
  - intros n n' Hin Hs. rewrite Forall_forall in Hts. destruct (Hts n Hin). by apply (rounds_safe n).
Qed.
End Start.

(** * Two stack threads and an application *)

#[local] Existing Instances demo_config ListPool.list_pool.
#[local] Instance demo_rss : Rss := fun _ _ _ _ => 0.

Definition small_config : Configuration.qstack_config := Configuration.QConfig 4 2 1 10 0 8192 8192 0 1 0 0 167772161 0 8.
Definition empty_table (_ _ : Z) : option (gmap ipv4_5tuple ptr) := Some ∅.
Definition pool_memory0 : pool_memory := PoolMem true (MemPool.MempoolT 0 0 0 false [] NULL [] [] 0) (MemPool.ChunkHead 0 0 0 0 0 0).
Definition boot0 : boot := Boot (seqZ 500 56) (MemPool.Setup (ListPool.Eal 4096 [] []) []) 0.
Definition no_supplies (_ : Z) : supplies := Supplies (MHeap ∅ []) [] [] [] [] [].

Lemma started_threads_safe_witness : exists l g b',
  qstack_init (P := ListPool.pool) empty_table 100 1000 64 0 small_config pool_memory0 pool_memory0 no_supplies boot0 =
    Ok ((l, [Qapp 555 0 2], g), b') /\
  length l = 2%nat /\ Forall (thread_start 64 small_config) l /\
  forall n n', n ∈ l -> rtc round_step n n' -> life_ok (nview n') /\ wpool 64 (n_world n').
Proof.
  apply (started_threads_safe empty_table 100 1000 64 0) with (cores := seqZ 500 51) (threads := seqZ 551 4) (apps := [555]) (rest := []).
  - intros. by eexists.
  - split; vm_compute; done.
  - vm_compute. reflexivity.
  - split; [|done]. unfold non_null. by apply (bool_decide_unpack _); vm_compute.
  - unfold non_null. by apply (bool_decide_unpack _); vm_compute.
  - done.
  - done.
  - apply pools_check_fit. vm_compute. reflexivity.
Defined.
