(* ===== verification/ClosePath.v ===== *)
(** Closing a connection, from the call of the application to the FIN:
    [q_close] of [api.c] and [handle_close_call] of [core.c]. *)
From S2P Require Import Prelude Protocol StaticArp Fifo CircularQueue N21Queue Mbuf RecvBuff SendBuff Stack StreamOps Timer TcpOptions TcpOut TcpIn Api AppCalls Frames Demo StateMachine Lifecycle.
#[local] Open Scope Z_scope.

Section Close.
Context {HT : Type} `{!Config} `{!RteHash HT}.
Notation W := (world HT).

(** Socket [i] is a connected one, with stream [p], that was not closed yet. *)
Record open_socket (w : W) (i : nat) (p : ptr) (s : tcp_stream) : Prop := {
  os_range : out_of_range (Z.of_nat i) = false;
  os_nonnull : p <> NULL;
  os_sock : exists k, sockets w !! i = Some k /\ socktype k = SOCK_TYPE_STREAM /\ sk_stream k = p;
  os_stream : w_streams w !! p = Some s;
  os_state : state s = TCP_ST_ESTABLISHED \/ state s = TCP_ST_CLOSE_WAIT;
}.

Lemma sock_run i (w : W) k : sockets w !! i = Some k -> sock i w = Ok (k, w).
Proof. unfold sock. by intros ->. Qed.

(** The call on an open stream, up to its request in the queue. *)
Lemma q_close_run app i p s (w : W) r q :
  open_socket w i p s -> closed s = false ->
  streamq_enqueue (close_queue w) (app_core app) p = Ok (r, q) ->
  q_close app (Z.of_nat i) w =
    Ok ((0, 0), w <| close_queue := q |>
                  <| w_streams := <[p := s <| closed := true |> <| sndvar ::= fun v => v <| on_closeq := true |> |>]>
                                    (w_streams w) |>).
Proof.
  intros [Hr Hn (k & Hk & Hty & Hp) Hs Hst] Hc Hq. unfold q_close. rewrite Hr.
  rewrite (bind_ok _ _ w k w) by (rewrite Nat2Z.id; by apply sock_run).
  rewrite decide_False by (rewrite Hty; tauto). rewrite Hp.
  rewrite (bind_ok _ _ w s w) by (by apply stream_run). unfold close_stream_socket.
  rewrite (bind_ok _ _ w k w) by (rewrite Nat2Z.id; by apply sock_run). rewrite Hp.
  rewrite decide_False by done. rewrite (bind_ok _ _ w s w) by (by apply stream_run). rewrite Hc.
  erewrite bind_ok by (by apply set_stream_run). rewrite (proj2 (andb_false_iff _ _)).
  2:{ destruct Hst as [Hst|Hst]; rewrite Hst; [left | right]; apply bool_decide_eq_false_2; tauto. }
  erewrite bind_ok by reflexivity. erewrite bind_ok by (apply lift_ok; exact Hq). cbn beta iota.
  erewrite bind_ok by reflexivity.
  erewrite bind_ok by (unfold set_snd; apply set_stream_run; apply lookup_insert_eq).
  unfold mret, M_ret, update. simpl. by rewrite insert_insert_eq.
Qed.

(** On a stream that was closed before, the call does nothing. *)
Lemma q_close_again app i p s (w : W) :
  open_socket w i p s -> closed s = true -> q_close app (Z.of_nat i) w = Ok ((0, 0), w).
Proof.
  intros [Hr Hn (k & Hk & Hty & Hp) Hs Hst] Hc. unfold q_close. rewrite Hr.
  rewrite (bind_ok _ _ w k w) by (rewrite Nat2Z.id; by apply sock_run).
  rewrite decide_False by (rewrite Hty; tauto). rewrite Hp.
  rewrite (bind_ok _ _ w s w) by (by apply stream_run). unfold close_stream_socket.
  rewrite (bind_ok _ _ w k w) by (rewrite Nat2Z.id; by apply sock_run). rewrite Hp.
  rewrite decide_False by done. rewrite (bind_ok _ _ w s w) by (by apply stream_run). by rewrite Hc.
Qed.

(** The states an active and a passive close lead to. *)
Definition closing (st : tcp_state) : tcp_state :=
  if decide (st = TCP_ST_ESTABLISHED) then TCP_ST_FIN_WAIT_1 else TCP_ST_LAST_ACK.

(** The request served: the FIN is numbered and the stream waits in the control
    queue. *)
Lemma handle_close_run p s (w : W) q :
  w_streams w !! p = Some s -> state s = TCP_ST_ESTABLISHED \/ state s = TCP_ST_CLOSE_WAIT ->
  have_reset s = false -> on_control_queue (sndvar s) = false ->
  sstreamq_enqueue (control_queue w) p = Ok (SUCCESS, q) ->
  exists w', handle_close_call p w = Ok (tt, w') /\ control_queue w' = q /\
    exists s', w_streams w' !! p = Some s' /\ state s' = closing (state s) /\
      fss (sndvar s') = sb_next_seq (sndbuf (sndvar s)) /\ on_control_queue (sndvar s') = true.
Proof.
  intros Hs Hst Hres Hon Hq. unfold handle_close_call.
  erewrite bind_ok by (unfold set_snd; by apply set_stream_run).
  erewrite bind_ok by (apply stream_run, lookup_insert_eq). cbn beta.
  match goal with |- context [have_reset ?x] =>
    change (have_reset x) with (have_reset s); change (state x) with (state s) end.
  rewrite Hres. rewrite decide_True by (destruct Hst; congruence).
  assert (forall (m : M W unit) (w1 w2 : W) s2 (k := control_queue_add p;; mret tt),
    m w1 = Ok (tt, w2) -> control_queue w2 = control_queue w -> w_streams w2 !! p = Some s2 ->
    state s2 = closing (state s) -> fss (sndvar s2) = sb_next_seq (sndbuf (sndvar s)) ->
    on_control_queue (sndvar s2) = false ->
    exists w', (m ≫= fun _ => k) w1 = Ok (tt, w') /\ control_queue w' = q /\
    exists s', w_streams w' !! p = Some s' /\ state s' = closing (state s) /\
      fss (sndvar s') = sb_next_seq (sndbuf (sndvar s)) /\ on_control_queue (sndvar s') = true) as Hadd.
  { intros m w1 w2 s2 k Hm Hcq Hs2 Hst2 Hf2 Ho2. erewrite bind_ok by exact Hm. subst k.
    unfold control_queue_add. rewrite bind_bind. erewrite bind_ok by (by apply stream_run). rewrite Ho2.
    rewrite !bind_bind. erewrite bind_ok by reflexivity. rewrite !bind_bind.
    erewrite bind_ok by (apply lift_ok; rewrite Hcq; exact Hq). cbn beta iota.
    rewrite !bind_bind. erewrite bind_ok by reflexivity. rewrite bool_decide_eq_true_2 by done. cbn [when].
    rewrite !bind_bind. erewrite bind_ok by (unfold set_snd; by apply set_stream_run).
    eexists. split; [reflexivity|]. split; [done|]. eexists. split; [apply lookup_insert_eq|]. done. }
  destruct (decide (state s = TCP_ST_ESTABLISHED)) as [E|E].
  - eapply Hadd; [apply set_stream_run, lookup_insert_eq|done|apply lookup_insert_eq|..]; try done.
    unfold closing. by rewrite decide_True.
  - destruct Hst as [|Hcw]; [done|]. rewrite bool_decide_eq_true_2 by done. cbn [when].
    eapply Hadd; [apply set_stream_run, lookup_insert_eq|done|apply lookup_insert_eq|..]; try done.
    unfold closing. by rewrite decide_False.
Qed.
End Close.

(** The call and its service, with room in the two queues. *)
Lemma close_and_serve {HT} `{!Config} `{!RteHash HT} (w : world HT) app (c : nat) i p s l :
  open_socket w i p s -> closed s = false -> have_reset s = false -> on_control_queue (sndvar s) = false ->
  app_core app = Z.of_nat c -> n21_wf (close_queue w) -> n21_contents (close_queue w) !! c = Some l ->
  (forall q, queues (close_queue w) !! c = Some q -> (length l < cirq_cap q)%nat) ->
  heap_wf (control_queue w) -> (length (cirq_contents (control_queue w)) < cirq_cap (control_queue w))%nat ->
  exists w1 w2 s2, q_close app (Z.of_nat i) w = Ok ((0, 0), w1) /\
    n21_contents (close_queue w1) = <[c := l ++ [p]]> (n21_contents (close_queue w)) /\
    handle_close_call p w1 = Ok (tt, w2) /\
    cirq_contents (control_queue w2) = cirq_contents (control_queue w) ++ [p] /\
    w_streams w2 !! p = Some s2 /\ state s2 = closing (state s) /\
    fss (sndvar s2) = sb_next_seq (sndbuf (sndvar s)) /\ on_control_queue (sndvar s2) = true.
Proof.
  intros Ho Hc Hres Hon Hcore Hwf Hl Hroom Hcw Hcr.
  destruct (n21_enqueue_spec (close_queue w) c l p Hwf (os_nonnull _ _ _ _ Ho) Hl) as (qc & Hqc & He).
  rewrite decide_True in He by (by apply Hroom). destruct He as (q1 & Hq1 & _ & Hcont & _).
  rewrite <- Hcore in Hq1. pose proof (q_close_run app i p s w SUCCESS q1 Ho Hc Hq1) as Hclose.
  destruct (fifo_enq_room (control_queue w) p Hcw Hcr) as (q2 & Hq2 & _ & Hcont2 & _).
  match type of Hclose with _ = Ok (_, ?x) => pose (w1 := x) end.
  destruct (handle_close_run p (s <| closed := true |> <| sndvar ::= fun v => v <| on_closeq := true |> |>)
    w1 q2) as (w2 & Hr & Hq & s2 & Hs2 & Hst2 & Hf2 & Ho2);
    [apply lookup_insert_eq | exact (os_state _ _ _ _ Ho) | exact Hres | exact Hon | exact Hq2 |].
  exists w1, w2, s2. split_and!; [exact Hclose | exact Hcont | exact Hr | by rewrite Hq | exact Hs2
    | exact Hst2 | exact Hf2 | exact Ho2].
Qed.

(** C9. A close reaches the wire's door.  On a connected socket, with room in
    the two queues, [q_close] succeeds and leaves one request in the queue of
    the caller; when the stack serves it, the connection is half closed
    (FIN-WAIT-1 for an active, LAST-ACK for a passive close), the FIN gets the
    sequence number behind the last byte the application sent, and the stream
    waits in the queue of control packets. *)
Theorem close_call_half_closes {HT} `{!Config} `{!RteHash HT} (w : world HT) app (c : nat) i p s l :
  open_socket w i p s -> closed s = false -> have_reset s = false -> on_control_queue (sndvar s) = false ->
  app_core app = Z.of_nat c -> n21_wf (close_queue w) -> n21_contents (close_queue w) !! c = Some l ->
  (forall q, queues (close_queue w) !! c = Some q -> (length l < cirq_cap q)%nat) ->
  heap_wf (control_queue w) -> (length (cirq_contents (control_queue w)) < cirq_cap (control_queue w))%nat ->
  exists w1 w2 s2, q_close app (Z.of_nat i) w = Ok ((0, 0), w1) /\
    n21_contents (close_queue w1) = <[c := l ++ [p]]> (n21_contents (close_queue w)) /\
    handle_close_call p w1 = Ok (tt, w2) /\
    cirq_contents (control_queue w2) = cirq_contents (control_queue w) ++ [p] /\
    w_streams w2 !! p = Some s2 /\ state s2 = closing (state s) /\
    fss (sndvar s2) = sb_next_seq (sndbuf (sndvar s)) /\ on_control_queue (sndvar s2) = true.
Proof. exact (close_and_serve w app c i p s l). Qed.

(** C38. A close can be lost.  When the caller's queue of close requests is full,
    [q_close] reports success although nothing was queued, and marks the stream
    closed, so that every later [q_close] on the socket reports success and
    does nothing: the connection is never closed. *)
Theorem close_lost_when_full {HT} `{!Config} `{!RteHash HT} (w : world HT) app (c : nat) i p s l :
  open_socket w i p s -> closed s = false ->
  app_core app = Z.of_nat c -> n21_wf (close_queue w) -> n21_contents (close_queue w) !! c = Some l ->
  (forall q, queues (close_queue w) !! c = Some q -> length l = cirq_cap q) ->
  exists w1, q_close app (Z.of_nat i) w = Ok ((0, 0), w1) /\ close_queue w1 = close_queue w /\
    forall app', q_close app' (Z.of_nat i) w1 = Ok ((0, 0), w1).
Proof.
  intros Ho Hc Hcore Hwf Hl Hfull.
  destruct (n21_enqueue_spec (close_queue w) c l p Hwf (os_nonnull _ _ _ _ Ho) Hl) as (qc & Hqc & He).
  rewrite decide_False in He by (rewrite (Hfull qc Hqc); lia). rewrite <- Hcore in He.
  eexists. split; [exact (q_close_run app i p s w FAILED _ Ho Hc He)|]. split; [done|].
  intros app'. apply (q_close_again app' i p
    (s <| closed := true |> <| sndvar ::= fun v => v <| on_closeq := true |> |>)); [|done].
  destruct Ho as [Hr Hn Hk Hs Hst]. split; [exact Hr | exact Hn | exact Hk | apply lookup_insert_eq | exact Hst].
Qed.

#[local] Existing Instance demo_config.

(** The connection of the example, with the queue of close requests empty, and
    with one so small that it is always full. *)
Definition demo_stream : tcp_stream := default zero_stream (w_streams world3 !! 1000).
Definition world3f : demo_world := world3 <| close_queue := streamq_init 2 1 |>.

Lemma demo_open (w : demo_world) :
  sockets w = sockets world3 -> w_streams w = w_streams world3 -> open_socket w 0 1000 demo_stream.
Proof.
  intros Hk Hs. split; [vm_compute; reflexivity | done | | |].
  - rewrite Hk. eexists. split; [vm_compute; reflexivity|]. split; reflexivity.
  - rewrite Hs. vm_compute. reflexivity.
  - left. vm_compute. reflexivity.
Qed.

Lemma small_queues size : 0 < size < 2 ^ 32 -> n21_wf (streamq_init 2 size).
Proof.
  intros Hs. destruct (cirq_init_wf size Hs) as [Hw Hc].
  split; [simpl; lia | simpl; lia | done | by apply (Forall_replicate _ 2%nat) |].
  apply (Forall_replicate _ 2%nat). rewrite Hc. apply not_elem_of_nil.
Qed.

Lemma close_call_half_closes_witness :
  exists w1 w2 s2, q_close demo_app 0 world3 = Ok ((0, 0), w1) /\
    n21_contents (close_queue w1) = [[1000]; []] /\
    handle_close_call 1000 w1 = Ok (tt, w2) /\ w_streams w2 !! 1000 = Some s2 /\
    state s2 = TCP_ST_FIN_WAIT_1 /\ fss (sndvar s2) = 7001.
Proof.
  destruct (close_call_half_closes world3 demo_app 0 0 1000 demo_stream [])
    as (w1 & w2 & s2 & H1 & H2 & H3 & _ & H4 & H5 & H6 & _);
    [by apply demo_open | vm_compute; reflexivity.. | | vm_compute; reflexivity | | | |].
  - change (close_queue world3) with (streamq_init 2 8). by apply small_queues.
  - intros q Hq. vm_compute in Hq. injection Hq as <-. vm_compute. lia.
  - vm_compute. repeat split; done.
  - vm_compute. lia.
  - exists w1, w2, s2. split_and!; [exact H1 | rewrite H2; vm_compute; reflexivity | exact H3 | exact H4
      | rewrite H5; vm_compute; reflexivity | rewrite H6; vm_compute; reflexivity].
Defined.

Lemma close_lost_when_full_witness :
  exists w1, q_close demo_app 0 world3f = Ok ((0, 0), w1) /\ close_queue w1 = streamq_init 2 1 /\
    forall app', q_close app' 0 w1 = Ok ((0, 0), w1).
Proof.
  assert (close_queue world3f = streamq_init 2 1) as E by reflexivity.
  assert (open_socket world3f 0 1000 demo_stream) as Ho by (apply demo_open; vm_compute; reflexivity).
  rewrite <- E. apply (close_lost_when_full world3f demo_app 0 0 1000 demo_stream []); rewrite ?E.
  - exact Ho.
  - vm_compute. reflexivity.
  - reflexivity.
  - apply small_queues. lia.
  - vm_compute. reflexivity.
  - intros q Hq. vm_compute in Hq. injection Hq as <-. vm_compute. reflexivity.
Defined.
