(* ===== verification/EchoServer.v ===== *)
(** The echo server ([apps/echo_server.c]): it answers requests of high priority with
    a changed copy of the request, and follows the peer when it closes.

    The bytes of a received segment and the buffer for the answer are arguments; the
    calls of [qepoll_ctl] and the answers that were accepted are recorded. *)
From S2P Require Import Prelude Protocol StaticArp Fifo CircularQueue N21Queue Mbuf RecvBuff SendBuff Stack StreamOps Timer TcpOptions TcpOut TcpIn Api AppCalls IotServer Frames Demo StateMachine Lifecycle ClosePath.
#[local] Open Scope Z_scope.

Module Echo.

(** [q_virtual_process]: a busy loop; [uint32_t] arithmetic in the body, [uint64_t]
    for the number of rounds. *)
Fixpoint virtual_loop (n : nat) (a b : Z) : Z :=
  match n with
  | O => a
  | S n' =>
      let b := u32 (a + b) in
      let b := u32 (a + b) in
      let a := u32 (b - a) in
      let b := u32 (b - a) in
      virtual_loop n' a b
  end.
Definition q_virtual_process (delay : Z) : Z := virtual_loop (Z.to_nat (u64 (delay * 23) / 15)) 1 1.

(** Packets of high priority, for the driver and for the stack. *)
Definition redis_packet_pri_filter (pkt_len : Z) (tcp : list Z) : res bool :=
  if decide (80 < pkt_len) then x ← read_at tcp (32 + 5); Ok (bool_decide (x = 1)) else Ok false.
Definition func_check_req_high (message : list Z) : res bool := x ← read_at message 5; Ok (bool_decide (x = 1)).

Section Echo.
Context {HT : Type} `{!Config}.
Context (task_delay_h task_delay_l : Z).
Context (config_pri : Z).       (* CONFIG.pri *)

(** [filters] are the sockets with [func_check_req_high] as the filter of their
    stream; the filters take effect in a build with [USER_DEFINED_PRIORITY] only. *)
Record echo : Type := EchoState {
  e_world : world HT; e_ctls : list Iot.ctl; filters : list Z; replies : list (Z * list Z);
}.
#[export] Instance echo_rebuild : Rebuild echo := fun s => EchoState (e_world s) (e_ctls s) (filters s) (replies s).

Definition on_stack {A} (m : M (world HT) A) : M echo A := fun s =>
  '(a, w) ← m (e_world s); Ok (a, s <| e_world := w |>).
Definition qepoll_ctl (c : Iot.ctl) : M echo unit := modify (fun s => s <| e_ctls ::= fun l => l ++ [c] |>).

(** The answer in the send buffer, whose former content is [old]. *)
Definition response (buf old : list Z) (len : Z) : res (list Z) :=
  let r := take (Z.to_nat len) buf ++ drop (Z.to_nat len) old in
  r ← write_at r 6 3;
  x ← read_at buf 5;
  if decide (x = 0) then write_at r 8 (u8 (q_virtual_process task_delay_l))
  else if decide (x = 1) then write_at r 8 (u8 (q_virtual_process task_delay_h))
  else Ok r.

(** [wmbuf] is what [q_get_wmbuf] returns, with its memory [old]. *)
Definition HandleReadEvent (app : qapp) (sockid pri : Z) (buf : list Z) (wmbuf : ptr) (old : list Z) : M echo Z :=
  '(mbuf, len, _) ← on_stack (q_recv sockid);
  when (bool_decide (u32 len = 0)) (on_stack (q_close app sockid);; mret tt);;
  if decide (mbuf = NULL) then mret (s32 len) else
  x ← lift (read_at buf 5);
  if bool_decide (x = 1) && bool_decide (wmbuf = NULL) then mret (s32 len) else
  when (bool_decide (x = 1)) (
    r ← lift (response buf old len);
    ret ← on_stack (q_send app sockid wmbuf len pri);
    when (bool_decide (u32 ret = u32 len)) (modify (fun s => s <| replies ::= fun l => l ++ [(sockid, take (Z.to_nat len) r)] |>)));;
  on_stack (heap (q_free_mbuf (Some (app_core app)) mbuf));;
  mret (s32 len).

(** The event handle 0 is named here, whatever the server's is. *)
Definition qstack_closeConn (sockid : Z) : M echo unit := qepoll_ctl (Iot.CtlDel 0 sockid).

(** The filter is a field of the socket's stream. *)
Definition q_sockset_req_high (sockid : Z) : M echo unit :=
  if out_of_range sockid then mret tt else
  k ← on_stack (sock (Z.to_nat sockid));
  if decide (sk_stream k = NULL) then throw NullDeref else
  modify (fun s => s <| filters ::= cons sockid |>).

Definition qstack_acceptConn (app : qapp) (efd listener : Z) : M echo Z :=
  '(c, _, _) ← on_stack (q_accept app listener);
  if decide (0 <= c) then
    if decide (cf_max_concurrency <= c) then throw Exit else
    when (bool_decide (config_pri <> 0)) (q_sockset_req_high c);;
    qepoll_ctl (Iot.CtlAdd efd c);; mret c
  else mret c.

(** The listening socket on port 80 of all addresses. *)
Definition qstack_createListenSock (app : qapp) : M echo Z :=
  '(listener, _) ← on_stack (q_socket app AF_INET 1);
  let listener := s32 listener in
  if decide (listener < 0) then throw Exit else
  '(ret, _) ← on_stack (q_bind listener (Some (SockAddr AF_INET (htons 80) INADDR_ANY)) SOCKADDR_IN_LEN);
  if decide (ret < 0) then throw Exit else
  '(ret, _) ← on_stack (q_listen (Some app) listener 10000);
  if decide (ret < 0) then throw Exit else mret listener.

(** The body of the loop of [RunServerThread]. *)
Definition serve_event (app : qapp) (efd listener : Z) (ev : Iot.event) (wmbuf : ptr) (old : list Z) : M echo unit :=
  let sockid := Iot.e_fd ev in
  if decide (sockid = listener) then qstack_acceptConn app efd listener;; mret tt
  else if Iot.has ev Q_EPOLLERR then mret tt
  else if Iot.has ev Q_EPOLLIN then
    ret ← HandleReadEvent app sockid (Iot.e_pri ev) (Iot.e_buf ev) wmbuf old;
    if decide (ret = 0) then qstack_closeConn sockid
    else when (bool_decide (ret < 0) && bool_decide (Iot.e_errno ev ∉ [EAGAIN; 4])) (qstack_closeConn sockid)
  else if Iot.has ev Q_EPOLLOUT then mret tt
  else throw AssertFail.
End Echo.
End Echo.
Import Echo.

(** * The busy loop *)

(** [fib n] and [fib (n + 1)]. *)
Fixpoint fib2 (n : nat) : Z * Z :=
  match n with O => (0, 1) | S n' => let '(x, y) := fib2 n' in (y, x + y) end.
Definition fib (n : nat) : Z := (fib2 n).1.

Lemma fib_step n : fib (S (S n)) = fib n + fib (S n).
Proof. unfold fib. cbn [fib2]. by destruct (fib2 n). Qed.

Lemma virtual_loop_fib n : forall k, virtual_loop n (u32 (fib (S k))) (u32 (fib k)) = u32 (fib (S (k + n))).
Proof.
  induction n as [|n IH]; intros k; cbn [virtual_loop]; [by rewrite Nat.add_0_r|].
  replace (k + S n)%nat with (S k + n)%nat by lia. rewrite <- IH, fib_step. unfold u32.
  repeat first [rewrite Zplus_mod_idemp_l | rewrite Zplus_mod_idemp_r | rewrite Zminus_mod_idemp_l | rewrite Zminus_mod_idemp_r].
  set (x := fib (S k)). set (r := fib k `mod` 2 ^ 32).
  replace (x + (x + r) - x) with (x + r) by lia. replace (x + (x + r) - (x + r)) with x by lia.
  unfold r. rewrite Zplus_mod_idemp_r. f_equal. f_equal. lia.
Qed.

(** The busy loop computes a Fibonacci number, modulo 2^32. *)
Lemma q_virtual_process_fib delay : 0 <= delay < 2 ^ 32 ->
  q_virtual_process delay = u32 (fib (2 + Z.to_nat (delay * 23 / 15))).
Proof.
  intros Hd. unfold q_virtual_process, u64. rewrite (Z.mod_small (delay * 23)) by lia.
  exact (virtual_loop_fib (Z.to_nat (delay * 23 / 15)) 1).
Qed.

(** The answer to a request of high priority is the request, with 3 in byte 6
    and the result of the busy loop in byte 8.  The busy loop makes one step of the
    Fibonacci sequence per round: its result is the low byte of the Fibonacci number
    two places behind the count of its rounds.  What is behind the request in the
    send buffer is kept. *)
Theorem answer_of_high_request dh dl buf old len :
  buf !! 5%nat = Some 1 -> 8 < len <= Z.of_nat (length buf) -> len <= Z.of_nat (length old) -> 0 <= dh < 2 ^ 32 ->
  response dh dl buf old len =
    Ok (<[8%nat := u8 (fib (2 + Z.to_nat (dh * 23 / 15)))]>
        (<[6%nat := 3]> (take (Z.to_nat len) buf ++ drop (Z.to_nat len) old))).
Proof.
  intros H5 Hlen Hold Hd. unfold response. set (r := take _ buf ++ _).
  assert (length old = length r) as Hr by (unfold r; rewrite length_app, length_take, length_drop; lia).
  pose proof (read_at_nat _ _ _ H5) as H1. change (Z.of_nat 5) with 5 in H1.
  rewrite (write_at_nat r 6) by lia. cbn [mbind res_bind]. rewrite H1. cbn [mbind res_bind].
  rewrite decide_False, decide_True by done. rewrite (write_at_nat _ 8) by (rewrite length_insert; lia).
  do 2 f_equal. rewrite q_virtual_process_fib by done. unfold u8, u32.
  replace (2 ^ 32) with (2 ^ 8 * 2 ^ 24) by done. rewrite Z.rem_mul_r by done.
  rewrite (Z.mul_comm (2 ^ 8)), Z_mod_plus_full. apply Zmod_mod.
Qed.
Lemma answer_of_high_request_witness :
  response 10 0 [7; 7; 7; 7; 7; 1; 9; 9; 9; 9] (replicate 12 0) 10 = Ok [7; 7; 7; 7; 7; 1; 3; 9; 61; 9; 0; 0].
Proof.
  rewrite (answer_of_high_request 10 0 [7; 7; 7; 7; 7; 1; 9; 9; 9; 9] (replicate 12 0) 10);
    [vm_compute; reflexivity | reflexivity | cbn; lia | cbn; lia | lia].
Defined.

(** * Following the peer's close *)

Section Close.
Context {HT : Type} `{!Config} `{!RteHash HT}.

Lemma on_stack_run {A} (m : M (world HT) A) s a w : m (e_world s) = Ok (a, w) -> on_stack m s = Ok (a, s <| e_world := w |>).
Proof. unfold on_stack. by intros ->. Qed.

(** Nothing is left to read on a connection the peer has closed. *)
Lemma q_recv_end (w : world HT) i p s : open_socket w i p s -> state s = TCP_ST_CLOSE_WAIT ->
  rb_merged_len (rcvbuf (rcvvar s)) = 0 -> q_recv (Z.of_nat i) w = Ok ((NULL, 0, 0), w).
Proof.
  intros [Hr Hn (k & Hk & _ & Hp) Hs _] Hst Hm. unfold q_recv. rewrite Hr.
  step by (rewrite Nat2Z.id; by apply sock_run). rewrite Hp, decide_False by done. step by (by apply stream_run).
  rewrite Hst. cbn. by rewrite Hm.
Qed.
End Close.

(** C23. The server closes when the peer has closed.  On a connection in CLOSE-WAIT
    with nothing left to read, not closed, not reset and not on the control queue,
    with room in the close queue of the core and in the control queue, the server's
    handling of the read event queues one close request and takes the socket out of
    its event handle; when the stack serves the request the connection is in
    LAST-ACK, with the FIN numbered behind the last byte of the server's answers. *)
Theorem server_follows_close {HT} `{!Config} `{!RteHash HT} dh dl cp (w : world HT) app (c : nat) i p s l efd listener ev wmbuf old ctls fs rs :
  open_socket w i p s -> state s = TCP_ST_CLOSE_WAIT -> rb_merged_len (rcvbuf (rcvvar s)) = 0 ->
  closed s = false -> have_reset s = false -> on_control_queue (sndvar s) = false ->
  app_core app = Z.of_nat c -> n21_wf (close_queue w) -> n21_contents (close_queue w) !! c = Some l ->
  (forall q, queues (close_queue w) !! c = Some q -> (length l < cirq_cap q)%nat) ->
  heap_wf (control_queue w) -> (length (cirq_contents (control_queue w)) < cirq_cap (control_queue w))%nat ->
  Iot.e_fd ev = Z.of_nat i -> Z.of_nat i <> listener -> Iot.has ev Q_EPOLLERR = false -> Iot.has ev Q_EPOLLIN = true ->
  exists w1 w2 s2,
    serve_event dh dl cp app efd listener ev wmbuf old (EchoState w ctls fs rs) =
      Ok (tt, EchoState w1 (ctls ++ [Iot.CtlDel 0 (Z.of_nat i)]) fs rs) /\
    n21_contents (close_queue w1) = <[c := l ++ [p]]> (n21_contents (close_queue w)) /\
    handle_close_call p w1 = Ok (tt, w2) /\ w_streams w2 !! p = Some s2 /\ state s2 = TCP_ST_LAST_ACK /\
    fss (sndvar s2) = sb_next_seq (sndbuf (sndvar s)).
Proof.
  intros Ho Hst Hm Hc Hres Hon Hcore Hwf Hl Hroom Hcw Hcr Hfd Hli He Hin.
  destruct (close_and_serve w app c i p s l Ho Hc Hres Hon Hcore Hwf Hl Hroom Hcw Hcr)
    as (w1 & w2 & s2 & Hclose & Hq & Hserve & _ & Hs2 & Hst2 & Hf & _).
  exists w1, w2, s2. split_and!; [|done | done | done | by rewrite Hst2, Hst | done].
  unfold serve_event. rewrite Hfd, decide_False, He, Hin by done. unfold HandleReadEvent.
  step by (by apply on_stack_run, (q_recv_end w i p s)). rewrite (bool_decide_true (u32 0 = 0)) by done. cbn [when].
  step by (by apply on_stack_run). reflexivity.
Qed.

(** ** The peer of the demonstration connection closes *)
#[local] Existing Instance demo_config.

(** After the FIN, and after the stack has answered it. *)
Definition world_fin0 : demo_world := after (receive 13 13 fin_segment 0 world3) world3.
Definition world_fin : demo_world := after (write_tcp_control_queue 14 world_fin0) world_fin0.
Definition fin_stream : tcp_stream := default zero_stream (w_streams world_fin !! 1000).

Lemma fin_open : open_socket world_fin 0 1000 fin_stream.
Proof.
  split; [vm_compute; reflexivity | done | | |].
  - eexists. split; [vm_compute; reflexivity|]. split; reflexivity.
  - vm_compute. reflexivity.
  - right. vm_compute. reflexivity.
Qed.

Lemma server_follows_close_witness : exists w1 w2 s2,
  serve_event 5 5 0 demo_app 0 3 (Iot.Ev 0 Q_EPOLLIN 0 [] 0) NULL [] (EchoState world_fin [] [] []) =
    Ok (tt, EchoState w1 [Iot.CtlDel 0 0] [] []) /\
  handle_close_call 1000 w1 = Ok (tt, w2) /\ w_streams w2 !! 1000 = Some s2 /\ state s2 = TCP_ST_LAST_ACK.
Proof.
  destruct (server_follows_close 5 5 0 world_fin demo_app 0 0 1000 fin_stream [] 0 3 (Iot.Ev 0 Q_EPOLLIN 0 [] 0) NULL [] [] [] [])
    as (w1 & w2 & s2 & H1 & _ & H2 & H3 & H4 & _).
  - exact fin_open.
  - vm_compute. reflexivity.
  - vm_compute. reflexivity.
  - vm_compute. reflexivity.
  - vm_compute. reflexivity.
  - vm_compute. reflexivity.
  - vm_compute. reflexivity.
  - change (close_queue world_fin) with (streamq_init 2 8). by apply small_queues.
  - vm_compute. reflexivity.
  - intros q Hq. vm_compute in Hq. injection Hq as <-. vm_compute. lia.
  - vm_compute. repeat split; done.
  - vm_compute. lia.
  - reflexivity.
  - done.
  - vm_compute. reflexivity.
  - vm_compute. reflexivity.
  - exists w1, w2, s2. split; [exact H1|]. split; [exact H2|]. split; [exact H3 | exact H4].
Defined.
