(* ===== verification/Retransmit.v ===== *)
(** Retransmission timeouts: what [handle_rto] does to a stream, and what the
    fast retransmission of [process_tcp_ack] does to its windows. *)
From S2P Require Import Prelude Protocol StaticArp Fifo CircularQueue N21Queue Mbuf RecvBuff SendBuff Stack StreamOps Timer TcpOptions TcpOut TcpIn Frames Demo Lifecycle.
#[local] Open Scope Z_scope.

(** * Putting a stream on a queue returns *)

Lemma cirq_add_total q x : heap_wf q -> exists r q', cirq_add q x = Ok (r, q').
Proof.
  intros Hq. destruct (decide (length (cirq_contents q) < cirq_cap q)%nat).
  - destruct (fifo_enq_room q x Hq) as (q' & Ha & _); [done|]. eauto.
  - exists FAILED, q. apply fifo_enq_full; [done|]. pose proof (fifo_bound q Hq). lia.
Qed.

Lemma n21_enqueue_total q i x :
  n21_wf q -> 0 <= i < queue_num q -> exists r q', n21q_enqueue q i x = Ok (r, q').
Proof.
  intros Hq Hi. assert (Z.to_nat i < length (queues q))%nat as Hlen by (pose proof (n21_len q Hq); lia).
  destruct (lookup_lt_is_Some_2 _ _ Hlen) as [c Hc].
  destruct (cirq_add_total c x) as (r & c' & Ha); [exact (Forall_lookup_1 _ _ _ _ (n21_queues q Hq) Hc)|].
  unfold n21q_enqueue. replace i with (Z.of_nat (Z.to_nat i)) by lia.
  rewrite (read_at_nat _ _ _ Hc). simpl. rewrite Ha. simpl. rewrite write_at_nat by done. simpl. eauto.
Qed.

Section Queues.
Context {HT : Type} `{!Config}.
Notation W := (world HT).

Lemma control_queue_add_total p (w : W) s :
  w_streams w !! p = Some s -> heap_wf (control_queue w) ->
  exists r w', control_queue_add p w = Ok (r, w').
Proof.
  intros Hs Hq. unfold control_queue_add. exec. case_match; [eauto|].
  destruct (cirq_add_total (control_queue w) p Hq) as (r & q' & Ha). unfold sstreamq_enqueue.
  do 3 exec.
  destruct (bool_decide _); cbn [when]; exec_all.
Qed.

Lemma send_event_total (h : bool) p (w : W) :
  n21_wf (if h then send_hevent_queue w else send_event_queue w) ->
  0 <= cf_stack_id < queue_num (if h then send_hevent_queue w else send_event_queue w) ->
  exists r w', send_event_enqueue h cf_stack_id p w = Ok (r, w').
Proof.
  intros Hq Hi. unfold send_event_enqueue, send_event_queue_select. exec.
  replace (u8 cf_stack_id) with cf_stack_id
    by (symmetry; apply Z.mod_small; destruct h; pose proof (n21_num _ Hq); lia).
  destruct h; destruct (n21_enqueue_total _ cf_stack_id p Hq Hi) as (r & q' & Ha);
    unfold streamq_enqueue; exec_all.
Qed.
End Queues.

(** * The retransmission timeout *)

(** What a send needs: the queues of the thread are queues, and the stream's
    unacknowledged segments form a list. *)
Record can_retransmit `{!Config} {HT} (w : world HT) (s : tcp_stream) : Prop := {
  cr_control : heap_wf (control_queue w);
  cr_events : n21_wf (send_event_queue w);
  cr_core : 0 <= cf_stack_id < queue_num (send_event_queue w);
  cr_uack : exists l, is_list (w_heap w) (uack_list (sndbuf (sndvar s))) l;
}.

(** The windows and counters a timeout sets. *)
Definition rto_vars (s : tcp_stream) : tcp_state * Z * Z * Z * Z * Z :=
  (state s, snd_nxt s, nrtx (sndvar s), rto (sndvar s), ssthresh (sndvar s), cwnd (sndvar s)).

Section Rto.
Context {HT : Type} `{!Config} `{!RteHash HT}.
Notation W := (world HT).

#[export] Instance vars_control p q : Keeps (obs (HT := HT) rto_vars p) (control_queue_add q).
Proof. unfold control_queue_add. apply _. Qed.
#[export] Instance vars_event p h c q : Keeps (obs (HT := HT) rto_vars p) (send_event_enqueue h c q).
Proof. unfold send_event_enqueue. apply _. Qed.
#[export] Instance vars_retrans p q : Keeps (obs (HT := HT) rto_vars p) (retrans_data q).
Proof. unfold retrans_data, on_sndbuf. apply _. Qed.

Lemma sb_reset_retrans_total h b l :
  is_list h (uack_list b) l -> exists r h', sb_reset_retrans b h = Ok (r, h').
Proof.
  intros Hl. pose proof Hl as [Hs _ Hnd]. unfold sb_reset_retrans.
  case_decide as Hz; [eexists _, _; reflexivity|]. case_decide; [eexists _, _; reflexivity|].
  step by reflexivity.
  destruct (mark_loss_loop_spec (list_fuel h) h (ml_head (uack_list b)) l) as (h' & Hrun & _); [done| |].
  { pose proof (seg_bound _ _ _ _ Hnd Hs). unfold list_fuel. lia. }
  simpl (ml_head _). step by exact Hrun. eexists _, _. reflexivity.
Qed.

Lemma retrans_data_total p (w : W) s :
  w_streams w !! p = Some s -> can_retransmit w s -> exists w', retrans_data p w = Ok (tt, w').
Proof.
  intros Hs [_ Hev Hcore [l Hl]]. unfold retrans_data, on_sndbuf.
  destruct (sb_reset_retrans_total _ _ _ Hl) as ([r b] & h & Hb).
  exec. rewrite bind_bind.
  erewrite bind_ok by (unfold heap; rewrite Hb; reflexivity). cbn beta iota.
  exec. exec.
  match goal with |- exists w', (send_event_enqueue _ _ _ ≫= _) ?w1 = _ =>
    destruct (send_event_total false p w1) as (r' & w' & Hr); [exact Hev | exact Hcore |] end.
  rewrite (bind_ok _ _ _ _ _ Hr). eexists. reflexivity.
Qed.

(** The choice between data and control packets at the end of [handle_rto]. *)
Definition rto_tail (p : ptr) : M W unit :=
  s ← stream p;
  if decide (state s = TCP_ST_ESTABLISHED) then retrans_data p
  else if bool_decide (state s = TCP_ST_FIN_WAIT_1) || bool_decide (state s = TCP_ST_CLOSING)
       || bool_decide (state s = TCP_ST_LAST_ACK) then
    if decide (fss (sndvar s) = 0) then throw Exit else
    if TCP_SEQ_LT (snd_nxt s) (fss (sndvar s)) then retrans_data p
    else control_queue_add p;; mret tt
  else control_queue_add p;; mret tt.

(** A FIN has a sequence number once its state is entered. *)
Definition fin_numbered (s : tcp_stream) : Prop :=
  state s ∈ [TCP_ST_FIN_WAIT_1; TCP_ST_CLOSING; TCP_ST_LAST_ACK] -> fss (sndvar s) <> 0.

Lemma rto_tail_total p (w : W) s :
  w_streams w !! p = Some s -> can_retransmit w s -> fin_numbered s ->
  exists w', rto_tail p w = Ok (tt, w').
Proof.
  intros Hs Hc Hf. pose proof (retrans_data_total p w s Hs Hc) as Hd.
  assert (exists w', (control_queue_add p;; mret tt) w = Ok (tt, w')) as Hq.
  { destruct (control_queue_add_total p w s Hs (cr_control _ _ Hc)) as (r & w' & Hr).
    exists w'. by rewrite (bind_ok _ _ _ _ _ Hr). }
  unfold rto_tail. exec. case_decide; [done|]. case_match eqn:E; [|done].
  rewrite decide_False; [by case_match|]. apply Hf.
  repeat (apply orb_true_iff in E as [E|E]); apply bool_decide_eq_true in E; set_solver.
Qed.

#[export] Instance vars_tail p : Keeps (obs (HT := HT) rto_vars p) (rto_tail p).
Proof. unfold rto_tail. apply _. Qed.
End Rto.

(** C28. Exponential back-off.  A retransmission timeout of a stream with fewer
    than 16 retransmissions returns, provided that the FIN is numbered in the
    states that have sent it and the queues of the thread are well formed.  It
    counts one more retransmission, makes the timeout 500 ms times 2 to the new
    count whatever it was before, without overflow, sets the threshold to half
    of the smaller of the congestion and the peer's window but at least two
    segments, restarts from a window of one segment and from the first
    unacknowledged byte, and keeps the state. *)
Theorem rto_backoff {HT} `{!Config} `{!RteHash HT} (w : world HT) p s cur_ts :
  w_streams w !! p = Some s -> can_retransmit w s -> fin_numbered s ->
  0 <= nrtx (sndvar s) < TCP_MAX_RTX ->
  exists w', handle_rto cur_ts p w = Ok (tt, w') /\
    obs rto_vars p w' = Some (state s, snd_una (sndvar s), nrtx (sndvar s) + 1,
      500 * 2 ^ (nrtx (sndvar s) + 1),
      Z.max (Z.min (cwnd (sndvar s)) (peer_wnd (sndvar s)) / 2) (2 * mss (sndvar s)),
      mss (sndvar s)).
Proof.
  intros Hs Hc Hf Hn. unfold handle_rto. exec. rewrite bool_decide_true by lia. cbn [negb].
  do 6 exec. fold (rto_tail (HT := HT) p).
  match goal with |- exists w', rto_tail p ?w1 = _ /\ _ => set (w1' := w1) end.
  assert (exists s1, w_streams w1' !! p = Some s1 /\ can_retransmit w1' s1 /\ fin_numbered s1 /\
    rto_vars s1 = (state s, snd_una (sndvar s), nrtx (sndvar s) + 1, 500 * 2 ^ (nrtx (sndvar s) + 1),
      Z.max (Z.min (cwnd (sndvar s)) (peer_wnd (sndvar s)) / 2) (2 * mss (sndvar s)), mss (sndvar s)))
    as (s1 & Hs1 & Hc1 & Hf1 & Hv).
  { eexists. split; [unfold w1'; autorewrite with world; rewrite lookup_insert_eq; reflexivity|].
    destruct Hc as [Hq He Hi Hu]. destruct s as [? ? ? ? ? ? ? ? ? ? ? ? ? ? ? ? ? ? ? ? ? ? ? ?
      [? ? ? ? ? ? ? ? ? ? ? ? ? ? ? ? ? ? ? ? nr ? cw ss ?] ? ? ?].
    unfold fin_numbered, rto_vars in *. cbn in *. split_and!.
    - split; [exact Hq | exact He | exact Hi | by case_decide].
    - by case_decide.
    - unfold TCP_MAX_RTX in Hn. assert (u8 (nr + 1) = nr + 1) as -> by mlia.
      assert (u32 (Z.shiftl TCP_INITIAL_RTO (nr + 1)) = 500 * 2 ^ (nr + 1)) as Hrto.
      { rewrite Z.shiftl_mul_pow2 by lia. apply u32_id. unfold is_u32, TCP_INITIAL_RTO, TIME_TICK.
        assert (2 ^ (nr + 1) <= 2 ^ 16) by (apply Z.pow_le_mono_r; lia). lia. }
      case_decide; cbn; rewrite Hrto; repeat f_equal; lia. }
  destruct (rto_tail_total p w1' s1 Hs1 Hc1 Hf1) as [w' Hr]. exists w'. split; [done|].
  rewrite (keeps (g := obs rto_vars p) _ _ _ Hr). unfold obs. by rewrite Hs1, <- Hv.
Qed.

#[local] Existing Instance demo_config.

Definition stream2 : tcp_stream := default zero_stream (w_streams world2 !! 1000).

Lemma world2_retransmit : can_retransmit world2 stream2.
Proof.
  split.
  - replace (control_queue world2) with (Cirq 1 (Heap [1000; 0; 0; 0; 0; 0; 0; 0]) 8 1)
      by (vm_compute; reflexivity). split; [split; simpl; lia | done].
  - replace (send_event_queue world2) with (n21q_init 2 8) by (vm_compute; reflexivity).
    split; simpl; try lia; repeat constructor; simpl; try lia; vm_compute; set_solver.
  - replace (send_event_queue world2) with (n21q_init 2 8) by (vm_compute; reflexivity). simpl. lia.
  - exists []. replace (uack_list (sndbuf (sndvar stream2))) with mbuf_list_init
      by (vm_compute; reflexivity). apply is_list_empty.
Qed.

Lemma rto_backoff_witness :
  exists w', handle_rto 600 1000 world2 = Ok (tt, w') /\
    obs rto_vars 1000 w' = Some (TCP_ST_SYN_RCVD, 7000, 1, 1000, 2920, 1460).
Proof.
  destruct (rto_backoff world2 1000 stream2 600) as (w' & Hr & Hv).
  - vm_compute. reflexivity.
  - exact world2_retransmit.
  - intros Hf%(bool_decide_pack _). vm_compute in Hf. destruct Hf.
  - vm_compute. split; congruence.
  - exists w'. split; [exact Hr|]. etrans; [exact Hv|]. vm_compute. reflexivity.
Defined.
