(* ===== verification/Output.v ===== *)
(** What the stack puts on the wire: the data segments of a flush, and the
    control queue after a stream was destroyed. *)
From S2P Require Import Prelude Protocol StaticArp Fifo CircularQueue N21Queue Mbuf RecvBuff SendBuff Stack StreamOps Timer TcpOptions TcpOut TcpIn Frames Demo Lifecycle.
#[local] Open Scope Z_scope.

(** * Data segments *)

(** What a flush must not lose sight of: the packets handed to the driver and
    the send sequence variables of the stream. *)
Definition snd_vars (s : tcp_stream) : Z * Z := (snd_nxt s, snd_una (sndvar s)).
Definition out_view {HT} (p : ptr) (w : world HT) : list packet * option (Z * Z) :=
  (w_sent w, obs snd_vars p w).

Section Frames.
Context {HT : Type} `{!Config} (p : ptr).
Notation W := (world HT).
Notation O := (out_view (HT := HT) p).

#[export] Instance out_heap {A} (m : M mheap A) : Keeps O (heap m).
Proof. intros w a w'. unfold heap. by intros ([b h] & _ & [= <- <-])%res_bind_Ok. Qed.
#[export] Instance out_stream q : Keeps O (stream q).
Proof. intros w a w'. by intros [_ ->]%stream_Ok. Qed.
#[export] Instance out_swmbuf : Keeps O io_get_swmbuf.
Proof. intros w a w'. unfold io_get_swmbuf. by destruct (w_swmbufs w); intros [= <- <-]. Qed.

Lemma out_set_stream q g : (forall s, snd_vars (g s) = snd_vars s) -> Keeps O (set_stream q g).
Proof.
  intros Hg w a w' (s & Hs & ->)%set_stream_Ok. unfold out_view. f_equal.
  change (snd_vars <$> <[q := g s]> (w_streams w) !! p = snd_vars <$> w_streams w !! p).
  by rewrite <- !lookup_fmap, (core_insert snd_vars _ _ s).
Qed.
End Frames.

#[export] Hint Extern 1 (Keeps (out_view _) (modify _)) =>
  apply keeps_modify; intros; reflexivity : typeclass_instances.
#[export] Hint Extern 1 (Keeps (out_view _) (set_stream _ _)) =>
  apply out_set_stream; intros ?; keeps_field : typeclass_instances.
#[export] Hint Extern 1 (Keeps (out_view _) (set_snd _ _)) => unfold set_snd : typeclass_instances.

Section Ops.
Context {HT : Type} `{!Config} (p : ptr).
Notation W := (world HT).
Notation O := (out_view (HT := HT) p).

#[export] Instance out_on_sndbuf {A} q (m : tcp_send_buffer -> M mheap (A * tcp_send_buffer)) :
  Keeps O (on_sndbuf q m).
Proof. keeps_unfold @on_sndbuf. Qed.
#[export] Instance out_rto_add q ts : Keeps O (rto_list_add q ts).
Proof. keeps_unfold @rto_list_add. Qed.
#[export] Instance out_timeout_update q ts : Keeps O (timeout_list_update q ts).
Proof. keeps_unfold @timeout_list_update. Qed.
#[export] Instance out_ip_packet q m len : Keeps O (generate_ip_packet q m len).
Proof. unfold generate_ip_packet, eth_hdr_generate. apply _. Qed.
#[export] Instance out_ack_queue q : Keeps O (ack_queue_add q).
Proof. keeps_unfold @ack_queue_add. Qed.
#[export] Instance out_enqueue_ack q o : Keeps O (enqueue_ack q o).
Proof. keeps_unfold @enqueue_ack. Qed.
#[export] Instance out_send_event_add c q pri : Keeps O (send_event_add c q pri).
Proof. unfold send_event_add, send_event_enqueue. apply _. Qed.

Lemma generate_ip_success q m len (w w' : W) r iph :
  m <> NULL -> generate_ip_packet q m len w = Ok ((r, iph), w') -> r = SUCCESS.
Proof.
  intros Hm Hr. unfold generate_ip_packet, eth_hdr_generate in Hr.
  rewrite !decide_False in Hr by done. rewrite bind_bind in Hr.
  apply M_bind_Ok in Hr as (? & ? & _ & Hr).
  apply M_bind_Ok in Hr as (? & ? & [-> ->]%ret_Ok & Hr).
  apply M_bind_Ok in Hr as (? & ? & _ & Hr). rewrite decide_False in Hr by done.
  apply M_bind_Ok in Hr as (? & ? & _ & Hr). apply ret_Ok in Hr as [Hr _]. by injection Hr.
Qed.

Lemma io_send_out q m len pkt (w w' : W) u :
  io_send_mbuf m len pkt w = Ok (u, w') ->
  out_view q w' = (w_sent w ++ [pkt], obs snd_vars q w).
Proof.
  intros Hr. unfold io_send_mbuf in Hr. case_decide; [done|].
  do 2 (apply M_bind_Ok in Hr as (? & ? & ?%(keeps (g := out_view q)) & Hr)).
  apply modify_Ok in Hr as ->.
  match goal with |- out_view q (?x <| w_sent := _ |>) = _ =>
    assert (out_view q x = out_view q w) as [= E1 E2] by congruence end.
  unfold out_view. simpl. rewrite E1. by rewrite <- E2.
Qed.

(** Sending a data segment: one packet, numbered by [snd_nxt], which advances by
    its length. *)
Lemma send_data_segment ts m len (w w' : W) ret s :
  w_streams w !! p = Some s -> m <> NULL -> 0 <= ret ->
  send_tcp_packet p ts TCP_FLAG_ACK m len w = Ok (ret, w') ->
  exists pkt, out_view p w' = (w_sent w ++ [pkt], Some (u32 (snd_nxt s + len), snd_una (sndvar s))) /\
    th_seq (pk_tcp pkt) = htonl (snd_nxt s) /\ pk_payload pkt = len /\ pk_mbuf pkt = m /\
    th_ack (pk_tcp pkt) = true /\ th_syn (pk_tcp pkt) = false /\ th_fin (pk_tcp pkt) = false /\
    th_rst (pk_tcp pkt) = false.
Proof.
  intros Hs Hm Hret Hr. unfold send_tcp_packet in Hr.
  change (calculate_option_length TCP_FLAG_ACK) with 0 in Hr.
  change (has_flag TCP_FLAG_ACK TCP_FLAG_SYN) with false in Hr.
  change (has_flag TCP_FLAG_ACK TCP_FLAG_WACK) with false in Hr.
  change (has_flag TCP_FLAG_ACK TCP_FLAG_FIN) with false in Hr.
  change (has_flag TCP_FLAG_ACK TCP_FLAG_ACK) with true in Hr.
  change (has_flag TCP_FLAG_ACK TCP_FLAG_RST) with false in Hr.
  cbn beta zeta iota delta [negb andb orb when] in Hr.
  apply M_bind_Ok in Hr as (s0 & w0 & [Hs0 ->]%stream_Ok & Hr). rewrite Hs in Hs0. injection Hs0 as <-.
  case_decide; [apply ret_Ok in Hr as [-> _]; done|].
  rewrite decide_False in Hr by done. apply M_bind_Ok in Hr as (m0 & w0 & [-> ->]%ret_Ok & Hr).
  rewrite decide_False in Hr by done.
  apply M_bind_Ok in Hr as (u1 & w1 & K1%(keeps (g := O)) & Hr).
  apply M_bind_Ok in Hr as ([r iph] & w2 & Hr2 & Hr). pose proof (keeps (g := O) _ _ _ Hr2) as K2.
  pose proof (generate_ip_success _ _ _ _ _ _ _ Hm Hr2) as ->.
  rewrite decide_False in Hr by (intros []; done).
  do 4 (apply M_bind_Ok in Hr as (? & ? & ?%(keeps (g := O)) & Hr)).
  case_decide; [done|].
  apply M_bind_Ok in Hr as (? & w3 & K3%(keeps (g := O)) & Hr).
  apply M_bind_Ok in Hr as (? & w4 & (s4 & Hs4 & ->)%set_stream_Ok & Hr).
  do 3 (apply M_bind_Ok in Hr as (? & ? & ?%(keeps (g := O)) & Hr)).
  apply M_bind_Ok in Hr as (? & ? & ?%(keeps (g := O)) & Hr).
  apply M_bind_Ok in Hr as (? & ? & Hsend%(io_send_out p) & Hr). apply ret_Ok in Hr as [_ ->].
  assert (O w3 = O w) as Hw3 by congruence.
  assert (snd_vars s4 = snd_vars s) as Hv.
  { unfold out_view, obs in Hw3. rewrite Hs, Hs4 in Hw3. cbn [fmap option_fmap option_map] in Hw3.
    congruence. }
  set (w4 := w3 <| w_streams := _ |>) in *.
  assert (O w4 = (w_sent w, Some (u32 (snd_nxt s + len), snd_una (sndvar s)))) as Hw4.
  { transitivity (w_sent w3, snd_vars <$> <[p := s4 <| snd_nxt := u32 (snd_nxt s4 + len) |>]> (w_streams w3) !! p);
      [done|]. rewrite lookup_insert_eq. injection Hv as E1 E2. injection Hw3 as -> _.
    unfold snd_vars. simpl. by rewrite E1, E2. }
  match type of Hsend with _ = (_ ++ [?k], _) => exists k end.
  split_and!; [rewrite Hsend|done..].
  match goal with |- (w_sent ?x ++ _, _) = _ => assert (O x = O w4) as Hx by congruence end.
  rewrite Hw4 in Hx. injection Hx as -> Hx. by rewrite <- Hx.
Qed.

(** Segments numbered one after the other from [a] to [b], none ending beyond
    the right edge of the window; all are plain acknowledgements. *)
Fixpoint window_run (edge a : Z) (pkts : list packet) (b : Z) : Prop :=
  match pkts with
  | [] => b = a
  | k :: l =>
      th_seq (pk_tcp k) = htonl a /\
      TCP_SEQ_LEQ (u32 (a + pk_payload k)) edge = true /\
      th_ack (pk_tcp k) = true /\ th_syn (pk_tcp k) = false /\ th_fin (pk_tcp k) = false /\
      th_rst (pk_tcp k) = false /\
      window_run edge (u32 (a + pk_payload k)) l b
  end.

Lemma seq_not_gt a b : TCP_SEQ_GT a b = false -> TCP_SEQ_LEQ a b = true.
Proof.
  unfold TCP_SEQ_GT, TCP_SEQ_LEQ. rewrite bool_decide_eq_false, bool_decide_eq_true. lia.
Qed.

Lemma flush_loop_run fuel ts window n (w w' : W) r a una :
  obs snd_vars p w = Some (a, una) ->
  flush_loop fuel p ts window n w = Ok (r, w') ->
  exists pkts b, w_sent w' = w_sent w ++ pkts /\ obs snd_vars p w' = Some (b, una) /\
    r = n + Z.of_nat (length pkts) /\ window_run (u32 (una + window)) a pkts b.
Proof.
  revert n w a. induction fuel as [|fuel IH]; intros n w a Ho Hr; [done|]. cbn [flush_loop] in Hr.
  assert (forall w1 k, O w1 = O w -> k = n -> exists pkts b, w_sent w1 = w_sent w ++ pkts /\
    obs snd_vars p w1 = Some (b, una) /\ k = n + Z.of_nat (length pkts) /\
    window_run (u32 (una + window)) a pkts b) as Hstop.
  { intros w1 k [= E1 E2] ->. exists [], a. rewrite app_nil_r, E1, E2. simpl. split_and!; [done..|lia|done]. }
  apply M_bind_Ok in Hr as (s & w0 & [Hs ->]%stream_Ok & Hr).
  case_match; [apply ret_Ok in Hr as [-> ->]; by apply Hstop|].
  apply M_bind_Ok in Hr as (m & w1 & K1%(keeps (g := O)) & Hr).
  case_decide as Hm; [apply ret_Ok in Hr as [-> ->]; by apply Hstop|].
  apply M_bind_Ok in Hr as (mb & w2 & K2%(keeps (g := O)) & Hr). rewrite K1 in K2.
  case_decide as Hlen.
  { apply M_bind_Ok in Hr as (u & w3 & K3%(keeps (g := O)) & Hr). rewrite K2 in K3.
    injection K3 as <- K3. eapply IH; [|exact Hr]. by rewrite K3. }
  apply M_bind_Ok in Hr as (s2 & w3 & [Hs2 ->]%stream_Ok & Hr).
  assert (snd_vars s = (a, una)) as [= Ha Hu].
  { unfold obs in Ho. rewrite Hs in Ho. exact (inj Some _ _ Ho). }
  assert (snd_vars s2 = (a, una)) as [= Ha2 Hu2].
  { injection K2 as _ K2. unfold obs in K2, Ho. rewrite Hs2, Ho in K2. exact (inj Some _ _ K2). }
  destruct (TCP_SEQ_GT _ _) eqn:Hgt.
  { do 2 (apply M_bind_Ok in Hr as (? & ? & ?%(keeps (g := O)) & Hr)).
    apply ret_Ok in Hr as [-> ->]. apply Hstop; [congruence | done]. }
  apply M_bind_Ok in Hr as (ret & w3 & Hsend & Hr). case_decide as Hret; [done|].
  apply Z.nlt_ge in Hret. destruct (send_data_segment _ _ _ _ _ _ _ Hs2 Hm Hret Hsend)
    as (pkt & Ho3 & Hseq & Hpl & _ & Hack & Hsyn & Hfin & Hrst).
  apply M_bind_Ok in Hr as (u & w4 & K4%(keeps (g := O)) & Hr). rewrite Ho3, Ha2, Hu2 in K4.
  injection K4 as Es4 Eo4. destruct (IH _ _ _ Eo4 Hr) as (pkts & b & Hw & Hb & -> & Hrun).
  injection K2 as K2 _. rewrite Ha, Hu2 in Hgt.
  exists (pkt :: pkts), b. split_and!; [rewrite Hw, Es4, K2; by rewrite <- app_assoc | done | simpl; lia |].
  simpl. rewrite Hpl. split_and!; [congruence | by apply seq_not_gt | done..].
Qed.
End Ops.

(** C8. The sender respects the window.  The data segments a flush hands to the
    driver continue the sequence space without gap or overlap from [snd_nxt],
    which ends at the last of them; none ends beyond the unacknowledged edge
    plus the smaller of the congestion and the peer's window (at least the 1500
    bytes the code always allows); nothing is acknowledged by it. *)
Theorem flush_in_window {HT} `{!Config} (w w' : world HT) p s cur_ts n :
  w_streams w !! p = Some s -> flush_tcp_sending_buffer p cur_ts w = Ok (n, w') ->
  let v := sndvar s in
  let edge := u32 (snd_una v + Z.max (Z.min (cwnd v) (peer_wnd v)) SEND_WINDOW_MIN) in
  exists pkts b, w_sent w' = w_sent w ++ pkts /\ n = Z.of_nat (length pkts) /\
    obs snd_vars p w' = Some (b, snd_una v) /\ window_run edge (snd_nxt s) pkts b.
Proof.
  intros Hs Hr v edge. assert (obs snd_vars p w = Some (snd_nxt s, snd_una v)) as Ho.
  { unfold obs. by rewrite Hs. }
  unfold flush_tcp_sending_buffer in Hr.
  apply M_bind_Ok in Hr as (s0 & w0 & [Hs0 ->]%stream_Ok & Hr). rewrite Hs in Hs0. injection Hs0 as <-.
  case_match; [apply ret_Ok in Hr as [-> ->]; exists [], (snd_nxt s); by rewrite app_nil_r|].
  case_decide; [apply ret_Ok in Hr as [-> ->]; exists [], (snd_nxt s); by rewrite app_nil_r|].
  apply M_bind_Ok in Hr as (? & ? & [-> ->]%get_Ok & Hr).
  destruct (flush_loop_run p _ _ _ _ _ _ _ _ _ Ho Hr) as (pkts & b & Hsent & Hend & -> & Hrun).
  exists pkts, b. by split_and!.
Qed.

#[local] Existing Instance demo_config.

(** Two segments wait; the window takes the first. *)
Lemma flush_in_window_witness :
  exists pkts b, w_sent world5 = w_sent world4 ++ pkts /\ length pkts = 1%nat /\
    obs snd_vars 1000 world5 = Some (b, 7001) /\ window_run 8501 7001 pkts b.
Proof.
  destruct (flush_in_window world4 world5 1000 (default zero_stream (w_streams world4 !! 1000)) 14 1)
    as (pkts & b & Hs & Hn & Ho & Hr).
  - vm_compute. reflexivity.
  - refine (after_ok (flush_tcp_sending_buffer 1000 14 world4) world4 1 _). vm_compute. reflexivity.
  - exists pkts, b. split_and!; [exact Hs | lia | exact Ho | exact Hr].
Defined.

(** * The control queue *)

Section Control.
Context {HT : Type} `{!Config} `{!RteHash HT}.
Notation W := (world HT).
Notation C := (control_queue (HT := HT)).

#[local] Instance cq_heap {A} (m : M mheap A) : Keeps C (heap m).
Proof. intros w a w'. unfold heap. by intros ([b h] & _ & [= <- <-])%res_bind_Ok. Qed.
#[local] Instance cq_stream q : Keeps C (stream q).
Proof. intros w a w'. by intros [_ ->]%stream_Ok. Qed.
#[local] Instance cq_sock i : Keeps C (sock i).
Proof. intros w a w'. unfold sock. destruct (sockets w !! i); simpl; [by intros [= <- <-] | done]. Qed.
#[local] Instance cq_set_stream q g : Keeps C (set_stream q g).
Proof. by intros w a w' (s & _ & ->)%set_stream_Ok. Qed.
#[local] Hint Extern 1 (Keeps control_queue (modify _)) =>
  apply keeps_modify; intros; reflexivity : typeclass_instances.

#[local] Instance cq_destroy p : Keeps C (tcp_stream_destroy p).
Proof.
  unfold tcp_stream_destroy, timeout_list_remove, timewait_list_remove, rto_list_remove, on_sndbuf,
    on_rcvbuf, socket_free, set_sock, set_snd, set_rcv. apply _.
Qed.

Lemma destroy_gone p (w w' : W) u : tcp_stream_destroy p w = Ok (u, w') -> w_streams w' !! p = None.
Proof.
  intros Hr. unfold tcp_stream_destroy in Hr.
  repeat (apply M_bind_Ok in Hr as (? & ? & _ & Hr)). apply modify_Ok in Hr as ->.
  apply lookup_delete_eq.
Qed.

Lemma destroy_control p (w w' : W) u :
  tcp_stream_destroy p w = Ok (u, w') -> control_queue w' = control_queue w.
Proof. apply (keeps (g := C)). Qed.
End Control.

(** C36. Use after free.  Destroying a stream does not take it off the control
    queue: when the stream is the next on it, the next call that sends control
    packets reads the stream after it was freed.  A peer can cause this: a SYN
    followed by a reset before the queue is drained. *)
Theorem destroyed_stream_on_control_queue {HT} `{!Config} `{!RteHash HT} (w w' : world HT) p l cur_ts :
  heap_wf (control_queue w) -> cirq_contents (control_queue w) = p :: l -> p <> NULL ->
  tcp_stream_destroy p w = Ok (tt, w') ->
  write_tcp_control_queue cur_ts w' = Fault NullDeref.
Proof.
  intros Hq Hc Hp Hr. pose proof (destroy_gone p w w' tt Hr) as Hg.
  rewrite <- (destroy_control p w w' tt Hr) in Hq, Hc.
  destruct (fifo_deq_head _ p l Hq Hc) as (q' & Hd & _).
  unfold write_tcp_control_queue. step by reflexivity. cbn [control_loop].
  rewrite bool_decide_true by done. cbn [negb]. step by reflexivity. unfold sstreamq_dequeue.
  step by (apply lift_ok; exact Hd). step by reflexivity. rewrite decide_False by done.
  apply bind_fault. unfold stream.
  by replace (w_streams _ !! p) with (None (A := tcp_stream)) by (symmetry; exact Hg).
Qed.

(** In the example, both by destroying the stream and by the peer's reset. *)
Lemma destroyed_stream_on_control_queue_witness :
  (exists w', tcp_stream_destroy 1000 world1 = Ok (tt, w') /\
     write_tcp_control_queue 12 w' = Fault NullDeref) /\
  write_tcp_control_queue 12 world1r = Fault NullDeref.
Proof.
  split; [|vm_compute; reflexivity].
  set (w' := after (tcp_stream_destroy 1000 world1) world1).
  assert (tcp_stream_destroy 1000 world1 = Ok (tt, w')) as Hr by (vm_compute; reflexivity).
  exists w'. split; [exact Hr|].
  assert (control_queue world1 = Cirq 1 (Heap [1000; 0; 0; 0; 0; 0; 0; 0]) 8 0) as Hq
    by (vm_compute; reflexivity).
  refine (destroyed_stream_on_control_queue world1 w' 1000 [] 12 _ _ _ Hr); [|by rewrite Hq|done].
  rewrite Hq. split; [split; simpl; lia | done].
Defined.

(** * The application's send *)

(** A full send buffer crashes the sender.  When the stream has no room for
    the data, the application's send call passes its core number where the
    buffer's owner is expected: instead of an error it ends in an access
    through a pointer that is none. *)
Theorem send_without_room_faults {HT} `{!Config} (w : world HT) core_id sockid mbuf len k p s mb :
  0 <= sockid < cf_max_concurrency -> sockets w !! Z.to_nat sockid = Some k ->
  sk_stream k = p -> p <> NULL -> w_streams w !! p = Some s -> state s = TCP_ST_ESTABLISHED ->
  snd_wnd (sndvar s) = 0 -> mbuf <> NULL -> mbufs (w_heap w) !! mbuf = Some mb ->
  mbuf_state mb = MBUF_STATE_TALLOC -> 0 < len ->
  _q_tcp_send core_id sockid mbuf len 0 w = Fault WildAccess.
Proof.
  intros Hsk Hk Hp Hpn Hs Hst Hwnd Hm Hmb Htalloc Hlen. unfold _q_tcp_send.
  rewrite !bool_decide_false by lia. cbn [orb].
  step by (unfold sock; rewrite Hk; reflexivity). rewrite Hp, !decide_False by done.
  assert (forall (w : world HT) b, mbufs (w_heap w) !! mbuf = Some b -> heap (load mbuf) w = Ok (b, w)) as Hload.
  { intros w1 b Hb. unfold heap, load. rewrite Hb. simpl. by destruct w1. }
  step by (apply Hload; exact Hmb). rewrite decide_False by (intros Hn; by apply Hn).
  change (has_flag 0 QFLAG_SEND_HIGHPRI) with false. cbn iota.
  step by (unfold heap, store; rewrite Hmb; reflexivity).
  step by (apply stream_run; exact Hs). rewrite Hst, bool_decide_true by done. cbn [orb negb].
  rewrite decide_False by lia. unfold send_from_user.
  step by (apply stream_run; exact Hs).
  step by (apply Hload; apply lookup_insert_eq).
  rewrite Hwnd, decide_True by (apply Z.le_min_l). step by reflexivity.
  rewrite (decide_False (P := 0 < FAILED)) by done. apply bind_fault. unfold heap.
  unfold q_free_mbuf. rewrite decide_False by done.
  step by (apply load_ok; apply lookup_insert_eq). reflexivity.
Qed.

(** The established example stream, with its send window used up. *)
Lemma send_without_room_faults_witness :
  let w := after (set_snd 1000 (fun v => v <| snd_wnd := 0 |>) world4) world4 in
  _q_tcp_send 0 0 16 900 0 (after (heap (store 16 (fun m => m <| mbuf_state := MBUF_STATE_TALLOC |>)) w) w)
  = Fault WildAccess.
Proof.
  cbv zeta. set (w0 := after (set_snd _ _ _) _). set (w := after (heap _ w0) w0).
  set (k := default (demo_socket 0) (sockets w !! 0%nat)).
  set (s := default zero_stream (w_streams w !! 1000)).
  set (mb := default mbuf0 (mbufs (w_heap w) !! 16)).
  apply (send_without_room_faults w 0 0 16 900 k 1000 s mb);
    first [vm_compute; reflexivity | vm_compute; congruence | vm_compute; split; congruence].
Defined.
