(* ===== verification/AckPath.v ===== *)
(** The acknowledgement path: [process_tcp_ack] from the acknowledgement number
    to the release of the buffers. *)
From S2P Require Import Prelude Protocol StaticArp Fifo CircularQueue N21Queue Mbuf RecvBuff SendBuff Stack StreamOps Timer TcpOptions TcpOut TcpIn Frames Demo Lifecycle.
#[local] Open Scope Z_scope.


Section Put.
Context {HT : Type}.
Notation W := (world HT).





End Put.


Section Ack.
Context {HT : Type} `{!Config} `{!RteHash HT}.
Notation W := (world HT).






(** The timer operations that follow keep the buffers and what was acknowledged. *)
Definition ack_done (s : tcp_stream) : tcp_send_buffer * Z * Z :=
  (sndbuf (sndvar s), snd_una (sndvar s), cwnd (sndvar s)).
Definition ack_view (p : ptr) (w : W) : mheap * option (tcp_send_buffer * Z * Z) :=
  (w_heap w, obs ack_done p w).

#[local] Instance av_stream p q : Keeps (ack_view p) (stream q).
Proof. by intros w a w' [_ ->]%stream_Ok. Qed.
Lemma av_set_stream p q g : (forall s, ack_done (g s) = ack_done s) -> Keeps (ack_view p) (set_stream q g).
Proof.
  intros Hg w a w' (s & Hs & ->)%set_stream_Ok. unfold ack_view. f_equal.
  change (ack_done <$> <[q := g s]> (w_streams w) !! p = ack_done <$> w_streams w !! p).
  by rewrite <- !lookup_fmap, (core_insert ack_done _ _ s).
Qed.
#[local] Hint Extern 1 (Keeps (ack_view _) (modify _)) =>
  apply keeps_modify; intros; reflexivity : typeclass_instances.
#[local] Hint Extern 1 (Keeps (ack_view _) (set_stream _ _)) =>
  apply av_set_stream; intros ?; keeps_field : typeclass_instances.
#[local] Instance av_rto_remove p q : Keeps (ack_view p) (rto_list_remove q).
Proof. unfold rto_list_remove, set_snd. apply _. Qed.
#[local] Instance av_rto_add p q ts : Keeps (ack_view p) (rto_list_add q ts).
Proof. unfold rto_list_add. apply _. Qed.



Context `{!RteHashLaws HT}.





End Ack.


(** ** The example connection *)

#[local] Existing Instance demo_config.



