(* ===== verification/PendingEvents.v ===== *)
(** The race between the stack thread that raises an event for a socket
    without an event handle ([add_pending_event] and
    [check_stream_event_validation], [tcp_in.c]) and the application that
    registers the socket ([qepoll_ctl], [qepoll.c], with [get_pending_event],
    [socket.c]), as interleavings of single accesses to the shared fields.

    The shared fields are the socket's handle [qe], the state [pdev_st] of the
    list of pending events, the head and tail of the list and the [next]
    pointers of the events ([event_list_append] and [event_list_pop],
    [qepoll.h]); [delivered] are the calls of [AddTimeEvent].  The accesses
    take effect in program order. *)
From S2P Require Import Prelude Stack.
#[local] Open Scope Z_scope.

Module Pending.

(** The event the stack thread raises, and one that was raised before and is
    still pending when both threads start. *)
Inductive event : Type := Earlier | Raised.
#[export] Instance event_eq_dec : EqDecision event.
Proof. solve_decision. Defined.

(** ** The list of pending events *)

(** [struct event_list], with the [next] pointers of the two events. *)
Record event_list : Type := EventList {
  l_head : option event;
  l_tail : option event;
  next_earlier : option event;
  next_raised : option event;
}.
#[export] Instance event_list_rebuild : Rebuild event_list := fun l =>
  EventList (l_head l) (l_tail l) (next_earlier l) (next_raised l).
#[export] Instance event_list_eq_dec : EqDecision event_list.
Proof. solve_decision. Defined.

Definition next (l : event_list) (e : event) : option event :=
  match e with Earlier => next_earlier l | Raised => next_raised l end.
Definition set_next (l : event_list) (e : event) (n : option event) : event_list :=
  match e with
  | Earlier => l <| next_earlier := n |>
  | Raised => l <| next_raised := n |>
  end.

(** The next access of [event_list_pop], with the thread's local values. *)
Inductive pop_pc : Type :=
  | PHead                                        (* ret = list->head *)
  | PNext (ret : event)                          (* read ret->next *)
  | PSetHead (ret : event) (nx : option event)   (* list->head = ret->next *)
  | PClear (ret : event)                         (* ret->next = NULL *)
  | PTest (ret : event)                          (* if (!list->head) *)
  | PSetTail (ret : event).                      (* list->tail = NULL *)
#[export] Instance pop_pc_eq_dec : EqDecision pop_pc.
Proof. solve_decision. Defined.

(** [inr]: the value returned. *)
Definition pop_step (p : pop_pc) (l : event_list) : (pop_pc + option event) * event_list :=
  match p with
  | PHead => (match l_head l with Some ret => inl (PNext ret) | None => inr None end, l)
  | PNext ret => (inl (PSetHead ret (next l ret)), l)
  | PSetHead ret nx => (inl (PClear ret), l <| l_head := nx |>)
  | PClear ret => (inl (PTest ret), set_next l ret None)
  | PTest ret =>
      (match l_head l with Some _ => inr (Some ret) | None => inl (PSetTail ret) end, l)
  | PSetTail ret => (inr (Some ret), l <| l_tail := None |>)
  end.

(** The next access of [event_list_append]. *)
Inductive append_pc : Type :=
  | ETest                         (* if (!list->tail) *)
  | EHead                         (* list->head = event *)
  | ETail                         (* list->tail = event *)
  | ENext                         (* event->next = NULL *)
  | FTail                         (* read list->tail *)
  | FLink (t : option event)      (* list->tail->next = event *)
  | FNext                         (* event->next = NULL *)
  | FSetTail.                     (* list->tail = event *)
#[export] Instance append_pc_eq_dec : EqDecision append_pc.
Proof. solve_decision. Defined.

(** [inr true]: done; [inr false]: the null pointer is dereferenced. *)
Definition append_step (e : event) (p : append_pc) (l : event_list)
    : (append_pc + bool) * event_list :=
  match p with
  | ETest => (inl (match l_tail l with None => EHead | Some _ => FTail end), l)
  | EHead => (inl ETail, l <| l_head := Some e |>)
  | ETail => (inl ENext, l <| l_tail := Some e |>)
  | ENext => (inr true, set_next l e None)
  | FTail => (inl (FLink (l_tail l)), l)
  | FLink (Some t) => (inl FNext, set_next l t (Some e))
  | FLink None => (inr false, l)
  | FNext => (inl FSetTail, set_next l e None)
  | FSetTail => (inr true, l <| l_tail := Some e |>)
  end.

(** ** The two threads *)

(** The next access of the stack thread that raises the event. *)
Inductive stack_pc : Type :=
  | SCheckQe                  (* check_stream_event_validation: read socket->qe *)
  | SWriting                  (* pdev_st = pdev_st_WRITING *)
  | SAppend (p : append_pc)   (* event_list_append *)
  | SWriten                   (* pdev_st = pdev_st_WRITEN *)
  | SReadQe                   (* if (cur_stream->socket->qe) *)
  | SFirst                    (* first test of pdev_st *)
  | SSecond                   (* second test of pdev_st *)
  | SPop (p : pop_pc)         (* event_list_pop *)
  | SDeliver                  (* AddTimeEvent *)
  | SDone
  | SCrash.                   (* it dereferenced the null pointer *)
#[export] Instance stack_pc_eq_dec : EqDecision stack_pc.
Proof. solve_decision. Defined.

(** The next access of the application thread in [qepoll_ctl]. *)
Inductive app_pc : Type :=
  | ABind                             (* bind_socket_with_qe *)
  | ATest                             (* pdev_st == pdev_st_WRITEN *)
  | AReading                          (* pdev_st = pdev_st_READING *)
  | APop (p : pop_pc)                 (* event_list_pop *)
  | ARead (ret : option event)        (* pdev_st = pdev_st_READ *)
  | ADeliver (ret : option event)     (* AddTimeEvent, if there was an event *)
  | ADone.
#[export] Instance app_pc_eq_dec : EqDecision app_pc.
Proof. solve_decision. Defined.

Record state : Type := State {
  s_pc : stack_pc;
  a_pc : app_pc;
  qe : bool;
  pdev : event_list_state;
  pend : event_list;
  delivered : list event;
}.
#[export] Instance state_rebuild : Rebuild state := fun s =>
  State (s_pc s) (a_pc s) (qe s) (pdev s) (pend s) (delivered s).
#[export] Instance state_eq_dec : EqDecision state.
Proof. solve_decision. Defined.

Definition is_writen (s : event_list_state) : bool :=
  match s with pdev_st_WRITEN => true | _ => false end.

(** One access of the stack thread. *)
Definition stack_next (s : state) : option state :=
  match s_pc s with
  | SCheckQe => Some (s <| s_pc := if qe s then SDeliver else SWriting |>)
  | SWriting => Some (s <| pdev := pdev_st_WRITING |> <| s_pc := SAppend ETest |>)
  | SAppend p =>
      let '(r, l) := append_step Raised p (pend s) in
      Some (s <| pend := l |>
              <| s_pc := match r with
                         | inl p' => SAppend p'
                         | inr true => SWriten
                         | inr false => SCrash
                         end |>)
  | SWriten => Some (s <| pdev := pdev_st_WRITEN |> <| s_pc := SReadQe |>)
  | SReadQe => Some (s <| s_pc := if qe s then SFirst else SDone |>)
  | SFirst => Some (s <| s_pc := if is_writen (pdev s) then SSecond else SDone |>)
  | SSecond => Some (s <| s_pc := if is_writen (pdev s) then SPop PHead else SDone |>)
  | SPop p =>
      let '(r, l) := pop_step p (pend s) in
      Some (s <| pend := l |>
              <| s_pc := match r with inl p' => SPop p' | inr _ => SDeliver end |>)
  | SDeliver => Some (s <| delivered := delivered s ++ [Raised] |> <| s_pc := SDone |>)
  | SDone | SCrash => None
  end.

(** One access of the application thread. *)
Definition app_next (s : state) : option state :=
  match a_pc s with
  | ABind => Some (s <| qe := true |> <| a_pc := ATest |>)
  | ATest => Some (s <| a_pc := if is_writen (pdev s) then AReading else ADone |>)
  | AReading => Some (s <| pdev := pdev_st_READING |> <| a_pc := APop PHead |>)
  | APop p =>
      let '(r, l) := pop_step p (pend s) in
      Some (s <| pend := l |>
              <| a_pc := match r with inl p' => APop p' | inr ret => ARead ret end |>)
  | ARead ret => Some (s <| pdev := pdev_st_READ |> <| a_pc := ADeliver ret |>)
  | ADeliver ret =>
      Some (s <| delivered := delivered s ++ option_list ret |> <| a_pc := ADone |>)
  | ADone => None
  end.

Inductive step (s : state) : state -> Prop :=
  | step_stack s' : stack_next s = Some s' -> step s s'
  | step_app s' : app_next s = Some s' -> step s s'.

(** The stream has no pending event, or one from an earlier call. *)
Definition start (earlier : bool) : state :=
  let e := if earlier then Some Earlier else None in
  State SCheckQe ABind false (if earlier then pdev_st_WRITEN else pdev_st_EMPTY)
    (EventList e e None None) [].
Definition finished (s : state) : Prop := s_pc s = SDone /\ a_pc s = ADone.
#[export] Instance finished_dec s : Decision (finished s).
Proof. unfold finished. apply _. Defined.

(** ** All interleavings *)

Definition succs (s : state) : list state :=
  option_list (stack_next s) ++ option_list (app_next s).

Lemma step_succs s s' : step s s' <-> s' ∈ succs s.
Proof.
  unfold succs. rewrite elem_of_app. split.
  - intros [s1 H|s1 H]; rewrite H; [left|right]; by apply list_elem_of_singleton.
  - destruct (stack_next s) eqn:E1, (app_next s) eqn:E2; simpl;
      rewrite ?list_elem_of_singleton; intros [H|H];
      try (by apply not_elem_of_nil in H); subst; by constructor.
Qed.

(** The states found from [todo] that are not in [seen], breadth first. *)
Fixpoint explore (fuel : nat) (seen todo : list state) : list state :=
  match fuel with
  | O => seen
  | S fuel' =>
      let new := foldr (fun s acc => if decide (s ∈ acc \/ s ∈ seen) then acc else s :: acc)
                   [] todo in
      match new with [] => seen | _ => explore fuel' (new ++ seen) (new ≫= succs) end
  end.

(** A set of states that no step leaves. *)
Definition closed (R : list state) : bool :=
  forallb (fun s => forallb (fun s' => bool_decide (s' ∈ R)) (succs s)) R.

Lemma closed_reach R s s' : closed R = true -> s ∈ R -> rtc step s s' -> s' ∈ R.
Proof.
  unfold closed. rewrite forallb_forall. intros Hc Hs Hr. revert Hs.
  induction Hr as [|s s1 s' Hstep _ IH]; [done|]. intros Hs%list_elem_of_In%Hc.
  rewrite forallb_forall in Hs. apply IH.
  apply (bool_decide_eq_true_1 (s1 ∈ R)), Hs, list_elem_of_In, step_succs, Hstep.
Qed.

(** A fact of all states reachable from [s], by their enumeration. *)
Lemma reach_check (fuel : nat) (s : state) (P : state -> Prop) `{!forall s, Decision (P s)} :
  (let R := explore fuel [] [s] in
   bool_decide (s ∈ R) && closed R && forallb (fun s => bool_decide (P s)) R) = true ->
  forall s', rtc step s s' -> P s'.
Proof.
  cbn zeta. rewrite !andb_true_iff, forallb_forall. intros [[Hs Hc] HP] s' Hr.
  apply (bool_decide_eq_true_1 (P s')), HP, list_elem_of_In.
  eapply closed_reach; [done| |done]. by eapply bool_decide_eq_true_1.
Qed.

(** What is left to do, an upper bound of the remaining accesses. *)
Definition pop_left (p : pop_pc) : nat :=
  match p with PHead => 6 | PNext _ => 5 | PSetHead _ _ => 4 | PClear _ => 3 | PTest _ => 2
  | PSetTail _ => 1 end.
Definition append_left (p : append_pc) : nat :=
  match p with ETest => 5 | EHead => 3 | ETail => 2 | ENext => 1 | FTail => 4 | FLink _ => 3
  | FNext => 2 | FSetTail => 1 end.
Definition stack_left (c : stack_pc) : nat :=
  match c with SCheckQe => 18 | SWriting => 17 | SAppend p => 11 + append_left p | SWriten => 11
  | SReadQe => 10 | SFirst => 9 | SSecond => 8 | SPop p => 1 + pop_left p | SDeliver => 1
  | SDone => 0 | SCrash => 0 end.
Definition app_left (c : app_pc) : nat :=
  match c with ABind => 11 | ATest => 10 | AReading => 9 | APop p => 2 + pop_left p | ARead _ => 2
  | ADeliver _ => 1 | ADone => 0 end.
Definition left_over (s : state) : nat := (stack_left (s_pc s) + app_left (a_pc s))%nat.

Lemma step_left s s' : step s s' -> (left_over s' < left_over s)%nat.
Proof.
  unfold left_over. intros [s1 H|s1 H]; [unfold stack_next in H|unfold app_next in H];
    [destruct (s_pc s) as [| |[]| | | | |[]| | |] eqn:E|destruct (a_pc s) as [| | |[]| | |] eqn:E];
    try done; simpl in H; repeat (case_match; simpl in H); simplify_eq/=; rewrite ?E; simpl; lia.
Qed.

Lemma steps_left n s s' : nsteps step n s s' -> (n + left_over s' <= left_over s)%nat.
Proof. induction 1 as [|n s s1 s' Hs _ IH]; [lia|]. pose proof (step_left _ _ Hs). lia. Qed.

(** An interleaving, by the thread of each access. *)
Fixpoint schedule (ts : list bool) (s : state) : option state :=
  match ts with
  | [] => Some s
  | t :: ts' => (if t then stack_next s else app_next s) ≫= schedule ts'
  end.

Lemma schedule_rtc ts s s' : schedule ts s = Some s' -> rtc step s s'.
Proof.
  revert s. induction ts as [|t ts IH]; intros s H; simpl in H; [by injection H as ->|].
  apply bind_Some in H as (s1 & H1 & H2). eapply rtc_l; [|by apply IH].
  destruct t; [by apply step_stack | by apply step_app].
Qed.

(** The end of a schedule. *)
Ltac run_schedule ts :=
  lazymatch goal with
  | |- exists s, rtc step ?s0 s /\ _ =>
      let E := fresh in
      destruct (schedule ts s0) as [s|] eqn:E; [|by vm_compute in E];
      exists s; split; [by eapply schedule_rtc|]; vm_compute in E; injection E as <-
  end.

(** ** No event was pending *)

(** The stack thread is not stopped by a null pointer, and at the end the list
    is empty and the event was delivered. *)
Definition raised_delivered (s : state) : Prop :=
  s_pc s <> SCrash /\ (finished s -> l_head (pend s) = None /\
    (delivered s = [Raised] \/ delivered s = [Raised; Raised])).
#[local] Instance raised_delivered_dec s : Decision (raised_delivered s).
Proof. unfold raised_delivered. apply _. Defined.

Lemma reach_delivered s : rtc step (start false) s -> raised_delivered s.
Proof. revert s. refine (reach_check 40 _ raised_delivered _). by vm_compute. Qed.

Lemma not_finished_steps s : s_pc s <> SCrash -> ~ finished s -> exists s', step s s'.
Proof.
  intros Hc Hf. destruct (app_next s) as [s'|] eqn:Ea; [by exists s'; apply step_app|].
  destruct (stack_next s) as [s'|] eqn:Es; [by exists s'; apply step_stack|]. destruct Hf.
  unfold stack_next in Es. unfold app_next in Ea. split.
  - clear Ea. destruct (s_pc s); try done; by case_match.
  - clear Es. destruct (a_pc s); try done; by case_match.
Qed.

(** C19. While no event of the stream is pending, an event raised while the
    application registers the socket is not lost, however the single accesses
    of the two threads interleave: neither thread is ever stuck, both are done
    after at most 29 accesses, and then the event was delivered and the list
    is empty.  It may be delivered twice: the stack thread takes the event
    back while the application has already decided to read it.  With one event
    pending from before this is no longer so: the application takes only one
    event from the list, so the new event can stay undelivered when both
    threads are done, and the stack thread can dereference the tail of a list
    that the application emptied after it was tested. *)
Theorem pending_event_not_lost :
  (forall s n, nsteps step n (start false) s -> (n <= 29)%nat /\
     (finished s -> l_head (pend s) = None /\
        (delivered s = [Raised] \/ delivered s = [Raised; Raised])) /\
     (~ finished s -> exists s', step s s')) /\
  (exists s, rtc step (start false) s /\ finished s /\ delivered s = [Raised; Raised]) /\
  (exists s, rtc step (start true) s /\ finished s /\ delivered s = [Earlier] /\
     l_head (pend s) = Some Raised) /\
  (exists s, rtc step (start true) s /\ s_pc s = SCrash).
Proof.
  split_and!.
  - intros s n Hn. pose proof (steps_left _ _ _ Hn) as Hl.
    destruct (reach_delivered s) as [Hc Hd]; [by eapply rtc_nsteps_2|].
    split_and!; [change (left_over (start false)) with 29%nat in Hl; lia | exact Hd | by apply not_finished_steps].
  - by run_schedule (replicate 7 true ++ [false] ++ replicate 3 true ++ replicate 10 false ++
      replicate 2 true).
  - by run_schedule (replicate 9 true ++ replicate 10 false).
  - by run_schedule ([true; false; false; true; true] ++ replicate 7 false ++ [true; true]).
Qed.

Lemma pending_event_not_lost_witness :
  exists s, rtc step (start false) s /\ finished s /\
    (delivered s = [Raised] \/ delivered s = [Raised; Raised]).
Proof.
  destruct (schedule (replicate 8 true ++ replicate 11 false) (start false)) as [s|] eqn:E;
    [|by vm_compute in E].
  pose proof (schedule_rtc _ _ _ E) as Hr. vm_compute in E. injection E as <-.
  destruct (rtc_nsteps_1 _ _ Hr) as [n Hn]. eexists. split; [exact Hr|]. split; [done|].
  apply (proj1 pending_event_not_lost _ n Hn). done.
Defined.

End Pending.
